(* ===== verification/_CoqProject ===== *)
-Q . S2P
Prelude.v
SqlAst.v
Types.v
Schema.v
Tables.v
Monads.v
Legacy.v
Driver.v
Urllib.v
Web.v
WebRoundtrip.v
WebState.v
Layout.v
LegacyMonads.v
LegacyTranslator.v
LegacyScope.v
