(* ===== verification/Prelude.v ===== *)
(** * A verification library for the Pony query translator

    This development models, in Rocq, the part of the Pony ORM that
    compiles a generator-style comprehension into an SQL abstract syntax
    tree: [src/pony/orm/sqltranslation.py], together with the older
    translator [src/pony/sqltranslator.py] that it replaced and the toy
    schema [src/old/models/model1.py] used as a concrete input; and the
    URL dispatcher of the Pony web layer, [src/pony/web.py], which maps
    URL patterns to Python functions and back; and the page-layout
    normaliser [src/pony/layout/__init__.py], which rewrites an lxml
    tree of a page into the nested layout its templates expect.

    ** The program and how its parts interact

    The translator receives a comprehension AST and a type environment.
    For each qualifier [for x in S] it declares a *table reference*
    (class [TableRef] for a root qualifier, [JoinedTableRef] for an
    attribute traversal) inside a *subquery* scope (class [Subquery]).
    Expressions are lifted bottom-up into *monads* (the translator's
    typed intermediate representation); each monad produces SQL through
    [getsql], which may lazily emit joins by calling [make_join] on the
    table references it mentions.  Filter conditions go to WHERE or to
    HAVING according to the [aggregated] flag that [SQLTranslator.call]
    propagates; [construct_sql_ast] assembles the final SELECT.  The SQL
    AST is a nested Python list whose head is a tag string; [sqland],
    [sqlor] and [join_tables] are its smart constructors.

    ** Files, modules and what they model

    - [Prelude] (this file): the Python exceptions the translator raises
      ([exc], with [Unsupported] marking the constructs the model leaves
      out and [OutOfFuel] for exhausted fuel), a result monad ([result])
      for fallible code and a state monad over it ([stm]) for code that
      mutates the translator's objects, both as instances of stdpp's
      [MRet]/[MBind] so that [x ← c; k] reads like the Python statement
      sequence; [stm_rel], the relation every successful run of a
      stateful computation keeps, with its combinators; the hint
      databases [pony] and [pony_rw] and the tactics [invc], [simpl_res],
      [destr_if], and [run], which takes a successful run of a
      stateful computation apart into its steps.
    - [SqlAst]: the SQL AST as Python values ([sx]: strings, integers,
      [None], booleans and lists), [sqland], [sqlor], [join_tables]
      (sqltranslation.py lines 32-52), and a three-valued (SQL [NULL])
      meaning of conditions, [eval_cond], over an arbitrary meaning of
      the atomic predicates.  Theorems: [sqland]/[sqlor] mean the
      conjunction/disjunction of their items, never leave an AND
      directly under an AND, and [join_tables] fails exactly on column
      lists of different lengths and otherwise means the column
      equalities; De Morgan for the two connectives.
    - [Types]: the normalised types ([ptype]), [type2str],
      [check_comparable] (lines 17-23), and the comparability and
      coercion rules of [pony.orm.ormtypes], which is not part of the
      sources: those are modelled from the specification (section 4.2)
      and marked so in the manifest.
    - [Schema]: entities and attributes as the translator reads them
      (the ORM core is not part of the sources: modelled from the
      specification), and the schema of [src/old/models/model1.py]
      (Group, Subject, Student, Mark) as the concrete input of the
      examples.
    - [Tables]: the [Subquery] scope and the two table-reference classes
      as a store of objects with identities (a [gmap] of subqueries and
      one of table references), so that the aliasing of the Python
      objects is kept: a joined table reference points to its parent by
      identity, and [make_join] on the child updates the parent in the
      shared store.  Operations: [Subquery.__init__], [get_tableref],
      [add_tableref], [get_short_alias], [TableRef.__init__],
      [JoinedTableRef.__init__], [TableRef.make_join],
      [JoinedTableRef.make_join].  Theorems: termination of [make_join]
      with enough fuel, idempotence, the PK-only shortcut that adds no
      FROM entry, the lifecycle of the specification (Unjoined ->
      Joined, Unjoined -> Optimized -> Joined) as a step relation that
      [make_join] refines, growth of the FROM lists, the store
      invariant, freshness of generated aliases.
    - [Monads]: the monad algebra (lines 685-1356) as one inductive type
      [monad] with a constructor per monad class, [mtype] for
      [monad.type], [getsql] for every class that has it, the boolean
      monads ([CmpMonad] with its operator normalisation,
      [BoolExprMonad], [AndMonad]/[OrMonad] with their flattening,
      [NotMonad]), [nonzero] and [negate] with the overrides of every
      class, [ListMonad.contains], every operation of [StringMixin]
      (concatenation, [upper]/[lower], [len], [in], [startswith],
      [endswith], [strip], indexing and slicing), the arithmetic of
      [NumericMixin], the date properties, [Monad.getattr],
      [MethodMonad.__call__], [ExprMonad.new], [Monad.count] and
      [Monad.aggregate] (the dialect switches as a [tconfig] record).
      Theorems: negating a comparison means the complement of the
      comparison in SQL's three-valued logic and is an involution;
      negation by the table [sql_negation] likewise; negating any other
      condition raises [TypeError] (a defect of the code); string slices
      and indices with constant bounds mean Python's slicing under
      SQLite's [SUBSTR] ([sqlite_substr]), except reversed slices (a
      defect); [not in] over a list means the complement of [in];
      arithmetic and aggregates have the types the specification gives.
    - [Legacy]: the [Query] object of sqltranslator.py: slicing
      ([__getitem__]), [limit], and the [ORDER_BY]/[LIMIT] sections of
      [__iter__]; the legacy [sqland], [sqlor], [join_tables],
      [are_comparable_types] and [get_short_alias].  Theorems: slicing
      with non-negative bounds refines Python list slicing of the
      query's rows; three defects of the slicing code (open slices
      rejected, negative stop, negative index); the current SQL helpers
      and comparability rules agree with the legacy ones.
    - [Driver]: the translator itself, [SQLTranslator] (lines 60-530):
      the Python AST of a query ([pexpr]), monad objects with the
      [aggregated]/[nogroup] attributes [call] attaches to them ([fm]),
      the translator's fields ([translator]) beside the store
      ([tstate]), the monad factories ([ConstMonad.new],
      [ParamMonad.new], [AttrMonad.new] with [ObjectAttrMonad.__init__],
      [ObjectMixin.getattr]), [dispatch] of external values, [call],
      every [pre*]/[post*] handler of the walk ([translate]), the
      qualifier pass of [__init__] (table references, attribute chains,
      the database check, the WHERE/HAVING split of the [if] clauses),
      the selector pass ([DISTINCT], grouping, the first FROM item) and
      [construct_sql_ast].  Theorems: the walk restores [inside_not];
      [not not] of a comparison is the comparison; an [if] clause goes
      to WHERE or HAVING by its [aggregated] attribute; and three defects
      of the code: a conjunction with a non-boolean operand raises
      [AttributeError], [not in] on a string means [in], [COUNT] over a
      multi-column tuple raises [AssertionError].  An example shows a
      query that never reads its loop variable raising [IndexError].
    - [Urllib]: the Python library functions web.py calls, modelled from
      the Python documentation because they are not among the sources:
      [str.split], [os.path.splitext], [urllib.quote], [quote_plus] and
      [unquote], [cgi.parse_qsl] with its two flags, [dict(pairs)].
      Theorems: [unquote] inverts [quote] when ['%'] is not safe, the
      query-string encoding is parsed back, [splitext] of a built path.
    - [Web]: the dispatcher of web.py.  The decorator [@http] builds an
      [HttpInfo] ([http_info_new]: [re_component], [parse_path],
      [parse_query], [parse_component], [adjust], [check], [register]);
      the registry [http_registry] is a trie ([registry]) keyed by the
      literal components ([None] for a parameter) whose nodes hold the
      lists of infos; the state [web] is the registry, the [http] list
      of every decorated function and a counter standing for object
      identity (the [is] of [list.remove]).  [url]/[build_url] write a
      URL from argument values, [get_http_handlers] walks the trie
      back and rebinds the arguments, [invoke] picks the first handler,
      [http_remove] (by url and by function) and [http_clear] take
      infos out.  Theorems: registration keeps the trie well formed;
      the walk reaches exactly the nodes whose keys match; and two
      defects: [http_remove(func)] empties [func.http] inside its loop,
      so older registrations stay in the registry; the final check of
      [build_url] ([check_used]) raises [IndexError], not [PathError],
      when an extra value of [*args] is left unused.
    - [WebRoundtrip]: the round trip [build_url] then
      [get_http_handlers]: the URL built for a registered info is
      dispatched back to it with the argument values it was built from
      (under the conditions the theorem states: values non-empty and
      without a dot, distinct query names).  Two examples of [Web]
      show where the conditions fail and the round trip loses the value;
      another shows that the decorator accepts only patterns that bind
      every required argument once.
    - [WebState]: the four state-changing operations as a step relation
      [web_step] from [initial_web]; the invariant of every reachable
      state, by induction on the steps; [http_clear()] completes from
      every state whose registry agrees with the [http] lists
      ([http_consistent]), and raises [ValueError] after
      [http_remove(func)] broke that agreement; where the decorator
      raises; [url] raising [IndexError] for an unused extra positional
      value (an example of the [check_used] theorem of [Web]); and, for
      every state where [http_remove(func)] removed one of two or more
      infos of a function, [http_clear()] raising [ValueError] on the
      info it left in the registry.
    - [Layout]: [normalize] of [pony.layout] on an inductive lxml tree
      ([elem]: tag, attributes, text, children, tail), with its
      unnesting loops ([unnest_body], [unnest_p], [unnest_layout],
      [unnest_content], [unnest_element], all built on [_unnest] as
      [unnest]), the wrapping loops of [normalize], [normalize_content]
      and [normalize_column] as one [wrap_children], [correct_width_list],
      [normalize_width], [move_content] and [transform]'s choice of a
      module.  A rewrite that lxml does in place returns the new list of
      children of the parent it changes.  Its theorems: the loops
      terminate within their fuel, the unnesting moves nodes without
      creating or losing any, [normalize] keeps the visible text of the
      body on a page where every [layout] element with a text has a
      child, the body it lays out has the YUI shape (layout elements,
      contents of columns, columns of block-level elements), and
      [correct_width_list] picks the first YUI row that agrees with every
      width given ([widths_agree]); and a defect: [unnest_layout] puts
      the text of a childless [layout] element in place of its tail, so
      the visible text loses that tail.
    - [LegacyMonads]: the monad classes of the legacy translator
      (sqltranslator.py lines 438-946) as one inductive type [lmonad]
      with a constructor per class ([LObjectIter], [LAttr], [LParam],
      [LExpr], [LConst], [LList], [LMethod], [LBoolExpr], [LCmp],
      [LAnd], [LOr], [LNot], [LFunc]), [ltype] for [monad.type], the
      fields of [SQLTranslator] the monads change as a record [ltr]
      ([aliases], [from_], [conditions], [extractors],
      [alias_counters], ...), and every method as a function or a
      computation of [stm ltr]: [getsql] ([lgetsql], which records a
      parameter's extractor), [ObjectAttrMonad._make_join]
      ([make_join_l]: a short alias, a FROM entry and the join
      conditions), [AttrMonad.new], [ObjectMixin.getattr], [CmpMonad],
      [negate], [ListMonad.contains], the numeric and string operations,
      the string methods and the special functions [len], [abs], [sum],
      [min], [max].  Slicing or indexing a string constant with constant
      bounds raises [AssertionError], as [StringConstMonad(...)] does
      through [ConstMonad.__new__].  Theorems: constant slices agree with the current
      translator; a slice whose stop is not a constant is one character
      short (a defect); comparisons with [None] become [IS_NULL] tests.
    - [LegacyTranslator]: [SQLTranslator] itself: [postName], the walk
      [ltranslate] over the query's Python AST (every [post*] handler,
      and [preCallFunc], which reads [node.args[0]]), the qualifier
      loop of [__init__] ([declare_qual_l]: an entity, or one attribute
      of an earlier loop variable joined directly or through its link
      table; the [if] clauses appended to [conditions]) and the SELECT
      it builds ([legacy_translator_init]).  Theorem: no query that
      [__init__] translates has a call without arguments in its [if]
      clauses or its selected expression ([has_nullary_call]), because
      [preCallFunc] reads [node.args[0]] first; an example shows
      [s.last_name.upper()] raising [IndexError].
    - [LegacyScope]: the aliases the legacy SQL names.  [col_aliases]
      collects the alias of every [COLUMN] node, [lm_aliases] those a
      monad carries; the invariant [scoped] says every value of
      [aliases] is declared in FROM, every alias of a condition is a key
      of [aliases] or declared, and every loop variable is a key.  Every
      operation has a specification: the same-scope ones ([getsql], the
      comparisons, the string and numeric operations, the calls) change
      none of these fields and map good monads (whose aliases are keys)
      to good monads; [getattr] and [_make_join] extend the scope
      ([ext]); the walk, each [if] clause and each qualifier keep the
      invariant (a qualifier's joins name the new loop variable before
      it is declared: [scoped_in] allows the aliases about to be
      declared).  The theorem [legacy_where_declared]: when no alias was
      shortened, every alias of the SELECT and WHERE clauses is declared
      in FROM.  The theorem [attr_new_long_alias_undeclared]: when the
      alias [parent-attr] of an [ObjectAttrMonad] is longer than 30
      characters, [_make_join] declares a shorter alias in FROM, so the
      alias the monad hands to its attributes and further joins is not
      declared (shown on [s.group] of [model1] under a loop variable of
      28 characters).

    ** Fuel and bounds

    [make_join] recurses along the chain of parent table references;
    the store's invariant says a parent is allocated before its child
    (a smaller identity), so fuel [S i] for table reference [i] is
    enough: the theorem [Tables.make_join_enough_fuel] proves it, and
    [Monads.getsql] passes one fuel bound to every join it makes.  The
    alias counters and the expression counter are unbounded Python
    integers, modelled as [nat]: the generated alias [name-i] keeps to
    the 30-character limit only while [i] has two digits, which the
    theorems [Tables.fresh_alias_length_bound] and
    [Tables.fresh_alias_too_long] make precise.  Slice bounds and row
    windows are Python integers, modelled as [Z].  [get_tableref] walks
    the parent scopes with fuel [S j] for scope [j], enough for the same
    reason as for [make_join].  The walk of [Driver.translate] recurses
    on the structure of the AST and needs no fuel; the examples use the
    [model1] schema with fuel 10, more than the depth of any table
    reference they create.  The loop of [http_remove(func)] runs over a
    list that its body empties; [Web.remove_func_loop] takes the length
    of the list at the start as fuel, which bounds the iterations of the
    Python [for] over a list that only shrinks.  The [while i < len(e)]
    loops of [pony.layout] re-read a length that [_unnest] makes grow;
    [Layout.while_index] takes as fuel one more than the number of nodes
    below the element ([forest_size]), and
    [Layout.unnest_loops_enough_fuel] shows that the nodes after the
    index decrease at every turn, so this fuel is enough.  The legacy
    walk [LegacyTranslator.ltranslate] and the qualifier loop recurse on
    the structure of the AST and of the list of qualifiers and need no
    fuel; the examples of [LegacyScope] run on the [model1] schema.

    ** Not modelled

    The generic dispatch of [ASTTranslator] (not among the sources; the
    walk follows the specification: children first, then the [post*]
    handler through [call]), the metaclass [MonadMeta] that lets a
    translator subclass override monad methods, error-message rendering
    ([ast2src], [reraise_improved_typeerror], the [{EXPR}]
    substitution), the row layout (closures over the database
    provider's converters), [can_be_optimized], the set, query-set and
    function monads (lines 1357-2038: [AttrSetMonad], [QuerySetMonad],
    the special functions such as [count], [sum] and [exists], and the
    subqueries they build), [ObjectParamMonad], generator and lambda
    arguments of calls; a walk that reaches one of them stops with
    [Unsupported].  Of the legacy translator, not modelled: nested
    generator expressions ([preGenExpr]) and the set monads they and
    collection attributes create ([QuerySetMonad], [AttrSetMonad]),
    [ObjectParamMonad], keyword and star arguments of calls; a walk
    that reaches one of them stops with [Unsupported] as well.  Also
    not modelled: the database round trip of
    [Query.__iter__], and, of [pony.layout], the delegated
    [module.transform(html)] (the layout modules are not among the
    sources) and tree nodes that are not elements (comments, processing
    instructions).
    Of web.py, not modelled: [getargspec] and the [dummy_func] that
    binds the arguments of [url()] ([build_url] receives the bound
    values as strings), unicode conversions, the [params] headers,
    [link], the registry lock (the model is sequential), and the request,
    response and WSGI server classes (I/O and threads).  The manifest
    lists every component with its status. *)

From stdpp Require Export base gmap strings list pretty.
From Stdlib Require Export Ascii.

(** Python exceptions raised by the translator.  Messages are kept as
    strings; [IncomparableTypesError] carries the two type names
    rendered by [type2str]. *)
Inductive exc :=
  | TranslationError (msg : string)
  | IncomparableTypesError (t1 t2 : string)
  | TypeError (msg : string)
  | AttributeError (msg : string)
  | NotImplementedError (msg : string)
  | AssertionError
  | IndexError
  | KeyError (key : string)
  | NameError (name : string)
  | OptimizationFailed
  | ValueError (msg : string)
  (** [web.PathError], raised by [build_url] when no path fits. *)
  | PathError (msg : string)
  (** [web.Http404], raised by [invoke] when no handler matches. *)
  | Http404 (msg : string)
  (** [pony.layout.LayoutError], raised by [transform] for an unknown
      layout type. *)
  | LayoutError (msg : string)
  (** Not a Python exception: a construct the model leaves out (the set,
      query-set and function monads, [ObjectParamMonad], generator and
      lambda arguments).  The translator raises nothing there; no theorem
      is about a run that reaches it. *)
  | Unsupported (what : string)
  (** Not a Python exception: the model's fuel ran out.  The totality
      theorems show it never happens with the fuel the model uses. *)
  | OutOfFuel.

(** A fallible computation: [Ok] or a raised exception. *)
Inductive result (A : Type) := Ok (a : A) | Err (e : exc).
Arguments Ok {A} _.
Arguments Err {A} _.

#[export] Instance result_ret : MRet result := λ A a, Ok a.
#[export] Instance result_bind : MBind result :=
  λ A B f r, match r with Ok a => f a | Err e => Err e end.
#[export] Instance result_fmap : FMap result :=
  λ A B f r, match r with Ok a => Ok (f a) | Err e => Err e end.

(** A computation that reads and writes shared mutable objects [S]
    and may raise. *)
Definition stm (S A : Type) := S → result (A * S).

#[export] Instance stm_ret S : MRet (stm S) := λ A a s, Ok (a, s).
#[export] Instance stm_bind S : MBind (stm S) :=
  λ A B f c s, match c s with Ok (a, s') => f a s' | Err e => Err e end.

Definition sget {S} : stm S S := λ s, Ok (s, s).
Definition sput {S} (s : S) : stm S unit := λ _, Ok (tt, s).
Definition smodify {S} (f : S → S) : stm S unit := λ s, Ok (tt, f s).
Definition sthrow {S A} (e : exc) : stm S A := λ _, Err e.
Definition slift {S A} (r : result A) : stm S A :=
  λ s, match r with Ok a => Ok (a, s) | Err e => Err e end.

(** Python's [assert c]. *)
Definition assert_ (c : bool) : result unit :=
  if c then Ok tt else Err AssertionError.

(** Python's [throw(E, msg)]. *)
Definition throw {A} (e : exc) : result A := Err e.

(** Character classes shared by the translator and the web dispatcher.
    [pony.utils.is_ident]: the whole string matches [[A-Za-z_]\w*]
    (not among the sources; modelled from its definition). *)
Definition is_ident_start (c : ascii) : bool :=
  let n := nat_of_ascii c in
  ((65 <=? n) && (n <=? 90)) || ((97 <=? n) && (n <=? 122)) || (n =? 95).
Definition is_ident_char (c : ascii) : bool :=
  let n := nat_of_ascii c in is_ident_start c || ((48 <=? n) && (n <=? 57)).

Definition is_ident (s : string) : bool :=
  match s with
  | EmptyString => false
  | String c rest => is_ident_start c && forallb is_ident_char (String.list_ascii_of_string rest)
  end.

(** A loop that threads an accumulator and may raise. *)
Fixpoint foldM {A B} (f : A → B → result A) (a : A) (l : list B) : result A :=
  match l with
  | [] => Ok a
  | x :: l' => match f a x with Ok a' => foldM f a' l' | Err e => Err e end
  end.

(** Python list indexing: a negative index counts from the end. *)
Definition py_norm_index (n : nat) (i : Z) : Z :=
  if bool_decide (i < 0)%Z then (Z.of_nat n + i)%Z else i.

(** [l[i]]. *)
Definition py_getitem {A} (l : list A) (i : Z) : result A :=
  let j := py_norm_index (length l) i in
  if bool_decide (0 ≤ j)%Z then
    match l !! Z.to_nat j with Some x => Ok x | None => Err IndexError end
  else Err IndexError.

(** [l[i] = v]. *)
Definition py_setitem {A} (l : list A) (i : Z) (v : A) : result (list A) :=
  let j := py_norm_index (length l) i in
  if bool_decide (0 ≤ j < Z.of_nat (length l))%Z then Ok (<[Z.to_nat j := v]> l)
  else Err IndexError.

Create HintDb pony.
Create Rewrite HintDb pony_rw.

(** ** Generic lemmas on results *)

Lemma bind_Ok {A B} (a : A) (f : A → result B) : (x ← Ok a; f x) = f a.
Proof. reflexivity. Qed.

Lemma bind_Err {A B} e (f : A → result B) : (x ← Err e; f x) = Err e.
Proof. reflexivity. Qed.

Lemma bind_Ok_inv {A B} (r : result A) (f : A → result B) b :
  (x ← r; f x) = Ok b → ∃ a, r = Ok a ∧ f a = Ok b.
Proof. destruct r; simpl; [eauto | discriminate]. Qed.

Lemma stm_bind_Ok_inv {S A B} (c : stm S A) (f : A → stm S B) s b s' :
  (x ← c; f x) s = Ok (b, s') → ∃ a s1, c s = Ok (a, s1) ∧ f a s1 = Ok (b, s').
Proof.
  cbv [mbind stm_bind]. destruct (c s) as [[a s1]|e]; [eauto | discriminate].
Qed.

Lemma stm_bind_unfold {S A B} (c : stm S A) (f : A → stm S B) s :
  (x ← c; f x) s = match c s with Ok (a, s') => f a s' | Err e => Err e end.
Proof. reflexivity. Qed.

Lemma assert_Ok c : assert_ c = Ok tt ↔ c = true.
Proof. destruct c; simpl; split; congruence. Qed.

#[export] Hint Rewrite @bind_Ok @bind_Err : pony_rw.

(** ** Generic lemmas on lists *)

Lemma flat_map_app {A B} (f : A → list B) l1 l2 :
  flat_map f (l1 ++ l2) = flat_map f l1 ++ flat_map f l2.
Proof. induction l1; simpl; [done | rewrite IHl1, app_assoc; done]. Qed.

Lemma length_zip_with_eq {A B C} (f : A → B → C) l1 l2 :
  length l1 = length l2 → length (zip_with f l1 l2) = length l1.
Proof. intros H. rewrite length_zip_with. lia. Qed.

#[export] Hint Resolve length_zip_with_eq : pony.

(** [mapM] in the result monad succeeds exactly when [f] succeeds on
    every item. *)
Lemma mapM_Ok {A B} (f : A → result B) l l' :
  mapM f l = Ok l' ↔ Forall2 (λ x y, f x = Ok y) l l'.
Proof.
  revert l'. induction l as [|x l IH]; intros l'; simpl.
  - split; [intros [= <-]; constructor | intros H; inversion H; done].
  - split.
    + destruct (f x) as [y|e] eqn:Ef; [|discriminate]. simpl.
      destruct (mapM f l) as [ys|e] eqn:Em; [|discriminate]. simpl. intros [= <-].
      constructor; [done|]. by apply IH.
    + intros H. inversion H as [|? y ? ys Hy Hys]; subst. rewrite Hy. simpl.
      apply IH in Hys. by rewrite Hys.
Qed.

(** Each item of a successful stateful [mapM] is a successful run of
    the function on the corresponding input. *)
Lemma stm_mapM_Forall2 {S A B} (f : A → stm S B) l s l' s' :
  mapM f l s = Ok (l', s') → Forall2 (λ x y, ∃ s1 s2, f x s1 = Ok (y, s2)) l l'.
Proof.
  revert s l' s'. induction l as [|x l IH]; intros s l' s' H; simpl in H.
  - injection H as <- _. constructor.
  - apply stm_bind_Ok_inv in H as (y & s1 & Hy & H).
    apply stm_bind_Ok_inv in H as (ys & s2 & Hys & H). injection H as <- _.
    constructor; [eauto | exact (IH _ _ _ Hys)].
Qed.

(** An invariant of a stateful [mapM] indexed by the outputs so far. *)
Lemma stm_mapM_inv {S A B} (I : list B → S → Prop) (f : A → stm S B) :
  (∀ x ys s y s', f x s = Ok (y, s') → I ys s → I (ys ++ [y]) s') →
  ∀ l ys s l' s', mapM f l s = Ok (l', s') → I ys s → I (ys ++ l') s'.
Proof.
  intros Hf l. induction l as [|x l IH]; intros ys s l' s' H HI; simpl in H.
  - injection H as <- <-. by rewrite app_nil_r.
  - apply stm_bind_Ok_inv in H as (y & s1 & Hy & H).
    apply stm_bind_Ok_inv in H as (ys' & s2 & Hys & H). injection H as <- <-.
    rewrite cons_middle, app_assoc. eapply IH; [done|]. eauto.
Qed.

(** A stateful [mapM] whose steps relate each input to its output and
    update the state by a function of the input, on inputs that satisfy
    [P]. *)
Lemma stm_mapM_Forall2_state {S A B} (P : A → Prop) (f : A → stm S B) (R : A → B → Prop)
    (g : S → A → S) :
  (∀ x s y s', P x → f x s = Ok (y, s') → R x y ∧ s' = g s x) →
  ∀ l s l' s', Forall P l → mapM f l s = Ok (l', s') → Forall2 R l l' ∧ s' = foldl g s l.
Proof.
  intros Hf l. induction l as [|x l IH]; intros s l' s' HP H; simpl in H.
  - injection H as <- <-. split; [constructor|done].
  - apply Forall_cons in HP as [Hx HP].
    apply stm_bind_Ok_inv in H as (y & s1 & Hy & H).
    apply stm_bind_Ok_inv in H as (ys & s2 & Hys & H). injection H as <- <-.
    destruct (Hf _ _ _ _ Hx Hy) as [HR ->]. destruct (IH _ _ _ HP Hys) as [HRs ->].
    split; [by constructor|done].
Qed.

Lemma foldl_join {S A B} (h : S → B → S) (F : A → list B) s l :
  foldl (λ u x, foldl h u (F x)) s l = foldl h s (mjoin (map F l)).
Proof. revert s. induction l as [|x l IH]; intros s; [done|]. simpl. by rewrite foldl_app, IH. Qed.

Lemma Forall2_exists_map {A B C} (f : C → B) (R : A → C → Prop) l1 l2 :
  Forall2 (λ x y, ∃ z, y = f z ∧ R x z) l1 l2 → ∃ l3, l2 = f <$> l3 ∧ Forall2 R l1 l3.
Proof.
  induction 1 as [|x y l1 l2 (z & -> & Hz) _ (l3 & -> & H3)]; [by exists []|].
  exists (z :: l3). split; [done|by constructor].
Qed.

(** [mapM] in the result monad raises the error of the first item on
    which [f] fails. *)
Lemma mapM_Err_at {A B} (f : A → result B) l i x e :
  (∀ j y, j < i → l !! j = Some y → ∃ b, f y = Ok b) → l !! i = Some x → f x = Err e →
  mapM f l = Err e.
Proof.
  revert i. induction l as [|y l IH]; intros i Hb Hi Hx; [done|]. destruct i as [|i]; simpl in Hi.
  - injection Hi as ->. simpl. by rewrite Hx.
  - destruct (Hb 0 y) as [b Hy]; [lia|done|]. simpl. rewrite Hy. simpl.
    rewrite (IH i); [done| |done|done]. intros j z Hj Hz. apply (Hb (S j)); [lia|done].
Qed.

(** [l[i]] past the end raises [IndexError]. *)
Lemma py_getitem_past {A} (l : list A) (i : Z) : (Z.of_nat (length l) ≤ i)%Z → py_getitem l i = Err IndexError.
Proof.
  intros Hi. unfold py_getitem, py_norm_index. rewrite (bool_decide_false (i < 0)%Z) by lia.
  rewrite bool_decide_true by lia. rewrite lookup_ge_None_2; [done|lia].
Qed.

Lemma py_getitem_nonneg {A} (l : list A) (i : Z) v :
  (0 ≤ i)%Z → py_getitem l i = Ok v ↔ l !! Z.to_nat i = Some v.
Proof.
  intros Hi. unfold py_getitem, py_norm_index. rewrite (bool_decide_false (i < 0)%Z) by lia.
  rewrite bool_decide_true by done. destruct (l !! _); split; congruence.
Qed.

(** ** Maps filled by a loop *)

(** One step of a loop that inserts the binding [sel x] when there is
    one. *)
Definition ins_sel {K V X} `{Countable K} (sel : X → option (K * V)) (m : gmap K V) (x : X)
    : gmap K V :=
  match sel x with Some (k, v) => <[k:=v]> m | None => m end.

Section InsSel.
Context {K V X} `{Countable K} (sel : X → option (K * V)).

Lemma foldl_ins_sound m l k v :
  foldl (ins_sel sel) m l !! k = Some v → m !! k = Some v ∨ ∃ x, x ∈ l ∧ sel x = Some (k, v).
Proof.
  revert m. induction l as [|x l IH]; intros m Hk; [by left|]. simpl in Hk.
  destruct (IH _ Hk) as [Hm|(y & Hy & Hs)]; [|right; exists y; split; [by right|done]].
  unfold ins_sel in Hm. destruct (sel x) as [[k' v']|] eqn:Hx; [|by left].
  destruct (decide (k = k')) as [->|Hne].
  - rewrite lookup_insert_eq in Hm. injection Hm as ->. right. exists x. split; [by left|done].
  - rewrite lookup_insert_ne in Hm by done. by left.
Qed.

Lemma foldl_ins_mono m l k : is_Some (m !! k) → is_Some (foldl (ins_sel sel) m l !! k).
Proof.
  revert m. induction l as [|x l IH]; intros m Hk; [done|]. simpl. apply IH.
  unfold ins_sel. destruct (sel x) as [[k' v']|]; [|done].
  destruct (decide (k = k')) as [->|?]; [by rewrite lookup_insert_eq|by rewrite lookup_insert_ne].
Qed.

Lemma foldl_ins_complete m l x k v :
  x ∈ l → sel x = Some (k, v) → is_Some (foldl (ins_sel sel) m l !! k).
Proof.
  revert m. induction l as [|y l IH]; intros m Hx Hs; [set_solver|].
  apply elem_of_cons in Hx as [->|Hx]; simpl; [|by apply IH].
  apply foldl_ins_mono. unfold ins_sel. rewrite Hs. by rewrite lookup_insert_eq.
Qed.
End InsSel.

(** ** Relations a stateful computation keeps *)

(** Every successful run of [c] relates its initial and final states
    by [R]: an invariant, a frame condition or a monotonicity. *)
Definition stm_rel {S A} (R : S → S → Prop) (c : stm S A) : Prop :=
  ∀ s a s', c s = Ok (a, s') → R s s'.

Section StmRel.
Context {S : Type} (R : S → S → Prop) `{!PreOrder R}.

Lemma stm_rel_ret {A} (a : A) : stm_rel R (mret a).
Proof. intros s b s' [= -> <-]. reflexivity. Qed.

Lemma stm_rel_bind {A B} (c : stm S A) (f : A → stm S B) :
stm_rel R c → (∀ a, stm_rel R (f a)) → stm_rel R (x ← c; f x).
Proof.
intros Hc Hf s b s' H. apply stm_bind_Ok_inv in H as (a & s1 & H1 & H2).
etrans; [exact (Hc _ _ _ H1) | exact (Hf _ _ _ _ H2)].
Qed.

Lemma stm_rel_slift {A} (r : result A) : stm_rel R (slift r).
Proof. intros s a s' H. destruct r; simplify_eq/=. reflexivity. Qed.

Lemma stm_rel_sthrow {A} e : stm_rel R (sthrow (A:=A) e).
Proof. discriminate. Qed.

Lemma stm_rel_sget : stm_rel R sget.
Proof. intros s a s' [= -> <-]. reflexivity. Qed.

Lemma stm_rel_mapM {A B} (f : A → stm S B) l :
Forall (λ x, stm_rel R (f x)) l → stm_rel R (mapM f l).
Proof.
induction 1 as [|x l Hx _ IH]; simpl.
- apply stm_rel_ret.
- apply stm_rel_bind; [done|]. intros b. apply stm_rel_bind; [done|]. intros. apply stm_rel_ret.
Qed.
End StmRel.

#[export] Hint Resolve stm_rel_ret stm_rel_slift stm_rel_sthrow stm_rel_sget : pony.

(** ** Tactics *)

(** Decompose a successful run [c t = Ok (r, t')] into its steps: binds,
    returns, lifted results, state reads and writes, and the branches
    taken. *)
Ltac run_in H :=
  match type of H with
  | mbind _ _ _ = Ok _ => let E := fresh "E" in apply stm_bind_Ok_inv in H as (? & ? & E & H)
  | mret _ _ = Ok _ => cbv [mret stm_ret] in H; injection H as <- <-
  | sget _ = Ok _ => cbv [sget] in H; injection H as <- <-
  | sput _ _ = Ok _ => cbv [sput] in H; injection H as <- <-
  | smodify _ _ = Ok _ => cbv [smodify] in H; injection H as <- <-
  | sthrow _ _ = Ok _ => discriminate H
  | slift ?r _ = Ok _ => let E := fresh "E" in destruct r eqn:E; cbv [slift] in H; [injection H as ? ?; subst|discriminate H]
  | (if ?c then _ else _) _ = Ok _ => let E := fresh "E" in destruct c eqn:E
  | (match ?x with _ => _ end) _ = Ok _ => let E := fresh "E" in destruct x eqn:E
  end.

Ltac run := repeat match goal with H : _ = Ok _ |- _ => run_in H end.

Ltac invc H := inversion H; subst; clear H.

(** Decompose [Ok]/[Err] equations produced by unfolding the monads. *)
Ltac simpl_res :=
  repeat match goal with
  | H : context [@mret result result_ret _ ?x] |- _ =>
      change (@mret result result_ret _ x) with (Ok x) in H
  | H : Ok _ = Ok _ |- _ => injection H as H; subst
  | H : Ok _ = Err _ |- _ => discriminate H
  | H : Err _ = Ok _ |- _ => discriminate H
  | H : (_, _) = (_, _) |- _ => injection H as H; subst
  | H : (x ← ?r; _) = Ok _ |- _ =>
      let a := fresh "a" in let Ha := fresh "Ha" in
      apply bind_Ok_inv in H as [a [Ha H]]
  end.

(** Case on the condition of an [if] in a hypothesis [(if c then _ else _) s = _]. *)
Tactic Notation "destr_if" hyp(H) :=
  match type of H with
  | (if ?c then _ else _) _ = _ => let E := fresh "Hif" in destruct c eqn:E
  end.

Tactic Notation "destr_if" hyp(H) "as" ident(E) :=
  match type of H with
  | (if ?c then _ else _) _ = _ => destruct c eqn:E
  end.
