(* ===== verification/SqlAst.v ===== *)
(** * The SQL AST and its smart constructors

    The translator builds SQL as nested Python lists whose head is a tag
    string ([['EQ', ['COLUMN', 's', 'id'], ['VALUE', 1]]]).  [sx] is that
    Python value; [sqland], [sqlor] and [join_tables] are the smart
    constructors of sqltranslation.py (lines 32-52).  [eval_cond] gives
    conditions their SQL meaning in three-valued logic, parameterised by
    the meaning of the atomic predicates, and the theorems show that the
    flattening done by [sqland]/[sqlor] preserves that meaning. *)

From S2P Require Import Prelude.
From Stdlib Require Import ZArith.

(** Python values that occur in the SQL AST. *)
Inductive sx :=
  | SStr (s : string)
  | SInt (z : Z)
  | SNone
  | SBool (b : bool)
  | SList (l : list sx).

(** The induction principle for the nested list. *)
Section sx_nested_ind.
Variable P : sx → Prop.
Hypothesis HStr : ∀ s, P (SStr s).
Hypothesis HInt : ∀ z, P (SInt z).
Hypothesis HNone : P SNone.
Hypothesis HBool : ∀ b, P (SBool b).
Hypothesis HList : ∀ l, Forall P l → P (SList l).

Fixpoint sx_nested_ind (x : sx) : P x :=
  match x with
  | SStr s => HStr s
  | SInt z => HInt z
  | SNone => HNone
  | SBool b => HBool b
  | SList l =>
      HList l ((fix go (l : list sx) : Forall P l :=
                  match l with
                  | [] => Forall_nil_2 _
                  | y :: l' => Forall_cons_2 _ _ _ (sx_nested_ind y) (go l')
                  end) l)
  end.
End sx_nested_ind.

#[export] Instance sx_eq_dec : EqDecision sx.
Proof.
  refine (fix go x y : Decision (x = y) :=
    match x, y with
    | SStr a, SStr b => cast_if (decide (a = b))
    | SInt a, SInt b => cast_if (decide (a = b))
    | SNone, SNone => left _
    | SBool a, SBool b => cast_if (decide (a = b))
    | SList a, SList b => cast_if (@list_eq_dec _ go a b)
    | _, _ => right _
    end); congruence.
Defined.

(** A tagged node [[tag] + args]. *)
Definition node (tag : string) (args : list sx) : sx := SList (SStr tag :: args).

(** An alias is a string or [None] (the alias of a table reference that
    has not been joined yet). *)
Definition alias_sx (a : option string) : sx := from_option SStr SNone a.

(** [['COLUMN', alias, column]] and [['VALUE', v]]. *)
Definition column (alias : option string) (col : string) : sx :=
  node "COLUMN" [alias_sx alias; SStr col].
Definition value (v : sx) : sx := node "VALUE" [v].

(** A well-formed SQL node: a list whose first item is a tag. *)
Definition is_node (x : sx) : bool :=
  match x with SList (SStr _ :: _) => true | _ => false end.

(** The loop body of [sqland]/[sqlor]: [if item[0] == op:
    result.extend(item[1:]) else: result.append(item)].  [item[0]] raises
    [IndexError] on an empty list or string and [TypeError] on a number,
    [None] or a boolean; the first character of a non-empty string never
    equals the tags ["AND"]/["OR"], which have more than one. *)
Definition flatten_item (op : string) (item : sx) : result (list sx) :=
  match item with
  | SList (SStr t :: rest) => Ok (if String.eqb t op then rest else [item])
  | SList (_ :: _) => Ok [item]
  | SList [] => Err IndexError
  | SStr EmptyString => Err IndexError
  | SStr _ => Ok [item]
  | _ => Err (TypeError "object is not subscriptable")
  end.

Fixpoint flatten_items (op : string) (items : list sx) : result (list sx) :=
  match items with
  | [] => Ok []
  | item :: items' =>
      p ← flatten_item op item;
      r ← flatten_items op items';
      mret (p ++ r)
  end.

(** [sqland] and [sqlor] are the same function on two tags. *)
Definition sql_connective (op : string) (items : list sx) : result sx :=
  match items with
  | [] => Ok (SList [])
  | [x] => Ok x
  | _ => parts ← flatten_items op items; mret (SList (SStr op :: parts))
  end.

Definition sqland (items : list sx) : result sx := sql_connective "AND" items.
Definition sqlor (items : list sx) : result sx := sql_connective "OR" items.

(** [join_tables(alias1, alias2, columns1, columns2)]. *)
Definition join_tables (alias1 alias2 : option string) (columns1 columns2 : list string)
  : result sx :=
  assert_ (length columns1 =? length columns2);;
  sqland (zip_with (λ c1 c2, node "EQ" [column alias1 c1; column alias2 c2])
                   columns1 columns2).

(** ** Three-valued meaning of conditions *)

Inductive tv := TTrue | TFalse | TUnknown.

#[export] Instance tv_eq_dec : EqDecision tv.
Proof. solve_decision. Defined.

Definition tv_and (a b : tv) : tv :=
  match a, b with
  | TFalse, _ | _, TFalse => TFalse
  | TTrue, TTrue => TTrue
  | _, _ => TUnknown
  end.

Definition tv_or (a b : tv) : tv :=
  match a, b with
  | TTrue, _ | _, TTrue => TTrue
  | TFalse, TFalse => TFalse
  | _, _ => TUnknown
  end.

Definition tv_not (a : tv) : tv :=
  match a with TTrue => TFalse | TFalse => TTrue | TUnknown => TUnknown end.

Definition tv_all (l : list tv) : tv := foldr tv_and TTrue l.
Definition tv_any (l : list tv) : tv := foldr tv_or TFalse l.

Section Eval.
(** The meaning of the atomic predicates ([EQ], [IN], [LIKE], ...). *)
Variable atom : sx → tv.

Fixpoint eval_cond (x : sx) : tv :=
  match x with
  | SList (SStr t :: args) =>
      if String.eqb t "AND" then tv_all (map eval_cond args)
      else if String.eqb t "OR" then tv_any (map eval_cond args)
      else if String.eqb t "NOT" then
        match args with [a] => tv_not (eval_cond a) | _ => atom x end
      else atom x
  | _ => atom x
  end.
End Eval.

(** A connective node has no direct child tagged with the same
    connective. *)
Definition head_is (op : string) (x : sx) : bool :=
  match x with SList (SStr t :: _) => String.eqb t op | _ => false end.

Definition flat_conn (op : string) (x : sx) : Prop :=
  match x with
  | SList (SStr t :: args) => String.eqb t op = true → Forall (λ a, head_is op a = false) args
  | _ => True
  end.

(** ** Algebra of the three-valued connectives *)

Lemma tv_and_assoc a b c : tv_and a (tv_and b c) = tv_and (tv_and a b) c.
Proof. destruct a, b, c; reflexivity. Qed.

Lemma tv_or_assoc a b c : tv_or a (tv_or b c) = tv_or (tv_or a b) c.
Proof. destruct a, b, c; reflexivity. Qed.

Lemma tv_all_app l1 l2 : tv_all (l1 ++ l2) = tv_and (tv_all l1) (tv_all l2).
Proof.
  induction l1 as [|a l1 IH]; simpl; [by destruct (tv_all l2)|].
  by rewrite IH, tv_and_assoc.
Qed.

Lemma tv_any_app l1 l2 : tv_any (l1 ++ l2) = tv_or (tv_any l1) (tv_any l2).
Proof.
  induction l1 as [|a l1 IH]; simpl; [by destruct (tv_any l2)|].
  by rewrite IH, tv_or_assoc.
Qed.

Lemma tv_not_and a b : tv_not (tv_and a b) = tv_or (tv_not a) (tv_not b).
Proof. destruct a, b; reflexivity. Qed.

Lemma tv_not_involutive a : tv_not (tv_not a) = a.
Proof. destruct a; reflexivity. Qed.

Lemma tv_not_all l : tv_not (tv_all l) = tv_any (map tv_not l).
Proof. induction l as [|a l IH]; simpl; [done|]. by rewrite tv_not_and, IH. Qed.

Lemma tv_not_any l : tv_not (tv_any l) = tv_all (map tv_not l).
Proof.
  rewrite <- (tv_not_involutive (tv_all _)), tv_not_all, map_map.
  rewrite (map_ext _ id) by apply tv_not_involutive. by rewrite map_id.
Qed.

#[export] Hint Rewrite tv_all_app tv_any_app tv_not_involutive : pony_rw.

(** ** Flattening lemmas *)

(** The fold that gives a connective its meaning. *)
Definition conn_fold (op : string) : list tv → tv :=
  if String.eqb op "AND" then tv_all else tv_any.

Definition is_conn (op : string) : Prop := op = "AND" ∨ op = "OR".

Lemma conn_fold_app op l1 l2 :
  is_conn op →
  conn_fold op (l1 ++ l2) =
    (if String.eqb op "AND" then tv_and else tv_or) (conn_fold op l1) (conn_fold op l2).
Proof. intros [-> | ->]; simpl; autorewrite with pony_rw; done. Qed.

Lemma conn_fold_single op a : is_conn op → conn_fold op [a] = a.
Proof. intros [-> | ->]; destruct a; reflexivity. Qed.

Lemma eval_conn_node atom op args :
  is_conn op → eval_cond atom (SList (SStr op :: args)) = conn_fold op (map (eval_cond atom) args).
Proof. intros [-> | ->]; reflexivity. Qed.

Lemma flatten_item_sound atom op item parts :
  is_conn op → flatten_item op item = Ok parts →
  conn_fold op (map (eval_cond atom) parts) = eval_cond atom item.
Proof.
  intros Hop H. destruct item as [s| | | |l]; simpl in H; try discriminate.
  - destruct s; simpl_res. by apply conn_fold_single.
  - destruct l as [|[s| | | |] rest]; simpl_res; try (by apply conn_fold_single).
    destruct (String.eqb_spec s op) as [->|]; [by rewrite eval_conn_node | by apply conn_fold_single].
Qed.

Lemma flatten_items_sound atom op items parts :
  is_conn op → flatten_items op items = Ok parts →
  conn_fold op (map (eval_cond atom) parts) = conn_fold op (map (eval_cond atom) items).
Proof.
  intros Hop. revert parts. induction items as [|item items IH]; intros parts H; simpl in H.
  - by simpl_res.
  - simpl_res. rewrite map_app, conn_fold_app by done.
    erewrite flatten_item_sound by eauto. rewrite (IH a0) by done.
    change (item :: items) with ([item] ++ items). rewrite map_app, conn_fold_app by done.
    cbn [map]. by rewrite conn_fold_single.
Qed.

Lemma sql_connective_sound atom op items r :
  is_conn op → items ≠ [] → sql_connective op items = Ok r →
  eval_cond atom r = conn_fold op (map (eval_cond atom) items).
Proof.
  intros Hop Hne H. unfold sql_connective in H. destruct items as [|x [|y items]]; [done| |].
  - simpl_res. cbn [map]. by rewrite conn_fold_single.
  - apply bind_Ok_inv in H as [p [Hp H]]. simpl_res.
    rewrite eval_conn_node by done. by eapply flatten_items_sound.
Qed.

Lemma flatten_item_node op item : is_node item = true → ∃ p, flatten_item op item = Ok p.
Proof. destruct item as [| | | |[|[]]]; simpl; try discriminate; eauto. Qed.

Lemma flatten_items_nodes op items :
  Forall (λ x, is_node x = true) items → ∃ p, flatten_items op items = Ok p.
Proof.
  induction 1 as [|x l Hx _ [p IH]]; simpl; [eauto|].
  destruct (flatten_item_node op x Hx) as [q ->]. rewrite IH. eauto.
Qed.

(** [sqland]/[sqlor] of well-formed nodes never raises. *)
Lemma sql_connective_nodes op items :
  Forall (λ x, is_node x = true) items → ∃ r, sql_connective op items = Ok r.
Proof.
  intros Hn. unfold sql_connective. destruct items as [|x [|y items]]; eauto.
  destruct (flatten_items_nodes op _ Hn) as [p ->]. eauto.
Qed.

(** The dual connective of the item-wise complements means the
    complement (De Morgan in three-valued logic). *)
Lemma sql_connective_complement atom op1 op2 xs ys x :
  (op1 = "AND" ∧ op2 = "OR" ∨ op1 = "OR" ∧ op2 = "AND") →
  Forall2 (λ a b, eval_cond atom b = tv_not (eval_cond atom a)) xs ys →
  Forall (λ y, is_node y = true) ys → xs ≠ [] →
  sql_connective op1 xs = Ok x →
  ∃ y, sql_connective op2 ys = Ok y ∧ eval_cond atom y = tv_not (eval_cond atom x).
Proof.
  intros Hops H2 Hn Hne Hx.
  destruct (sql_connective_nodes op2 ys Hn) as [y Hy]. exists y. split; [done|].
  assert (ys ≠ []) by (intros ->; inversion H2; subst; done).
  assert (Hc1 : is_conn op1) by (unfold is_conn; destruct Hops as [[-> _]|[-> _]]; auto).
  assert (Hc2 : is_conn op2) by (unfold is_conn; destruct Hops as [[_ ->]|[_ ->]]; auto).
  rewrite (sql_connective_sound atom op2 ys y Hc2), (sql_connective_sound atom op1 xs x Hc1)
    by done.
  assert (Hm : map (eval_cond atom) ys = map tv_not (map (eval_cond atom) xs)).
  { rewrite map_map. clear -H2. induction H2 as [|a b xs' ys' Hab _ IH]; [done|].
    cbn [map]. by rewrite Hab, IH. }
  rewrite Hm. destruct Hops as [[-> ->]|[-> ->]]; simpl.
  - by rewrite tv_not_all.
  - by rewrite tv_not_any.
Qed.

Lemma flatten_item_flat op item p :
  flat_conn op item → flatten_item op item = Ok p → Forall (λ a, head_is op a = false) p.
Proof.
  intros Hf H. destruct item as [s| | | |l]; simpl in H; try discriminate.
  - destruct s; simpl_res. by repeat constructor.
  - destruct l as [|[s| | | |] rest]; simpl_res; try (by repeat constructor).
    simpl in Hf. destruct (String.eqb s op) eqn:E; [by apply Hf|].
    repeat constructor. simpl. by rewrite E.
Qed.

Lemma flatten_items_flat op items p :
  Forall (flat_conn op) items → flatten_items op items = Ok p →
  Forall (λ a, head_is op a = false) p.
Proof.
  intros Hf. revert p. induction Hf as [|x l Hx _ IH]; intros p H; simpl in H; simpl_res.
  - constructor.
  - apply Forall_app. split; [by eapply flatten_item_flat | by apply IH].
Qed.

(** ** Properties of the smart constructors *)

(** [sqland] means the conjunction of its items: flattening nested
    AND nodes preserves the three-valued meaning. *)
Theorem sqland_sound atom items r :
  items ≠ [] → sqland items = Ok r →
  eval_cond atom r = tv_all (map (eval_cond atom) items).
Proof. intros Hne H. apply (sql_connective_sound atom "AND"); [by left | done | done]. Qed.

Example sqland_sound_witness :
  let items := [node "AND" [node "EQ" [SInt 1; SInt 1]; node "LT" [SInt 0; SInt 2]];
                node "GT" [SInt 3; SInt 2]] in
  items ≠ [] ∧ sqland items = Ok (node "AND" [node "EQ" [SInt 1; SInt 1];
                                               node "LT" [SInt 0; SInt 2];
                                               node "GT" [SInt 3; SInt 2]]) ∧
  eval_cond (λ _, TTrue) (node "AND" [node "EQ" [SInt 1; SInt 1];
                                      node "LT" [SInt 0; SInt 2];
                                      node "GT" [SInt 3; SInt 2]])
    = tv_all (map (eval_cond (λ _, TTrue)) items).
Proof.
  intros items. split; [discriminate|]. split; [reflexivity|].
  apply sqland_sound; [discriminate | reflexivity].
Defined.

(** [sqlor] means the disjunction of its items. *)
Theorem sqlor_sound atom items r :
  items ≠ [] → sqlor items = Ok r →
  eval_cond atom r = tv_any (map (eval_cond atom) items).
Proof. intros Hne H. apply (sql_connective_sound atom "OR"); [by right | done | done]. Qed.

Example sqlor_sound_witness :
  let items := [node "EQ" [SInt 1; SInt 2]; node "OR" [node "NE" [SInt 1; SInt 2]]] in
  items ≠ [] ∧ sqlor items = Ok (node "OR" [node "EQ" [SInt 1; SInt 2]; node "NE" [SInt 1; SInt 2]]) ∧
  eval_cond (λ _, TFalse) (node "OR" [node "EQ" [SInt 1; SInt 2]; node "NE" [SInt 1; SInt 2]])
    = tv_any (map (eval_cond (λ _, TFalse)) items).
Proof.
  intros items. split; [discriminate|]. split; [reflexivity|].
  apply sqlor_sound; [discriminate | reflexivity].
Defined.

(** [sqland] over well-formed SQL nodes never raises, and when its
    items are themselves flat the result has no AND child directly
    under an AND. *)
Theorem sqland_flat items :
  Forall (λ x, is_node x = true) items → Forall (flat_conn "AND") items →
  ∃ r, sqland items = Ok r ∧ flat_conn "AND" r.
Proof.
  intros Hn Hf. unfold sqland, sql_connective.
  destruct items as [|x [|y items]]; [by exists (SList [])| |].
  - exists x. split; [done|]. by inversion Hf.
  - destruct (flatten_items_nodes "AND" (x :: y :: items) Hn) as [p Hp].
    rewrite Hp. exists (SList (SStr "AND" :: p)). split; [done|].
    intros _. by eapply flatten_items_flat.
Qed.

Example sqland_flat_witness :
  let items := [node "AND" [node "EQ" [SInt 1; SInt 1]]; node "GT" [SInt 3; SInt 2]] in
  Forall (λ x, is_node x = true) items ∧ Forall (flat_conn "AND") items ∧
  ∃ r, sqland items = Ok r ∧ flat_conn "AND" r.
Proof.
  intros items.
  assert (Hn : Forall (λ x, is_node x = true) items) by repeat constructor.
  assert (Hf : Forall (flat_conn "AND") items)
    by (repeat constructor; intros _; repeat constructor).
  split; [exact Hn|]. split; [exact Hf|]. exact (sqland_flat items Hn Hf).
Defined.

(** The list of column equalities built by [join_tables]. *)
Definition column_eqs (alias1 alias2 : option string) (columns1 columns2 : list string) : list sx :=
  zip_with (λ c1 c2, node "EQ" [column alias1 c1; column alias2 c2]) columns1 columns2.

Lemma column_eqs_nodes a1 a2 c1 c2 : Forall (λ x, is_node x = true) (column_eqs a1 a2 c1 c2).
Proof.
  revert c2. induction c1 as [|x c1 IH]; intros [|y c2]; simpl; constructor; auto.
Qed.

(** C31: [join_tables] raises [AssertionError] exactly when the two
    column lists differ in length; otherwise it returns a condition that
    holds iff every pair of columns is equal. *)
Theorem join_tables_spec atom a1 a2 c1 c2 :
  (length c1 ≠ length c2 → join_tables a1 a2 c1 c2 = Err AssertionError) ∧
  (length c1 = length c2 → c1 ≠ [] →
     ∃ r, join_tables a1 a2 c1 c2 = Ok r ∧
          eval_cond atom r = tv_all (map atom (column_eqs a1 a2 c1 c2))).
Proof.
  split.
  - intros Hne. unfold join_tables. destruct (Nat.eqb_spec (length c1) (length c2)); done.
  - intros Heq Hne. unfold join_tables. rewrite (proj2 (Nat.eqb_eq _ _) Heq). simpl.
    destruct (flatten_items_nodes "AND" (column_eqs a1 a2 c1 c2) (column_eqs_nodes _ _ _ _))
      as [p Hp].
    assert (Hz : column_eqs a1 a2 c1 c2 ≠ []).
    { destruct c1, c2; simpl in *; done. }
    destruct (sqland (column_eqs a1 a2 c1 c2)) as [r|e] eqn:E.
    + exists r. split; [done|].
      rewrite (sql_connective_sound atom "AND" _ r (or_introl eq_refl) Hz E).
      change (conn_fold "AND") with tv_all. f_equal. apply map_ext_in. intros x Hx.
      unfold column_eqs in Hx. apply list_elem_of_In in Hx.
      apply elem_of_lookup_zip_with in Hx as (i & ? & ? & -> & _ & _). reflexivity.
    + unfold sqland, sql_connective in E. destruct (column_eqs a1 a2 c1 c2) as [|x [|y l]] eqn:Ec;
        [done|discriminate|]. rewrite Hp in E. discriminate.
Qed.

Example join_tables_spec_witness :
  length ["group_number"; "group_faculty"] = length ["number"; "faculty"] ∧
  ["group_number"; "group_faculty"] ≠ [] ∧
  join_tables (Some "s") (Some "g") ["group_number"; "group_faculty"] ["number"; "faculty"] =
    Ok (node "AND" [node "EQ" [column (Some "s") "group_number"; column (Some "g") "number"];
                    node "EQ" [column (Some "s") "group_faculty"; column (Some "g") "faculty"]]) ∧
  ∃ r, join_tables (Some "s") (Some "g") ["group_number"; "group_faculty"] ["number"; "faculty"] = Ok r ∧
       eval_cond (λ _, TTrue) r =
         tv_all (map (λ _, TTrue) (column_eqs (Some "s") (Some "g") ["group_number"; "group_faculty"]
                                              ["number"; "faculty"])).
Proof.
  split; [reflexivity|]. split; [discriminate|]. split; [reflexivity|].
  apply (join_tables_spec (λ _, TTrue)); [reflexivity | discriminate].
Defined.

(** [sqland]/[sqlor] of nodes is a node. *)
Lemma sql_connective_node op items r :
  sql_connective op items = Ok r → items ≠ [] → Forall (λ x, is_node x = true) items →
  is_node r = true.
Proof.
  unfold sql_connective. destruct items as [|x [|y l]]; intros H Hne Hn; [done| |].
  - injection H as <-. by inversion Hn.
  - apply bind_Ok_inv in H as [p [_ H]]. by injection H as <-.
Qed.
