(* ===== verification/Types.v ===== *)
(** * Normalised types and the comparability rules

    [ptype] is the set of values the translator stores in a monad's
    [type] attribute: the normalised Python types, an entity class, a
    [SetType], a tuple of types, and the three sentinels ['METHOD'],
    ['JOIN'] and ['function'] used for monads that are not values.  The
    predicates and [coerce_types]/[are_comparable_types] come from
    [pony.orm.ormtypes], which is not among the sources: they follow the
    specification (section 4.2).  [type2str] and [check_comparable] are
    translated from sqltranslation.py. *)

From S2P Require Import Prelude.

Inductive ptype :=
  | TInt | TFloat | TDecimal
  | TUnicode | TAsciiStr
  | TDate | TDatetime | TBool | TBuffer | TNone
  | TEntity (name : string)
  | TSet (item : ptype)
  | TTuple (items : list ptype)
  | TFuncType (name : string)
  | TMethodType (entity method : string)
  (** the sentinel strings stored as [monad.type] *)
  | TMETHOD | TJOIN | TFUNCTION.

Section ptype_nested_ind.
Variable P : ptype → Prop.
Hypothesis Hleaf : ∀ t, (∀ i, t ≠ TSet i) → (∀ l, t ≠ TTuple l) → P t.
Hypothesis HSet : ∀ i, P i → P (TSet i).
Hypothesis HTuple : ∀ l, Forall P l → P (TTuple l).

Fixpoint ptype_nested_ind (t : ptype) : P t.
Proof.
  destruct t as [| | | | | | | | | |n|i|l|f|e m| | |];
    try (apply Hleaf; intros; discriminate).
  - apply HSet, ptype_nested_ind.
  - apply HTuple. induction l as [|x l IH]; constructor; [apply ptype_nested_ind | exact IH].
Defined.
End ptype_nested_ind.

#[export] Instance ptype_eq_dec : EqDecision ptype.
Proof.
  refine (fix go x y : Decision (x = y) :=
    match x, y with
    | TInt, TInt | TFloat, TFloat | TDecimal, TDecimal
    | TUnicode, TUnicode | TAsciiStr, TAsciiStr | TDate, TDate
    | TDatetime, TDatetime | TBool, TBool | TBuffer, TBuffer | TNone, TNone
    | TMETHOD, TMETHOD | TJOIN, TJOIN | TFUNCTION, TFUNCTION => left _
    | TEntity a, TEntity b => cast_if (decide (a = b))
    | TSet a, TSet b => cast_if (go a b)
    | TTuple a, TTuple b => cast_if (@list_eq_dec _ go a b)
    | TFuncType a, TFuncType b => cast_if (decide (a = b))
    | TMethodType a1 a2, TMethodType b1 b2 =>
        cast_if_and (decide (a1 = b1)) (decide (a2 = b2))
    | _, _ => right _
    end); congruence.
Defined.

(** [numeric_types], [string_types], [comparable_types]. *)
Definition is_numeric (t : ptype) : bool :=
  match t with TInt | TFloat | TDecimal => true | _ => false end.

Definition is_string (t : ptype) : bool :=
  match t with TUnicode | TAsciiStr => true | _ => false end.

Definition is_comparable (t : ptype) : bool :=
  is_numeric t || is_string t || bool_decide (t = TDate) || bool_decide (t = TDatetime).

(** The rank of a numeric type in the coercion lattice
    [int ⊂ float ⊂ Decimal]. *)
Definition numeric_rank (t : ptype) : nat :=
  match t with TInt => 0 | TFloat => 1 | _ => 2 end.

(** [coerce_types(t1, t2)]: the common type of an arithmetic operation,
    or [None]. *)
Definition coerce_types (t1 t2 : ptype) : option ptype :=
  if decide (t1 = t2) then Some t1
  else if is_numeric t1 && is_numeric t2 then
    Some (if numeric_rank t1 <? numeric_rank t2 then t2 else t1)
  else if is_string t1 && is_string t2 then Some TUnicode
  else None.

Section Comparable.
(** The root entity of an entity class ([entity._root_]). *)
Variable entity_root : string → string.

Definition entity_of (t : ptype) : option string :=
  match t with TEntity e => Some e | _ => None end.

(** [==], [!=], [<>] on two types that are not tuples. *)
Definition eq_comparable (t1 t2 : ptype) : bool :=
  if bool_decide (t1 = TNone) && bool_decide (t2 = TNone) then false
  else if bool_decide (t1 = TNone) || bool_decide (t2 = TNone) then true
  else match entity_of t1, entity_of t2 with
  | Some e1, Some e2 => bool_decide (entity_root e1 = entity_root e2)
  | None, None => bool_decide (coerce_types t1 t2 ≠ None)
  | _, _ => false
  end.

(** The operators on two types that are not tuples. *)
Definition scalar_comparable (t1 t2 : ptype) (op : string) : bool :=
  if bool_decide (op = "<" ∨ op = "<=" ∨ op = ">" ∨ op = ">=") then
    match coerce_types t1 t2 with Some t => is_comparable t | None => false end
  else if bool_decide (op = "==" ∨ op = "!=" ∨ op = "<>") then eq_comparable t1 t2
  else false.

(** The operators other than [in]/[not in]. *)
Fixpoint comparable_core (t1 t2 : ptype) (op : string) : bool :=
  if bool_decide (op = "is" ∨ op = "is not") then
    bool_decide (t1 ≠ TNone) && bool_decide (t2 = TNone)
  else if bool_decide (op = "LIKE" ∨ op = "" ∨ op = "CONCAT") then
    is_string t1 && is_string t2
  else match t1 with
  | TTuple l1 =>
      match t2 with
      | TTuple l2 =>
          (length l1 =? length l2) &&
          forallb id (zip_with (λ a b, comparable_core a b "==") l1 l2)
      | _ => false
      end
  | _ => match t2 with TTuple _ => false | _ => scalar_comparable t1 t2 op end
  end.

(** [are_comparable_types(t1, t2, op)] for the operators of a
    comparison ([==], [!=], [<>], [<], [<=], [>], [>=], [is],
    [is not], [in], [not in]) and the string operations ([LIKE],
    [CONCAT] and the empty operator standing for the [None] passed by
    [startswith]/[endswith]/[strip]); [in] compares with the item type
    of a set. *)
Definition are_comparable_types (t1 t2 : ptype) (op : string) : bool :=
  if bool_decide (op = "in" ∨ op = "not in") then
    match t2 with TSet i => comparable_core t1 i "==" | _ => false end
  else comparable_core t1 t2 op.
End Comparable.

(** [type2str(t)] (sqltranslation.py lines 54-58). *)
Fixpoint type2str (t : ptype) : string :=
  match t with
  | TTuple _ => "list"
  | TSet i => "Set of " +:+ type2str i
  | TInt => "int" | TFloat => "float" | TDecimal => "Decimal"
  | TUnicode => "unicode" | TAsciiStr => "AsciiStr"
  | TDate => "date" | TDatetime => "datetime" | TBool => "bool"
  | TBuffer => "buffer" | TNone => "NoneType"
  | TEntity n => n
  | TFuncType n => "FuncType(" +:+ n +:+ ")"
  | TMethodType e m => "MethodType(" +:+ e +:+ "." +:+ m +:+ ")"
  | TMETHOD => "METHOD" | TJOIN => "JOIN" | TFUNCTION => "function"
  end.

(** [raise_forgot_parentheses(monad)]. *)
Definition forgot_parentheses {A} : result A :=
  throw (TranslationError "You seems to forgot parentheses after {EXPR}").

(** [check_comparable(left_monad, right_monad, op)] on the two monads'
    types (sqltranslation.py lines 17-23). *)
Definition check_comparable (entity_root : string → string) (t1 t2 : ptype) (op : string)
  : result unit :=
  if decide (t1 = TMETHOD) then forgot_parentheses
  else if decide (t2 = TMETHOD) then forgot_parentheses
  else if are_comparable_types entity_root t1 t2 op then Ok tt
  else
    let t2' := if bool_decide (op = "in" ∨ op = "not in")
               then match t2 with TSet i => i | _ => t2 end else t2 in
    throw (IncomparableTypesError (type2str t1) (type2str t2')).

(** ** Facts about the type rules *)

Lemma coerce_types_refl t : coerce_types t t = Some t.
Proof. unfold coerce_types. by rewrite decide_True. Qed.

#[export] Hint Resolve coerce_types_refl : pony.

(** ** The classes of comparison operators *)

(** Operators that [are_comparable_types] treats alike: identity with
    [None], equality, ordering. *)
Definition op_class (op : string) : option nat :=
  if bool_decide (op = "is" ∨ op = "is not") then Some 0
  else if bool_decide (op = "==" ∨ op = "!=" ∨ op = "<>") then Some 1
  else if bool_decide (op = "<" ∨ op = "<=" ∨ op = ">" ∨ op = ">=") then Some 2
  else None.

Definition class_rep (k : nat) : string :=
  match k with 0 => "is" | 1 => "==" | _ => "<" end.

Lemma op_class_cases op k :
  op_class op = Some k →
  k = 0 ∧ (op = "is" ∨ op = "is not") ∨
  k = 1 ∧ (op = "==" ∨ op = "!=" ∨ op = "<>") ∨
  k = 2 ∧ (op = "<" ∨ op = "<=" ∨ op = ">" ∨ op = ">=").
Proof. unfold op_class. repeat case_bool_decide; intros; simplify_eq; tauto. Qed.

Lemma comparable_core_rep r t1 t2 op k :
  op_class op = Some k → comparable_core r t1 t2 op = comparable_core r t1 t2 (class_rep k).
Proof.
  intros H. apply op_class_cases in H.
  destruct_or! H; destruct H as [-> H]; destruct_or! H; subst; destruct t1; reflexivity.
Qed.

Lemma check_comparable_class r t1 t2 op op' k :
  op_class op = Some k → op_class op' = Some k →
  check_comparable r t1 t2 op = check_comparable r t1 t2 op'.
Proof.
  intros H H'. unfold check_comparable, are_comparable_types.
  rewrite (comparable_core_rep r t1 t2 op k), (comparable_core_rep r t1 t2 op' k) by done.
  apply op_class_cases in H, H'.
  destruct_or! H; destruct_or! H'; destruct H as [-> H], H' as [? H']; try lia;
    destruct_or! H; destruct_or! H'; subst; reflexivity.
Qed.

Lemma check_comparable_rep r t1 t2 op k :
  op_class op = Some k → check_comparable r t1 t2 op = check_comparable r t1 t2 (class_rep k).
Proof.
  intros Hk. apply (check_comparable_class _ _ _ _ _ k Hk).
  by apply op_class_cases in Hk as [[-> _]|[[-> _]|[-> _]]].
Qed.

Lemma check_comparable_method r t1 t2 op :
  check_comparable r t1 t2 op = Ok tt → t1 ≠ TMETHOD ∧ t2 ≠ TMETHOD.
Proof. unfold check_comparable. intros H. repeat case_decide; by simplify_eq. Qed.

Lemma check_comparable_ok r t1 t2 op :
  check_comparable r t1 t2 op = Ok tt → are_comparable_types r t1 t2 op = true.
Proof. unfold check_comparable. intros H. repeat case_decide; try destruct are_comparable_types; by simplify_eq. Qed.

Lemma check_comparable_of r t1 t2 op :
  t1 ≠ TMETHOD → t2 ≠ TMETHOD → are_comparable_types r t1 t2 op = true →
  check_comparable r t1 t2 op = Ok tt.
Proof. unfold check_comparable. intros ?? ->. by rewrite !decide_False. Qed.

Lemma comparable_core_is r t1 t2 :
  comparable_core r t1 t2 "is" = bool_decide (t1 ≠ TNone) && bool_decide (t2 = TNone).
Proof. destruct t1; reflexivity. Qed.

(** [None] on the left compares only by equality. *)
Lemma check_none_left r t2 op k :
  op_class op = Some k → check_comparable r TNone t2 op = Ok tt → k = 1.
Proof.
  intros Hk H. pose proof (op_class_cases _ _ Hk) as [[-> _]|[[-> _]|[-> _]]]; [|done|];
    rewrite (check_comparable_rep r _ _ op _ Hk) in H;
    apply check_comparable_ok in H; destruct t2; discriminate.
Qed.

(** [None] on the right is never ordered, and the left is not [None]. *)
Lemma check_none_right r t1 op k :
  op_class op = Some k → check_comparable r t1 TNone op = Ok tt → k ≠ 2 ∧ t1 ≠ TNone.
Proof.
  intros Hk H. pose proof (op_class_cases _ _ Hk) as [[-> _]|[[-> _]|[-> _]]];
    rewrite (check_comparable_rep r _ _ op _ Hk) in H;
    apply check_comparable_ok in H; destruct t1; simpl in H; done.
Qed.

(** Two operands that are not [None] are never compared by identity. *)
Lemma check_not_none r t1 t2 op :
  t2 ≠ TNone → op_class op = Some 0 → check_comparable r t1 t2 op ≠ Ok tt.
Proof.
  intros Ht2 Hk H. rewrite (check_comparable_rep r _ _ op 0 Hk) in H.
  apply check_comparable_ok in H. unfold are_comparable_types in H. simpl in H.
  rewrite comparable_core_is in H. apply andb_prop in H as [_ H].
  by apply bool_decide_eq_true in H.
Qed.

Lemma check_is r t1 op :
  t1 ≠ TNone → t1 ≠ TMETHOD → op_class op = Some 0 → check_comparable r t1 TNone op = Ok tt.
Proof.
  intros H1 H2 Hk. rewrite (check_comparable_rep r _ _ op 0 Hk).
  apply check_comparable_of; [done|done|]. unfold are_comparable_types. simpl.
  rewrite comparable_core_is. by rewrite !bool_decide_eq_true_2.
Qed.
