(* ===== verification/Schema.v ===== *)
(** * The entity schema the translator reads

    The ORM core ([pony.orm.core]: [EntityMeta], [Attribute], [Set]) is
    not among the sources; the translator only reads a fixed set of
    fields of entities and attributes, listed in the specification
    (section 3, "Entity (external)").  [attr] and [entity] hold exactly
    those fields, [schema] maps entity names to entities.  The toy schema
    of [src/old/models/model1.py] (Group, Subject, Student, Mark) is the
    concrete input of the witnesses. *)

From S2P Require Import Prelude SqlAst Types.

(** An attribute: [attr.name], [attr.entity] (the owner), [attr.py_type],
    [attr.is_collection], [isinstance(attr, Set)], [attr.columns],
    [attr.reverse] (by owner and name), [attr.pk_offset],
    [attr.pk_columns_offset], [attr.symmetric], [attr.reverse_columns],
    [attr.table] (the link table of a many-to-many), [attr.is_required],
    [attr.nullable]. *)
Record attr := mkAttr {
  attr_name : string;
  attr_entity : string;
  attr_py_type : ptype;
  attr_is_collection : bool;
  attr_is_set : bool;
  attr_columns : list string;
  attr_reverse : option (string * string);
  attr_pk_offset : option nat;
  attr_pk_columns_offset : nat;
  attr_symmetric : bool;
  attr_reverse_columns : list string;
  attr_table : string;
  attr_is_required : bool;
  attr_nullable : bool
}.

(** An entity: [__name__], [_table_], [_pk_columns_], [_pk_attrs_] (by
    name), [_discriminator_attr_] (its column, if any), [_root_],
    [_database_] and the attribute dictionary [_adict_]. *)
Record entity := mkEntity {
  ent_name : string;
  ent_table : string;
  ent_pk_columns : list string;
  ent_pk_attrs : list string;
  ent_discriminator : option string;
  ent_root : string;
  ent_database : string;
  ent_attrs : list attr
}.

Definition schema := gmap string entity.

(** [entity._pk_is_composite_]. *)
Definition pk_is_composite (e : entity) : bool := 1 <? length (ent_pk_attrs e).

(** [entity._adict_.get(name)]. *)
Definition find_attr (e : entity) (name : string) : option attr :=
  find (λ a, bool_decide (attr_name a = name)) (ent_attrs e).

Section Lookup.
Variable sch : schema.

Definition get_entity (name : string) : result entity :=
  match sch !! name with Some e => Ok e | None => Err (KeyError name) end.

(** [attr.reverse]; Python reads a field of [None] when there is no
    reverse attribute. *)
Definition get_reverse (a : attr) : result attr :=
  match attr_reverse a with
  | Some (en, an) =>
      e ← get_entity en;
      match find_attr e an with Some r => Ok r | None => Err (KeyError an) end
  | None => Err (AttributeError "'NoneType' object has no attribute")
  end.

Definition entity_root (name : string) : string :=
  match sch !! name with Some e => ent_root e | None => name end.
End Lookup.

(** [entity._construct_discriminator_criteria_(alias)]: the
    discriminator column must hold the entity's name. *)
Definition discr_criteria (e : entity) (alias : option string) : sx :=
  match ent_discriminator e with
  | Some col => node "EQ" [column alias col;
                           value (SStr (ent_name e))]
  | None => SNone
  end.

(** ** The schema of [src/old/models/model1.py] *)

Definition plain_attr (owner name : string) (t : ptype) (cols : list string)
  (pk_off : option nat) (pk_col_off : nat) (required : bool) : attr :=
  mkAttr name owner t false false cols None pk_off pk_col_off false [] "" required (negb required).

Definition set_attr (owner name target rev : string) (cols : list string) (table : string) : attr :=
  mkAttr name owner (TEntity target) true true cols (Some (target, rev)) None 0 false [] table false true.

Definition ref_attr (owner name target rev : string) (cols : list string)
  (pk_off : option nat) (pk_col_off : nat) : attr :=
  mkAttr name owner (TEntity target) false false cols (Some (target, rev)) pk_off pk_col_off
         false [] "" true false.

Definition Group_entity : entity :=
  mkEntity "Group" "Group" ["number"; "faculty"] ["number"; "faculty"] None "Group" "db"
    [plain_attr "Group" "number" TUnicode ["number"] (Some 0) 0 true;
     plain_attr "Group" "faculty" TInt ["faculty"] (Some 1) 1 true;
     plain_attr "Group" "graduate_year" TInt ["graduate_year"] None 0 true;
     plain_attr "Group" "speciality" TInt ["speciality"] None 0 true;
     set_attr "Group" "subjects" "Subject" "groups" ["subject"] "Group_Subject";
     set_attr "Group" "students" "Student" "group" [] ""].

Definition Subject_entity : entity :=
  mkEntity "Subject" "DISCIPLINES" ["id"] ["id"] None "Subject" "db"
    [plain_attr "Subject" "id" TInt ["id"] (Some 0) 0 true;
     plain_attr "Subject" "name" TUnicode ["name"] None 0 true;
     set_attr "Subject" "groups" "Group" "subjects" ["group_number"; "group_faculty"]
              "Group_Subject";
     set_attr "Subject" "marks" "Mark" "subject" [] ""].

(** [Student] declares [_tables_ = 'Student1', 'Student2'] and puts
    [mid_name] in [Student2]; the translators read one [entity._table_]
    and never split an entity over tables, so the entity keeps the table
    of its key columns, [Student1]. *)
Definition Student_entity : entity :=
  mkEntity "Student" "Student1" ["group_number"; "group_faculty"; "first_name"]
    ["group"; "first_name"] None "Student" "db"
    [plain_attr "Student" "first_name" TUnicode ["first_name"] (Some 1) 2 true;
     plain_attr "Student" "mid_name" TUnicode ["mid_name"] None 0 false;
     plain_attr "Student" "last_name" TUnicode ["last_name"] None 0 true;
     ref_attr "Student" "group" "Group" "students" ["group_number"; "group_faculty"] (Some 0) 0;
     set_attr "Student" "marks" "Mark" "student" [] ""].

Definition Mark_entity : entity :=
  mkEntity "Mark" "Mark"
    ["student_group_number"; "student_group_faculty"; "student_first_name"; "subject"]
    ["student"; "subject"] None "Mark" "db"
    [ref_attr "Mark" "student" "Student" "marks"
       ["student_group_number"; "student_group_faculty"; "student_first_name"] (Some 0) 0;
     ref_attr "Mark" "subject" "Subject" "marks" ["subject"] (Some 1) 3;
     plain_attr "Mark" "value" TInt ["value"] None 0 true].

Definition model1_schema : schema :=
  list_to_map [("Group", Group_entity); ("Subject", Subject_entity);
               ("Student", Student_entity); ("Mark", Mark_entity)].
