(* ===== verification/Tables.v ===== *)
(** * Subqueries and table references (sqltranslation.py lines 533-665)

    A [Subquery] is a scope: a FROM list under construction, a list of
    conditions, a dictionary of table references by name path, alias
    counters copied from the parent scope, and an expression counter
    shared with every scope of the same translation.  A [TableRef] is a
    root qualifier [for x in Entity]; a [JoinedTableRef] is an attribute
    traversal that joins its parent lazily in [make_join].

    The Python objects reference each other (a joined table reference
    points to its parent, a subquery to its parent, a child subquery
    shares its parent's [count] object) and are mutated in place, so the
    model keeps them in a [store] of objects with identities: subqueries
    and table references in two [gmap]s, the expression counters in a
    third.  Every operation is a computation of [stm store]. *)

From S2P Require Import Prelude SqlAst Types Schema.

Inductive ref_kind :=
  | RootRef                          (** [TableRef] *)
  | JoinedRef (parent : nat) (a : attr). (** [JoinedTableRef(parent_tableref, attr)] *)

(** The fields of a table reference.  [tr_optimized] is [None] until a
    joined reference has been joined ([optimized = None] in
    [JoinedTableRef.__init__]); a root reference has no such field. *)
Record tableref := mkTableRef {
  tr_subquery : nat;
  tr_name_path : string;
  tr_alias : option string;
  tr_entity : string;
  tr_joined : bool;
  tr_optimized : option bool;
  tr_pk_columns : list string;
  tr_kind : ref_kind
}.

Record subquery := mkSubquery {
  sq_parent : option nat;
  sq_left_join : bool;
  sq_from_ast : list sx;
  sq_conditions : list sx;
  sq_tablerefs : gmap string nat;
  sq_alias_counters : gmap string nat;
  sq_expr_counter : nat   (** identity of the shared [count] object *)
}.

Record store := mkStore {
  st_subqueries : gmap nat subquery;
  st_tablerefs : gmap nat tableref;
  st_counters : gmap nat nat;   (** next value of each [count] object *)
  st_next : nat                 (** next object identity *)
}.

Definition empty_store : store := mkStore ∅ ∅ ∅ 0.

(** ** Field updates *)

Definition tr_set_join (alias : option string) (pk : list string) (opt : bool)
  (t : tableref) : tableref :=
  mkTableRef (tr_subquery t) (tr_name_path t) alias (tr_entity t) true (Some opt) pk (tr_kind t).

Definition tr_set_joined (t : tableref) : tableref :=
  mkTableRef (tr_subquery t) (tr_name_path t) (tr_alias t) (tr_entity t) true
             (tr_optimized t) (tr_pk_columns t) (tr_kind t).

Definition sq_set_from (f : list sx) (s : subquery) : subquery :=
  mkSubquery (sq_parent s) (sq_left_join s) f (sq_conditions s) (sq_tablerefs s)
             (sq_alias_counters s) (sq_expr_counter s).

Definition sq_set_conditions (c : list sx) (s : subquery) : subquery :=
  mkSubquery (sq_parent s) (sq_left_join s) (sq_from_ast s) c (sq_tablerefs s)
             (sq_alias_counters s) (sq_expr_counter s).

Definition sq_set_tablerefs (m : gmap string nat) (s : subquery) : subquery :=
  mkSubquery (sq_parent s) (sq_left_join s) (sq_from_ast s) (sq_conditions s) m
             (sq_alias_counters s) (sq_expr_counter s).

Definition sq_set_counters (m : gmap string nat) (s : subquery) : subquery :=
  mkSubquery (sq_parent s) (sq_left_join s) (sq_from_ast s) (sq_conditions s)
             (sq_tablerefs s) m (sq_expr_counter s).

Definition st_set_sq (j : nat) (s : subquery) (st : store) : store :=
  mkStore (<[j := s]> (st_subqueries st)) (st_tablerefs st) (st_counters st) (st_next st).

Definition st_set_tr (i : nat) (t : tableref) (st : store) : store :=
  mkStore (st_subqueries st) (<[i := t]> (st_tablerefs st)) (st_counters st) (st_next st).

(** ** Reading and writing objects *)

Definition get_tr (i : nat) : stm store tableref := λ st,
  match st_tablerefs st !! i with Some t => Ok (t, st) | None => Err (KeyError "tableref") end.

Definition get_sq (j : nat) : stm store subquery := λ st,
  match st_subqueries st !! j with Some s => Ok (s, st) | None => Err (KeyError "subquery") end.

Definition modify_tr (i : nat) (f : tableref → tableref) : stm store unit :=
  t ← get_tr i; smodify (st_set_tr i (f t)).

Definition modify_sq (j : nat) (f : subquery → subquery) : stm store unit :=
  s ← get_sq j; smodify (st_set_sq j (f s)).

(** [subquery.from_ast.append(x)] *)
Definition append_from (j : nat) (x : sx) : stm store unit :=
  modify_sq j (λ s, sq_set_from (sq_from_ast s ++ [x]) s).

(** [subquery.conditions.append(x)] and [subquery.conditions.insert(0, x)] *)
Definition append_cond (j : nat) (x : sx) : stm store unit :=
  modify_sq j (λ s, sq_set_conditions (sq_conditions s ++ [x]) s).
Definition prepend_cond (j : nat) (x : sx) : stm store unit :=
  modify_sq j (λ s, sq_set_conditions (x :: sq_conditions s) s).

(** A FROM entry [[alias, 'TABLE', table]] or [[alias, 'TABLE', table, on]]. *)
Definition table_entry (alias : option string) (table : string) (on : list sx) : sx :=
  SList ([alias_sx alias; SStr "TABLE"; SStr table] ++ on).

(** ** [Subquery] *)

(** [Subquery.__init__(parent_subquery, left_join)]: a fresh scope; a
    child copies the parent's alias counters and shares its expression
    counter, a root scope starts a new [count(1)]. *)
Definition new_subquery (parent : option nat) (left_join : bool) : stm store nat := λ st,
  let j := st_next st in
  let from := [SStr (if left_join then "LEFT_JOIN" else "FROM")] in
  match parent with
  | None =>
      Ok (j, mkStore (<[j := mkSubquery None left_join from [] ∅ ∅ j]> (st_subqueries st))
                     (st_tablerefs st) (<[j := 1]> (st_counters st)) (S j))
  | Some p =>
      match st_subqueries st !! p with
      | Some ps =>
          Ok (j, mkStore (<[j := mkSubquery (Some p) left_join from [] ∅
                                   (sq_alias_counters ps) (sq_expr_counter ps)]>
                            (st_subqueries st))
                         (st_tablerefs st) (st_counters st) (S j))
      | None => Err (KeyError "subquery")
      end
  end.

(** [Subquery.get_tableref(name_path)]: look the name path up in this
    scope, then in the enclosing ones.  The recursion follows the parent
    chain; [get_tableref] gives it the fuel [S j], enough because a parent
    scope is created before its children. *)
Fixpoint get_tableref_fuel (st : store) (fuel j : nat) (name_path : string)
  : result (option nat) :=
  match fuel with
  | O => Err OutOfFuel
  | S fuel' =>
      match st_subqueries st !! j with
      | None => Err (KeyError "subquery")
      | Some s =>
          match sq_tablerefs s !! name_path with
          | Some i => Ok (Some i)
          | None =>
              match sq_parent s with
              | Some p => get_tableref_fuel st fuel' p name_path
              | None => Ok None
              end
          end
      end
  end.

Definition get_tableref (st : store) (j : nat) (name_path : string) : result (option nat) :=
  get_tableref_fuel st (S j) j name_path.

(** [TableRef(subquery, name, entity)] registered as [tablerefs[name]]. *)
Definition new_root_tableref (j : nat) (name entity : string) : stm store nat := λ st,
  let i := st_next st in
  let t := mkTableRef j name (Some name) entity false None [] RootRef in
  match st_subqueries st !! j with
  | Some s =>
      Ok (i, mkStore (<[j := sq_set_tablerefs (<[name := i]> (sq_tablerefs s)) s]>
                        (st_subqueries st))
                     (<[i := t]> (st_tablerefs st)) (st_counters st) (S i))
  | None => Err (KeyError "subquery")
  end.

(** [JoinedTableRef(subquery, name_path, parent_tableref, attr)]
    registered as [tablerefs[name_path]]: [entity = attr.py_type] must be
    an entity. *)
Definition new_joined_tableref (j : nat) (name_path : string) (parent : nat) (a : attr)
  : stm store nat := λ st,
  let i := st_next st in
  match attr_py_type a with
  | TEntity e =>
      let t := mkTableRef j name_path None e false None [] (JoinedRef parent a) in
      match st_subqueries st !! j with
      | Some s =>
          Ok (i, mkStore (<[j := sq_set_tablerefs (<[name_path := i]> (sq_tablerefs s)) s]>
                            (st_subqueries st))
                         (<[i := t]> (st_tablerefs st)) (st_counters st) (S i))
      | None => Err (KeyError "subquery")
      end
  | _ => Err AssertionError
  end.

(** [Subquery.add_tableref(name_path, parent_tableref, attr)]. *)
Definition add_tableref (j : nat) (name_path : string) (parent : nat) (a : attr)
  : stm store nat :=
  s ← get_sq j;
  slift (assert_ (negb (bool_decide (is_Some (sq_tablerefs s !! name_path)))));;
  new_joined_tableref j name_path parent a.

(** ** Aliases *)

Definition max_alias_length : nat := 30.

(** Python 2 [str.lower()] on ASCII. *)
Definition ascii_lower (c : ascii) : ascii :=
  let n := nat_of_ascii c in
  if (65 <=? n) && (n <=? 90) then ascii_of_nat (n + 32) else c.
Definition str_lower (s : string) : string :=
  String.string_of_list_ascii (map ascii_lower (String.list_ascii_of_string s)).

(** The generated alias [name-i]. *)
Definition numbered_alias (name : string) (i : nat) : string := name +:+ "-" +:+ pretty i.

Section Aliases.
(** [options.SIMPLE_ALIASES] *)
Variable simple_aliases : bool.

(** The generating branch of [get_short_alias]: [i =
    alias_counters.setdefault(name, 0) + 1], [alias_counters[name] = i]. *)
Definition fresh_alias (j : nat) (entity_name : string) : stm store string :=
  s ← get_sq j;
  let name := str_lower (String.substring 0 (max_alias_length - 3) entity_name) in
  let i := default 0 (sq_alias_counters s !! name) + 1 in
  modify_sq j (sq_set_counters (<[name := i]> (sq_alias_counters s)));;
  mret (numbered_alias name i).

(** [Subquery.get_short_alias(name_path, entity_name)]; an empty or
    missing name path is false in [if name_path:]. *)
Definition get_short_alias (j : nat) (name_path : option string) (entity_name : string)
  : stm store string :=
  match name_path with
  | Some np =>
      if bool_decide (np = "") then fresh_alias j entity_name
      else if is_ident np then mret np
      else if negb simple_aliases && (String.length np <=? max_alias_length) then mret np
      else fresh_alias j entity_name
  | None => fresh_alias j entity_name
  end.
End Aliases.

(** ** [make_join] *)

Section Joins.
Variable sch : schema.
Variable simple_aliases : bool.

Definition has_discr (e : entity) : bool := bool_decide (is_Some (ent_discriminator e)).
Definition opt_true (o : option bool) : bool := bool_decide (o = Some true).

(** [TableRef.make_join(pk_only)] (lines 578-588). *)
Definition root_make_join (i : nat) : stm store (option string * list string) :=
  t ← get_tr i;
  e ← slift (get_entity sch (tr_entity t));
  (if tr_joined t then mret tt
   else
     append_from (tr_subquery t) (table_entry (tr_alias t) (ent_table e) []);;
     (if has_discr e then append_cond (tr_subquery t) (discr_criteria e (tr_alias t))
      else mret tt);;
     modify_tr i tr_set_joined);;
  mret (tr_alias t, ent_pk_columns e).

(** The common end of a join that emitted a FROM entry: the
    discriminator condition goes first, the reference records its alias
    and primary-key columns. *)
Definition finish_join (i : nat) (e : entity) (j : nat) (alias : string)
  : stm store (option string * list string) :=
  (if has_discr e then prepend_cond j (discr_criteria e (Some alias)) else mret tt);;
  modify_tr i (tr_set_join (Some alias) (ent_pk_columns e) false);;
  mret (Some alias, ent_pk_columns e).

(** A join on [left_columns] of [left_alias] against [right_columns] of
    a fresh alias for the reference's table. *)
Definition join_entity (i : nat) (e : entity) (left_alias : option string)
  (left_columns right_columns : list string) : stm store (option string * list string) :=
  t ← get_tr i;
  let j := tr_subquery t in
  alias ← get_short_alias simple_aliases j (Some (tr_name_path t)) (ent_name e);
  cond ← slift (join_tables left_alias (Some alias) left_columns right_columns);
  append_from j (table_entry (Some alias) (ent_table e) [cond]);;
  finish_join i e j alias.

(** The part of [JoinedTableRef.make_join] after the parent has been
    joined (lines 609-665): [parent_alias] and [left_pk_columns] are
    what the parent's [make_join] returned, [pk_only] is already
    cleared for an entity with a discriminator. *)
Definition joined_tail (i : nat) (e : entity) (a : attr) (pk_only : bool)
  (parent_alias : option string) (left_pk_columns : list string)
  : stm store (option string * list string) :=
  t ← get_tr i;
  let j := tr_subquery t in
  let pk_columns := ent_pk_columns e in
  if negb (attr_is_collection a) then
    if bool_decide (attr_columns a = []) then
      r ← slift (get_reverse sch a);
      slift (assert_ (negb (bool_decide (attr_columns r = [])) &&
                      negb (attr_is_collection r)));;
      join_entity i e parent_alias left_pk_columns (attr_columns r)
    else
      let left_columns :=
        match attr_pk_offset a with
        | Some _ => take (length (attr_columns a))
                         (drop (attr_pk_columns_offset a) left_pk_columns)
        | None => attr_columns a
        end in
      if pk_only then
        modify_tr i (tr_set_join parent_alias left_columns true);;
        mret (parent_alias, left_columns)
      else join_entity i e parent_alias left_columns pk_columns
  else
    r ← slift (get_reverse sch a);
    if negb (attr_is_collection r) then
      join_entity i e parent_alias left_pk_columns (attr_columns r)
    else
      let right_m2m_columns :=
        if attr_symmetric a && negb (bool_decide (attr_reverse_columns a = []))
        then attr_reverse_columns a else attr_columns a in
      if negb (tr_joined t) then
        m2m_alias ← get_short_alias simple_aliases j None "t";
        let reverse_columns :=
          if attr_symmetric a && negb (bool_decide (attr_columns a = []))
          then attr_columns a else attr_columns r in
        m2m_cond ← slift (join_tables parent_alias (Some m2m_alias)
                                       left_pk_columns reverse_columns);
        append_from j (table_entry (Some m2m_alias) (attr_table a) [m2m_cond]);;
        if pk_only then
          modify_tr i (tr_set_join (Some m2m_alias) right_m2m_columns true);;
          mret (Some m2m_alias, right_m2m_columns)
        else join_entity i e (Some m2m_alias) right_m2m_columns pk_columns
      else if opt_true (tr_optimized t) then
        slift (assert_ (negb pk_only));;
        join_entity i e (tr_alias t) right_m2m_columns pk_columns
      else sthrow (NameError "m2m_alias").

(** [JoinedTableRef.make_join(pk_only)] (lines 601-665), recursing on
    the parent reference (lines 601-608); the root case is
    [TableRef.make_join]. *)
Fixpoint make_join (fuel : nat) (i : nat) (pk_only : bool) {struct fuel}
  : stm store (option string * list string) :=
  match fuel with
  | O => sthrow OutOfFuel
  | S fuel' =>
    t ← get_tr i;
    match tr_kind t with
    | RootRef => root_make_join i
    | JoinedRef parent a =>
      e ← slift (get_entity sch (tr_entity t));
      let pk_only := pk_only && negb (has_discr e) in
      if tr_joined t && (pk_only || negb (opt_true (tr_optimized t)))
      then mret (tr_alias t, tr_pk_columns t)
      else
      let parent_pk_only := bool_decide (is_Some (attr_pk_offset a)) || attr_is_collection a in
      '(parent_alias, left_pk_columns) ← make_join fuel' parent parent_pk_only;
      joined_tail i e a pk_only parent_alias left_pk_columns
    end
  end.
End Joins.

(** ** The lifecycle of a table reference (specification, section 4.3)

    [Unjoined -> Joined] on the first [make_join]; [Unjoined ->
    Optimized] when the PK-only shortcut reuses the parent's alias;
    [Optimized -> Joined] when a later join needs the table itself. *)
Inductive phase := Unjoined | Optimized | Joined.

#[export] Instance phase_eq_dec : EqDecision phase.
Proof. solve_decision. Defined.

Definition phase_of (t : tableref) : phase :=
  if tr_joined t then (if opt_true (tr_optimized t) then Optimized else Joined) else Unjoined.

Inductive lc_step : phase → phase → Prop :=
  | lc_stay p : lc_step p p
  | lc_join : lc_step Unjoined Joined
  | lc_optimize : lc_step Unjoined Optimized
  | lc_deoptimize : lc_step Optimized Joined.

#[export] Hint Constructors lc_step : pony.

(** The fields a table reference never changes. *)
Definition tr_same (t t' : tableref) : Prop :=
  tr_kind t' = tr_kind t ∧ tr_entity t' = tr_entity t ∧
  tr_subquery t' = tr_subquery t ∧ tr_name_path t' = tr_name_path t.

(** How a scope may change during a join: FROM entries are only
    appended, conditions only added, alias counters only increased. *)
Definition sq_evolves (s s' : subquery) : Prop :=
  sq_parent s' = sq_parent s ∧ sq_left_join s' = sq_left_join s ∧
  sq_tablerefs s' = sq_tablerefs s ∧ sq_expr_counter s' = sq_expr_counter s ∧
  sq_from_ast s `prefix_of` sq_from_ast s' ∧
  sq_conditions s `sublist_of` sq_conditions s' ∧
  (∀ k v, sq_alias_counters s !! k = Some v →
          ∃ v', sq_alias_counters s' !! k = Some v' ∧ v ≤ v').

(** How the whole store may change during a join. *)
Record evolves (st st' : store) : Prop := {
  ev_next : st_next st' = st_next st;
  ev_counters : st_counters st' = st_counters st;
  ev_sq : ∀ j s, st_subqueries st !! j = Some s →
            ∃ s', st_subqueries st' !! j = Some s' ∧ sq_evolves s s';
  ev_sq_none : ∀ j, st_subqueries st !! j = None → st_subqueries st' !! j = None;
  ev_tr : ∀ i t, st_tablerefs st !! i = Some t →
            ∃ t', st_tablerefs st' !! i = Some t' ∧ tr_same t t' ∧
                  lc_step (phase_of t) (phase_of t');
  ev_tr_none : ∀ i, st_tablerefs st !! i = None → st_tablerefs st' !! i = None
}.

(** Only table reference [i] may have changed. *)
Definition only_tr (i : nat) (st st' : store) : Prop :=
  ∀ k, k ≠ i → st_tablerefs st' !! k = st_tablerefs st !! k.

(** Every joined table reference points to a parent allocated before it,
    every scope to an enclosing scope allocated before it, and every
    identity in use is below [st_next]. *)
Record wf_store (st : store) : Prop := {
  wf_tr_parent : ∀ i t p a, st_tablerefs st !! i = Some t → tr_kind t = JoinedRef p a → p < i;
  wf_sq_parent : ∀ j s p, st_subqueries st !! j = Some s → sq_parent s = Some p → p < j;
  wf_tr_next : ∀ i t, st_tablerefs st !! i = Some t → i < st_next st;
  wf_sq_next : ∀ j s, st_subqueries st !! j = Some s → j < st_next st
}.

(** ** Lemmas on the lifecycle and on store evolution *)

Lemma lc_step_trans p q r : lc_step p q → lc_step q r → lc_step p r.
Proof. intros H1 H2. inversion H1; subst; inversion H2; subst; auto with pony. Qed.

Lemma lc_step_joined p : lc_step p Joined.
Proof. destruct p; auto with pony. Qed.

#[export] Hint Resolve lc_step_joined : pony.

Lemma sq_evolves_refl s : sq_evolves s s.
Proof. repeat split; try done. intros k v Hk. eauto. Qed.

Lemma sq_evolves_trans s1 s2 s3 : sq_evolves s1 s2 → sq_evolves s2 s3 → sq_evolves s1 s3.
Proof.
  intros (?&?&?&?&Hp1&Hc1&Hk1) (?&?&?&?&Hp2&Hc2&Hk2). repeat split; try congruence.
  - by etrans.
  - by etrans.
  - intros k v Hk. destruct (Hk1 k v Hk) as (v1 & Hv1 & ?).
    destruct (Hk2 k v1 Hv1) as (v2 & ? & ?). exists v2. split; [done | lia].
Qed.

Lemma tr_same_refl t : tr_same t t.
Proof. done. Qed.

Lemma tr_same_trans t1 t2 t3 : tr_same t1 t2 → tr_same t2 t3 → tr_same t1 t3.
Proof. intros (?&?&?&?) (?&?&?&?). repeat split; congruence. Qed.

#[export] Hint Resolve sq_evolves_refl tr_same_refl : pony.

Lemma evolves_refl st : evolves st st.
Proof. constructor; try done; intros; eauto 6 with pony. Qed.

Lemma evolves_trans st1 st2 st3 : evolves st1 st2 → evolves st2 st3 → evolves st1 st3.
Proof.
  intros [N1 C1 Hs1 Hn1 Ht1 Hm1] [N2 C2 Hs2 Hn2 Ht2 Hm2]. constructor.
  - congruence.
  - congruence.
  - intros j s Hj. destruct (Hs1 j s Hj) as (s' & Hj' & E1).
    destruct (Hs2 j s' Hj') as (s'' & ? & E2). exists s''. split; [done|].
    by eapply sq_evolves_trans.
  - intros j Hj. by apply Hn2, Hn1.
  - intros i t Hi. destruct (Ht1 i t Hi) as (t' & Hi' & E1 & L1).
    destruct (Ht2 i t' Hi') as (t'' & ? & E2 & L2). exists t''.
    split; [done|]. split; [by eapply tr_same_trans | by eapply lc_step_trans].
  - intros i Hi. by apply Hm2, Hm1.
Qed.

Lemma only_tr_trans i st1 st2 st3 : only_tr i st1 st2 → only_tr i st2 st3 → only_tr i st1 st3.
Proof. intros H1 H2 k Hk. by rewrite H2, H1. Qed.

#[export] Hint Resolve evolves_refl : pony.

(** ** Effects of the primitive operations *)

Lemma get_tr_inv i st t st' : get_tr i st = Ok (t, st') → st' = st ∧ st_tablerefs st !! i = Some t.
Proof. unfold get_tr. destruct (st_tablerefs st !! i); intros H; simpl_res; done. Qed.

Lemma get_tr_lookup i st t : st_tablerefs st !! i = Some t → get_tr i st = Ok (t, st).
Proof. intros H. unfold get_tr. by rewrite H. Qed.

Lemma bind_get_tr {A} i st t (f : tableref → stm store A) :
  st_tablerefs st !! i = Some t → (x ← get_tr i; f x) st = f t st.
Proof. intros H. rewrite stm_bind_unfold. unfold get_tr. by rewrite H. Qed.

Lemma get_sq_inv j st s st' : get_sq j st = Ok (s, st') → st' = st ∧ st_subqueries st !! j = Some s.
Proof. unfold get_sq. destruct (st_subqueries st !! j); intros H; simpl_res; done. Qed.

Lemma slift_inv {A} (r : result A) (st : store) a st' : slift r st = Ok (a, st') → st' = st ∧ r = Ok a.
Proof. unfold slift. destruct r; intros H; simpl_res; done. Qed.

Lemma modify_sq_ok j f st u st' :
  (∀ s, st_subqueries st !! j = Some s → sq_evolves s (f s)) → modify_sq j f st = Ok (u, st') →
  evolves st st' ∧ st_tablerefs st' = st_tablerefs st.
Proof.
  intros Hf H. unfold modify_sq in H. apply stm_bind_Ok_inv in H as (s & s1 & Hg & H).
  apply get_sq_inv in Hg as [-> Hs]. cbv [smodify] in H. simpl_res. split; [|done].
  constructor; simpl; try done.
  - intros j' s' Hj'. destruct (decide (j = j')) as [<-|Hne].
    + rewrite lookup_insert_eq. rewrite Hs in Hj'. injection Hj' as <-.
      exists (f s). split; [done | by apply Hf].
    + rewrite lookup_insert_ne by done. eauto with pony.
  - intros j' Hj'. rewrite lookup_insert_ne; [done|]. congruence.
  - intros i t Ht. eauto with pony.
Qed.

Lemma modify_tr_ok i f st u st' :
  (∀ t, st_tablerefs st !! i = Some t → tr_same t (f t) ∧ lc_step (phase_of t) (phase_of (f t))) →
  modify_tr i f st = Ok (u, st') →
  evolves st st' ∧ only_tr i st st' ∧ st_tablerefs st' !! i = f <$> st_tablerefs st !! i.
Proof.
  intros Hf H. unfold modify_tr in H. apply stm_bind_Ok_inv in H as (t & s1 & Hg & H).
  apply get_tr_inv in Hg as [-> Ht]. cbv [smodify] in H. simpl_res.
  split; [|split].
  - constructor; simpl; try done; [intros; eauto with pony| |].
    + intros i' t' Hi'. destruct (decide (i = i')) as [<-|Hne].
      * rewrite lookup_insert_eq. rewrite Ht in Hi'. injection Hi' as <-.
        destruct (Hf t Ht). exists (f t). done.
      * rewrite lookup_insert_ne by done. eauto with pony.
    + intros i' Hi'. rewrite lookup_insert_ne; [done|]. congruence.
  - intros k Hk. simpl. by rewrite lookup_insert_ne.
  - simpl. by rewrite lookup_insert_eq, Ht.
Qed.

(** Operations that touch one scope and no table reference. *)
Definition sq_step (st st' : store) : Prop :=
  evolves st st' ∧ st_tablerefs st' = st_tablerefs st.

Lemma sq_step_trans st1 st2 st3 : sq_step st1 st2 → sq_step st2 st3 → sq_step st1 st3.
Proof. intros [E1 T1] [E2 T2]. split; [by eapply evolves_trans | congruence]. Qed.

Lemma counters_le_refl (m : gmap string nat) :
  ∀ k v, m !! k = Some v → ∃ v', m !! k = Some v' ∧ v ≤ v'.
Proof. intros k v Hk. eauto. Qed.

Lemma sq_set_from_evolves s f : sq_from_ast s `prefix_of` f → sq_evolves s (sq_set_from f s).
Proof. intros H. repeat split; simpl; try done. apply counters_le_refl. Qed.

Lemma sq_set_conditions_evolves s c :
  sq_conditions s `sublist_of` c → sq_evolves s (sq_set_conditions c s).
Proof. intros H. repeat split; simpl; try done. apply counters_le_refl. Qed.

Lemma sq_set_counters_evolves s m :
  (∀ k v, sq_alias_counters s !! k = Some v → ∃ v', m !! k = Some v' ∧ v ≤ v') →
  sq_evolves s (sq_set_counters m s).
Proof. intros H. repeat split; simpl; try done. Qed.

Lemma append_from_ok j x st u st' : append_from j x st = Ok (u, st') → sq_step st st'.
Proof. apply modify_sq_ok. intros s _. apply sq_set_from_evolves. by exists [x]. Qed.

Lemma append_cond_ok j x st u st' : append_cond j x st = Ok (u, st') → sq_step st st'.
Proof. apply modify_sq_ok. intros s _. by apply sq_set_conditions_evolves, sublist_inserts_r. Qed.

Lemma prepend_cond_ok j x st u st' : prepend_cond j x st = Ok (u, st') → sq_step st st'.
Proof. apply modify_sq_ok. intros s _. by apply sq_set_conditions_evolves, sublist_cons. Qed.

(** The alias prefix of an entity: its name cut to 27 characters, in
    lower case. *)
Definition alias_prefix (entity_name : string) : string :=
  str_lower (String.substring 0 (max_alias_length - 3) entity_name).

Lemma fresh_alias_spec j e st a st' :
  fresh_alias j e st = Ok (a, st') →
  ∃ s, st_subqueries st !! j = Some s ∧
       let c := default 0 (sq_alias_counters s !! alias_prefix e) in
       a = numbered_alias (alias_prefix e) (c + 1) ∧
       st' = st_set_sq j (sq_set_counters (<[alias_prefix e := c + 1]> (sq_alias_counters s)) s) st.
Proof.
  unfold fresh_alias. intros H. apply stm_bind_Ok_inv in H as (s & s1 & Hg & H).
  apply get_sq_inv in Hg as [-> Hs]. apply stm_bind_Ok_inv in H as (u & s2 & Hm & H).
  cbv [mret stm_ret] in H. simpl_res. exists s. split; [done|]. split; [done|].
  unfold modify_sq in Hm. apply stm_bind_Ok_inv in Hm as (s' & s3 & Hg & Hm).
  apply get_sq_inv in Hg as [-> Hs']. rewrite Hs in Hs'. injection Hs' as <-.
  cbv [smodify] in Hm. by simpl_res.
Qed.

Lemma fresh_alias_ok j e st a st' : fresh_alias j e st = Ok (a, st') → sq_step st st'.
Proof.
  intros H. pose proof H as Hspec. apply fresh_alias_spec in Hspec as (s & Hs & _ & _).
  unfold fresh_alias in H. apply stm_bind_Ok_inv in H as (s' & s1 & Hg & H).
  apply get_sq_inv in Hg as [-> Hs']. rewrite Hs in Hs'. injection Hs' as <-.
  apply stm_bind_Ok_inv in H as (u & s2 & Hm & H). cbv [mret stm_ret] in H. simpl_res.
  revert Hm. apply modify_sq_ok. intros s' Hs'. rewrite Hs in Hs'. injection Hs' as <-.
  apply sq_set_counters_evolves. intros k v Hk.
  destruct (decide (k = str_lower (String.substring 0 (max_alias_length - 3) e))) as [->|Hne].
  - rewrite lookup_insert_eq, Hk. simpl. eexists; split; [done | lia].
  - rewrite lookup_insert_ne by done. eauto.
Qed.

Lemma get_short_alias_ok sa j np e st a st' :
  get_short_alias sa j np e st = Ok (a, st') → sq_step st st'.
Proof.
  unfold get_short_alias. intros H.
  repeat (case_match; try (by apply fresh_alias_ok in H));
    cbv [mret stm_ret] in H; simpl_res; split; auto with pony.
Qed.

Lemma phase_of_set_join a p o t : phase_of (tr_set_join a p o t) = if o then Optimized else Joined.
Proof. by destruct o. Qed.

Lemma tr_same_set_join a p o t : tr_same t (tr_set_join a p o t).
Proof. done. Qed.

#[export] Hint Resolve tr_same_set_join : pony.

Section JoinProofs.
Variable sch : schema.
Variable sa : bool.

(** What a successful [make_join(pk_only)] leaves behind: the table
    reference is joined, and a second call would hit the cache and
    return the same pair. *)
Definition joined_post (i : nat) (pk_only : bool) (r : option string * list string)
  (st : store) : Prop :=
  ∃ t e, st_tablerefs st !! i = Some t ∧ sch !! tr_entity t = Some e ∧ tr_joined t = true ∧
    match tr_kind t with
    | RootRef => r = (tr_alias t, ent_pk_columns e)
    | JoinedRef _ _ =>
        r = (tr_alias t, tr_pk_columns t) ∧
        (opt_true (tr_optimized t) = true → pk_only && negb (has_discr e) = true)
    end.

Lemma get_entity_inv n e : get_entity sch n = Ok e → sch !! n = Some e.
Proof. unfold get_entity. destruct (sch !! n); intros H; simpl_res; done. Qed.

Lemma set_join_ok i e a p o b st u st' :
  (∃ t, st_tablerefs st !! i = Some t ∧ sch !! tr_entity t = Some e ∧
        (tr_kind t = RootRef → p = ent_pk_columns e) ∧
        (o = true → tr_joined t = false ∧ b && negb (has_discr e) = true)) →
  modify_tr i (tr_set_join a p o) st = Ok (u, st') →
  evolves st st' ∧ only_tr i st st' ∧ joined_post i b (a, p) st'.
Proof.
  intros (t & Ht & He & Hr & Ho) H. apply modify_tr_ok in H as (E & O & L).
  - split; [done|]. split; [done|]. rewrite Ht in L. simpl in L.
    exists (tr_set_join a p o t), e. split; [done|]. split; [done|]. split; [done|].
    simpl. destruct (tr_kind t); [by rewrite Hr|]. split; [done|].
    destruct o; [intros _; by apply Ho | discriminate].
  - intros t0 Ht0. rewrite Ht in Ht0. injection Ht0 as <-. split; [done|].
    rewrite phase_of_set_join. destruct o; [|apply lc_step_joined].
    unfold phase_of. rewrite (proj1 (Ho eq_refl)). constructor.
Qed.

Lemma finish_join_ok i e j alias b st r st' :
  (∃ t, st_tablerefs st !! i = Some t ∧ sch !! tr_entity t = Some e) →
  finish_join i e j alias st = Ok (r, st') →
  evolves st st' ∧ only_tr i st st' ∧ joined_post i b r st'.
Proof.
  intros (t & Ht & He) H. unfold finish_join in H.
  apply stm_bind_Ok_inv in H as (u & s1 & H1 & H).
  assert (Hs1 : sq_step st s1).
  { destruct (has_discr e); [by eapply prepend_cond_ok|].
    cbv [mret stm_ret] in H1. simpl_res. split; auto with pony. }
  destruct Hs1 as [E1 T1].
  apply stm_bind_Ok_inv in H as (u' & s2 & H2 & H). cbv [mret stm_ret] in H. simpl_res.
  apply (set_join_ok i e _ _ false b) in H2 as (E2 & O2 & P2);
    [|rewrite T1; exists t; repeat split; done].
  split; [by eapply evolves_trans|]. split; [|done].
  intros k Hk. rewrite O2 by done. by rewrite T1.
Qed.

Lemma join_entity_ok i e la lc rc b st r st' :
  (∃ t, st_tablerefs st !! i = Some t ∧ sch !! tr_entity t = Some e) →
  join_entity sa i e la lc rc st = Ok (r, st') →
  evolves st st' ∧ only_tr i st st' ∧ joined_post i b r st'.
Proof.
  intros Hi H. unfold join_entity in H.
  apply stm_bind_Ok_inv in H as (t & s0 & Hg & H). apply get_tr_inv in Hg as [-> _].
  apply stm_bind_Ok_inv in H as (al & s1 & H1 & H). apply get_short_alias_ok in H1 as [E1 T1].
  apply stm_bind_Ok_inv in H as (c & s2 & H2 & H). apply slift_inv in H2 as [-> _].
  apply stm_bind_Ok_inv in H as (u & s3 & H3 & H). apply append_from_ok in H3 as [E3 T3].
  apply (finish_join_ok _ _ _ _ b) in H as (E4 & O4 & P4); [|by rewrite T3, T1].
  split; [by do 2 (eapply evolves_trans; [eassumption|])|]. split; [|done].
  intros k Hk. rewrite O4, T3, T1 by done. done.
Qed.

Lemma sq_step_then i st s1 st' (P : store → Prop) :
  sq_step st s1 → evolves s1 st' ∧ only_tr i s1 st' ∧ P st' →
  evolves st st' ∧ only_tr i st st' ∧ P st'.
Proof.
  intros [E1 T1] (E2 & O2 & P2). split; [by eapply evolves_trans|]. split; [|done].
  intros k Hk. by rewrite O2, T1.
Qed.

Lemma root_make_join_ok i t b st r st' :
  st_tablerefs st !! i = Some t → tr_kind t = RootRef →
  root_make_join sch i st = Ok (r, st') →
  evolves st st' ∧ only_tr i st st' ∧ joined_post i b r st'.
Proof.
  intros Ht Hk H. unfold root_make_join in H.
  apply stm_bind_Ok_inv in H as (t0 & s0 & Hg & H). apply get_tr_inv in Hg as [-> Ht0].
  rewrite Ht in Ht0. injection Ht0 as <-.
  apply stm_bind_Ok_inv in H as (e & s1 & He & H). apply slift_inv in He as [-> He].
  apply get_entity_inv in He.
  apply stm_bind_Ok_inv in H as (u & s2 & H2 & H). cbv [mret stm_ret] in H. simpl_res.
  destr_if H2.
  - cbv [mret stm_ret] in H2. simpl_res. split; [apply evolves_refl|].
    split; [done|]. exists t, e. by rewrite Hk.
  - apply stm_bind_Ok_inv in H2 as (u1 & s3 & H3 & H2). apply append_from_ok in H3.
    apply stm_bind_Ok_inv in H2 as (u2 & s4 & H4 & H2).
    assert (Hs4 : sq_step s3 s4).
    { destr_if H4; [by eapply append_cond_ok|]. cbv [mret stm_ret] in H4. simpl_res.
      split; auto with pony. }
    pose proof (sq_step_trans _ _ _ H3 Hs4) as [E4 T4].
    apply modify_tr_ok in H2 as (E5 & O5 & L5).
    + split; [by eapply evolves_trans|]. split; [intros k Hk'; by rewrite O5, T4|].
      rewrite T4, Ht in L5. exists (tr_set_joined t), e. simpl. by rewrite Hk.
    + rewrite T4, Ht. intros t0 Ht0. injection Ht0 as <-. split; [done|].
      unfold phase_of at 1. rewrite Hif. unfold phase_of. simpl.
      destruct (opt_true (tr_optimized t)); constructor.
Qed.

Lemma joined_tail_ok i t p a e pk b pa lpk st r st' :
  st_tablerefs st !! i = Some t → tr_kind t = JoinedRef p a → sch !! tr_entity t = Some e →
  pk = b && negb (has_discr e) →
  tr_joined t && (pk || negb (opt_true (tr_optimized t))) = false →
  joined_tail sch sa i e a pk pa lpk st = Ok (r, st') →
  evolves st st' ∧ only_tr i st st' ∧ joined_post i b r st'.
Proof.
  intros Ht Hk He Hpk Hc H. unfold joined_tail in H.
  apply stm_bind_Ok_inv in H as (t0 & s0 & Hg & H). apply get_tr_inv in Hg as [-> Ht0].
  rewrite Ht in Ht0. injection Ht0 as <-.
  assert (Hte : ∃ t0, st_tablerefs st !! i = Some t0 ∧ sch !! tr_entity t0 = Some e) by eauto.
  destr_if H as Hcol.
  - destr_if H as Hnil.
    + apply stm_bind_Ok_inv in H as (rv & s1 & H1 & H). apply slift_inv in H1 as [-> _].
      apply stm_bind_Ok_inv in H as (u & s2 & H2 & H). apply slift_inv in H2 as [-> _].
      by eapply join_entity_ok.
    + destr_if H as Hpk1; [|by eapply join_entity_ok].
      apply stm_bind_Ok_inv in H as (u & s2 & H2 & H). cbv [mret stm_ret] in H. simpl_res.
      eapply set_join_ok; [|done]. exists t. split; [done|]. split; [done|].
      split; [by rewrite Hk|]. intros _. split; [|by rewrite <- Hpk].
      by destruct (tr_joined t).
  - apply stm_bind_Ok_inv in H as (rv & s1 & H1 & H). apply slift_inv in H1 as [-> _].
    destr_if H as Hrc; [by eapply join_entity_ok|].
    destr_if H as Hj.
    + apply stm_bind_Ok_inv in H as (m & s2 & H2 & H). apply get_short_alias_ok in H2.
      apply stm_bind_Ok_inv in H as (c & s3 & H3 & H). apply slift_inv in H3 as [-> _].
      apply stm_bind_Ok_inv in H as (u & s4 & H4 & H). apply append_from_ok in H4.
      pose proof (sq_step_trans _ _ _ H2 H4) as Hs. eapply sq_step_then; [exact Hs|].
      destruct Hs as [_ T]. destr_if H as Hpk2; [|eapply join_entity_ok; [rewrite T; exact Hte | exact H]].
      apply stm_bind_Ok_inv in H as (u' & s5 & H5 & H). cbv [mret stm_ret] in H. simpl_res.
      eapply set_join_ok; [|done]. exists t. rewrite T. split; [done|]. split; [done|].
      split; [by rewrite Hk|]. intros _. split; [by apply negb_true_iff|by rewrite <- Hpk].
    + destr_if H as Ho; [|discriminate].
      apply stm_bind_Ok_inv in H as (u & s2 & H2 & H). apply slift_inv in H2 as [-> _].
      by eapply join_entity_ok.
Qed.
End JoinProofs.

Section MakeJoinTheorems.
Variable sch : schema.
Variable sa : bool.

(** The effect of [make_join] on the store: it only evolves the store,
    it leaves alone every table reference allocated after [i], and it
    leaves [i] joined. *)
Lemma make_join_effect fuel : ∀ i b st r st',
  wf_store st → make_join sch sa fuel i b st = Ok (r, st') →
  evolves st st' ∧ (∀ k, i < k → st_tablerefs st' !! k = st_tablerefs st !! k) ∧
  joined_post sch i b r st'.
Proof.
  induction fuel as [|fuel IH]; intros i b st r st' Hwf H; [discriminate|].
  cbn [make_join] in H.
  apply stm_bind_Ok_inv in H as (t & s0 & Hg & H). apply get_tr_inv in Hg as [-> Ht].
  destruct (tr_kind t) as [|p a] eqn:Hk.
  - apply (root_make_join_ok _ _ t b) in H as (E & O & P); [|done|done].
    split; [done|]. split; [|done]. intros k Hik. apply O. lia.
  - apply stm_bind_Ok_inv in H as (e & s1 & He & H). apply slift_inv in He as [-> He].
    apply get_entity_inv in He.
    destr_if H as Hc.
    + cbv [mret stm_ret] in H. simpl_res. split; [apply evolves_refl|]. split; [done|].
      apply andb_prop in Hc as [Hj Hc]. exists t, e. rewrite Hk.
      repeat split; try done. intros Ho. rewrite Ho in Hc. by destruct (_ && _).
    + apply stm_bind_Ok_inv in H as ([pa lpk] & s1 & Hp & H).
      assert (Hpi : p < i) by (eapply wf_tr_parent; eauto).
      apply IH in Hp as (E1 & U1 & _); [|done].
      eapply joined_tail_ok in H as (E2 & O2 & P2); [| rewrite U1; [exact Ht | lia]
                                                    | exact Hk | exact He | done | exact Hc].
      split; [by eapply evolves_trans|]. split; [|done].
      intros k Hik. rewrite O2 by lia. apply U1. lia.
Qed.

(** A second call finds the reference joined and returns the cached
    pair without touching the store. *)
Lemma joined_post_hit fuel i b r st :
  joined_post sch i b r st → make_join sch sa (S fuel) i b st = Ok (r, st).
Proof.
  intros (t & e & Ht & He & Hj & M). cbn [make_join].
  rewrite stm_bind_unfold. unfold get_tr at 1. rewrite Ht.
  destruct (tr_kind t) as [|p a] eqn:Hk.
  - unfold root_make_join. rewrite stm_bind_unfold. unfold get_tr at 1. rewrite Ht.
    rewrite stm_bind_unfold. unfold slift at 1, get_entity at 1. rewrite He, Hj. by subst r.
  - rewrite stm_bind_unfold. unfold slift at 1, get_entity at 1. rewrite He, Hj.
    destruct M as [-> Ho]. simpl.
    destruct (opt_true (tr_optimized t)) eqn:Hop; simpl; [by rewrite Ho|].
    by rewrite orb_true_r.
Qed.

Lemma evolves_wf st st' : evolves st st' → wf_store st → wf_store st'.
Proof.
  intros [N C Hs Hsn Ht Htn] [W1 W2 W3 W4]. constructor.
  - intros i t' p a Hi Hk. destruct (st_tablerefs st !! i) as [t|] eqn:Ei; [|by rewrite Htn in Hi].
    destruct (Ht i t Ei) as (t'' & Hi' & (Hk' & _) & _). rewrite Hi in Hi'. injection Hi' as <-.
    apply (W1 i t p a); [done | congruence].
  - intros j s' p Hj Hp. destruct (st_subqueries st !! j) as [s|] eqn:Ej; [|by rewrite Hsn in Hj].
    destruct (Hs j s Ej) as (s'' & Hj' & (Hp' & _)). rewrite Hj in Hj'. injection Hj' as <-.
    apply (W2 j s p); [done | congruence].
  - intros i t' Hi. destruct (st_tablerefs st !! i) as [t|] eqn:Ei; [|by rewrite Htn in Hi].
    rewrite N. eauto.
  - intros j s' Hj. destruct (st_subqueries st !! j) as [s|] eqn:Ej; [|by rewrite Hsn in Hj].
    rewrite N. eauto.
Qed.

(** C2: [make_join] is idempotent: once a call has succeeded, the same
    call again returns the same alias and columns and changes nothing
    (specification, section 8). *)
Theorem make_join_idempotent fuel fuel' i b st r st' :
  wf_store st → make_join sch sa fuel i b st = Ok (r, st') →
  make_join sch sa (S fuel') i b st' = Ok (r, st').
Proof.
  intros Hwf H. apply make_join_effect in H as (_ & _ & P); [|done].
  by apply joined_post_hit.
Qed.

(** C15: [make_join] refines the lifecycle of the specification: every
    table reference of the store makes one step of [lc_step]
    (Unjoined -> Joined, Unjoined -> Optimized, Optimized -> Joined, or
    stays), and keeps its kind, entity, scope and name path. *)
Theorem make_join_lifecycle fuel i b st r st' :
  wf_store st → make_join sch sa fuel i b st = Ok (r, st') →
  ∀ k t, st_tablerefs st !! k = Some t →
    ∃ t', st_tablerefs st' !! k = Some t' ∧ tr_same t t' ∧ lc_step (phase_of t) (phase_of t').
Proof. intros Hwf H. apply make_join_effect in H as ([_ _ _ _ Ht _] & _); [exact Ht | done]. Qed.

(** [make_join] only appends to the FROM lists and only adds
    conditions: no FROM entry is removed or reordered, in any scope,
    and the store keeps its well-formedness invariant. *)
Theorem make_join_from_grows fuel i b st r st' :
  wf_store st → make_join sch sa fuel i b st = Ok (r, st') →
  wf_store st' ∧
  ∀ j s, st_subqueries st !! j = Some s →
    ∃ s', st_subqueries st' !! j = Some s' ∧
          sq_from_ast s `prefix_of` sq_from_ast s' ∧
          sq_conditions s `sublist_of` sq_conditions s'.
Proof.
  intros Hwf H. apply make_join_effect in H as (E & _); [|done].
  split; [by eapply evolves_wf|].
  intros j s Hj. destruct (ev_sq _ _ E j s Hj) as (s' & Hj' & (_&_&_&_&Hp&Hc&_)). eauto.
Qed.

(** ** Enough fuel *)

Definition no_oof {A} (c : stm store A) : Prop := ∀ st, c st ≠ Err OutOfFuel.

Lemma no_oof_bind {A B} (c : stm store A) (f : A → stm store B) :
  no_oof c → (∀ a, no_oof (f a)) → no_oof (x ← c; f x).
Proof.
  intros Hc Hf st. rewrite stm_bind_unfold.
  destruct (c st) as [[a s']|e] eqn:E; [apply Hf|]. intros [= ->]. by apply (Hc st).
Qed.

Lemma no_oof_slift {A} (r : result A) : r ≠ Err OutOfFuel → no_oof (slift r).
Proof. intros Hr st. unfold slift. destruct r; [done|]. congruence. Qed.

Lemma no_oof_ret {A} (a : A) : no_oof (mret a).
Proof. done. Qed.

Lemma no_oof_get_tr i : no_oof (get_tr i).
Proof. intros st. unfold get_tr. by destruct (_ !! _). Qed.

Lemma no_oof_get_sq j : no_oof (get_sq j).
Proof. intros st. unfold get_sq. by destruct (_ !! _). Qed.

Lemma no_oof_smodify f : no_oof (smodify f).
Proof. done. Qed.

Lemma no_oof_get_short_alias j np e : no_oof (get_short_alias sa j np e).
Proof.
  unfold get_short_alias, fresh_alias, modify_sq.
  repeat first [apply no_oof_bind; [|intros ?] | progress case_match];
    auto using no_oof_get_sq, no_oof_smodify, no_oof_ret.
Qed.

Lemma flatten_items_no_oof op l : flatten_items op l ≠ Err OutOfFuel.
Proof.
  induction l as [|x l IH]; simpl; [done|].
  destruct (flatten_item op x) eqn:Ex; simpl.
  - destruct (flatten_items op l); [discriminate | exact IH].
  - intros [= ->]. revert Ex. unfold flatten_item. repeat case_match; congruence.
Qed.

Lemma join_tables_no_oof a1 a2 c1 c2 : join_tables a1 a2 c1 c2 ≠ Err OutOfFuel.
Proof.
  unfold join_tables. destruct (length c1 =? length c2); [|done]. simpl.
  unfold sqland, sql_connective. repeat case_match; try done.
  destruct (flatten_items _ _) as [p|e] eqn:E; [done|]. simpl. intros [= ->].
  exact (flatten_items_no_oof _ _ E).
Qed.

Lemma get_reverse_no_oof a : get_reverse sch a ≠ Err OutOfFuel.
Proof.
  unfold get_reverse. destruct (attr_reverse a) as [[en an]|]; [|discriminate].
  unfold get_entity. destruct (sch !! en); [|discriminate]. cbn.
  destruct (find_attr _ _); discriminate.
Qed.

Ltac solve_no_oof :=
  repeat first
    [ apply no_oof_bind; [|intros ?]
    | apply no_oof_slift
    | progress case_match
    | apply join_tables_no_oof | apply get_reverse_no_oof
    | progress unfold get_entity, assert_, modify_tr, modify_sq, append_from,
        append_cond, prepend_cond, finish_join, join_entity, sthrow
    | solve [auto using no_oof_ret, no_oof_get_tr, no_oof_get_sq, no_oof_smodify,
                        no_oof_get_short_alias] ];
  try done.

Lemma root_make_join_no_oof i : no_oof (root_make_join sch i).
Proof. unfold root_make_join. solve_no_oof. Qed.

Lemma joined_tail_no_oof i e a pk pa lpk : no_oof (joined_tail sch sa i e a pk pa lpk).
Proof. unfold joined_tail. solve_no_oof. Qed.

(** C6: [make_join] terminates: on a well-formed store the fuel [S i]
    given to table reference [i] is never exhausted, because the
    recursion follows parents with smaller identities. *)
Theorem make_join_enough_fuel fuel i b st :
  wf_store st → i < fuel → make_join sch sa fuel i b st ≠ Err OutOfFuel.
Proof.
  revert i b. induction fuel as [|fuel IH]; intros i b Hwf Hi; [lia|].
  cbn [make_join]. rewrite stm_bind_unfold.
  destruct (get_tr i st) as [[t s0]|e] eqn:Hg; 
    [|intros Heq; injection Heq as ->; by apply (no_oof_get_tr i st)].
  apply get_tr_inv in Hg as [-> Ht].
  destruct (tr_kind t) as [|p a] eqn:Hk; [apply root_make_join_no_oof|].
  rewrite stm_bind_unfold. unfold slift at 1.
  destruct (get_entity sch (tr_entity t)) as [e|e] eqn:He;
    [|intros [= ->]; revert He; unfold get_entity; case_match; discriminate].
  case_match; [done|]. rewrite stm_bind_unfold.
  assert (Hp : p < i) by (eapply wf_tr_parent; eauto).
  destruct (make_join sch sa fuel p _ st) as [[[pa lpk] s1]|e'] eqn:Hm;
    [apply joined_tail_no_oof|].
  intros [= ->]. exact (IH p _ Hwf ltac:(lia) Hm).
Qed.

(** the PK-only shortcut.  When a table reference reached through a
    foreign key stored in its parent's row (a non-collection attribute
    with columns) is joined with [pk_only] and its parent is an already
    joined root, [make_join] adds no FROM entry and no alias: it
    returns the parent's alias with the foreign-key columns and only
    records the reference as optimized (specification, section 8). *)
Theorem make_join_pk_only_shortcut fuel i t p a e tp ep st :
  st_tablerefs st !! i = Some t → tr_kind t = JoinedRef p a → tr_joined t = false →
  sch !! tr_entity t = Some e → has_discr e = false →
  attr_is_collection a = false → attr_columns a ≠ [] →
  st_tablerefs st !! p = Some tp → tr_kind tp = RootRef → tr_joined tp = true →
  sch !! tr_entity tp = Some ep →
  let left_columns :=
    match attr_pk_offset a with
    | Some _ => take (length (attr_columns a))
                     (drop (attr_pk_columns_offset a) (ent_pk_columns ep))
    | None => attr_columns a
    end in
  make_join sch sa (S (S fuel)) i true st =
    Ok ((tr_alias tp, left_columns),
        st_set_tr i (tr_set_join (tr_alias tp) left_columns true t) st).
Proof.
  intros Ht Hk Hj He Hd Hc Hn Htp Hkp Hjp Hep left_columns.
  cbn [make_join]. rewrite stm_bind_unfold. unfold get_tr at 1. rewrite Ht, Hk.
  rewrite stm_bind_unfold. unfold slift at 1, get_entity at 1. rewrite He, Hd, Hj.
  cbn [andb orb negb]. rewrite stm_bind_unfold, stm_bind_unfold.
  unfold get_tr at 1. rewrite Htp, Hkp. unfold root_make_join.
  rewrite stm_bind_unfold. unfold get_tr at 1. rewrite Htp.
  rewrite stm_bind_unfold. unfold slift at 1, get_entity at 1. rewrite Hep.
  rewrite stm_bind_unfold, Hjp. cbn.
  unfold joined_tail. rewrite (bind_get_tr _ _ _ _ Ht), Hc.
  cbn [negb]. rewrite bool_decide_false by done.
  unfold modify_tr. rewrite stm_bind_unfold, (bind_get_tr _ _ _ _ Ht). done.
Qed.
End MakeJoinTheorems.

(** ** Aliases *)

Lemma numbered_alias_inj name i k : numbered_alias name i = numbered_alias name k → i = k.
Proof.
  unfold numbered_alias. intros H. apply (inj (String.append name)) in H.
  apply (inj (String.append "-")) in H. by apply (inj pretty) in H.
Qed.

(** Two aliases generated in a row for the same entity in the same
    scope ([get_short_alias] without a usable name path, as for the
    link table of a many-to-many join) are different: the counter of the
    prefix is incremented between them. *)
Theorem fresh_aliases_differ sa j e st a1 st1 a2 st2 :
  get_short_alias sa j None e st = Ok (a1, st1) →
  get_short_alias sa j None e st1 = Ok (a2, st2) →
  a1 ≠ a2.
Proof.
  cbn [get_short_alias]. intros H1 H2.
  apply fresh_alias_spec in H1 as (s & Hs & -> & ->).
  apply fresh_alias_spec in H2 as (s' & Hs' & -> & _).
  cbn in Hs'. rewrite lookup_insert_eq in Hs'. injection Hs' as <-. cbn.
  rewrite lookup_insert_eq. cbn. intros Heq. apply numbered_alias_inj in Heq. lia.
Qed.

Example fresh_aliases_differ_witness :
  let st := match new_subquery None false empty_store with Ok (_, s) => s | Err _ => empty_store end in
  ∃ a1 st1 a2 st2,
    get_short_alias true 0 None "t" st = Ok (a1, st1) ∧
    get_short_alias true 0 None "t" st1 = Ok (a2, st2) ∧ a1 ≠ a2.
Proof.
  intros st. do 4 eexists.
  split; [vm_compute; reflexivity|]. split; [vm_compute; reflexivity|].
  eapply (fresh_aliases_differ true 0 "t" st); vm_compute; reflexivity.
Defined.

(** A name path that is a Python identifier is used as the alias
    whatever its length: the code checks [is_ident] before the
    [max_alias_length] bound, and the store is unchanged. *)
Theorem get_short_alias_ident sa j np e st :
  np ≠ "" → is_ident np = true → get_short_alias sa j (Some np) e st = Ok (np, st).
Proof.
  intros Hne Hid. cbn [get_short_alias]. rewrite bool_decide_false by done.
  by rewrite Hid.
Qed.

Example get_short_alias_ident_witness :
  let np := "student_with_a_very_long_qualifier_name_x" in
  np ≠ "" ∧ is_ident np = true ∧ max_alias_length < String.length np ∧
  get_short_alias false 0 (Some np) "Student" empty_store = Ok (np, empty_store).
Proof.
  intros np. split; [discriminate|]. split; [reflexivity|]. split; [vm_compute; lia|].
  apply get_short_alias_ident; [discriminate | reflexivity].
Defined.

(** ** The store invariant *)

Definition wf_store_b (st : store) : bool :=
  forallb (λ it : nat * tableref,
             (it.1 <? st_next st) &&
             match tr_kind it.2 with JoinedRef p _ => p <? it.1 | RootRef => true end)
          (map_to_list (st_tablerefs st)) &&
  forallb (λ js : nat * subquery,
             (js.1 <? st_next st) &&
             match sq_parent js.2 with Some p => p <? js.1 | None => true end)
          (map_to_list (st_subqueries st)).

Lemma wf_store_b_sound st : wf_store_b st = true → wf_store st.
Proof.
  unfold wf_store_b. intros [Ht Hs]%andb_prop.
  rewrite forallb_forall in Ht, Hs. constructor.
  - intros i t p a Hi Hk. apply elem_of_map_to_list, list_elem_of_In, Ht in Hi.
    simpl in Hi. rewrite Hk in Hi. apply andb_prop in Hi as [_ Hi]. by apply Nat.ltb_lt.
  - intros j s p Hj Hp. apply elem_of_map_to_list, list_elem_of_In, Hs in Hj.
    simpl in Hj. rewrite Hp in Hj. apply andb_prop in Hj as [_ Hj]. by apply Nat.ltb_lt.
  - intros i t Hi. apply elem_of_map_to_list, list_elem_of_In, Ht in Hi.
    apply andb_prop in Hi as [Hi _]. by apply Nat.ltb_lt.
  - intros j s Hj. apply elem_of_map_to_list, list_elem_of_In, Hs in Hj.
    apply andb_prop in Hj as [Hj _]. by apply Nat.ltb_lt.
Qed.

(** Close a goal of [wf_store] about a store with one inserted object. *)
Local Ltac wf_tac W3 W4 :=
  intros;
  repeat match goal with
  | H : <[_:=_]> _ !! _ = Some _ |- _ =>
      rewrite lookup_insert in H; case_decide; simplify_eq; simpl in *; simplify_eq
  end;
  first
  [ solve [eauto with lia]
  | match goal with H : st_subqueries _ !! _ = Some _ |- _ => apply W4 in H; lia end
  | match goal with H : st_tablerefs _ !! _ = Some _ |- _ => apply W3 in H; lia end ].

Lemma new_subquery_wf parent lj st j st' :
  wf_store st → new_subquery parent lj st = Ok (j, st') → wf_store st'.
Proof.
  intros [W1 W2 W3 W4] H. unfold new_subquery in H.
  destruct parent as [p|]; [destruct (st_subqueries st !! p) as [ps|] eqn:Hp|];
    simpl_res; constructor; simpl; wf_tac W3 W4.
Qed.

Lemma new_root_tableref_wf j name e st i st' :
  wf_store st → new_root_tableref j name e st = Ok (i, st') → wf_store st'.
Proof.
  intros [W1 W2 W3 W4] H. unfold new_root_tableref in H.
  destruct (st_subqueries st !! j) as [s|] eqn:Hs; simpl_res.
  constructor; simpl; wf_tac W3 W4.
Qed.

Lemma add_tableref_wf j np parent a st i st' :
  wf_store st → is_Some (st_tablerefs st !! parent) →
  add_tableref j np parent a st = Ok (i, st') → wf_store st'.
Proof.
  intros [W1 W2 W3 W4] [tp Htp] H. unfold add_tableref in H.
  apply stm_bind_Ok_inv in H as (s0 & s1 & Hg & H). apply get_sq_inv in Hg as [-> _].
  apply stm_bind_Ok_inv in H as (u & s2 & Ha & H). apply slift_inv in Ha as [-> _].
  unfold new_joined_tableref in H.
  destruct (attr_py_type a); try discriminate.
  destruct (st_subqueries st !! j) as [s|] eqn:Hs; simpl_res.
  constructor; simpl; wf_tac W3 W4.
Qed.

(** the store invariant (parents allocated before children, every
    identity below [st_next]) holds of the empty store and is preserved
    by every operation that creates or joins table references:
    [Subquery.__init__], [TableRef.__init__], [add_tableref] with a parent
    of the store, and [make_join]. *)
Theorem store_ops_preserve_wf sch sa st :
  wf_store empty_store ∧
  (wf_store st →
   (∀ parent lj j st', new_subquery parent lj st = Ok (j, st') → wf_store st') ∧
   (∀ j name e i st', new_root_tableref j name e st = Ok (i, st') → wf_store st') ∧
   (∀ j np parent a i st', is_Some (st_tablerefs st !! parent) →
      add_tableref j np parent a st = Ok (i, st') → wf_store st') ∧
   (∀ fuel i b r st', make_join sch sa fuel i b st = Ok (r, st') → wf_store st')).
Proof.
  split; [by constructor|]. intros Hwf. split; [|split; [|split]].
  - intros. by eapply new_subquery_wf.
  - intros. by eapply new_root_tableref_wf.
  - intros. by eapply add_tableref_wf.
  - intros fuel i b r st' H. apply make_join_effect in H as (E & _); [|done].
    by eapply evolves_wf.
Qed.

(** ** A concrete store: [s for s in Student] with [s.group] traversed *)

Definition Student_group : attr :=
  ref_attr "Student" "group" "Group" "students" ["group_number"; "group_faculty"] (Some 0) 0.

Definition demo_setup : stm store unit :=
  j ← new_subquery None false;
  s ← new_root_tableref j "s" "Student";
  _ ← add_tableref j "s-group" s Student_group;
  mret tt.

Definition demo_store : store :=
  match demo_setup empty_store with Ok (_, st) => st | Err _ => empty_store end.

(** The same store after the root [s] has been joined. *)
Definition demo_joined : store :=
  match make_join model1_schema false 2 1 false demo_store with
  | Ok (_, st) => st | Err _ => empty_store
  end.

Definition s_group_ref : tableref :=
  mkTableRef 0 "s-group" None "Group" false None [] (JoinedRef 1 Student_group).

Example make_join_idempotent_witness :
  wf_store demo_store ∧
  match make_join model1_schema false 3 2 true demo_store with
  | Ok (r, st') => make_join model1_schema false 1 2 true st' = Ok (r, st')
  | Err _ => False
  end.
Proof.
  assert (Hwf : wf_store demo_store) by (apply wf_store_b_sound; vm_compute; reflexivity).
  split; [exact Hwf|].
  destruct (make_join model1_schema false 3 2 true demo_store) as [[r st']|e] eqn:E;
    [|vm_compute in E; discriminate].
  exact (make_join_idempotent model1_schema false 3 0 2 true demo_store r st' Hwf E).
Defined.

Example make_join_lifecycle_witness :
  wf_store demo_store ∧ st_tablerefs demo_store !! 2 = Some s_group_ref ∧
  match make_join model1_schema false 3 2 true demo_store with
  | Ok (r, st') => ∃ t', st_tablerefs st' !! 2 = Some t' ∧ tr_same s_group_ref t' ∧
                          lc_step (phase_of s_group_ref) (phase_of t')
  | Err _ => False
  end.
Proof.
  assert (Hwf : wf_store demo_store) by (apply wf_store_b_sound; vm_compute; reflexivity).
  assert (Ht : st_tablerefs demo_store !! 2 = Some s_group_ref) by (vm_compute; reflexivity).
  split; [exact Hwf|]. split; [exact Ht|].
  destruct (make_join model1_schema false 3 2 true demo_store) as [[r st']|e] eqn:E;
    [|vm_compute in E; discriminate].
  exact (make_join_lifecycle model1_schema false 3 2 true demo_store r st' Hwf E 2 _ Ht).
Defined.

Example make_join_from_grows_witness :
  wf_store demo_store ∧
  match make_join model1_schema false 3 2 false demo_store with
  | Ok (r, st') =>
      wf_store st' ∧
      ∀ j s, st_subqueries demo_store !! j = Some s →
        ∃ s', st_subqueries st' !! j = Some s' ∧
              sq_from_ast s `prefix_of` sq_from_ast s' ∧
              sq_conditions s `sublist_of` sq_conditions s'
  | Err _ => False
  end.
Proof.
  assert (Hwf : wf_store demo_store) by (apply wf_store_b_sound; vm_compute; reflexivity).
  split; [exact Hwf|].
  destruct (make_join model1_schema false 3 2 false demo_store) as [[r st']|e] eqn:E;
    [|vm_compute in E; discriminate].
  exact (make_join_from_grows model1_schema false 3 2 false demo_store r st' Hwf E).
Defined.

Example make_join_enough_fuel_witness :
  wf_store demo_store ∧ 2 < 3 ∧ make_join model1_schema false 3 2 false demo_store ≠ Err OutOfFuel.
Proof.
  assert (Hwf : wf_store demo_store) by (apply wf_store_b_sound; vm_compute; reflexivity).
  split; [exact Hwf|]. split; [lia|].
  exact (make_join_enough_fuel model1_schema false 3 2 false demo_store Hwf ltac:(lia)).
Defined.

Example make_join_pk_only_shortcut_witness :
  make_join model1_schema false 2 2 true demo_joined =
    Ok ((Some "s", ["group_number"; "group_faculty"]),
        st_set_tr 2 (tr_set_join (Some "s") ["group_number"; "group_faculty"] true s_group_ref)
                  demo_joined).
Proof.
  apply (make_join_pk_only_shortcut model1_schema false 0 2 s_group_ref 1 Student_group
           Group_entity (mkTableRef 0 "s" (Some "s") "Student" true None [] RootRef)
           Student_entity demo_joined);
    first [reflexivity | vm_compute; reflexivity | discriminate].
Defined.

Example store_ops_preserve_wf_witness :
  wf_store empty_store ∧
  ∀ j st', new_subquery None false empty_store = Ok (j, st') → wf_store st'.
Proof.
  destruct (store_ops_preserve_wf model1_schema false empty_store) as [H0 H1].
  split; [exact H0|]. intros j st' E. exact (proj1 (H1 H0) None false j st' E).
Defined.

(** ** Alias lengths *)

Lemma pretty_N_go_length x s : String.length s ≤ String.length (pretty_N_go x s).
Proof.
  revert s. induction x as [x IH] using (well_founded_induction N.lt_wf_0). intros s.
  destruct (decide (x = 0%N)) as [->|Hx]; [done|].
  rewrite pretty_N_go_step by lia. etrans; [|apply IH; apply N.div_lt; lia]. simpl; lia.
Qed.

Lemma pretty_nat_length_ge i : 100 ≤ i → 3 ≤ String.length (pretty i).
Proof.
  intros Hi. change (pretty i) with (pretty (N.of_nat i)). unfold pretty, pretty_N.
  destruct (decide (N.of_nat i = 0%N)); [lia|].
  assert (H1 : (10 ≤ N.of_nat i `div` 10)%N).
  { apply N.div_le_lower_bound; lia. }
  assert (H2 : (1 ≤ (N.of_nat i `div` 10) `div` 10)%N).
  { apply N.div_le_lower_bound; lia. }
  rewrite pretty_N_go_step, (pretty_N_go_step (_ `div` 10)), (pretty_N_go_step ((_ `div` 10) `div` 10))
    by lia.
  etrans; [|apply pretty_N_go_length]. simpl. lia.
Qed.

Lemma pretty_nat_length_small i : i < 100 → String.length (pretty i) ≤ 2.
Proof.
  intros Hi. assert (Hall : forallb (λ k, String.length (pretty k) <=? 2) (seq 0 100) = true)
    by (vm_compute; reflexivity).
  rewrite forallb_forall in Hall. apply Nat.leb_le, Hall, in_seq. lia.
Qed.

Lemma str_lower_length s : String.length (str_lower s) = String.length s.
Proof.
  unfold str_lower. induction s as [|c s IH]; [done|]. simpl. by rewrite IH.
Qed.

Lemma substring_0_length m s : String.length (String.substring 0 m s) = min m (String.length s).
Proof. revert m. induction s as [|c s IH]; intros [|m]; simpl; auto. Qed.

Lemma string_app_length s1 s2 :
  String.length (s1 +:+ s2) = String.length s1 + String.length s2.
Proof. induction s1 as [|c s1 IH]; simpl; auto. Qed.

Lemma numbered_alias_length e i :
  String.length (numbered_alias (alias_prefix e) i)
  = min (max_alias_length - 3) (String.length e) + 1 + String.length (pretty i).
Proof.
  unfold numbered_alias, alias_prefix.
  rewrite !string_app_length, str_lower_length, substring_0_length. simpl. lia.
Qed.

(** an alias generated for an entity in a scope whose counter for the
    entity's prefix is below 99 fits in [max_alias_length] (30)
    characters. *)
Theorem fresh_alias_length_bound sa j e st a st' :
  get_short_alias sa j None e st = Ok (a, st') →
  (∀ s, st_subqueries st !! j = Some s → default 0 (sq_alias_counters s !! alias_prefix e) < 99) →
  String.length a ≤ max_alias_length.
Proof.
  cbn [get_short_alias]. intros H Hc. apply fresh_alias_spec in H as (s & Hs & -> & _).
  specialize (Hc s Hs). rewrite numbered_alias_length.
  pose proof (pretty_nat_length_small (default 0 (sq_alias_counters s !! alias_prefix e) + 1)).
  unfold max_alias_length in *. lia.
Qed.

(** C33: from the hundredth alias of an entity whose name has at least 27
    characters on, the generated alias has 31 or more characters, longer
    than [max_alias_length], the limit [get_short_alias] itself applies
    to name paths. *)
Theorem fresh_alias_too_long sa j e st a st' :
  get_short_alias sa j None e st = Ok (a, st') →
  max_alias_length - 3 ≤ String.length e →
  (∀ s, st_subqueries st !! j = Some s → 99 ≤ default 0 (sq_alias_counters s !! alias_prefix e)) →
  max_alias_length < String.length a.
Proof.
  cbn [get_short_alias]. intros H He Hc. apply fresh_alias_spec in H as (s & Hs & -> & _).
  specialize (Hc s Hs). rewrite numbered_alias_length.
  pose proof (pretty_nat_length_ge (default 0 (sq_alias_counters s !! alias_prefix e) + 1)).
  unfold max_alias_length in *. lia.
Qed.

Example fresh_alias_length_bound_witness :
  let st := match new_subquery None false empty_store with Ok (_, s) => s | Err _ => empty_store end in
  ∃ a st', get_short_alias true 0 None "StudentGroup" st = Ok (a, st') ∧
    (∀ s, st_subqueries st !! 0 = Some s →
          default 0 (sq_alias_counters s !! alias_prefix "StudentGroup") < 99) ∧
    String.length a ≤ max_alias_length.
Proof.
  intros st. eexists _, _.
  assert (Heq : get_short_alias true 0 None "StudentGroup" st = Ok (_, _)) by (vm_compute; reflexivity).
  assert (Hc : ∀ s, st_subqueries st !! 0 = Some s →
                 default 0 (sq_alias_counters s !! alias_prefix "StudentGroup") < 99).
  { intros s Hs. vm_compute in Hs. injection Hs as <-. vm_compute. lia. }
  split; [exact Heq|]. split; [exact Hc|].
  exact (fresh_alias_length_bound true 0 "StudentGroup" st _ _ Heq Hc).
Defined.

Example fresh_alias_too_long_witness :
  let e := "UniversityStudentGroupMember" in
  let st0 := match new_subquery None false empty_store with Ok (_, s) => s | Err _ => empty_store end in
  let st := match st_subqueries st0 !! 0 with
            | Some s => st_set_sq 0 (sq_set_counters {[alias_prefix e := 99]} s) st0
            | None => st0 end in
  ∃ a st', get_short_alias true 0 None e st = Ok (a, st') ∧
    max_alias_length - 3 ≤ String.length e ∧
    (∀ s, st_subqueries st !! 0 = Some s → 99 ≤ default 0 (sq_alias_counters s !! alias_prefix e)) ∧
    max_alias_length < String.length a.
Proof.
  intros e st0 st. eexists _, _.
  assert (Heq : get_short_alias true 0 None e st = Ok (_, _)) by (vm_compute; reflexivity).
  assert (He : max_alias_length - 3 ≤ String.length e) by (vm_compute; lia).
  assert (Hc : ∀ s, st_subqueries st !! 0 = Some s →
                 99 ≤ default 0 (sq_alias_counters s !! alias_prefix e)).
  { intros s Hs. vm_compute in Hs. injection Hs as <-. vm_compute. lia. }
  split; [exact Heq|]. split_and!; [exact He | exact Hc |].
  exact (fresh_alias_too_long true 0 e st _ _ Heq He Hc).
Defined.
