(* ===== verification/Monads.v ===== *)
(** * The monad algebra (sqltranslation.py lines 685-1356)

    A monad is the translator's typed representation of a partially
    translated expression.  [monad] has one constructor per monad class
    of the value and boolean part of the algebra: [ObjectIterMonad],
    [ObjectAttrMonad] and the scalar [AttrMonad]s, [ParamMonad],
    [ConstMonad] (with [NoneMonad] as the constant of type [None]),
    [ExprMonad], [ListMonad], [EntityMonad], [MethodMonad],
    [BoolExprMonad], [CmpMonad], [AndMonad], [OrMonad] and [NotMonad].
    The flavour of an attribute, parameter, constant or expression monad
    (numeric, string, date, ...) is its type, as in the factories
    [AttrMonad.new], [ParamMonad.new], [ConstMonad.new], [ExprMonad.new].

    [getsql] returns a Python value ([sx]): a list of column expressions
    for a value monad, one condition for a boolean monad, exactly as the
    Python methods do; it is stateful because an object monad joins its
    table reference.  The operations that can call [getsql] ([nonzero],
    [negate], [LogicalBinOpMonad.__init__], ...) are therefore
    computations of [stm store]. *)

From S2P Require Import Prelude SqlAst Types Schema Tables.

Set Warnings "-register-all".

Inductive monad :=
  | MObjectIter (tr : nat) (entity : string)
  | MObjectAttr (parent : monad) (a : attr) (tr : nat)
  | MAttr (parent : monad) (a : attr)
  | MParam (t : ptype) (src : sx)
  | MConst (t : ptype) (v : sx)
  | MExpr (t : ptype) (sql : sx)
  | MList (items : list monad)
  | MEntity (entity : string)
  | MMethod (parent : monad) (name : string)
  | MBoolExpr (sql : sx)
  | MCmp (op : string) (left right : monad)
  | MAnd (operands : list monad)
  | MOr (operands : list monad)
  | MNot (operand : monad).

(** The class attribute [binop] of [AndMonad] and [OrMonad]. *)
Inductive logop := AndOp | OrOp.

#[export] Instance logop_eq_dec : EqDecision logop.
Proof. solve_decision. Defined.

Definition logop_tag (b : logop) : string := match b with AndOp => "AND" | OrOp => "OR" end.

Definition mk_logical (b : logop) (operands : list monad) : monad :=
  match b with AndOp => MAnd operands | OrOp => MOr operands end.

(** [isinstance(m, LogicalBinOpMonad)], with its [binop] and [operands]. *)
Definition logical_parts (m : monad) : option (logop * list monad) :=
  match m with MAnd ops => Some (AndOp, ops) | MOr ops => Some (OrOp, ops) | _ => None end.

(** [normalize_type] of an attribute's [py_type]: the schema stores
    normalised types. *)
Definition normalize_type (t : ptype) : ptype := t.

(** [monad.type]. *)
Fixpoint mtype (m : monad) : ptype :=
  match m with
  | MObjectIter _ e => TEntity e
  | MObjectAttr _ a _ | MAttr _ a => normalize_type (attr_py_type a)
  | MParam t _ | MConst t _ | MExpr t _ => t
  | MList items => TTuple (map mtype items)
  | MEntity e => TSet (TEntity e)
  | MMethod _ _ => TMETHOD
  | MBoolExpr _ | MCmp _ _ _ | MAnd _ | MOr _ | MNot _ => TBool
  end.

(** [isinstance(monad, NumericMixin)] and [isinstance(monad, StringMixin)]:
    attribute, parameter, constant and expression monads of a numeric or
    string type. *)
Definition is_scalar (m : monad) : bool :=
  match m with MAttr _ _ | MParam _ _ | MConst _ _ | MExpr _ _ => true | _ => false end.
Definition is_numeric_monad (m : monad) : bool := is_scalar m && is_numeric (mtype m).
Definition is_string_monad (m : monad) : bool := is_scalar m && is_string (mtype m).

(** [ConstMonad.new(translator, 0)]. *)
Definition const_zero : monad := MConst TInt (SInt 0).

(** ** Python list operations on [sx] *)

(** Iterating over a value: a list yields its items, a string its
    characters. *)
Definition py_iter (x : sx) : result (list sx) :=
  match x with
  | SList l => Ok l
  | SStr s => Ok (map (λ c, SStr (String c EmptyString)) (String.list_ascii_of_string s))
  | _ => Err (TypeError "object is not iterable")
  end.

(** [x[0]]. *)
Definition py_first (x : sx) : result sx :=
  l ← py_iter x; match l with y :: _ => Ok y | [] => Err IndexError end.

(** [x[1:]] of a list. *)
Definition py_tail (x : sx) : result (list sx) :=
  match x with
  | SList (_ :: l) => Ok l
  | SList [] => Ok []
  | _ => Err (TypeError "can only concatenate list")
  end.

(** ** Tables of operators *)

(** [cmp_ops]: the SQL tag of an ordering comparison. *)
Definition cmp_ops (op : string) : result string :=
  if bool_decide (op = ">=") then Ok "GE"
  else if bool_decide (op = ">") then Ok "GT"
  else if bool_decide (op = "<=") then Ok "LE"
  else if bool_decide (op = "<") then Ok "LT"
  else Err (KeyError op).

(** [cmp_negate], closed under inversion by its [update]. *)
Definition cmp_negate (op : string) : result string :=
  if bool_decide (op = "<") then Ok ">="
  else if bool_decide (op = "<=") then Ok ">"
  else if bool_decide (op = "==") then Ok "!="
  else if bool_decide (op = "is") then Ok "is not"
  else if bool_decide (op = ">=") then Ok "<"
  else if bool_decide (op = ">") then Ok "<="
  else if bool_decide (op = "!=") then Ok "=="
  else if bool_decide (op = "is not") then Ok "is"
  else Err (KeyError op).

(** [sql_negation.get(sqlop)]: the negated tag, [None] when there is
    none; a list is not hashable. *)
Definition sql_negation_get (sqlop : sx) : result (option string) :=
  match sqlop with
  | SStr s =>
      Ok (if bool_decide (s = "IN") then Some "NOT_IN"
          else if bool_decide (s = "EXISTS") then Some "NOT_EXISTS"
          else if bool_decide (s = "LIKE") then Some "NOT_LIKE"
          else if bool_decide (s = "BETWEEN") then Some "NOT_BETWEEN"
          else if bool_decide (s = "IS_NULL") then Some "IS_NOT_NULL"
          else if bool_decide (s = "NOT_IN") then Some "IN"
          else if bool_decide (s = "NOT_EXISTS") then Some "EXISTS"
          else if bool_decide (s = "NOT_LIKE") then Some "LIKE"
          else if bool_decide (s = "NOT_BETWEEN") then Some "BETWEEN"
          else if bool_decide (s = "IS_NOT_NULL") then Some "IS_NULL"
          else None)
  | SList _ => Err (TypeError "unhashable type: 'list'")
  | _ => Ok None
  end.

(** ** Comparisons *)

Section Comparisons.
Variable sch : schema.

(** [CmpMonad.__init__(op, left, right)] (lines 1288-1303). *)
Definition cmp_monad (op : string) (left right : monad) : result monad :=
  check_comparable (entity_root sch) (mtype left) (mtype right) op;;
  let op := if bool_decide (op = "<>") then "!=" else op in
  '(left, right) ←
    (if decide (mtype left = TNone)
     then assert_ (negb (bool_decide (mtype right = TNone)));; Ok (right, left)
     else Ok (left, right));
  let op :=
    if decide (mtype right = TNone) then
      (if bool_decide (op = "==") then "is" else if bool_decide (op = "!=") then "is not" else op)
    else if bool_decide (op = "is") then "=="
    else if bool_decide (op = "is not") then "!="
    else op in
  mret (MCmp op left right).
End Comparisons.

(** The part of [CmpMonad.getsql] after both sides have produced their
    column lists (lines 1307-1323). *)
Definition cmp_sql (op : string) (left_sql right_sql : sx) : result sx :=
  ls ← py_iter left_sql;
  if bool_decide (op = "is") then sqland (map (λ item, node "IS_NULL" [item]) ls)
  else if bool_decide (op = "is not") then sqland (map (λ item, node "IS_NOT_NULL" [item]) ls)
  else
    rs ← py_iter right_sql;
    assert_ (length ls =? length rs);;
    if bool_decide (op = "<" ∨ op = "<=" ∨ op = ">" ∨ op = ">=") then
      assert_ ((length ls =? length rs) && (length rs =? 1));;
      tag ← cmp_ops op;
      l0 ← py_first left_sql; r0 ← py_first right_sql;
      mret (node tag [l0; r0])
    else if bool_decide (op = "==") then
      sqland (zip_with (λ a b, node "EQ" [a; b]) ls rs)
    else if bool_decide (op = "!=") then
      sqlor (zip_with (λ a b, node "NE" [a; b]) ls rs)
    else Err AssertionError.

(** [BoolExprMonad.negate] (lines 1269-1280).  [negated_op] is [None]
    in the [elif] branch, so [negated_op == 'NOT'] never holds and every
    condition whose head has no negated form reaches
    [translator.NotMonad(translator, sql)]: [NotMonad.__init__] takes one
    operand, and the call raises [TypeError]. *)
Definition boolexpr_negate (sql : sx) : result monad :=
  sqlop ← py_first sql;
  negated_op ← sql_negation_get sqlop;
  match negated_op with
  | Some nop => rest ← py_tail sql; mret (MBoolExpr (SList (SStr nop :: rest)))
  | None => Err (TypeError "__init__() takes exactly 2 arguments (3 given)")
  end.

(** ** Python string indexing and slicing *)

(** A slice bound of [s[a:b]] clamped as Python does. *)
Definition py_slice_bound (n : Z) (a : option Z) (dflt : Z) : Z :=
  match a with
  | None => dflt
  | Some a => if (a <? 0)%Z then Z.max 0 (n + a) else Z.min a n
  end.

(** [s[a:b]] on a string. *)
Definition py_str_slice (s : string) (a b : option Z) : string :=
  let n := Z.of_nat (String.length s) in
  let i := py_slice_bound n a 0 in
  let j := py_slice_bound n b n in
  String.substring (Z.to_nat i) (Z.to_nat (j - i)%Z) s.

(** [s[i]] on a string: [IndexError] out of range. *)
Definition py_str_index (s : string) (i : Z) : result string :=
  let n := Z.of_nat (String.length s) in
  let k := if (i <? 0)%Z then (n + i)%Z else i in
  if ((0 <=? k) && (k <? n))%Z then Ok (String.substring (Z.to_nat k) 1 s) else Err IndexError.

(** [isinstance(m, StringConstMonad)] with [m.value], and
    [isinstance(m, NumericConstMonad)] with [m.value] (integer constants;
    float and Decimal literals are not represented). *)
Definition str_const_value (m : monad) : option string :=
  match m with MConst t (SStr s) => if is_string t then Some s else None | _ => None end.
Definition num_const_value (m : monad) : option Z :=
  match m with MConst t (SInt z) => if is_numeric t then Some z else None | _ => None end.

(** The index of [__getitem__]: a monad or a slice [start:stop:step]
    whose bounds are monads or [None] (only the presence of a step
    matters). *)
Inductive index_arg :=
  | IndexMonad (index : monad)
  | IndexSlice (start stop : option monad) (has_step : bool).

(** The condition [ListMonad.contains] builds for a multi-column [x]
    (lines 838-841): [ls] are the columns of [x], [rows] those of the
    items, paired by [zip]. *)
Definition list_contains_sql (not_in : bool) (ls : list sx) (rows : list (list sx)) : result sx :=
  if not_in then
    conds ← mapM (λ r, sqlor (zip_with (λ a b, node "NE" [a; b]) ls r)) rows; sqland conds
  else
    conds ← mapM (λ r, sqland (zip_with (λ a b, node "EQ" [a; b]) ls r)) rows; sqlor conds.

(** [_binop_errmsg % (type2str(t1), type2str(t2), op)]. *)
Definition binop_errmsg (t1 t2 : ptype) (op : string) : string :=
  "Unsupported operand types '" +:+ type2str t1 +:+ "' and '" +:+ type2str t2 +:+
  "' for operation '" +:+ op +:+ "' in expression: {EXPR}".

(** The dialect switches the aggregates read: [translator.dialect] and
    [translator.row_value_syntax]. *)
Record tconfig := mkConfig { dialect : string; row_value_syntax : bool }.

(** [ExprMonad.new(translator, type, sql)] (lines 1195-1201). *)
Definition expr_monad_new (t : ptype) (sql : sx) : result monad :=
  if is_numeric t || is_string t || bool_decide (t = TDate) || bool_decide (t = TDatetime)
  then Ok (MExpr t sql)
  else Err (NotImplementedError (type2str t)).

(** The [attr_*] properties of [DateMixin] (year, month, day) and
    [DatetimeMixin] (also hour, minute, second), and the [call_*]
    methods of [StringMixin]. *)
Definition is_date_monad (m : monad) : bool :=
  is_scalar m && (bool_decide (mtype m = TDate) || bool_decide (mtype m = TDatetime)).
Definition has_attr_property (m : monad) (name : string) : bool :=
  is_date_monad m && bool_decide (name ∈ ["year"; "month"; "day"]) ||
  is_scalar m && bool_decide (mtype m = TDatetime) && bool_decide (name ∈ ["hour"; "minute"; "second"]).
Definition has_call_method (m : monad) (name : string) : bool :=
  is_string_monad m &&
  bool_decide (name ∈ ["upper"; "lower"; "startswith"; "endswith"; "strip"; "lstrip"; "rstrip"]).

Section Algebra.
Variable sch : schema.
Variable simple_aliases : bool.
(** The fuel of [make_join]: larger than the depth of any table
    reference (see the termination theorem of [Tables]). *)
Variable fuel : nat.

(** [monad.tableref] of an object monad. *)
Definition monad_tableref (m : monad) : result nat :=
  match m with
  | MObjectIter tr _ | MObjectAttr _ _ tr => Ok tr
  | _ => Err (AttributeError "tableref")
  end.

(** The columns chosen by [AttrMonad.getsql] (lines 1123-1128). *)
Definition attr_sql_columns (a : attr) (parent_columns : list string) : result (list string) :=
  match attr_pk_offset a with
  | None => Ok (attr_columns a)
  | Some _ =>
      e ← get_entity sch (attr_entity a);
      if negb (pk_is_composite e) then Ok parent_columns
      else Ok (take (length (attr_columns a)) (drop (attr_pk_columns_offset a) parent_columns))
  end.

(** [AttrMonad.getsql] (lines 1118-1129): join the parent's table
    reference, primary key only when the attribute is part of the
    key. *)
Definition attr_getsql (parent : monad) (a : attr) : stm store sx :=
  tr ← slift (monad_tableref parent);
  '(alias, parent_columns) ←
    make_join sch simple_aliases fuel tr (bool_decide (is_Some (attr_pk_offset a)));
  columns ← slift (attr_sql_columns a parent_columns);
  mret (SList (map (column alias) columns)).

Definition is_null_op (op : string) : bool := bool_decide (op = "is" ∨ op = "is not").

(** [monad.getsql()] of each class; [ListMonad], [EntityMonad] and
    [MethodMonad] have none.  The converter of a parameter is the
    provider's converter for its type, represented by the type's
    name. *)
Fixpoint getsql (m : monad) : stm store sx :=
  match m with
  | MObjectIter tr _ =>
      '(alias, columns) ← make_join sch simple_aliases fuel tr true;
      mret (SList (map (column alias) columns))
  | MObjectAttr p a _ | MAttr p a => attr_getsql p a
  | MParam t src => mret (SList [node "PARAM" [src; SStr (type2str t)]])
  | MConst _ v => mret (SList [value v])
  | MExpr _ sql => mret (SList [sql])
  | MBoolExpr sql => mret sql
  | MCmp op l r =>
      left_sql ← getsql l;
      right_sql ← (if is_null_op op then mret SNone else getsql r);
      slift (cmp_sql op left_sql right_sql)
  | MAnd ops => sqls ← mapM getsql ops; mret (node "AND" sqls)
  | MOr ops => sqls ← mapM getsql ops; mret (node "OR" sqls)
  | MNot o => sql ← getsql o; mret (node "NOT" [sql])
  | MList _ | MEntity _ | MMethod _ _ => sthrow (AttributeError "getsql")
  end.

(** [monad.nonzero()]: [NumericMixin.nonzero], [StringMixin.nonzero],
    [MethodMonad.nonzero], and [Monad.nonzero] otherwise. *)
Definition nonzero (m : monad) : stm store monad :=
  if is_numeric_monad m then slift (cmp_monad sch "!=" m const_zero)
  else if is_string_monad m then
    x ← getsql m; sql ← slift (py_first x);
    mret (MBoolExpr (node "GT" [node "LENGTH" [sql]; value (SInt 0)]))
  else match m with
  | MMethod _ _ => slift forgot_parentheses
  | _ => sthrow (TypeError "nonzero")
  end.

(** [NotMonad(operand)] (lines 1348-1351). *)
Definition not_monad (operand : monad) : stm store monad :=
  if decide (mtype operand = TBool) then mret (MNot operand)
  else o ← nonzero operand; mret (MNot o).

(** [monad.negate()]: [CmpMonad.negate], [BoolExprMonad.negate],
    [NotMonad.negate], [MethodMonad.negate], [NumericMixin.negate], and
    [Monad.negate] otherwise. *)
Definition negate (m : monad) : stm store monad :=
  match m with
  | MCmp op l r => op' ← slift (cmp_negate op); slift (cmp_monad sch op' l r)
  | MBoolExpr sql => slift (boolexpr_negate sql)
  | MNot o => mret o
  | MMethod _ _ => slift forgot_parentheses
  | _ => if is_numeric_monad m then slift (cmp_monad sch "==" m const_zero)
         else not_monad m
  end.

(** One operand of [LogicalBinOpMonad.__init__] (lines 1329-1333). *)
Definition logical_operand (b : logop) (operand : monad) : stm store (list monad) :=
  if negb (bool_decide (mtype operand = TBool)) then o ← nonzero operand; mret [o]
  else match logical_parts operand with
  | Some (b', ops) => if decide (b = b') then mret ops else mret [operand]
  | None => mret [operand]
  end.

(** [AndMonad(operands)] and [OrMonad(operands)] (lines 1326-1335). *)
Definition logical_binop (b : logop) (operands : list monad) : stm store monad :=
  slift (assert_ (2 <=? length operands));;
  items ← mapM (logical_operand b) operands;
  mret (mk_logical b (concat items)).
(** [monad.getsql()[0]]. *)
Definition getsql0 (m : monad) : stm store sx :=
  x ← getsql m; slift (py_first x).

(** [ListMonad.contains(x, not_in)] (lines 834-845). *)
Definition list_contains (items : list monad) (x : monad) (not_in : bool) : stm store monad :=
  slift (mapM (λ item, check_comparable (entity_root sch) (mtype item) (mtype x) "==") items);;
  left_sql ← getsql x;
  ls ← slift (py_iter left_sql);
  if length ls =? 1 then
    l0 ← slift (py_first left_sql);
    vs ← mapM getsql0 items;
    mret (MBoolExpr (node (if not_in then "NOT_IN" else "IN") [l0; SList vs]))
  else
    item_sqls ← mapM getsql items;
    rows ← slift (mapM py_iter item_sqls);
    sql ← slift (list_contains_sql not_in ls rows);
    mret (MBoolExpr sql).

(** [make_string_binop('+', 'CONCAT')] (lines 913-923). *)
Definition string_concat (m m2 : monad) : stm store monad :=
  if negb (are_comparable_types (entity_root sch) (mtype m) (mtype m2) "CONCAT") then
    if decide (mtype m2 = TMETHOD) then slift forgot_parentheses
    else sthrow (TypeError (binop_errmsg (mtype m) (mtype m2) "+"))
  else
    left_sql ← getsql m; right_sql ← getsql m2;
    ls ← slift (py_iter left_sql); rs ← slift (py_iter right_sql);
    slift (assert_ ((length ls =? length rs) && (length rs =? 1)));;
    l0 ← slift (py_first left_sql); r0 ← slift (py_first right_sql);
    mret (MExpr (mtype m) (node "CONCAT" [l0; r0])).

(** [make_string_func(sqlop)]: [upper()], [lower()] (lines 925-932). *)
Definition string_func (sqlop : string) (m : monad) : stm store monad :=
  sql ← getsql m; items ← slift (py_iter sql);
  slift (assert_ (length items =? 1));;
  s0 ← slift (py_first sql);
  mret (MExpr (mtype m) (node sqlop [s0])).

(** [StringMixin.nonzero] is [nonzero]; [StringMixin.len] (lines
    1007-1010) and [StringConstMonad.len] (line 1250). *)
Definition string_len (m : monad) : stm store monad :=
  match str_const_value m with
  | Some s => mret (MConst TInt (SInt (Z.of_nat (String.length s))))
  | None => sql ← getsql0 m; mret (MExpr TInt (node "LENGTH" [sql]))
  end.

(** [StringMixin.contains(item)]: [item in s] is [s LIKE '%item%']
    (lines 1011-1019). *)
Definition string_contains (m item : monad) : stm store monad :=
  slift (check_comparable (entity_root sch) (mtype item) (mtype m) "LIKE");;
  item_sql ← (match str_const_value item with
              | Some v => mret (value (SStr ("%" +:+ v +:+ "%")))
              | None => i ← getsql0 item; mret (node "CONCAT" [value (SStr "%"); i; value (SStr "%")])
              end);
  s ← getsql0 m;
  mret (MBoolExpr (node "LIKE" [s; item_sql])).

(** [call_startswith(arg)] ([ends = false], lines 1022-1036) and
    [call_endswith(arg)] ([ends = true], lines 1037-1051). *)
Definition string_affix (ends : bool) (m arg : monad) : stm store monad :=
  if negb (are_comparable_types (entity_root sch) (mtype m) (mtype arg) "") then
    if decide (mtype arg = TMETHOD) then slift forgot_parentheses
    else sthrow (TypeError ("Expected '" +:+ type2str (mtype m) +:+ "' argument but got '" +:+
                            type2str (mtype arg) +:+ "' in expression {EXPR}"))
  else
    arg_sql ← (match str_const_value arg with
               | Some v => mret (value (SStr (if ends then "%" +:+ v else v +:+ "%")))
               | None => a ← getsql0 arg;
                   mret (node "CONCAT" (if ends then [value (SStr "%"); a] else [a; value (SStr "%")]))
               end);
    parent_sql ← getsql0 m;
    mret (MBoolExpr (node "LIKE" [parent_sql; arg_sql])).

(** [StringMixin.strip(chars, strip_type)] (lines 1052-1061). *)
Definition string_strip (m : monad) (chars : option monad) (strip_type : string) : stm store monad :=
  (match chars with
   | Some c =>
       if negb (are_comparable_types (entity_root sch) (mtype m) (mtype c) "") then
         if decide (mtype c = TMETHOD) then slift forgot_parentheses
         else sthrow (TypeError ("'chars' argument must be of '" +:+ type2str (mtype m) +:+
                                 "' type in {EXPR}, got: '" +:+ type2str (mtype c) +:+ "'"))
       else mret tt
   | None => mret tt
   end);;
  parent_sql ← getsql0 m;
  chars_sql ← (match chars with Some c => c0 ← getsql0 c; mret [c0] | None => mret [] end);
  mret (MExpr (mtype m) (node strip_type (parent_sql :: chars_sql))).
(** The SQL of the start of a non-constant slice: [VALUE start+1] for a
    constant, [ADD(start, 1)] otherwise (lines 964-970). *)
Definition slice_start_sql (start : monad) : stm store sx :=
  match num_const_value start with
  | Some v =>
      if (v <? 0)%Z then sthrow (NotImplementedError "Negative indices are not supported in string slice {EXPR}")
      else mret (value (SInt (v + 1)))
  | None => s0 ← getsql0 start; mret (node "ADD" [s0; value (SInt 1)])
  end.

(** The SQL of the length of a non-constant slice (lines 972-984). *)
Definition slice_len_sql (start : monad) (stop : option monad) : stm store sx :=
  match stop with
  | None => mret SNone
  | Some sp =>
      match num_const_value sp with
      | Some v =>
          if (v <? 0)%Z then sthrow (NotImplementedError "Negative indices are not supported in string slice {EXPR}")
          else match num_const_value start with
               | Some a => mret (value (SInt (v - a)))
               | None => s0 ← getsql0 start; mret (node "SUB" [value (SInt v); s0])
               end
      | None =>
          stop_sql ← getsql0 sp;
          match num_const_value start with
          | Some a => mret (node "SUB" [stop_sql; value (SInt a)])
          | None => s0 ← getsql0 start; mret (node "SUB" [stop_sql; s0])
          end
      end
  end.

(** [start.type is not int] for a bound that is given. *)
Definition check_int_bound (which : string) (b : option monad) : stm store unit :=
  match b with
  | Some x => if decide (mtype x = TInt) then mret tt
              else sthrow (TypeError ("Invalid type of " +:+ which +:+ " index (expected 'int', got '" +:+
                                      type2str (mtype x) +:+ "') in string slice {EXPR}"))
  | None => mret tt
  end.

(** A constant bound of a slice of a constant: [None] or an integer. *)
Definition const_bound (b : option monad) : option (option Z) :=
  match b with None => Some None | Some x => Some <$> num_const_value x end.

(** [StringMixin.__getitem__(index)] (lines 942-1002). *)
Definition string_getitem (m : monad) (index : index_arg) : stm store monad :=
  match index with
  | IndexMonad (MList _) =>
      sthrow (TypeError "String index must be of 'int' type. Got 'tuple' in {EXPR}")
  | IndexSlice start stop has_step =>
      if has_step then sthrow (TypeError "Step is not supported in {EXPR}") else
      match start, stop with
      | None, None => mret m
      | _, _ =>
        match str_const_value m, const_bound start, const_bound stop with
        | Some v, Some a, Some b => mret (MConst (mtype m) (SStr (py_str_slice v a b)))
        | _, _, _ =>
            check_int_bound "start" start;;
            check_int_bound "stop" stop;;
            expr_sql ← getsql0 m;
            let start := default const_zero start in
            start_sql ← slice_start_sql start;
            len_sql ← slice_len_sql start stop;
            mret (MExpr (mtype m) (node "SUBSTR" [expr_sql; start_sql; len_sql]))
        end
      end
  | IndexMonad index =>
      match str_const_value m, num_const_value index with
      | Some v, Some i => c ← slift (py_str_index v i); mret (MConst (mtype m) (SStr c))
      | _, _ =>
          if negb (bool_decide (mtype index = TInt)) then
            sthrow (TypeError ("String indices must be integers. Got '" +:+ type2str (mtype index) +:+
                               "' in expression {EXPR}"))
          else
            expr_sql ← getsql0 m;
            index_sql ← (match num_const_value index with
              | Some v => mret (value (SInt (if (0 <=? v)%Z then v + 1 else v)))
              | None =>
                  inner_sql ← getsql0 index;
                  mret (node "ADD" [inner_sql;
                          node "CASE" [SNone; SList [SList [node "GE" [inner_sql; value (SInt 0)];
                                                            value (SInt 1)]];
                                       value (SInt 0)]])
              end);
            mret (MExpr (mtype m) (node "SUBSTR" [expr_sql; index_sql; value (SInt 1)]))
      end
  end.
(** [Monad.count()] (lines 707-729), for a monad whose [aggregated]
    attribute is [aggregated]; the result's [aggregated] is [True]. *)
Definition monad_count (cfg : tconfig) (aggregated : bool) (m : monad) : stm store monad :=
  if aggregated then sthrow (TranslationError "Aggregated functions cannot be nested. Got: {EXPR}")
  else
    expr ← getsql m;
    if decide (mtype m = TBool) then
      mret (MExpr TInt (node "COUNT" [SStr "ALL";
             node "CASE" [SNone; SList [SList [expr; value (SInt 1)]]; value SNone]]))
    else
      items ← slift (py_iter expr);
      if length items =? 1 then
        e0 ← slift (py_first expr); mret (MExpr TInt (node "COUNT" [SStr "DISTINCT"; e0]))
      else if row_value_syntax cfg && negb (bool_decide (dialect cfg = "Oracle")) then
        mret (MExpr TInt (node "COUNT" [SStr "DISTINCT"; SList (SStr "ROW" :: items)]))
      else if bool_decide (dialect cfg = "SQLite") then
        tr ← slift (monad_tableref m);
        '(alias, _) ← make_join sch simple_aliases fuel tr false;
        mret (MExpr TInt (node "COUNT" [SStr "DISTINCT"; node "COLUMN" [alias_sx alias; SStr "ROWID"]]))
      else sthrow (NotImplementedError (dialect cfg +:+
             " database provider does not support entities with composite primary keys inside aggregate functions. Got: {EXPR} (you can suggest us how to write SQL for this query)")).

(** [Monad.aggregate(func_name)] (lines 730-756). *)
Definition monad_aggregate (cfg : tconfig) (aggregated : bool) (m : monad) (func_name : string)
  : stm store monad :=
  if aggregated then sthrow (TranslationError "Aggregated functions cannot be nested. Got: {EXPR}")
  else
    let expr_type := mtype m in
    (if bool_decide (func_name = "SUM" ∨ func_name = "AVG") then
       if is_numeric expr_type then mret tt
       else sthrow (TypeError ("Function '" +:+ func_name +:+ "' expects argument of numeric type, got '" +:+
                               type2str expr_type +:+ "' in {EXPR}"))
     else if bool_decide (func_name = "MIN" ∨ func_name = "MAX") then
       if is_comparable expr_type then mret tt
       else sthrow (TypeError ("Function '" +:+ func_name +:+ "' cannot be applied to type '" +:+
                               type2str expr_type +:+ "' in {EXPR}"))
     else sthrow AssertionError);;
    expr ← getsql m;
    items ← slift (py_iter expr);
    e ← (if length items =? 1 then slift (py_first expr)
         else if row_value_syntax cfg then mret (SList (SStr "ROW" :: items))
         else sthrow (NotImplementedError (dialect cfg +:+
           " database provider does not support entities with composite primary keys inside aggregate functions. Got: {EXPR} (you can suggest us how to write SQL for this query)")));
    let result_type := if bool_decide (func_name = "AVG") then TFloat else expr_type in
    slift (expr_monad_new result_type (node func_name [e])).

(** [make_numeric_binop(op, sqlop)] (lines 849-862).  The set monads
    of the [isinstance] test are not constructors of [monad], so the
    test is false. *)
Definition numeric_binop (op sqlop : string) (m m2 : monad) : stm store monad :=
  if decide (mtype m2 = TMETHOD) then slift forgot_parentheses
  else match coerce_types (mtype m) (mtype m2) with
  | None => sthrow (TypeError (binop_errmsg (mtype m) (mtype m2) op))
  | Some result_type =>
      left_sql ← getsql0 m; right_sql ← getsql0 m2;
      mret (MExpr result_type (node sqlop [left_sql; right_sql]))
  end.

(** [NumericMixin.__pow__] (lines 871-878). *)
Definition numeric_pow (m m2 : monad) : stm store monad :=
  if negb (is_numeric_monad m2) then sthrow (TypeError (binop_errmsg (mtype m) (mtype m2) "**"))
  else
    left_sql ← getsql m; right_sql ← getsql m2;
    ls ← slift (py_iter left_sql); rs ← slift (py_iter right_sql);
    slift (assert_ ((length ls =? length rs) && (length rs =? 1)));;
    l0 ← slift (py_first left_sql); r0 ← slift (py_first right_sql);
    mret (MExpr TFloat (node "POW" [l0; r0])).

(** [NumericMixin.__neg__] and [NumericMixin.abs] (lines 879-886). *)
Definition numeric_unary (sqlop : string) (m : monad) : stm store monad :=
  sql ← getsql0 m; mret (MExpr (mtype m) (node sqlop [sql])).

(** [monad + monad2], [-], [*], [/] by the class of [monad]:
    [NumericMixin], [StringMixin] (only [+]), [MethodMonad], and
    [Monad] otherwise. *)
Definition binop (op : string) (m m2 : monad) : stm store monad :=
  let sqlop := if bool_decide (op = "+") then "ADD" else if bool_decide (op = "-") then "SUB"
               else if bool_decide (op = "*") then "MUL" else "DIV" in
  if is_numeric_monad m then numeric_binop op sqlop m m2
  else if is_string_monad m && bool_decide (op = "+") then string_concat m m2
  else match m with
  | MMethod _ _ => slift forgot_parentheses
  | _ => sthrow (TypeError "unsupported operand")
  end.

(** [datetime_attr_factory(name)] (lines 894-899). *)
Definition date_attr (name : string) (m : monad) : stm store monad :=
  sql ← getsql0 m; mret (MExpr TInt (node name [sql])).

(** [Monad.getattr(attrname)] (lines 699-706), inherited by every
    class but [ObjectMixin] and [MethodMonad]: a property [attr_<name>],
    else a [MethodMonad] when [call_<name>] exists. *)
Definition monad_getattr (m : monad) (attrname : string) : stm store monad :=
  if has_attr_property m attrname then
    date_attr (if bool_decide (attrname = "year") then "YEAR"
               else if bool_decide (attrname = "month") then "MONTH"
               else if bool_decide (attrname = "day") then "DAY"
               else if bool_decide (attrname = "hour") then "HOUR"
               else if bool_decide (attrname = "minute") then "MINUTE" else "SECOND") m
  else if has_call_method m attrname then mret (MMethod m attrname)
  else sthrow (AttributeError ("'" +:+ type2str (mtype m) +:+ "' object has no attribute '" +:+
                               attrname +:+ "'")).

(** [MethodMonad.__call__] (lines 796-800) on the [call_*]
    methods of [StringMixin] (lines 1022-1067, 932-933); a wrong number
    of arguments raises [TypeError]. *)
Definition method_call (m : monad) (args : list monad) : stm store monad :=
  match m with
  | MMethod parent name =>
      if bool_decide (name = "upper") then
        match args with [] => string_func "UPPER" parent | _ => sthrow (TypeError "upper") end
      else if bool_decide (name = "lower") then
        match args with [] => string_func "LOWER" parent | _ => sthrow (TypeError "lower") end
      else if bool_decide (name = "startswith") then
        match args with [a] => string_affix false parent a | _ => sthrow (TypeError "startswith") end
      else if bool_decide (name = "endswith") then
        match args with [a] => string_affix true parent a | _ => sthrow (TypeError "endswith") end
      else if bool_decide (name = "strip" ∨ name = "lstrip" ∨ name = "rstrip") then
        let strip_type := if bool_decide (name = "strip") then "TRIM"
                          else if bool_decide (name = "lstrip") then "LTRIM" else "RTRIM" in
        match args with
        | [] => string_strip parent None strip_type
        | [c] => string_strip parent (Some c) strip_type
        | _ => sthrow (TypeError name)
        end
      else sthrow (AttributeError name)
  | _ => sthrow (TypeError "object is not callable")
  end.
End Algebra.

(** ** Meaning of the generated comparisons *)

(** The atomic predicates whose meanings are complementary in SQL's
    three-valued logic: [a <> b] is [NOT (a = b)], [a >= b] is
    [NOT (a < b)], [a > b] is [NOT (a <= b)], and each pair of
    [sql_negation] ([x NOT IN l] is [NOT (x IN l)], ...). *)
Definition complementary_atoms : list (string * string) :=
  [("EQ", "NE"); ("LT", "GE"); ("LE", "GT"); ("IS_NULL", "IS_NOT_NULL");
   ("IN", "NOT_IN"); ("EXISTS", "NOT_EXISTS"); ("LIKE", "NOT_LIKE"); ("BETWEEN", "NOT_BETWEEN")].

Definition complements (atom : sx → tv) : Prop :=
  ∀ t t' args, (t, t') ∈ complementary_atoms → atom (node t' args) = tv_not (atom (node t args)).

(** A comparison as [CmpMonad.__init__] leaves it: its operands are
    comparable, its operator is normalised ([<>] is [!=]), [None] only
    appears on the right and exactly with [is]/[is not]. *)
Definition cmp_normal (sch : schema) (op : string) (l r : monad) : Prop :=
  check_comparable (entity_root sch) (mtype l) (mtype r) op = Ok tt ∧
  is_Some (op_class op) ∧ op ≠ "<>" ∧
  (mtype r = TNone ↔ op_class op = Some 0) ∧ mtype l ≠ TNone.

(** SQL's [SUBSTR(s, y, z)] as SQLite computes it ([substrFunc] of
    SQLite's func.c): 1-based, a negative [y] counts from the end, a
    negative [z] takes the characters before position [y], a missing
    [z] takes the rest of the string. *)
Definition sqlite_substr (s : string) (y : Z) (z : option Z) : string :=
  let n := Z.of_nat (String.length s) in
  let '(p2, negP2) :=
    match z with
    | None => ((n + Z.abs y + 1)%Z, false)
    | Some z => if (z <? 0)%Z then ((- z)%Z, true) else (z, false)
    end in
  let '(p1, p2) :=
    if (y <? 0)%Z then
      (if (y + n <? 0)%Z then (0%Z, Z.max 0 (p2 + (y + n))) else ((y + n)%Z, p2))
    else if (0 <? y)%Z then ((y - 1)%Z, p2)
    else (0%Z, if (0 <? p2)%Z then (p2 - 1)%Z else p2) in
  let '(p1, p2) :=
    if negP2 then (if (p1 - p2 <? 0)%Z then (0%Z, (p2 + (p1 - p2))%Z) else ((p1 - p2)%Z, p2))
    else (p1, p2) in
  String.substring (Z.to_nat p1) (Z.to_nat p2) s.

(** ** Lemmas *)

Lemma complements_eval atom t t' args :
  complements atom → (t, t') ∈ complementary_atoms →
  eval_cond atom (node t' args) = tv_not (eval_cond atom (node t args)).
Proof.
  intros Hc Hin. pose proof (Hc _ _ args Hin) as E.
  repeat (apply elem_of_cons in Hin as [Hin|Hin]; [simplify_eq; exact E|]).
  by apply elem_of_nil in Hin.
Qed.

Lemma complements_eval_sym atom t t' args :
  complements atom → (t, t') ∈ complementary_atoms →
  eval_cond atom (node t args) = tv_not (eval_cond atom (node t' args)).
Proof. intros Hc Hin. by rewrite (complements_eval atom t t'), tv_not_involutive. Qed.

Lemma zip_with_nodes {A B} (f : A → B → list sx) t (ls : list A) (rs : list B) :
  Forall (λ x, is_node x = true) (zip_with (λ a b, node t (f a b)) ls rs).
Proof. revert rs. induction ls; intros [|??]; simpl; constructor; auto. Qed.

Lemma zip_with_complement atom t t' ls rs :
  (∀ args, eval_cond atom (node t' args) = tv_not (eval_cond atom (node t args))) →
  Forall2 (λ a b, eval_cond atom b = tv_not (eval_cond atom a))
    (zip_with (λ a b, node t [a; b]) ls rs) (zip_with (λ a b, node t' [a; b]) ls rs).
Proof. intros H. revert rs. induction ls; intros [|??]; simpl; constructor; auto. Qed.

Lemma zip_with_nil_inv {A B C} (f : A → B → C) ls rs :
  ls ≠ [] → length ls = length rs → zip_with f ls rs ≠ [].
Proof. destruct ls, rs; simpl; done. Qed.

Lemma cmp_negate_cases op op' :
  cmp_negate op = Ok op' →
  (op, op') ∈ [("<", ">="); ("<=", ">"); ("==", "!="); ("is", "is not");
               (">=", "<"); (">", "<="); ("!=", "=="); ("is not", "is")].
Proof.
  unfold cmp_negate. intros H.
  repeat (case_bool_decide; [simplify_eq; by repeat constructor|]). discriminate.
Qed.

Lemma zip_connective_complement atom t t' op1 op2 ls rs x :
  sql_connective op1 (zip_with (λ a b, node t [a; b]) ls rs) = Ok x →
  (op1 = "AND" ∧ op2 = "OR" ∨ op1 = "OR" ∧ op2 = "AND") →
  (∀ args, eval_cond atom (node t' args) = tv_not (eval_cond atom (node t args))) →
  ls ≠ [] → length ls = length rs →
  ∃ y, sql_connective op2 (zip_with (λ a b, node t' [a; b]) ls rs) = Ok y ∧
       eval_cond atom y = tv_not (eval_cond atom x).
Proof.
  intros Hx Hops Ht Hne Hl. eapply sql_connective_complement; [done| | | |done].
  - by apply zip_with_complement.
  - apply (zip_with_nodes (λ a b, [a; b])).
  - by apply zip_with_nil_inv.
Qed.

Local Ltac cmp_case :=
  repeat match goal with
  | H : ?c ≫= _ = Ok _ |- _ => destruct c eqn:?; simpl in H |- *; [|discriminate]
  | H : assert_ _ = Ok ?u |- _ => destruct u; apply assert_Ok in H
  end;
  cbv [mret result_ret] in *; simplify_eq;
  try match goal with
  | H : sql_connective "AND" _ = Ok _ |- ∃ _, sql_connective "OR" _ = Ok _ ∧ _ =>
      eapply (zip_connective_complement _ _ _ _ "OR") in H;
        [exact H | by left | intros; eapply complements_eval; [done|by repeat constructor]
        | done | by apply Nat.eqb_eq]
  | H : sql_connective "OR" _ = Ok _ |- ∃ _, sql_connective "AND" _ = Ok _ ∧ _ =>
      eapply (zip_connective_complement _ _ _ _ "AND") in H;
        [exact H | by right | intros; eapply complements_eval_sym; [done|by repeat constructor]
        | done | by apply Nat.eqb_eq]
  end.

(** The SQL of the negated operator means the complement of the SQL of
    the operator, for the same operand columns. *)
Lemma cmp_sql_negate (atom : sx → tv) op op' ls rsql x :
  complements atom → cmp_negate op = Ok op' → ls ≠ [] →
  (is_null_op op = true → length ls = 1) →
  cmp_sql op (SList ls) rsql = Ok x →
  ∃ y, cmp_sql op' (SList ls) rsql = Ok y ∧ eval_cond atom y = tv_not (eval_cond atom x).
Proof.
  intros Hc Hop Hne H1 Hx. apply cmp_negate_cases in Hop.
  rewrite !elem_of_cons, elem_of_nil in Hop. destruct_or! Hop; simplify_eq;
    unfold cmp_sql, sqland, sqlor in *; simpl in *; cmp_case.
  all: try (eexists; split; [reflexivity|]).
  all: try (by eapply complements_eval; [|repeat constructor]).
  all: try (by eapply complements_eval_sym; [|repeat constructor]).
  all: specialize (H1 eq_refl); destruct ls as [|b [|]]; simpl in *; try done;
    simplify_eq; eexists; split; try reflexivity.
  - by eapply complements_eval; [|repeat constructor].
  - by eapply complements_eval_sym; [|repeat constructor].
Qed.

Lemma cmp_negate_class op op' :
  cmp_negate op = Ok op' → op_class op' = op_class op ∧ op' ≠ "<>".
Proof.
  intros H. apply cmp_negate_cases in H. rewrite !elem_of_cons, elem_of_nil in H.
  destruct_or! H; simplify_eq; split; (reflexivity || congruence).
Qed.

Lemma cmp_negate_inv op op' : cmp_negate op = Ok op' → cmp_negate op' = Ok op.
Proof.
  intros H. apply cmp_negate_cases in H. rewrite !elem_of_cons, elem_of_nil in H.
  destruct_or! H; simplify_eq; reflexivity.
Qed.

Lemma cmp_negate_total op : is_Some (op_class op) → op ≠ "<>" → ∃ op', cmp_negate op = Ok op'.
Proof.
  intros [k Hk] Hne. apply op_class_cases in Hk.
  destruct_or! Hk; destruct Hk as [_ Hk]; destruct_or! Hk; subst; try congruence; by eexists.
Qed.

Lemma cmp_monad_normal sch op l r m :
  is_Some (op_class op) → cmp_monad sch op l r = Ok m →
  ∃ op2 l2 r2, m = MCmp op2 l2 r2 ∧ cmp_normal sch op2 l2 r2.
Proof.
  intros [k Hk] H. unfold cmp_monad in H.
  destruct (check_comparable _ _ _ op) as [[]|] eqn:Hc; [|discriminate]. simpl in H.
  pose proof (check_comparable_method _ _ _ _ Hc) as [Hm1 Hm2].
  destruct (decide (mtype l = TNone)) as [Hl|Hl].
  - rewrite Hl in Hc. pose proof (check_none_left _ _ _ _ Hk Hc) as ->.
    destruct (decide (mtype r = TNone)) as [Hr|Hr].
    { rewrite (bool_decide_eq_true_2 (mtype r = TNone) Hr) in H. simpl in H. discriminate. }
    rewrite (bool_decide_eq_false_2 (mtype r = TNone) Hr) in H. simpl in H.
    rewrite decide_True in H by done.
    apply op_class_cases in Hk as [[? _]|[[_ Hop]|[? _]]]; [lia| |lia].
    destruct_or! Hop; subst; cbv [mret result_ret] in H; simpl in H; simplify_eq;
      eexists _, _, _; (split; [done|]); unfold cmp_normal; rewrite Hl;
      split_and!; try (apply check_is; auto); try (by eexists); try congruence.
  - cbv [mret result_ret] in H. simpl in H.
    destruct (decide (mtype r = TNone)) as [Hr|Hr].
    + rewrite Hr in Hc. pose proof (check_none_right _ _ _ _ Hk Hc) as [Hk2 _].
      apply op_class_cases in Hk as [[_ Hop]|[[_ Hop]|[? _]]]; [| |congruence];
      destruct_or! Hop; subst; simpl in H; simplify_eq; eexists _, _, _; (split; [done|]);
        unfold cmp_normal; rewrite Hr;
        split_and!; try (apply check_is; auto); try (by eexists); try congruence.
    + pose proof (check_not_none (entity_root sch) (mtype l) (mtype r) op Hr) as Hnn.
      apply op_class_cases in Hk as [[_ Hop]|[[_ Hop]|[_ Hop]]];
      destruct_or! Hop; subst; try (by destruct (Hnn eq_refl Hc)); simpl in H; simplify_eq;
        eexists _, _, _; (split; [done|]); unfold cmp_normal;
        split_and!; try (by eexists); try done; try congruence.
      rewrite <- Hc. by apply check_comparable_class with 1.
Qed.

Lemma cmp_monad_fixed sch op l r : cmp_normal sch op l r → cmp_monad sch op l r = Ok (MCmp op l r).
Proof.
  intros (Hc & [k Hk] & Hne & Hiff & Hl). unfold cmp_monad. rewrite Hc. simpl.
  rewrite decide_False by done. simpl.
  destruct (decide (mtype r = TNone)) as [Hr|Hr].
  - apply Hiff in Hr. simplify_eq. apply op_class_cases in Hk as [[_ Hop]|[[? _]|[? _]]];
      try lia. destruct_or! Hop; subst; reflexivity.
  - pose proof (op_class_cases _ _ Hk) as [[-> _]|[[_ Hop]|[_ Hop]]];
      [by destruct Hr; apply Hiff| |];
      destruct_or! Hop; subst; try congruence; reflexivity.
Qed.

Lemma cmp_normal_negate sch op op' l r :
  cmp_normal sch op l r → cmp_negate op = Ok op' → cmp_normal sch op' l r.
Proof.
  intros (Hc & [k Hk] & Hne & Hiff & Hl) Hn. destruct (cmp_negate_class _ _ Hn) as [Hk' Hne'].
  rewrite Hk in Hk'. split_and!; [|by eexists|done| |done].
  - rewrite <- Hc. by apply check_comparable_class with k.
  - by rewrite Hk', <- Hk.
Qed.

Lemma is_null_op_negate op op' : cmp_negate op = Ok op' → is_null_op op' = is_null_op op.
Proof.
  intros H. apply cmp_negate_cases in H. rewrite !elem_of_cons, elem_of_nil in H.
  destruct_or! H; simplify_eq; reflexivity.
Qed.

Lemma negate_cmp_step sch sa fuel op op' l r st :
  cmp_normal sch op l r → cmp_negate op = Ok op' →
  negate sch sa fuel (MCmp op l r) st = Ok (MCmp op' l r, st).
Proof.
  intros Hn Hop. simpl. rewrite Hop, stm_bind_unfold. simpl.
  by rewrite (cmp_monad_fixed _ _ _ _ (cmp_normal_negate _ _ _ _ _ Hn Hop)).
Qed.

Lemma cmp_normal_negate_total sch op l r : cmp_normal sch op l r → ∃ op', cmp_negate op = Ok op'.
Proof. intros (_ & Hk & Hne & _). by apply cmp_negate_total. Qed.

Lemma sql_negation_get_cases t t' :
  sql_negation_get (SStr t) = Ok (Some t') →
  sql_negation_get (SStr t') = Ok (Some t) ∧
  ((t, t') ∈ complementary_atoms ∨ (t', t) ∈ complementary_atoms).
Proof.
  unfold sql_negation_get. intros H.
  repeat (case_bool_decide; [simplify_eq; split; [reflexivity|];
                             (left + right); by repeat constructor|]).
  discriminate.
Qed.

Lemma getsql_cmp sch sa fuel op l r st :
  getsql sch sa fuel (MCmp op l r) st =
    match getsql sch sa fuel l st with
    | Ok (lsql, st1) =>
        match (if is_null_op op then mret SNone else getsql sch sa fuel r) st1 with
        | Ok (rsql, st2) =>
            match cmp_sql op lsql rsql with Ok x => Ok (x, st2) | Err e => Err e end
        | Err e => Err e
        end
    | Err e => Err e
    end.
Proof.
  simpl. rewrite stm_bind_unfold. destruct (getsql _ _ _ l st) as [[lsql st1]|]; [|done].
  rewrite stm_bind_unfold.
  destruct ((if is_null_op op then mret SNone else getsql sch sa fuel r) st1) as [[??]|];
    [|done].
  unfold slift. by destruct (cmp_sql _ _ _).
Qed.

(** ** Negation *)

(** C1: negating a comparison that [CmpMonad] built produces, from the
    same state, SQL whose three-valued meaning is the complement of the
    comparison's SQL, and leaves the same final state: [not (a op b)] is
    translated correctly for every operator, as long as [a] has columns
    ([is]/[is not] on one column: see the finding on composite keys). *)
Theorem negate_cmp_sound sch sa fuel atom op l r st ls st1 x st2 :
  complements atom → cmp_normal sch op l r →
  getsql sch sa fuel l st = Ok (SList ls, st1) → ls ≠ [] →
  (is_null_op op = true → length ls = 1) →
  getsql sch sa fuel (MCmp op l r) st = Ok (x, st2) →
  ∃ m' y, negate sch sa fuel (MCmp op l r) st = Ok (m', st) ∧
          getsql sch sa fuel m' st = Ok (y, st2) ∧
          eval_cond atom y = tv_not (eval_cond atom x).
Proof.
  intros Hc Hn Hl Hne H1 Hx. destruct (cmp_normal_negate_total _ _ _ _ Hn) as [op' Hop].
  rewrite getsql_cmp, Hl in Hx.
  destruct ((if is_null_op op then mret SNone else getsql sch sa fuel r) st1)
    as [[rsql st1']|] eqn:Er; [|discriminate].
  destruct (cmp_sql op (SList ls) rsql) as [x'|] eqn:Ex; simplify_eq.
  destruct (cmp_sql_negate atom op op' ls rsql x Hc Hop Hne H1 Ex) as (y & Ey & Hy).
  exists (MCmp op' l r), y. split; [by apply negate_cmp_step|].
  rewrite getsql_cmp, Hl, (is_null_op_negate _ _ Hop), Er, Ey. done.
Qed.

(** C16: negating a comparison that [CmpMonad] built never fails and is
    an involution: [not not (a op b)] is the comparison [a op b] again,
    for every comparison operator ([==], [!=], [<>], [<], [<=], [>],
    [>=], [is], [is not]), with [None] on either side. *)
Theorem negate_cmp_involutive sch sa fuel op l r m st :
  is_Some (op_class op) → cmp_monad sch op l r = Ok m →
  ∃ m', negate sch sa fuel m st = Ok (m', st) ∧ negate sch sa fuel m' st = Ok (m, st).
Proof.
  intros Hop Hm. destruct (cmp_monad_normal _ _ _ _ _ Hop Hm) as (op2 & l2 & r2 & -> & Hn).
  destruct (cmp_normal_negate_total _ _ _ _ Hn) as [op3 H3].
  exists (MCmp op3 l2 r2). split; [by apply negate_cmp_step|].
  apply negate_cmp_step; [by eapply cmp_normal_negate | by apply cmp_negate_inv].
Qed.

Lemma negate_boolexpr_node sch sa fuel t args st :
  negate sch sa fuel (MBoolExpr (node t args)) st =
    match sql_negation_get (SStr t) with
    | Ok (Some nop) => Ok (MBoolExpr (node nop args), st)
    | Ok None => Err (TypeError "__init__() takes exactly 2 arguments (3 given)")
    | Err e => Err e
    end.
Proof.
  unfold negate, slift, boolexpr_negate, py_first, py_tail, node. cbn -[sql_negation_get].
  by destruct (sql_negation_get (SStr t)) as [[]|].
Qed.

(** a condition whose head has a negated form in [sql_negation]
    ([IN], [EXISTS], [LIKE], [BETWEEN], [IS_NULL] and their negations)
    is negated by swapping the head, which means the complement, and
    negating twice gives the condition back. *)
Theorem negate_boolexpr_sound sch sa fuel atom t t' args st :
  complements atom → sql_negation_get (SStr t) = Ok (Some t') →
  negate sch sa fuel (MBoolExpr (node t args)) st = Ok (MBoolExpr (node t' args), st) ∧
  eval_cond atom (node t' args) = tv_not (eval_cond atom (node t args)) ∧
  negate sch sa fuel (MBoolExpr (node t' args)) st = Ok (MBoolExpr (node t args), st).
Proof.
  intros Hc Ht. destruct (sql_negation_get_cases _ _ Ht) as [Ht' Hin].
  rewrite !negate_boolexpr_node, Ht, Ht'. split_and!; [done| |done].
  destruct Hin as [Hin|Hin]; [by apply complements_eval | by apply complements_eval_sym].
Qed.

(** C11 (finding): negating a condition whose head has no entry in
    [sql_negation] — an [AND]/[OR] built by a multi-column [in], a
    [NOT], an [EQ] — raises [TypeError]: the [NotMonad] fallback is
    called with the translator as an extra argument, and the branch
    meant to remove a double [NOT] is unreachable. *)
Theorem negate_boolexpr_typeerror sch sa fuel t args st :
  sql_negation_get (SStr t) = Ok None →
  negate sch sa fuel (MBoolExpr (node t args)) st =
    Err (TypeError "__init__() takes exactly 2 arguments (3 given)").
Proof. intros Ht. by rewrite negate_boolexpr_node, Ht. Qed.

(** ** Witnesses *)

Definition param_x : monad := MParam TInt (SStr "x").

Example negate_cmp_sound_witness :
  complements (λ _, TUnknown) ∧ cmp_normal model1_schema "<" param_x (MConst TInt (SInt 3)) ∧
  getsql model1_schema false 5 param_x empty_store =
    Ok (SList [node "PARAM" [SStr "x"; SStr "int"]], empty_store) ∧
  [node "PARAM" [SStr "x"; SStr "int"]] ≠ [] ∧
  (is_null_op "<" = true → length [node "PARAM" [SStr "x"; SStr "int"]] = 1) ∧
  getsql model1_schema false 5 (MCmp "<" param_x (MConst TInt (SInt 3))) empty_store =
    Ok (node "LT" [node "PARAM" [SStr "x"; SStr "int"]; value (SInt 3)], empty_store) ∧
  ∃ m' y, negate model1_schema false 5 (MCmp "<" param_x (MConst TInt (SInt 3))) empty_store
            = Ok (m', empty_store) ∧
          getsql model1_schema false 5 m' empty_store = Ok (y, empty_store) ∧
          eval_cond (λ _, TUnknown) y =
            tv_not (eval_cond (λ _, TUnknown)
                      (node "LT" [node "PARAM" [SStr "x"; SStr "int"]; value (SInt 3)])).
Proof.
  assert (Hc : complements (λ _, TUnknown)) by (intros ???; reflexivity).
  assert (Hn : cmp_normal model1_schema "<" param_x (MConst TInt (SInt 3))).
  { split_and!; [reflexivity | by eexists | discriminate | split; discriminate | discriminate]. }
  split_and!; [exact Hc | exact Hn | reflexivity | discriminate | discriminate | reflexivity |].
  eapply (negate_cmp_sound model1_schema false 5 (λ _, TUnknown) "<" param_x
            (MConst TInt (SInt 3)) empty_store); [exact Hc | exact Hn | reflexivity
                                                  | discriminate | discriminate | reflexivity].
Defined.

Example negate_cmp_involutive_witness :
  is_Some (op_class "==") ∧
  cmp_monad model1_schema "==" (MConst TNone SNone) param_x =
    Ok (MCmp "is" param_x (MConst TNone SNone)) ∧
  ∃ m', negate model1_schema false 5 (MCmp "is" param_x (MConst TNone SNone)) empty_store
          = Ok (m', empty_store) ∧
        negate model1_schema false 5 m' empty_store
          = Ok (MCmp "is" param_x (MConst TNone SNone), empty_store).
Proof.
  split; [by eexists|]. split; [reflexivity|].
  apply (negate_cmp_involutive model1_schema false 5 "==" (MConst TNone SNone) param_x);
    [by eexists | reflexivity].
Defined.

Example negate_boolexpr_sound_witness :
  complements (λ _, TUnknown) ∧ sql_negation_get (SStr "IN") = Ok (Some "NOT_IN") ∧
  negate model1_schema false 5 (MBoolExpr (node "IN" [SInt 1; SList [value (SInt 1)]])) empty_store
    = Ok (MBoolExpr (node "NOT_IN" [SInt 1; SList [value (SInt 1)]]), empty_store) ∧
  eval_cond (λ _, TUnknown) (node "NOT_IN" [SInt 1; SList [value (SInt 1)]]) =
    tv_not (eval_cond (λ _, TUnknown) (node "IN" [SInt 1; SList [value (SInt 1)]])) ∧
  negate model1_schema false 5 (MBoolExpr (node "NOT_IN" [SInt 1; SList [value (SInt 1)]])) empty_store
    = Ok (MBoolExpr (node "IN" [SInt 1; SList [value (SInt 1)]]), empty_store).
Proof.
  assert (Hc : complements (λ _, TUnknown)) by (intros ???; reflexivity).
  split; [exact Hc|]. split; [reflexivity|].
  apply negate_boolexpr_sound; [exact Hc | reflexivity].
Defined.

Example negate_boolexpr_typeerror_witness :
  sql_negation_get (SStr "OR") = Ok None ∧
  negate model1_schema false 5 (MBoolExpr (node "OR" [node "EQ" [SInt 1; SInt 2]])) empty_store =
    Err (TypeError "__init__() takes exactly 2 arguments (3 given)").
Proof. split; [reflexivity|]. apply negate_boolexpr_typeerror. reflexivity. Defined.

(** ** Lemmas on strings *)

Lemma substring_past i k s : String.length s <= i → String.substring i k s = "".
Proof.
  revert i. induction s as [|c s IH]; intros i Hi.
  - by destruct i, k.
  - destruct i as [|i]; simpl in *; [lia|]. apply IH. lia.
Qed.

Lemma substring_clip i k k' s :
  String.length s - i <= k → String.length s - i <= k' →
  String.substring i k s = String.substring i k' s.
Proof.
  revert i k k'. induction s as [|c s IH]; intros [|i] k k' Hk Hk'; simpl in *.
  - by destruct k, k'.
  - by destruct k, k'.
  - destruct k, k'; simpl; try lia. f_equal. apply IH; lia.
  - apply IH; lia.
Qed.
Lemma sqlite_substr_slice v a b :
  (0 <= a <= b)%Z → sqlite_substr v (a + 1)%Z (Some (b - a)%Z) = py_str_slice v (Some a) (Some b).
Proof.
  intros Hab. unfold sqlite_substr, py_str_slice, py_slice_bound.
  destruct (Z.ltb_spec (b - a) 0); [lia|].
  destruct (Z.ltb_spec (a + 1) 0); [lia|].
  destruct (Z.ltb_spec 0 (a + 1)); [|lia].
  destruct (Z.ltb_spec a 0); [lia|]. destruct (Z.ltb_spec b 0); [lia|].
  cbn -[String.substring Z.to_nat].
  replace (a + 1 - 1)%Z with a by lia.
  destruct (Nat.le_gt_cases (String.length v) (Z.to_nat a)).
  - rewrite !substring_past; [done| |lia]. lia.
  - rewrite (Z.min_l a) by lia.
    destruct (Z.le_gt_cases b (Z.of_nat (String.length v))).
    + by rewrite Z.min_l.
    + apply substring_clip; lia.
Qed.

Lemma sqlite_substr_index v i c :
  py_str_index v i = Ok c → sqlite_substr v (if (0 <=? i)%Z then (i + 1)%Z else i) (Some 1%Z) = c.
Proof.
  unfold py_str_index, sqlite_substr. intros H.
  set (n := Z.of_nat (String.length v)) in *.
  destruct (Z.ltb_spec i 0) as [Hi|Hi].
  - rewrite (proj2 (Z.leb_gt 0 i)) by lia.
    destruct (Z.leb_spec 0 (n + i)), (Z.ltb_spec (n + i) n); simpl in H; try discriminate.
    injection H as <-. simpl.
    destruct (Z.ltb_spec i 0); [|lia]. destruct (Z.ltb_spec (i + n) 0); [lia|]. simpl. f_equal. lia.
  - rewrite (proj2 (Z.leb_le 0 i)) by lia.
    destruct (Z.leb_spec 0 i), (Z.ltb_spec i n); simpl in H; try discriminate; try lia.
    injection H as <-. simpl.
    destruct (Z.ltb_spec (i + 1) 0); [lia|]. destruct (Z.ltb_spec 0 (i + 1)); [|lia].
    simpl. f_equal. lia.
Qed.
Lemma string_getitem_slice sch sa fuel m a b st e st' :
  str_const_value m = None → getsql0 sch sa fuel m st = Ok (e, st') → (0 <= a)%Z → (0 <= b)%Z →
  string_getitem sch sa fuel m (IndexSlice (Some (MConst TInt (SInt a))) (Some (MConst TInt (SInt b))) false) st
    = Ok (MExpr (mtype m) (node "SUBSTR" [e; value (SInt (a + 1)); value (SInt (b - a))]), st').
Proof.
  intros Hc He Ha Hb. unfold string_getitem. rewrite Hc.
  cbn -[getsql0 slice_start_sql slice_len_sql]. rewrite !decide_True by done.
  rewrite !stm_bind_unfold. cbv [mret stm_ret]. rewrite stm_bind_unfold. cbv beta iota. rewrite stm_bind_unfold, He.
  unfold slice_start_sql, slice_len_sql. simpl.
  destruct (Z.ltb_spec a 0); [lia|]. destruct (Z.ltb_spec b 0); [lia|]. reflexivity.
Qed.

Lemma string_getitem_index sch sa fuel m i st e st' :
  str_const_value m = None → getsql0 sch sa fuel m st = Ok (e, st') →
  string_getitem sch sa fuel m (IndexMonad (MConst TInt (SInt i))) st
    = Ok (MExpr (mtype m) (node "SUBSTR" [e; value (SInt (if (0 <=? i)%Z then (i + 1)%Z else i));
                                          value (SInt 1)]), st').
Proof.
  intros Hc He. unfold string_getitem. rewrite Hc.
  cbn -[getsql0]. rewrite bool_decide_true by done. cbn [negb]. rewrite stm_bind_unfold, He. reflexivity.
Qed.

(** ** Indexing and slicing strings *)

(** C24: slicing a string expression with constant bounds
    [0 <= a <= b], [s[a:b]], translates into [SUBSTR(s, a+1, b-a)],
    which computes Python's slice of every string value. *)
Theorem string_slice_sound sch sa fuel m a b st e st' :
  str_const_value m = None → getsql0 sch sa fuel m st = Ok (e, st') → (0 <= a <= b)%Z →
  string_getitem sch sa fuel m (IndexSlice (Some (MConst TInt (SInt a))) (Some (MConst TInt (SInt b))) false) st
    = Ok (MExpr (mtype m) (node "SUBSTR" [e; value (SInt (a + 1)); value (SInt (b - a))]), st') ∧
  ∀ v, sqlite_substr v (a + 1)%Z (Some (b - a)%Z) = py_str_slice v (Some a) (Some b).
Proof.
  intros Hc He Hab. split; [apply string_getitem_slice; auto; lia|].
  intros v. by apply sqlite_substr_slice.
Qed.

(** C32 (finding): with constant bounds [b < a], [s[a:b]] is empty in
    Python but translates into [SUBSTR(s, a+1, b-a)] with a negative
    length, which takes the characters before position [a+1]: [s[3:1]]
    of ['hello'] is [''] in Python and ['el'] in SQL. *)
Theorem string_slice_reversed sch sa fuel m st e st' :
  str_const_value m = None → getsql0 sch sa fuel m st = Ok (e, st') →
  string_getitem sch sa fuel m (IndexSlice (Some (MConst TInt (SInt 3))) (Some (MConst TInt (SInt 1))) false) st
    = Ok (MExpr (mtype m) (node "SUBSTR" [e; value (SInt 4); value (SInt (-2))]), st') ∧
  sqlite_substr "hello" 4 (Some (-2)%Z) = "el" ∧ py_str_slice "hello" (Some 3%Z) (Some 1%Z) = "".
Proof.
  intros Hc He. split; [by apply (string_getitem_slice sch sa fuel m 3 1)|]. done.
Qed.

(** C25: indexing a string expression with a constant [i] translates
    into [SUBSTR(s, i+1, 1)] for [i >= 0] and [SUBSTR(s, i, 1)] for a
    negative [i], which computes Python's [s[i]] on every string where
    Python's index is in range. *)
Theorem string_index_sound sch sa fuel m i st e st' :
  str_const_value m = None → getsql0 sch sa fuel m st = Ok (e, st') →
  string_getitem sch sa fuel m (IndexMonad (MConst TInt (SInt i))) st
    = Ok (MExpr (mtype m) (node "SUBSTR" [e; value (SInt (if (0 <=? i)%Z then (i + 1)%Z else i));
                                          value (SInt 1)]), st') ∧
  ∀ v c, py_str_index v i = Ok c → sqlite_substr v (if (0 <=? i)%Z then (i + 1)%Z else i) (Some 1%Z) = c.
Proof.
  intros Hc He. split; [by apply string_getitem_index|].
  intros v c. apply sqlite_substr_index.
Qed.

Definition param_name : monad := MParam TUnicode (SStr "name").

Example string_slice_sound_witness :
  str_const_value param_name = None ∧
  getsql0 model1_schema false 5 param_name empty_store =
    Ok (node "PARAM" [SStr "name"; SStr "unicode"], empty_store) ∧
  (0 <= 1 <= 3)%Z ∧
  string_getitem model1_schema false 5 param_name
    (IndexSlice (Some (MConst TInt (SInt 1))) (Some (MConst TInt (SInt 3))) false) empty_store
    = Ok (MExpr TUnicode (node "SUBSTR" [node "PARAM" [SStr "name"; SStr "unicode"];
                                         value (SInt 2); value (SInt 2)]), empty_store) ∧
  ∀ v, sqlite_substr v 2 (Some 2%Z) = py_str_slice v (Some 1%Z) (Some 3%Z).
Proof.
  split; [reflexivity|]. split; [reflexivity|]. split; [lia|].
  exact (string_slice_sound model1_schema false 5 param_name 1 3 empty_store _ empty_store
           eq_refl eq_refl ltac:(lia)).
Defined.

Example string_slice_reversed_witness :
  str_const_value param_name = None ∧
  getsql0 model1_schema false 5 param_name empty_store =
    Ok (node "PARAM" [SStr "name"; SStr "unicode"], empty_store) ∧
  string_getitem model1_schema false 5 param_name
    (IndexSlice (Some (MConst TInt (SInt 3))) (Some (MConst TInt (SInt 1))) false) empty_store
    = Ok (MExpr TUnicode (node "SUBSTR" [node "PARAM" [SStr "name"; SStr "unicode"];
                                         value (SInt 4); value (SInt (-2))]), empty_store) ∧
  sqlite_substr "hello" 4 (Some (-2)%Z) = "el" ∧ py_str_slice "hello" (Some 3%Z) (Some 1%Z) = "".
Proof.
  split; [reflexivity|]. split; [reflexivity|].
  exact (string_slice_reversed model1_schema false 5 param_name empty_store _ empty_store
           eq_refl eq_refl).
Defined.

Example string_index_sound_witness :
  str_const_value param_name = None ∧
  getsql0 model1_schema false 5 param_name empty_store =
    Ok (node "PARAM" [SStr "name"; SStr "unicode"], empty_store) ∧
  string_getitem model1_schema false 5 param_name (IndexMonad (MConst TInt (SInt (-1)))) empty_store
    = Ok (MExpr TUnicode (node "SUBSTR" [node "PARAM" [SStr "name"; SStr "unicode"];
                                         value (SInt (-1)); value (SInt 1)]), empty_store) ∧
  ∀ v c, py_str_index v (-1) = Ok c → sqlite_substr v (-1) (Some 1%Z) = c.
Proof.
  split; [reflexivity|]. split; [reflexivity|].
  exact (string_index_sound model1_schema false 5 param_name (-1) empty_store _ empty_store
           eq_refl eq_refl).
Defined.

(** ** Containment in a list *)

Lemma zip_with_ne {A B C} (f : A → B → C) l1 l2 : l1 ≠ [] → l2 ≠ [] → zip_with f l1 l2 ≠ [].
Proof. destruct l1, l2; done. Qed.

Lemma zip_connective_complement_ne atom t t' op1 op2 ls rs x :
  sql_connective op1 (zip_with (λ a b, node t [a; b]) ls rs) = Ok x →
  (op1 = "AND" ∧ op2 = "OR" ∨ op1 = "OR" ∧ op2 = "AND") →
  (∀ args, eval_cond atom (node t' args) = tv_not (eval_cond atom (node t args))) →
  ls ≠ [] → rs ≠ [] →
  ∃ y, sql_connective op2 (zip_with (λ a b, node t' [a; b]) ls rs) = Ok y ∧
       eval_cond atom y = tv_not (eval_cond atom x) ∧ is_node y = true.
Proof.
  intros Hx Hops Ht Hl Hr.
  destruct (sql_connective_complement atom op1 op2 (zip_with (λ a b, node t [a; b]) ls rs)
              (zip_with (λ a b, node t' [a; b]) ls rs) x Hops)
    as (y & Ey & Hy); [by apply zip_with_complement | apply (zip_with_nodes (λ a b, [a; b]))
                       | by apply zip_with_ne | done|].
  exists y. split_and!; [done|done|]. eapply sql_connective_node; [exact Ey| |].
  - by apply zip_with_ne.
  - apply (zip_with_nodes (λ a b, [a; b])).
Qed.

(** for a multi-column [x], [x not in items] is translated into the
    complement of [x in items]: the AND of per-item ORs of [NE] means
    the negation of the OR of per-item ANDs of [EQ] (De Morgan twice),
    whenever [x] and every item have columns. *)
Theorem list_contains_sql_negation atom ls rows y :
  complements atom → ls ≠ [] → rows ≠ [] → Forall (λ r, r ≠ []) rows →
  list_contains_sql false ls rows = Ok y →
  ∃ z, list_contains_sql true ls rows = Ok z ∧ eval_cond atom z = tv_not (eval_cond atom y).
Proof.
  intros Hc Hls Hrows Hr H. unfold list_contains_sql in *.
  apply bind_Ok_inv in H as [conds [Hm Hy]]. apply mapM_Ok in Hm.
  assert (Hcs : ∃ conds', Forall2 (λ r c', sqlor (zip_with (λ a b, node "NE" [a; b]) ls r) = Ok c')
                                  rows conds' ∧
                          Forall2 (λ c c', eval_cond atom c' = tv_not (eval_cond atom c)) conds conds' ∧
                          Forall (λ c', is_node c' = true) conds').
  { clear Hy Hrows. induction Hm as [|r c rows' conds0 Hrc _ IH]; [by exists []|].
    inversion Hr as [|? ? Hr0 Hr']; subst.
    destruct (IH Hr') as (cs & H1 & H2 & H3).
    destruct (zip_connective_complement_ne atom "EQ" "NE" "AND" "OR" ls r c Hrc (or_introl (conj eq_refl eq_refl)))
      as (c' & Ec' & Hc' & Nc');
      [intros; eapply complements_eval; [done | by repeat constructor] | done | done |].
    exists (c' :: cs). split_and!; by constructor. }
  destruct Hcs as (conds' & H1 & H2 & H3).
  apply mapM_Ok in H1. rewrite H1. simpl.
  eapply sql_connective_complement; [by right | exact H2 | exact H3 | | exact Hy].
  intros ->. inversion Hm; subst. done.
Qed.

Example list_contains_sql_negation_witness :
  complements (λ _, TUnknown) ∧ [SInt 1; SInt 2] ≠ [] ∧ [[SInt 3; SInt 4]] ≠ [] ∧
  Forall (λ r : list sx, r ≠ []) [[SInt 3; SInt 4]] ∧
  list_contains_sql false [SInt 1; SInt 2] [[SInt 3; SInt 4]] =
    Ok (node "AND" [node "EQ" [SInt 1; SInt 3]; node "EQ" [SInt 2; SInt 4]]) ∧
  ∃ z, list_contains_sql true [SInt 1; SInt 2] [[SInt 3; SInt 4]] = Ok z ∧
       eval_cond (λ _, TUnknown) z =
         tv_not (eval_cond (λ _, TUnknown) (node "AND" [node "EQ" [SInt 1; SInt 3];
                                                        node "EQ" [SInt 2; SInt 4]])).
Proof.
  assert (Hc : complements (λ _, TUnknown)) by (intros ???; reflexivity).
  assert (Hr : Forall (λ r : list sx, r ≠ []) [[SInt 3; SInt 4]])
    by (constructor; [discriminate | constructor]).
  split_and!; [exact Hc | discriminate | discriminate | exact Hr | reflexivity |].
  apply list_contains_sql_negation; [exact Hc | discriminate | discriminate | exact Hr | reflexivity].
Defined.

(** ** Arithmetic and aggregates *)

Lemma coerce_types_numeric t1 t2 t :
  is_numeric t1 = true → coerce_types t1 t2 = Some t → is_numeric t = true.
Proof.
  unfold coerce_types. intros H1. case_decide; [by intros [= <-]|].
  rewrite H1. destruct (is_numeric t2) eqn:H2; simpl.
  - intros [= <-]. by case_match.
  - destruct t1; done.
Qed.

(** Arithmetic keeps the type assertion of [NumericMixin]: [+],
    [-], [*], [/] on a numeric monad that succeed give a numeric
    expression of the coerced type ([int] < [float] < [Decimal]). *)
Theorem numeric_binop_type sch sa fuel op sqlop m m2 st r st' :
  is_numeric_monad m = true → numeric_binop sch sa fuel op sqlop m m2 st = Ok (r, st') →
  is_numeric_monad r = true ∧ coerce_types (mtype m) (mtype m2) = Some (mtype r).
Proof.
  intros Hm H. unfold numeric_binop in H. case_decide; [unfold slift, forgot_parentheses, throw in H; discriminate|].
  destruct (coerce_types (mtype m) (mtype m2)) as [t|] eqn:Ec; [|discriminate].
  apply stm_bind_Ok_inv in H as (l & s1 & _ & H). apply stm_bind_Ok_inv in H as (r' & s2 & _ & H).
  cbv [mret stm_ret] in H. simplify_eq. split; [|done].
  unfold is_numeric_monad. simpl. apply andb_prop in Hm as [_ Hm].
  by apply (coerce_types_numeric (mtype m) (mtype m2)).
Qed.

Example numeric_binop_type_witness :
  is_numeric_monad (MParam TInt (SStr "x")) = true ∧
  numeric_binop model1_schema false 5 "+" "ADD" (MParam TInt (SStr "x")) (MConst TFloat (SInt 2))
    empty_store = Ok (MExpr TFloat (node "ADD" [node "PARAM" [SStr "x"; SStr "int"]; value (SInt 2)]),
                      empty_store) ∧
  is_numeric_monad (MExpr TFloat (node "ADD" [node "PARAM" [SStr "x"; SStr "int"]; value (SInt 2)]))
    = true ∧
  coerce_types TInt TFloat = Some TFloat.
Proof.
  split; [reflexivity|]. split; [reflexivity|].
  exact (numeric_binop_type model1_schema false 5 "+" "ADD" (MParam TInt (SStr "x"))
           (MConst TFloat (SInt 2)) empty_store _ empty_store eq_refl eq_refl).
Defined.

Lemma expr_monad_new_type t sql r : expr_monad_new t sql = Ok r → mtype r = t.
Proof. unfold expr_monad_new. case_match; intros E; simplify_eq; done. Qed.

(** C34: an aggregate that succeeds was applied to a monad that is not
    itself aggregated, [SUM]/[AVG] to a numeric expression and
    [MIN]/[MAX] to a comparable one, and its result has the type of the
    expression, [float] for [AVG]. *)
Theorem monad_aggregate_type sch sa fuel cfg agg m fn st r st' :
  monad_aggregate sch sa fuel cfg agg m fn st = Ok (r, st') →
  agg = false ∧
  ((fn = "SUM" ∨ fn = "AVG") ∧ is_numeric (mtype m) = true ∨
   (fn = "MIN" ∨ fn = "MAX") ∧ is_comparable (mtype m) = true) ∧
  mtype r = (if bool_decide (fn = "AVG") then TFloat else mtype m).
Proof.
  unfold monad_aggregate. intros H. destruct agg; [discriminate|]. split; [done|].
  apply stm_bind_Ok_inv in H as ([] & s1 & Hc & H1).
  apply stm_bind_Ok_inv in H1 as (e & s2 & _ & H2). apply stm_bind_Ok_inv in H2 as (items & s3 & _ & H3).
  apply stm_bind_Ok_inv in H3 as (e' & s4 & _ & H4).
  unfold slift in H4. destruct (expr_monad_new _ _) as [r'|] eqn:Er; [|discriminate].
  injection H4 as <- <-. split; [|by apply expr_monad_new_type in Er].
  revert Hc. repeat case_bool_decide; intros Hc; try destruct (is_numeric _) eqn:?;
    try destruct (is_comparable _) eqn:?; try discriminate; auto.
Qed.

Example monad_aggregate_type_witness :
  monad_aggregate model1_schema false 5 (mkConfig "SQLite" true) false (MParam TInt (SStr "x")) "AVG"
    empty_store = Ok (MExpr TFloat (node "AVG" [node "PARAM" [SStr "x"; SStr "int"]]), empty_store) ∧
  false = false ∧
  ((("AVG" = "SUM" ∨ "AVG" = "AVG") ∧ is_numeric TInt = true) ∨
   (("AVG" = "MIN" ∨ "AVG" = "MAX") ∧ is_comparable TInt = true)) ∧
  mtype (MExpr TFloat (node "AVG" [node "PARAM" [SStr "x"; SStr "int"]])) =
    (if bool_decide ("AVG" = "AVG") then TFloat else TInt).
Proof.
  split; [reflexivity|].
  exact (monad_aggregate_type model1_schema false 5 (mkConfig "SQLite" true) false
           (MParam TInt (SStr "x")) "AVG" empty_store _ empty_store eq_refl).
Defined.
