(* ===== verification/Legacy.v ===== *)
(** * The legacy query object (src/pony/sqltranslator.py)

    The first translator of the repository wraps a translated generator
    in a [Query] whose slicing composes into one [(start, stop)] window,
    emitted as [LIMIT]/[OFFSET] when the query runs.  [query] holds the
    fields slicing and [orderby] change ([_order], [_limit]); the other
    fields are copied unchanged by both.  [query_getitem] is
    [Query.__getitem__], [query_limit] is [Query.limit], [query_tail] is
    the part of [Query.__iter__] that appends [ORDER_BY] and [LIMIT] to
    the translated SELECT.  A query's rows are modelled by [run]: the
    rows of the unlimited query cut to the window, as [LIMIT]/[OFFSET]
    does. *)

From S2P Require Import Prelude SqlAst Types Schema Tables.

Local Open Scope Z_scope.

(** The key of [query[key]]: a slice [start:stop:step] of integers or
    [None], an integer, or a value with neither [__index__] nor
    [__int__]. *)
Inductive qkey :=
  | QSlice (start stop step : option Z)
  | QIndex (i : Z)
  | QOther.

(** An ordering key of [_order]: the attribute's columns and whether it
    is ascending. *)
Record query := mkQuery {
  q_order : option (list (list string * bool));
  q_limit : option (Z * Z)
}.

(** The window of a query after [query[start:stop]] (lines 133-137):
    relative to the current window, empty when it would be reversed. *)
Definition compose_window (lim : option (Z * Z)) (start stop : Z) : Z * Z :=
  let '(start, stop) :=
    match lim with
    | Some (prev_start, prev_stop) => (prev_start + start, Z.min prev_stop (prev_start + stop))
    | None => (start, stop)
    end in
  if stop <=? start then (0, 0) else (start, stop).

(** [Query.__getitem__(key)] (lines 113-141). *)
Definition query_getitem (q : query) (key : qkey) : result query :=
  '(start, stop) ←
    match key with
    | QSlice start stop step =>
        (if bool_decide (step ≠ None ∧ step ≠ Some 1)
         then Err (TypeError "Parameter 'step' of slice object is not allowed here")
         else Ok tt);;
        start ← (match start with
                 | None => Ok 0
                 | Some s => if s <? 0
                             then Err (TypeError "Parameter 'start' of slice object cannot be negative")
                             else Ok s
                 end);
        stop ← (match stop with
                | Some s => Ok s
                | None =>
                    match q_limit q with
                    | None => Err (TypeError "Parameter 'stop' of slice object should be specified")
                    | Some (_, prev_stop) => Ok prev_stop
                    end
                end);
        Ok (start, stop)
    | QIndex i => Ok (i, i + 1)
    | QOther => Err (TypeError "Incorrect argument type")
    end;
  Ok (mkQuery (q_order q) (Some (compose_window (q_limit q) start stop))).

(** [Query.limit(limit, offset)] (lines 142-145): [offset or 0]. *)
Definition query_limit (q : query) (limit : Z) (offset : option Z) : result query :=
  let start := default 0 offset in
  query_getitem q (QSlice (Some start) (Some (start + limit)) None).

(** The [ORDER_BY] and [LIMIT] sections [Query.__iter__] appends to the
    translated SELECT (lines 68-84); [alias] is [translator.alias]. *)
Definition query_tail (q : query) (alias : string) : list sx :=
  (match q_order q with
   | Some (_ :: _ as order) =>
       [SList (SStr "ORDER_BY" ::
          flat_map (λ p : list string * bool,
            map (λ c, SList [column (Some alias) c; SStr (if p.2 then "ASC" else "DESC")]) p.1)
          order)]
   | _ => []
   end) ++
  (match q_limit q with
   | Some (start, stop) =>
       [node "LIMIT" (value (SInt (stop - start)) ::
                      (if bool_decide (start = 0) then [] else [value (SInt start)]))]
   | None => []
   end).

(** ** The legacy SQL helpers and type rules *)

(** [sqland]/[sqlor] of sqltranslator.py (lines 179-186): no flattening,
    [[AND]] for no item. *)
Definition legacy_connective (op : string) (items : list sx) : sx :=
  match items with [x] => x | _ => SList (SStr op :: items) end.
Definition legacy_sqland (items : list sx) : sx := legacy_connective "AND" items.
Definition legacy_sqlor (items : list sx) : sx := legacy_connective "OR" items.

(** [join_tables(conditions, alias1, alias2, columns1, columns2)] (lines
    187-190): extends the caller's [conditions] list with one equality per
    column pair. *)
Definition legacy_join_tables (conditions : list sx) (alias1 alias2 : option string)
  (columns1 columns2 : list string) : result (list sx) :=
  assert_ (length columns1 =? length columns2)%nat;;
  Ok (conditions ++ zip_with (λ c1 c2, node "EQ" [column alias1 c1; column alias2 c2]) columns1 columns2).

(** [primitive_types = set([int, unicode])] (line 149). *)
Definition legacy_primitive (t : ptype) : bool := bool_decide (t = TInt ∨ t = TUnicode).

(** [are_comparable_types(op, type1, type2)] (lines 164-178). *)
Definition legacy_are_comparable_types (entity_root : string → string) (op : string) (t1 t2 : ptype)
  : result bool :=
  if bool_decide (op = "is" ∨ op = "is not") then
    Ok (bool_decide (t1 ≠ TNone) && bool_decide (t2 = TNone))
  else if bool_decide (op = "<" ∨ op = "<=" ∨ op = ">" ∨ op = ">=") then
    Ok (bool_decide (t1 = t2) && legacy_primitive t1)
  else if bool_decide (op = "==" ∨ op = "<>" ∨ op = "!=") then
    Ok (if bool_decide (t1 = TNone) && bool_decide (t2 = TNone) then false
        else if bool_decide (t1 = TNone) || bool_decide (t2 = TNone) then true
        else if legacy_primitive t1 then bool_decide (t1 = t2)
        else match t1, t2 with
             | TEntity e1, TEntity e2 => bool_decide (entity_root e1 = entity_root e2)
             | _, _ => false
             end)
  else Err AssertionError.

(** The normalised types of the legacy translator: [int], [unicode],
    [NoneType] and entities ([normalize_type], lines 158-162). *)
Definition legacy_type (t : ptype) : Prop := t = TInt ∨ t = TUnicode ∨ t = TNone ∨ ∃ e, t = TEntity e.

(** [SQLTranslator.get_short_alias(alias, entity_name)] (lines 430-436):
    every alias is held to [MAX_ALIAS_LENGTH]. *)
Definition legacy_get_short_alias (counters : gmap string nat) (alias : option string)
  (entity_name : string) : string * gmap string nat :=
  let generate :=
    let name := str_lower (String.substring 0 27 entity_name) in
    let i := (default 0 (counters !! name) + 1)%nat in
    (numbered_alias name i, <[name := i]> counters) in
  match alias with
  | Some a => if negb (bool_decide (a = "")) && (String.length a <=? 30)%nat then (a, counters)
              else generate
  | None => generate
  end.

(** ** Meaning *)

(** [LIMIT n OFFSET k] on a list of rows. *)
Definition limit_offset {A} (n k : Z) (rows : list A) : list A :=
  take (Z.to_nat n) (drop (Z.to_nat k) rows).

(** The rows a query returns, given the rows of the query without its
    window. *)
Definition run {A} (q : query) (rows : list A) : list A :=
  match q_limit q with
  | Some (start, stop) => limit_offset (stop - start) start rows
  | None => rows
  end.

(** Python's [rows[a:b]] for [0 <= a], [0 <= b]. *)
Definition list_slice {A} (a b : Z) (rows : list A) : list A :=
  take (Z.to_nat b - Z.to_nat a) (drop (Z.to_nat a) rows).

(** A window is empty or well ordered, with a non-negative start. *)
Definition window_ok (q : query) : Prop :=
  match q_limit q with
  | Some (start, stop) => 0 <= start < stop ∨ (start = 0 ∧ stop = 0)
  | None => True
  end.

(** The keys whose integers are not negative (a negative start is
    rejected by the code itself). *)
Definition key_nonneg (key : qkey) : Prop :=
  match key with
  | QSlice _ stop step => (∀ s, stop = Some s → 0 <= s) ∧ (step = None ∨ step = Some 1)
  | QIndex i => 0 <= i
  | QOther => True
  end.

(** Python's [rows[key]] on the rows a query returns, for the keys of
    [key_nonneg]; an integer key selects a window of one row. *)
Definition py_slice_rows {A} (key : qkey) (rows : list A) : list A :=
  match key with
  | QSlice start stop _ =>
      list_slice (default 0 start) (default (Z.of_nat (length rows)) stop) rows
  | QIndex i => list_slice i (i + 1) rows
  | QOther => rows
  end.

(** ** Lemmas *)

Lemma drop_take_swap {A} (a k : nat) (l : list A) : drop a (take k l) = take (k - a) (drop a l).
Proof.
  destruct (Nat.le_gt_cases a k).
  - rewrite take_drop_commute. f_equal. f_equal. lia.
  - rewrite drop_ge by (rewrite length_take; lia). by replace (k - a)%nat with 0%nat by lia.
Qed.

Lemma take_drop_window {A} (s t a b : nat) (rows : list A) :
  take (b - a) (drop a (take (t - s) (drop s rows))) =
  take (Nat.min (b - a) (t - s - a)) (drop (s + a) rows).
Proof. by rewrite drop_take_swap, take_take, drop_drop. Qed.

Lemma window_compose {A} (rows : list A) s t a b :
  0 <= s <= t → 0 <= a → 0 <= b →
  (let '(s', t') := compose_window (Some (s, t)) a b in limit_offset (t' - s') s' rows) =
  list_slice a b (limit_offset (t - s) s rows).
Proof.
  intros Hs Ha Hb. unfold compose_window, limit_offset, list_slice. simpl.
  rewrite (Z2Nat.inj_sub t s), take_drop_window by lia.
  destruct (Z.leb_spec (Z.min t (s + b)) (s + a)).
  - replace (Nat.min _ _) with 0%nat by lia. by rewrite !take_0.
  - rewrite Z2Nat.inj_add by lia. f_equal. lia.
Qed.

Lemma window_fresh {A} (rows : list A) a b :
  0 <= a → 0 <= b →
  (let '(s', t') := compose_window None a b in limit_offset (t' - s') s' rows) =
  list_slice a b rows.
Proof.
  intros Ha Hb. unfold compose_window, limit_offset, list_slice.
  destruct (Z.leb_spec b a).
  - simpl. replace (Z.to_nat b - Z.to_nat a)%nat with 0%nat by lia. by rewrite !take_0.
  - f_equal. lia.
Qed.

Lemma compose_window_ok lim a b :
  (match lim with Some (s, t) => 0 <= s <= t | None => True end) → 0 <= a →
  let '(s', t') := compose_window lim a b in 0 <= s' < t' ∨ (s' = 0 ∧ t' = 0).
Proof.
  intros Hl Ha. unfold compose_window.
  destruct lim as [[s t]|]; [destruct (Z.leb_spec (Z.min t (s + b)) (s + a))
                            | destruct (Z.leb_spec b a)]; lia.
Qed.

Lemma window_ok_bounds q s t : window_ok q → q_limit q = Some (s, t) → 0 <= s <= t.
Proof. unfold window_ok. intros Hw E. rewrite E in Hw. lia. Qed.

Lemma list_slice_clip {A} a b b' (l : list A) :
  Z.of_nat (length l) <= b → Z.of_nat (length l) <= b' → list_slice a b l = list_slice a b' l.
Proof.
  intros Hb Hb'. unfold list_slice. rewrite !take_ge; [done| |]; rewrite length_drop; lia.
Qed.

Lemma length_run {A} q s t (rows : list A) :
  q_limit q = Some (s, t) → Z.of_nat (length (run q rows)) <= Z.max 0 (t - s).
Proof. unfold run, limit_offset. intros ->. rewrite length_take. lia. Qed.

(** The bounds [query[key]] works with, for a key of [key_nonneg]. *)
Lemma getitem_bounds {A} q key q' (rows : list A) :
  window_ok q → key_nonneg key → query_getitem q key = Ok q' →
  ∃ a b, 0 <= a ∧ 0 <= b ∧
    q' = mkQuery (q_order q) (Some (compose_window (q_limit q) a b)) ∧
    py_slice_rows key (run q rows) = list_slice a b (run q rows).
Proof.
  intros Hw Hk H. unfold query_getitem in H.
  apply bind_Ok_inv in H as [[a b] [E H]]. simpl in H. simplify_eq.
  destruct key as [start stop step|i|]; simpl in Hk; [| |discriminate].
  - destruct Hk as [Hstop Hstep].
    rewrite bool_decide_eq_false_2 in E by naive_solver. simpl in E.
    apply bind_Ok_inv in E as [a' [Ea E]]. apply bind_Ok_inv in E as [b' [Eb E]].
    simplify_eq.
    assert (Ha : 0 <= a ∧ default 0 start = a).
    { destruct start as [a'|]; [destruct (Z.ltb_spec a' 0)|]; simplify_eq; simpl; lia. }
    exists a, b. destruct stop as [b''|]; simplify_eq.
    + split_and!; [lia|by apply Hstop|done|]. simpl. by rewrite (proj2 Ha).
    + destruct (q_limit q) as [[ps pt]|] eqn:El; [injection Eb as <- | discriminate].
      pose proof (window_ok_bounds q ps pt Hw El). pose proof (length_run q ps pt rows El).
      split_and!; [lia|lia|done|]. simpl. rewrite (proj2 Ha). apply list_slice_clip; lia.
  - injection E as <- <-. exists i, (i + 1). split_and!; [lia|lia|done|done].
Qed.

(** ** Slicing a query *)

(** C12: slicing a query with non-negative bounds keeps its window well
    formed, and the rows of the sliced query are Python's slice of the
    rows of the query: [query[a:b][c:d]] returns [rows[a:b][c:d]], an
    integer key a window of one row, an open stop the rest of the
    window. *)
Theorem query_getitem_refines {A} q key q' (rows : list A) :
  window_ok q → key_nonneg key → query_getitem q key = Ok q' →
  window_ok q' ∧ run q' rows = py_slice_rows key (run q rows).
Proof.
  intros Hw Hk H. destruct (getitem_bounds q key q' rows Hw Hk H) as (a & b & Ha & Hb & -> & ->).
  unfold window_ok, run. simpl.
  destruct (q_limit q) as [[s t]|] eqn:El.
  - pose proof (window_ok_bounds q s t Hw El).
    pose proof (compose_window_ok (Some (s, t)) a b ltac:(simpl; lia) Ha) as Hok.
    pose proof (window_compose rows s t a b ltac:(lia) Ha Hb) as Hc.
    destruct (compose_window _ a b). split; [done|]. exact Hc.
  - pose proof (compose_window_ok None a b I Ha) as Hok.
    pose proof (window_fresh rows a b Ha Hb) as Hc.
    destruct (compose_window _ a b). split; [done|]. exact Hc.
Qed.

(** [query[:]] and [query[a:]] on a query without a
    window raise [TypeError]; the branch meant to return the query
    unchanged ([if start is None: return query]) is unreachable, since
    [start] was replaced by [0] just before. *)
Theorem query_open_slice_error o start :
  (∀ a, start = Some a → 0 <= a) →
  query_getitem (mkQuery o None) (QSlice start None None) =
    Err (TypeError "Parameter 'stop' of slice object should be specified").
Proof.
  intros Hs. unfold query_getitem. simpl.
  destruct start as [a|]; simpl; [|done].
  destruct (Z.ltb_spec a 0); [specialize (Hs a eq_refl); lia|done].
Qed.

(** Finding: a negative stop is not rejected like a negative start:
    [query[0:-1]] returns no rows at all, where Python's [rows[0:-1]]
    drops only the last one. *)
Theorem query_negative_stop_empty {A} o (rows : list A) :
  ∃ q', query_getitem (mkQuery o None) (QSlice (Some 0) (Some (-1)) None) = Ok q' ∧
        run q' rows = [].
Proof. eexists. split; [reflexivity|]. reflexivity. Qed.

(** Finding: a negative integer key is not rejected: [query[-1]]
    runs with [LIMIT 1 OFFSET -1], which no database accepts. *)
Theorem query_negative_index_offset alias :
  ∃ q', query_getitem (mkQuery None None) (QIndex (-1)) = Ok q' ∧
        q_limit q' = Some (-1, 0) ∧
        query_tail q' alias = [node "LIMIT" [value (SInt 1); value (SInt (-1))]].
Proof. eexists. split_and!; reflexivity. Qed.

(** ** Witnesses *)

Example query_getitem_refines_witness :
  window_ok (mkQuery None (Some (2, 6))) ∧ key_nonneg (QSlice (Some 1) (Some 3) None) ∧
  query_getitem (mkQuery None (Some (2, 6))) (QSlice (Some 1) (Some 3) None) =
    Ok (mkQuery None (Some (3, 5))) ∧
  window_ok (mkQuery None (Some (3, 5))) ∧
  run (mkQuery None (Some (3, 5))) (seq 0 10) =
    py_slice_rows (QSlice (Some 1) (Some 3) None) (run (mkQuery None (Some (2, 6))) (seq 0 10)).
Proof.
  assert (Hw : window_ok (mkQuery None (Some (2, 6)))) by (unfold window_ok; simpl; lia).
  assert (Hk : key_nonneg (QSlice (Some 1) (Some 3) None))
    by (split; [intros s Hs; simplify_eq; lia | by left]).
  split_and!; [exact Hw | exact Hk | reflexivity | |];
    apply (query_getitem_refines _ _ _ (seq 0 10) Hw Hk); reflexivity.
Defined.

Example query_open_slice_error_witness :
  (∀ a, Some 3 = Some a → 0 <= a) ∧
  query_getitem (mkQuery None None) (QSlice (Some 3) None None) =
    Err (TypeError "Parameter 'stop' of slice object should be specified").
Proof.
  assert (Hs : ∀ a, Some 3 = Some a → 0 <= a) by (intros a Ha; simplify_eq; lia).
  split; [exact Hs | exact (query_open_slice_error None (Some 3) Hs)].
Defined.

(** ** The legacy helpers and the current ones *)

(** C35: the current [sqland], which flattens nested ANDs, means the
    same condition as the legacy [sqland], which does not, on every list
    of items it accepts. *)
Theorem legacy_sqland_equiv atom items r :
  items ≠ [] → sqland items = Ok r → eval_cond atom r = eval_cond atom (legacy_sqland items).
Proof.
  intros Hne H. rewrite (sql_connective_sound atom "AND" items r (or_introl eq_refl) Hne H).
  unfold legacy_sqland, legacy_connective. destruct items as [|x [|y l]]; [done| |done].
  cbn. by destruct (eval_cond atom x).
Qed.

(** The current [join_tables] means the conjunction of the
    equalities the legacy [join_tables] appends to its condition list,
    and both fail on the same column lists. *)
Theorem legacy_join_tables_equiv atom conds a1 a2 c1 c2 r :
  c1 ≠ [] → join_tables a1 a2 c1 c2 = Ok r →
  ∃ eqs, legacy_join_tables conds a1 a2 c1 c2 = Ok (conds ++ eqs) ∧
         eval_cond atom r = tv_all (map (eval_cond atom) eqs).
Proof.
  intros Hne H. unfold join_tables in H.
  destruct (Nat.eqb_spec (length c1) (length c2)) as [Hl|]; [|discriminate]. simpl in H.
  exists (column_eqs a1 a2 c1 c2). unfold legacy_join_tables.
  rewrite (proj2 (Nat.eqb_eq _ _) Hl). split; [done|].
  apply (sql_connective_sound atom "AND"); [by left| |exact H].
  unfold column_eqs. destruct c1, c2; simpl in *; done.
Qed.

(** on the types the legacy translator knows ([int], [unicode],
    [None], entities) and every comparison operator, the current
    comparability rules agree with the legacy [are_comparable_types]. *)
Theorem comparable_extends_legacy r op t1 t2 :
  is_Some (op_class op) → legacy_type t1 → legacy_type t2 →
  legacy_are_comparable_types r op t1 t2 = Ok (are_comparable_types r t1 t2 op).
Proof.
  intros [k Hk] H1 H2. apply op_class_cases in Hk.
  destruct H1 as [->|[->|[->|[e1 ->]]]], H2 as [->|[->|[->|[e2 ->]]]];
    destruct_or! Hk; destruct Hk as [-> Hk]; destruct_or! Hk; subst; try reflexivity;
    unfold legacy_are_comparable_types, are_comparable_types; simpl;
    unfold coerce_types, eq_comparable, scalar_comparable; simpl;
    repeat (case_decide || case_bool_decide); simplify_eq; try reflexivity; try congruence.
  all: unfold coerce_types; case_decide; reflexivity.
Qed.

Example legacy_sqland_equiv_witness :
  [node "EQ" [SInt 1; SInt 1]; node "AND" [node "LT" [SInt 1; SInt 2]]] ≠ [] ∧
  sqland [node "EQ" [SInt 1; SInt 1]; node "AND" [node "LT" [SInt 1; SInt 2]]] =
    Ok (node "AND" [node "EQ" [SInt 1; SInt 1]; node "LT" [SInt 1; SInt 2]]) ∧
  eval_cond (λ _, TTrue) (node "AND" [node "EQ" [SInt 1; SInt 1]; node "LT" [SInt 1; SInt 2]]) =
    eval_cond (λ _, TTrue)
      (legacy_sqland [node "EQ" [SInt 1; SInt 1]; node "AND" [node "LT" [SInt 1; SInt 2]]]).
Proof.
  split; [discriminate|]. split; [reflexivity|].
  apply legacy_sqland_equiv; [discriminate | reflexivity].
Defined.

Example legacy_join_tables_equiv_witness :
  ["group_number"] ≠ [] ∧
  join_tables (Some "s") (Some "g") ["group_number"] ["number"] =
    Ok (node "EQ" [column (Some "s") "group_number"; column (Some "g") "number"]) ∧
  ∃ eqs, legacy_join_tables [] (Some "s") (Some "g") ["group_number"] ["number"] = Ok ([] ++ eqs) ∧
         eval_cond (λ _, TFalse) (node "EQ" [column (Some "s") "group_number"; column (Some "g") "number"])
           = tv_all (map (eval_cond (λ _, TFalse)) eqs).
Proof.
  split; [discriminate|]. split; [reflexivity|].
  apply legacy_join_tables_equiv; [discriminate | reflexivity].
Defined.

Example comparable_extends_legacy_witness :
  is_Some (op_class "<") ∧ legacy_type TInt ∧ legacy_type TUnicode ∧
  legacy_are_comparable_types id "<" TInt TUnicode = Ok (are_comparable_types id TInt TUnicode "<").
Proof.
  assert (Hk : is_Some (op_class "<")) by (by eexists).
  assert (H1 : legacy_type TInt) by (by left).
  assert (H2 : legacy_type TUnicode) by (by right; left).
  split_and!; [exact Hk | exact H1 | exact H2 | exact (comparable_extends_legacy id "<" TInt TUnicode Hk H1 H2)].
Defined.
