(* ===== verification/Driver.v ===== *)
(** * The translator driver

    [SQLTranslator] of [src/pony/orm/sqltranslation.py] (lines 60-530):
    the bottom-up walk that lifts every node of the query's Python AST
    to a monad ([dispatch], [call] and the [pre*]/[post*] handlers),
    the monad factories it calls ([ConstMonad.new], [ParamMonad.new],
    [AttrMonad.new], [ObjectMixin.getattr]), the qualifier and selector
    passes of [SQLTranslator.__init__] and [construct_sql_ast].

    A monad object carries the attributes [aggregated] and [nogroup]
    that [call] attaches to it, and may have none: [fm] pairs a
    [Monads.monad] value with these attributes and with the operand
    objects of a logical monad, so that what the code reads from an
    operand object is what the walk attached to it. *)

From S2P Require Import Prelude SqlAst Types Schema Tables Monads.

(** ** The Python AST of a query ([compiler.ast] nodes) *)

(** [PExternal src name] is a node with [node.external] set: a value of
    the enclosing Python scope, typed by [vartypes[src]]; [name] is the
    identifier when the node is an [ast.Name].  [PArith op] is [Add],
    [Sub], [Mul] or [Div] with [op] one of ["+"], ["-"], ["*"], ["/"]. *)
Inductive pexpr :=
  | PName (name : string)
  | PExternal (src : string) (name : option string)
  | PConst (v : sx)
  | PTuple (nodes : list pexpr)
  | PList (nodes : list pexpr)
  | PCompare (expr : pexpr) (ops : list (string * pexpr))
  | PArith (op : string) (left right : pexpr)
  | PPower (left right : pexpr)
  | PUnarySub (expr : pexpr)
  | PGetattr (expr : pexpr) (attrname : string)
  | PAnd (nodes : list pexpr)
  | POr (nodes : list pexpr)
  | PNot (expr : pexpr)
  | PCallFunc (node : pexpr) (args : list pexpr)
  | PSubscript (expr : pexpr) (subs : list pexpr)
  | PSlice (expr : pexpr) (lower upper : option pexpr).

(** ** Monad objects *)

(** A monad object: its value, its [aggregated] and [nogroup]
    attributes ([None] while [hasattr] is false) and the objects it
    holds: the operands of an [AndMonad], [OrMonad] or [NotMonad], the
    items of a [ListMonad]. *)
Inductive fm := FM (m : monad) (aggregated nogroup : option bool) (operands : list fm).

Definition fm_monad (x : fm) : monad := let '(FM m _ _ _) := x in m.
Definition fm_aggregated (x : fm) : option bool := let '(FM _ a _ _) := x in a.
Definition fm_nogroup (x : fm) : option bool := let '(FM _ _ n _) := x in n.
Definition fm_operands (x : fm) : list fm := let '(FM _ _ _ o) := x in o.

(** A monad object just created by a monad method: no attribute, and
    fresh operand objects. *)
Fixpoint fm_fresh (m : monad) : fm :=
  FM m None None
     (match m with
      | MAnd ops | MOr ops | MList ops => map fm_fresh ops
      | MNot o => [fm_fresh o]
      | _ => []
      end).

(** [getattr(m, 'aggregated', False)]. *)
Definition fm_flag (sel : fm → option bool) (x : fm) : bool := default false (sel x).

(** ** Monad factories and operator dispatch *)

Section Factories.
Variable sch : schema.
Variable simple_aliases : bool.
Variable fuel : nat.

(** A type that has a scalar monad class: numeric, string, [date],
    [datetime] or [buffer]. *)
Definition scalar_type (t : ptype) : bool :=
  is_numeric t || is_string t || bool_decide (t = TDate) || bool_decide (t = TDatetime) ||
  bool_decide (t = TBuffer).

(** [ConstMonad.new(translator, value)] (lines 1218-1229) on the
    constants of the Python compiler: integers, strings and [None]. *)
Definition const_new (v : sx) : result monad :=
  match v with
  | SInt _ => Ok (MConst TInt v)
  | SStr _ => Ok (MConst TUnicode v)
  | SNone => Ok (MConst TNone v)
  | SBool _ => Err (Unsupported "bool constant")
  | SList _ => Err (NotImplementedError "tuple")
  end.

(** [ParamMonad.new(translator, type, src)] (lines 1151-1162). *)
Definition param_new (t : ptype) (src : sx) : result monad :=
  let t := normalize_type t in
  if scalar_type t then Ok (MParam t src)
  else match t with
  | TEntity _ => Err (Unsupported "ObjectParamMonad")
  | _ => Err (NotImplementedError (type2str t))
  end.

(** [AttrMonad.new(parent, attr)] (lines 1097-1107) with
    [ObjectAttrMonad.__init__] (lines 1132-1141): an attribute of
    entity type reuses the table reference of its name path in the
    translator's subquery [j], or adds one to the parent's subquery. *)
Definition attr_monad_new (j : nat) (parent : monad) (a : attr) : stm store monad :=
  let t := normalize_type (attr_py_type a) in
  if scalar_type t then mret (MAttr parent a)
  else match t with
  | TEntity _ =>
      ptr ← slift (monad_tableref parent);
      pt ← get_tr ptr;
      let name_path := tr_name_path pt +:+ "-" +:+ attr_name a in
      st ← sget;
      found ← slift (get_tableref st j name_path);
      tr ← (match found with
            | Some tr => mret tr
            | None => add_tableref (tr_subquery pt) name_path ptr a
            end);
      mret (MObjectAttr parent a tr)
  | _ => sthrow (NotImplementedError (type2str t))
  end.

(** [ObjectMixin.getattr(name)] (lines 1072-1079); a collection
    attribute gives an [AttrSetMonad], which the model leaves out. *)
Definition object_getattr (j : nat) (m : monad) (name : string) : stm store monad :=
  match mtype m with
  | TEntity en =>
      e ← slift (get_entity sch en);
      match find_attr e name with
      | None => sthrow (AttributeError "")
      | Some a =>
          if attr_is_collection a then sthrow (Unsupported "AttrSetMonad")
          else attr_monad_new j m a
      end
  | _ => sthrow AssertionError
  end.

(** [monad.getattr(name)]: [ObjectMixin], [MethodMonad] (line 795) and
    [Monad.getattr]. *)
Definition getattr_dispatch (j : nat) (m : monad) (name : string) : stm store monad :=
  match m with
  | MObjectIter _ _ | MObjectAttr _ _ _ => object_getattr j m name
  | MMethod _ _ => slift forgot_parentheses
  | _ => monad_getattr sch simple_aliases fuel m name
  end.

(** [monad.contains(item, not_in)]: [ListMonad] (line 831),
    [StringMixin] (line 1011), [MethodMonad] (line 802) and
    [Monad.contains] (line 695). *)
Definition contains_dispatch (m item : monad) (not_in : bool) : stm store monad :=
  match m with
  | MList items => list_contains sch simple_aliases fuel items item not_in
  | MMethod _ _ => slift forgot_parentheses
  | _ => if is_string_monad m then string_contains sch simple_aliases fuel m item
         else sthrow (TypeError "")
  end.

(** [monad[key]]: [StringMixin.__getitem__], [MethodMonad] (line 806),
    [EntityMonad] (line 824) and [Monad.__getitem__] (line 758). *)
Definition getitem_dispatch (m : monad) (key : index_arg) : stm store monad :=
  if is_string_monad m then string_getitem sch simple_aliases fuel m key
  else match m with
  | MMethod _ _ => slift forgot_parentheses
  | MEntity _ => sthrow (NotImplementedError "")
  | _ => sthrow (TypeError "")
  end.

(** [monad ** monad2], [-monad] and a call of [monad]: [NumericMixin],
    [MethodMonad], and [Monad] otherwise. *)
Definition pow_dispatch (m m2 : monad) : stm store monad :=
  if is_numeric_monad m then numeric_pow sch simple_aliases fuel m m2
  else match m with MMethod _ _ => slift forgot_parentheses | _ => sthrow (TypeError "") end.
Definition neg_dispatch (m : monad) : stm store monad :=
  if is_numeric_monad m then numeric_unary sch simple_aliases fuel "NEG" m
  else match m with MMethod _ _ => slift forgot_parentheses | _ => sthrow (TypeError "") end.
Definition call_dispatch (f : monad) (args : list monad) : stm store monad :=
  match f with
  | MMethod _ _ => method_call sch simple_aliases fuel f args
  | _ => sthrow (TypeError "")
  end.
End Factories.

(** ** The translator's state *)

(** The fields of an [SQLTranslator] the walk and [__init__] read and
    write.  [t_conditions] is not among them: [translator.conditions]
    is the list object [subquery.conditions] of the store. *)
Record translator := mkTranslator {
  t_subquery : nat;
  t_database : option string;
  t_distinct : bool;
  t_having : list sx;
  t_aggregated : bool;
  t_inside_expr : bool;
  t_inside_not : bool;
  t_order : list sx
}.

(** The translator and the objects of the store. *)
Record tstate := mkTState { ts_tr : translator; ts_store : store }.

Definition t_set_database (d : string) (t : translator) : translator :=
  mkTranslator (t_subquery t) (Some d) (t_distinct t) (t_having t) (t_aggregated t)
               (t_inside_expr t) (t_inside_not t) (t_order t).
Definition t_set_distinct (b : bool) (t : translator) : translator :=
  mkTranslator (t_subquery t) (t_database t) b (t_having t) (t_aggregated t)
               (t_inside_expr t) (t_inside_not t) (t_order t).
Definition t_set_having (h : list sx) (t : translator) : translator :=
  mkTranslator (t_subquery t) (t_database t) (t_distinct t) h (t_aggregated t)
               (t_inside_expr t) (t_inside_not t) (t_order t).
Definition t_set_aggregated (b : bool) (t : translator) : translator :=
  mkTranslator (t_subquery t) (t_database t) (t_distinct t) (t_having t) b
               (t_inside_expr t) (t_inside_not t) (t_order t).
Definition t_set_inside_expr (b : bool) (t : translator) : translator :=
  mkTranslator (t_subquery t) (t_database t) (t_distinct t) (t_having t) (t_aggregated t)
               b (t_inside_not t) (t_order t).
Definition t_set_inside_not (b : bool) (t : translator) : translator :=
  mkTranslator (t_subquery t) (t_database t) (t_distinct t) (t_having t) (t_aggregated t)
               (t_inside_expr t) b (t_order t).

Definition get_t : stm tstate translator := λ ts, Ok (ts_tr ts, ts).
Definition modify_t (f : translator → translator) : stm tstate unit :=
  λ ts, Ok (tt, mkTState (f (ts_tr ts)) (ts_store ts)).

(** A computation on the store, run inside the translator. *)
Definition on_store {A} (c : stm store A) : stm tstate A := λ ts,
  match c (ts_store ts) with
  | Ok (a, st) => Ok (a, mkTState (ts_tr ts) st)
  | Err e => Err e
  end.

(** ** Logical monads on objects *)

Section Objects.
Variable sch : schema.
Variable simple_aliases : bool.
Variable fuel : nat.

(** One operand of [LogicalBinOpMonad.__init__] (lines 1330-1333): the
    object [operand.nonzero()] creates, the operand objects of a
    logical monad of the same kind, or the operand object itself. *)
Definition logical_operand_fm (b : logop) (o : fm) : stm store (list fm) :=
  if negb (bool_decide (mtype (fm_monad o) = TBool)) then
    n ← nonzero sch simple_aliases fuel (fm_monad o); mret [fm_fresh n]
  else match logical_parts (fm_monad o) with
  | Some (b', _) => if decide (b = b') then mret (fm_operands o) else mret [o]
  | None => mret [o]
  end.

(** [AndMonad(operands)], [OrMonad(operands)] (lines 1326-1335). *)
Definition logical_fm (b : logop) (operands : list fm) : stm store fm :=
  slift (assert_ (2 <=? length operands));;
  items ← mapM (logical_operand_fm b) operands;
  let items := concat items in
  mret (FM (mk_logical b (map fm_monad items)) None None items).

(** [NotMonad(operand)] (lines 1348-1351). *)
Definition not_fm (o : fm) : stm store fm :=
  if decide (mtype (fm_monad o) = TBool) then mret (FM (MNot (fm_monad o)) None None [o])
  else n ← nonzero sch simple_aliases fuel (fm_monad o); mret (FM (MNot n) None None [fm_fresh n]).

(** [monad.negate()] on an object: [NotMonad.negate] returns the operand
    object (line 1353), [Monad.negate] wraps the object itself in a
    [NotMonad] (line 697), the other classes build a new monad. *)
Definition negate_fm (o : fm) : stm store fm :=
  match fm_monad o, fm_operands o with
  | MNot _, [x] => mret x
  | (MCmp _ _ _ | MBoolExpr _ | MMethod _ _), _ =>
      m ← negate sch simple_aliases fuel (fm_monad o); mret (fm_fresh m)
  | m, _ =>
      if is_numeric_monad m then m' ← negate sch simple_aliases fuel m; mret (fm_fresh m')
      else not_fm o
  end.
End Objects.

(** ** The walk *)

Section Walk.
Variable sch : schema.
Variable simple_aliases : bool.
Variable fuel : nat.
(** [translator.vartypes]: the types of the external values, by source. *)
Variable vartypes : gmap string ptype.

Definition is_list_monad (m : monad) : bool := match m with MList _ => true | _ => false end.

(** The end of [SQLTranslator.call(method, node)] (lines 116-138): an
    object without [aggregated] ([nogroup]) takes it from the monads of
    the node's children; an aggregated result marks the translator. *)
Definition call_post (children : list fm) (r : fm) : stm tstate fm :=
  let agg := default (existsb (fm_flag fm_aggregated) children) (fm_aggregated r) in
  let ng := default (existsb (fm_flag fm_nogroup) children) (fm_nogroup r) in
  let r' := FM (fm_monad r) (Some agg) (Some ng) (fm_operands r) in
  if agg then
    modify_t (t_set_aggregated true);;
    if ng && negb (is_list_monad (fm_monad r)) then
      sthrow (NotImplementedError "Aggregation functions with different semantics cannot be mixed")
    else mret r'
  else mret r'.

(** [postName] (lines 435-439): a loop variable of the query. *)
Definition post_name (name : string) : stm tstate fm :=
  t ← get_t;
  st ← on_store sget;
  found ← slift (get_tableref st (t_subquery t) name);
  match found with
  | Some i => tr ← on_store (get_tr i); mret (fm_fresh (MObjectIter i (tr_entity tr)))
  | None => sthrow AssertionError
  end.

(** [EntityMonad.__init__] (lines 818-823): the first entity sets
    [translator.database], the others must share it. *)
Definition entity_monad (en : string) : stm tstate monad :=
  e ← slift (get_entity sch en);
  t ← get_t;
  match t_database t with
  | None => modify_t (t_set_database (ent_database e));; mret (MEntity en)
  | Some d =>
      if bool_decide (d = ent_database e) then mret (MEntity en)
      else sthrow (TranslationError "All entities in a query must belong to the same database")
  end.

(** The branch of [SQLTranslator.dispatch] for external nodes (lines
    67-98).  The monad is attached to the node without [call], so the
    object has no [aggregated] or [nogroup] attribute. *)
Definition dispatch_external (src : string) (name : option string) : stm tstate fm :=
  match vartypes !! src with
  | None => sthrow (KeyError src)
  | Some t =>
      m ← (match t with
           | TNone => slift (const_new SNone)
           | TSet (TEntity en) => entity_monad en
           | TSet _ => sthrow (NotImplementedError "")
           | TFuncType _ => sthrow (Unsupported "special function")
           | TMethodType _ _ => sthrow (Unsupported "entity method")
           | _ =>
               if bool_decide (name = Some "True") then slift (const_new (SInt 1))
               else if bool_decide (name = Some "False") then slift (const_new (SInt 0))
               else match t with
               | TTuple ts =>
                   items ← slift (mapM (λ '(i, it), param_new it (SList [SStr src; SInt (Z.of_nat i)]))
                                       (zip (seq 0 (length ts)) ts));
                   mret (MList items)
               | _ => slift (param_new t (SStr src))
               end
           end);
      mret (fm_fresh m)
  end.

(** One comparison of [preCompare] (lines 411-420): [contains] for the
    operators ending in ['in'] ([in], [not in]), [cmp] otherwise; the
    new object takes the flags of its two operands. *)
Definition compare_fm (op : string) (left right : fm) : stm tstate fm :=
  m ← (if bool_decide (op = "in" ∨ op = "not in") then
         on_store (contains_dispatch sch simple_aliases fuel (fm_monad right) (fm_monad left)
                                     (bool_decide (op = "not in")))
       else slift (cmp_monad sch op (fm_monad left) (fm_monad right)));
  let agg := fm_flag fm_aggregated left || fm_flag fm_aggregated right in
  let ng := fm_flag fm_nogroup left || fm_flag fm_nogroup right in
  if agg && ng then
    sthrow (NotImplementedError "Aggregation functions with different semantics cannot be mixed. Got: {EXPR}")
  else mret (FM m (Some agg) (Some ng) (fm_operands (fm_fresh m))).

(** The key of [postSubscript] (lines 509-521): a [ListMonad] of the
    subscripts when there are several. *)
Definition subscript_key (subs : list fm) : result index_arg :=
  match subs with
  | [] => Err IndexError
  | [s] => Ok (IndexMonad (fm_monad s))
  | _ => Ok (IndexMonad (MList (map fm_monad subs)))
  end.

(** [preCallFunc] (line 466): the called node is a name or an
    attribute. *)
Definition callable_node (f : pexpr) : bool :=
  match f with PName _ | PExternal _ _ | PGetattr _ _ => true | _ => false end.

Definition opt_list {A} (o : option A) : list A := match o with Some x => [x] | None => [] end.

(** [translator.dispatch(node)] (lines 67-69 and [ASTTranslator.dispatch]):
    the children first, left to right, then the [post*] handler through
    [call]; [preCompare] dispatches the operands itself, [preNot] flips
    [inside_not] before the operand and [postNot] flips it back. *)
Fixpoint translate (e : pexpr) : stm tstate fm :=
  match e with
  | PName name => r ← post_name name; call_post [] r
  | PExternal src name => dispatch_external src name
  | PConst v =>
      m ← slift (match v with SList items => MList <$> mapM const_new items | _ => const_new v end);
      call_post [] (fm_fresh m)
  | PTuple nodes | PList nodes =>
      cs ← mapM translate nodes;
      call_post cs (FM (MList (map fm_monad cs)) None None cs)
  | PCompare l ops =>
      lm ← translate l;
      t ← get_t;
      let inside_not := t_inside_not t in
      '(ms, rs) ← (fix go (left : fm) (ops : list (string * pexpr)) {struct ops} : stm tstate (list fm * list fm) :=
                     match ops with
                     | [] => mret ([], [])
                     | (op, r) :: rest =>
                         modify_t (t_set_inside_not
                                     (if bool_decide (op = "not in") then negb inside_not else inside_not));;
                         rm ← translate r;
                         m ← compare_fm op left rm;
                         '(ms, rs) ← go rm rest;
                         mret (m :: ms, rm :: rs)
                     end) lm ops;
      modify_t (t_set_inside_not inside_not);;
      r ← (match ms with
           | [m] => mret m
           | _ => on_store (logical_fm sch simple_aliases fuel AndOp ms)
           end);
      call_post (lm :: rs) r
  | PArith op l r =>
      lm ← translate l; rm ← translate r;
      m ← on_store (binop sch simple_aliases fuel op (fm_monad lm) (fm_monad rm));
      call_post [lm; rm] (fm_fresh m)
  | PPower l r =>
      lm ← translate l; rm ← translate r;
      m ← on_store (pow_dispatch sch simple_aliases fuel (fm_monad lm) (fm_monad rm));
      call_post [lm; rm] (fm_fresh m)
  | PUnarySub x =>
      xm ← translate x;
      m ← on_store (neg_dispatch sch simple_aliases fuel (fm_monad xm));
      call_post [xm] (fm_fresh m)
  | PGetattr x name =>
      xm ← translate x;
      t ← get_t;
      m ← on_store (getattr_dispatch sch simple_aliases fuel (t_subquery t) (fm_monad xm) name);
      call_post [xm] (fm_fresh m)
  | PAnd nodes =>
      cs ← mapM translate nodes;
      r ← on_store (logical_fm sch simple_aliases fuel AndOp cs);
      call_post cs r
  | POr nodes =>
      cs ← mapM translate nodes;
      r ← on_store (logical_fm sch simple_aliases fuel OrOp cs);
      call_post cs r
  | PNot x =>
      t ← get_t; modify_t (t_set_inside_not (negb (t_inside_not t)));;
      xm ← translate x;
      t' ← get_t; modify_t (t_set_inside_not (negb (t_inside_not t')));;
      r ← on_store (negate_fm sch simple_aliases fuel xm);
      call_post [xm] r
  | PCallFunc f args =>
      if negb (callable_node f) then sthrow (NotImplementedError "")
      else
        fm' ← translate f; ams ← mapM translate args;
        m ← on_store (call_dispatch sch simple_aliases fuel (fm_monad fm') (map fm_monad ams));
        call_post (fm' :: ams) (fm_fresh m)
  | PSubscript x subs =>
      xm ← translate x; ss ← mapM translate subs;
      key ← slift (subscript_key ss);
      m ← on_store (getitem_dispatch sch simple_aliases fuel (fm_monad xm) key);
      call_post (xm :: ss) (fm_fresh m)
  | PSlice x lo up =>
      xm ← translate x;
      lom ← (match lo with Some l => l' ← translate l; mret (Some l') | None => mret None end);
      upm ← (match up with Some u => u' ← translate u; mret (Some u') | None => mret None end);
      m ← on_store (getitem_dispatch sch simple_aliases fuel (fm_monad xm)
                      (IndexSlice (fm_monad <$> lom) (fm_monad <$> upm) false));
      call_post (xm :: opt_list lom ++ opt_list upm) (fm_fresh m)
  end.

(** [dispatch] of an [ast.GenExprIf] with [postGenExprIf] (lines
    398-401): a test that is not boolean is replaced by its
    [nonzero()]. *)
Definition translate_if (test : pexpr) : stm tstate fm :=
  xm ← translate test;
  r ← (if decide (mtype (fm_monad xm) = TBool) then mret xm
       else n ← on_store (nonzero sch simple_aliases fuel (fm_monad xm)); mret (fm_fresh n));
  call_post [xm] r.
End Walk.

(** ** [SQLTranslator.__init__]: the qualifier pass *)

(** The source of a qualifier: an external set of entities [src], an
    attribute chain [root.a1...an] from a loop variable, or any other
    node.  The assignment target is [AssName(name, flags)] or another
    node ([None]). *)
Inductive qiter := QSrc (src : string) | QChain (root : string) (attrs : list string) | QOther.
Record qual := mkQual { q_assign : option (string * string); q_iter : qiter; q_ifs : list pexpr }.

Section Init.
Variable sch : schema.
Variable simple_aliases : bool.
Variable fuel : nat.
Variable vartypes : gmap string ptype.
(** [translator.left_join] *)
Variable left_join : bool.

(** [tree.quals[i-1].assign.name], Python indexing included: for the
    first qualifier this is the last one. *)
Definition prev_qual_name (quals : list qual) (i : nat) : result string :=
  let k := if i =? 0 then length quals - 1 else i - 1 in
  match quals !! k with
  | None => Err IndexError
  | Some q => match q_assign q with Some (n, _) => Ok n | None => Err (AttributeError "name") end
  end.

(** One attribute of a chain (lines 209-228): [attr] of the parent
    entity must be an entity attribute; a [Set] whose reverse is a
    collection, or whose parent is not the previous loop variable, makes
    the query [DISTINCT]; the table reference of the new name path is
    registered. *)
Definition chain_step (quals : list qual) (i : nat) (name : string) (last : bool)
  (acc : nat * string * string) (attrname : string) : stm tstate (nat * string * string) :=
  let '(parent_tr, parent_entity, name_path) := acc in
  pe ← slift (get_entity sch parent_entity);
  a ← slift (match find_attr pe attrname with Some a => Ok a | None => Err (AttributeError attrname) end);
  entity ← slift (match attr_py_type a with TEntity e => Ok e | _ => Err (NotImplementedError "") end);
  (if attr_is_collection a then
     if negb (attr_is_set a) then sthrow (NotImplementedError "")
     else
       rev ← slift (get_reverse sch a);
       if attr_is_collection rev then
         if negb (attr_is_set rev) then sthrow (NotImplementedError "")
         else modify_t (t_set_distinct true)
       else
         ptr ← on_store (get_tr parent_tr);
         prev ← slift (prev_qual_name quals i);
         if bool_decide (tr_alias ptr = Some prev) then mret tt
         else modify_t (t_set_distinct true)
   else mret tt);;
  let name_path := if last then name else name_path +:+ "-" +:+ attr_name a in
  t ← get_t;
  tr ← on_store (new_joined_tableref (t_subquery t) name_path parent_tr a);
  mret (tr, entity, name_path).

Fixpoint chain_loop (quals : list qual) (i : nat) (name : string) (acc : nat * string * string)
  (attrs : list string) : stm tstate (nat * string * string) :=
  match attrs with
  | [] => mret acc
  | [a] => chain_step quals i name true acc a
  | a :: rest => acc' ← chain_step quals i name false acc a; chain_loop quals i name acc' rest
  end.

(** The table references of a qualifier's source (lines 174-228); the
    entity it iterates over. *)
Definition declare_source (quals : list qual) (i : nat) (name : string) (it : qiter)
  : stm tstate string :=
  t ← get_t;
  match it with
  | QSrc src =>
      iterable ← slift (match vartypes !! src with Some x => Ok x | None => Err (KeyError src) end);
      match iterable with
      | TSet (TEntity en) =>
          (if 0 <? i then
             if left_join then sthrow (TranslationError "Collection expected inside left join query")
             else modify_t (t_set_distinct true)
           else mret tt);;
          _ ← on_store (new_root_tableref (t_subquery t) name en);
          mret en
      | TSet _ => sthrow (TranslationError "for")
      | _ => sthrow (TranslationError "Inside declarative query, iterator must be entity")
      end
  | QChain root attrs =>
      if bool_decide (attrs = []) then sthrow (TranslationError "for") else
      st ← on_store sget;
      found ← slift (get_tableref st (t_subquery t) root);
      match found with
      | None => sthrow (TranslationError ("Name '" +:+ root +:+ "' must be defined in query"))
      | Some ptr =>
          pt ← on_store (get_tr ptr);
          '(_, entity, _) ← chain_loop quals i name (ptr, tr_entity pt, root) attrs;
          mret entity
      end
  | QOther => sthrow (TranslationError "for")
  end.

(** Lines 230-234: every entity of the query belongs to
    [translator.database]. *)
Definition check_database (en : string) : stm tstate unit :=
  e ← slift (get_entity sch en);
  t ← get_t;
  match t_database t with
  | None => modify_t (t_set_database (ent_database e))
  | Some d =>
      if bool_decide (d = ent_database e) then mret tt
      else sthrow (TranslationError "All entities in a query must belong to the same database")
  end.

(** Lines 240-242: a condition object goes to WHERE ([conditions], the
    subquery's list) when it is not aggregated and to HAVING otherwise;
    an object without the attribute raises [AttributeError]. *)
Definition add_condition (c : fm) : stm tstate unit :=
  match fm_aggregated c with
  | None => sthrow (AttributeError "aggregated")
  | Some false =>
      sql ← on_store (getsql sch simple_aliases fuel (fm_monad c));
      t ← get_t; on_store (append_cond (t_subquery t) sql)
  | Some true =>
      sql ← on_store (getsql sch simple_aliases fuel (fm_monad c));
      modify_t (λ t, t_set_having (t_having t ++ [sql]) t)
  end.

(** The conjuncts of an [if] clause (lines 238-239): the operand
    objects of an [AndMonad], or the object itself. *)
Definition cond_monads (m : fm) : list fm :=
  match fm_monad m with MAnd _ => fm_operands m | _ => [m] end.

(** One [if] clause of a qualifier (lines 235-242). *)
Definition translate_cond (test : pexpr) : stm tstate unit :=
  m ← translate_if sch simple_aliases fuel vartypes test;
  _ ← mapM add_condition (cond_monads m);
  mret tt.

(** One qualifier [for name in iter if ...] (lines 165-242). *)
Definition declare_qual (quals : list qual) (i : nat) (q : qual) : stm tstate unit :=
  name ← slift (match q_assign q with
                | None => Err (NotImplementedError "assign")
                | Some (n, flags) => if bool_decide (flags = "OP_ASSIGN") then Ok n else Err (TypeError "assign")
                end);
  t ← get_t;
  s ← on_store (get_sq (t_subquery t));
  (if bool_decide (is_Some (sq_tablerefs s !! name)) then
     sthrow (TranslationError ("Duplicate name: '" +:+ name +:+ "'"))
   else if String.prefix "__" name then sthrow (TranslationError ("Illegal name: '" +:+ name +:+ "'"))
   else mret tt);;
  entity ← declare_source quals i name (q_iter q);
  check_database entity;;
  _ ← mapM translate_cond (q_ifs q);
  mret tt.

(** The qualifier pass: [for i, qual in enumerate(tree.quals)]. *)
Definition declare_quals (quals : list qual) : stm tstate unit :=
  _ ← mapM (λ '(i, q), declare_qual quals i q) (zip (seq 0 (length quals)) quals);
  mret tt.
End Init.

(** ** [SQLTranslator.__init__]: the selector pass *)

(** What [__init__] leaves in [translator.alias], [expr_type],
    [expr_columns] and [groupby_monads]. *)
Record selection := mkSelection {
  sel_alias : option string;
  sel_expr_type : ptype;
  sel_expr_columns : list sx;
  sel_groupby : option (list fm)
}.

Section Selector.
Variable sch : schema.
Variable simple_aliases : bool.
Variable fuel : nat.
Variable vartypes : gmap string ptype.

(** [monad.requires_distinct()] of [ObjectIterMonad] (lines 1092-1093)
    and of the other object monads (lines 1081-1082); [last_name] is
    [tree.quals[-1].assign.name]. *)
Fixpoint requires_distinct (last_name : string) (m : monad) : stm store bool :=
  match m with
  | MObjectIter tr _ => t ← get_tr tr; mret (negb (bool_decide (tr_name_path t = last_name)))
  | MObjectAttr p a _ =>
      rev ← slift (get_reverse sch a);
      if attr_is_collection rev then mret true else requires_distinct last_name p
  | _ => sthrow (AttributeError "requires_distinct")
  end.

(** The [expr_set] of lines 288-293: the name paths of the selected
    loop variables, and the pairs (name path, attribute name) of the
    attributes selected from them. *)
Definition expr_paths (ms : list monad) : stm store (list string * list (string * string)) :=
  rs ← mapM (λ m, match m with
                  | MObjectIter tr _ => t ← get_tr tr; mret ([tr_name_path t], [])
                  | MAttr (MObjectIter tr _) a | MObjectAttr (MObjectIter tr _) a _ =>
                      t ← get_tr tr; mret ([], [(tr_name_path t, attr_name a)])
                  | _ => mret ([], [])
                  end) ms;
  mret (concat (map fst rs), concat (map snd rs)).

(** Lines 294-300: some table reference of the subquery is neither
    selected nor has all its key attributes selected. *)
Definition needs_distinct (j : nat) (ms : list monad) : stm store bool :=
  '(paths, pairs) ← expr_paths ms;
  s ← get_sq j;
  trs ← mapM (λ '(_, i), get_tr i) (map_to_list (sq_tablerefs s));
  flags ← mapM (λ t,
                  if bool_decide (tr_name_path t ∈ paths) then mret false
                  else e ← slift (get_entity sch (tr_entity t));
                       mret (existsb (λ a, negb (bool_decide ((tr_name_path t, a) ∈ pairs))) (ent_pk_attrs e)))
               trs;
  mret (existsb id flags).

(** [[m for m in expr_monads if not m.aggregated and not m.nogroup]]
    (line 286). *)
Definition groupby_of (ms : list fm) : result (list fm) :=
  flags ← mapM (λ m, match fm_aggregated m, fm_nogroup m with
                     | Some a, Some n => Ok (negb a && negb n)
                     | _, _ => Err (AttributeError "aggregated")
                     end) ms;
  Ok (map fst (List.filter snd (zip ms flags))).

(** The selector pass (lines 244-300), without the row layout of lines
    301-323 (converters of the database provider). *)
Definition select_expr (quals : list qual) (parent : option nat) (expr : pexpr)
  : stm tstate selection :=
  modify_t (t_set_inside_expr true);;
  m ← translate sch simple_aliases fuel vartypes expr;
  t ← get_t;
  slift (assert_ (negb (t_inside_not t)));;
  (match fm_monad m with
   | MParam _ _ => sthrow (TranslationError "External parameter cannot be used as query result")
   | _ => mret tt
   end);;
  match (match mtype (fm_monad m) with TSet it => it | ty => ty end) with
  | TEntity en =>
      agg ← slift (match fm_aggregated m with Some a => Ok a | None => Err (AttributeError "aggregated") end);
      (if (agg : bool) then sthrow (TranslationError "") else mret tt);;
      groupby ← (if t_aggregated t then mret (Some [m])
                 else last ← slift (prev_qual_name quals 0);
                      d ← on_store (requires_distinct last (fm_monad m));
                      modify_t (λ t', t_set_distinct (t_distinct t' || d) t');;
                      mret None);
      match fm_monad m with
      | MObjectIter tr _ | MObjectAttr _ _ tr =>
          '(alias, pk_columns) ← on_store (make_join sch simple_aliases fuel tr (bool_decide (is_Some parent)));
          mret (mkSelection alias (TEntity en) (map (column alias) pk_columns) groupby)
      | _ => sthrow AssertionError
      end
  | _ =>
      let '(ms, et) := match fm_monad m with
                       | MList items => (fm_operands m, TTuple (map mtype items))
                       | mm => ([m], mtype mm)
                       end in
      cols ← on_store (mapM (λ x, sql ← getsql sch simple_aliases fuel (fm_monad x); slift (py_iter sql)) ms);
      groupby ← (if t_aggregated t then gb ← slift (groupby_of ms); mret (Some gb)
                 else d ← on_store (needs_distinct (t_subquery t) (map fm_monad ms));
                      modify_t (λ t', t_set_distinct (t_distinct t' || d) t');;
                      mret None);
      mret (mkSelection None et (concat cols) groupby)
  end.

(** Lines 325-330: in a subquery, the join condition of the first FROM
    item moves to the head of WHERE. *)
Definition first_from_fixup (parent : option nat) : stm tstate unit :=
  t ← get_t;
  let j := t_subquery t in
  s ← on_store (get_sq j);
  match sq_from_ast s !! 1 with
  | None => sthrow IndexError
  | Some item =>
      items ← slift (py_iter item);
      if 3 <? length items then
        slift (assert_ (length items =? 4));;
        slift (assert_ (bool_decide (is_Some parent)));;
        cond ← slift (match last items with Some c => Ok c | None => Err IndexError end);
        on_store (modify_sq j (λ s, sq_set_from (<[1 := SList (take 3 items)]> (sq_from_ast s)) s));;
        on_store (prepend_cond j cond)
      else mret tt
  end.
End Selector.

(** The fields [__init__] sets before the qualifier pass (lines
    141-164): [aggregated] is [True] only for an optimised query. *)
Definition init_translator (j : nat) (aggregated : bool) : translator :=
  mkTranslator j None false [] aggregated false false [].

(** [SQLTranslator.__init__(tree, extractors, vartypes, parent_translator,
    left_join, optimize)] (lines 140-330): a new subquery, the qualifier
    pass, the selector pass.  [parent] is the parent translator's
    subquery. *)
Definition translator_init (sch : schema) (simple_aliases : bool) (fuel : nat)
  (vartypes : gmap string ptype) (quals : list qual) (expr : pexpr) (parent : option nat)
  (left_join : bool) (optimize : option string) : stm store (translator * selection) := λ st,
  match new_subquery parent left_join st with
  | Err e => Err e
  | Ok (j, st1) =>
      let t0 := init_translator j (bool_decide (is_Some optimize)) in
      let body : stm tstate selection :=
        declare_quals sch simple_aliases fuel vartypes left_join quals;;
        sel ← select_expr sch simple_aliases fuel vartypes quals parent expr;
        first_from_fixup parent;;
        mret sel in
      match body (mkTState t0 st1) with
      | Ok (sel, ts) => Ok ((ts_tr ts, sel), ts_store ts)
      | Err e => Err e
      end
  end.

(** ** [construct_sql_ast] *)

Section Construct.
Variable sch : schema.
Variable simple_aliases : bool.
Variable fuel : nat.

(** [entity._construct_select_clause_(alias, distinct)] of the ORM core
    (not among the sources): every column of the entity's
    non-collection attributes. *)
Definition construct_select_clause (e : entity) (alias : option string) (distinct : bool) : sx :=
  SList (SStr (if distinct then "DISTINCT" else "ALL") ::
         map (column alias) (concat (map attr_columns
                                         (List.filter (λ a, negb (attr_is_collection a)) (ent_attrs e))))).

(** The [LIMIT] section of a [range] (lines 383-390). *)
Definition limit_section (start stop : Z) : sx :=
  let limit := (stop - start)%Z in
  SList ([SStr "LIMIT"; value (SInt limit)] ++ (if bool_decide (start = 0%Z) then [] else [value (SInt start)])).

(** The select clause and the transformation of the whole AST of an
    aggregate query (lines 340-362). *)
Definition aggregate_select (t : translator) (sel : selection) (aggr : string)
  : result (sx * option (list sx → sx)) :=
  let expr_type := sel_expr_type sel in
  let is_entity := match expr_type with TEntity _ => true | _ => false end in
  column_ast ← (if negb is_entity then
                  if bool_decide (aggr = "SUM" ∨ aggr = "AVG") && negb (is_numeric expr_type) then
                    Err (TranslationError ("'" +:+ aggr +:+ "' is valid for numeric attributes only"))
                  else assert_ (length (sel_expr_columns sel) =? 1);; Ok (head (sel_expr_columns sel))
                else if bool_decide (aggr = "COUNT") then Ok None
                else Err (TranslationError ("Attribute should be specified for '" +:+ aggr +:+ "' aggregate function")));
  let col := default SNone column_ast in
  if bool_decide (aggr = "COUNT") then
    match expr_type with
    | TTuple _ | TEntity _ =>
        if t_distinct t then
          Ok (SList (SStr "DISTINCT" :: sel_expr_columns sel),
              Some (λ ast, node "SELECT" [node "AGGREGATES" [node "COUNT" [SStr "ALL"]];
                                          node "FROM" [SList [SStr "t"; SStr "SELECT"; SList ast]]]))
        else Ok (node "AGGREGATES" [node "COUNT" [SStr "ALL"]], None)
    | _ => Ok (node "AGGREGATES" [node "COUNT" [SStr "DISTINCT"; col]], None)
    end
  else Ok (node "AGGREGATES" [node aggr [col]], None).

(** [translator.construct_sql_ast(range, distinct, aggr_func_name)]
    (lines 335-393): [optimize] is [translator.optimize] and the store
    holds the subquery's FROM and WHERE lists. *)
Definition construct_sql_ast (t : translator) (sel : selection) (optimize : bool)
  (range : option (Z * Z)) (distinct : option bool) (aggr : option string) : stm store sx :=
  let distinct := default (t_distinct t) distinct in
  '(select_ast, transformer) ←
    (match aggr with
     | Some a => slift (aggregate_select t sel a)
     | None =>
         match sel_expr_type sel with
         | TEntity en =>
             if optimize then mret (SList (SStr (if distinct then "DISTINCT" else "ALL") :: sel_expr_columns sel), None)
             else e ← slift (get_entity sch en); mret (construct_select_clause e (sel_alias sel) distinct, None)
         | _ => mret (SList (SStr (if distinct then "DISTINCT" else "ALL") :: sel_expr_columns sel), None)
         end
     end);
  s ← get_sq (t_subquery t);
  let where_ := if bool_decide (sq_conditions s = []) then [] else [SList (SStr "WHERE" :: sq_conditions s)] in
  group_by ← (match sel_groupby sel with
              | Some (_ :: _ as ms) =>
                  cols ← mapM (λ m, sql ← getsql sch simple_aliases fuel (fm_monad m); slift (py_iter sql)) ms;
                  mret [SList (SStr "GROUP_BY" :: concat cols)]
              | _ => mret []
              end);
  having ← (if bool_decide (t_having t = []) then mret []
            else if bool_decide (group_by = []) then
              sthrow (TranslationError "In order to use aggregated functions such as SUM(), COUNT(), etc., query must have grouping columns (i.e. resulting non-aggregated values)")
            else mret [SList (SStr "HAVING" :: t_having t)]);
  let order := if bool_decide (t_order t = []) then [] else [SList (SStr "ORDER_BY" :: t_order t)] in
  let lim := match range with Some (start, stop) => [limit_section start stop] | None => [] end in
  let sql_ast := [SStr "SELECT"; select_ast; SList (sq_from_ast s)] ++ where_ ++ group_by ++ having ++ order ++ lim in
  mret (match transformer with Some f => f (tail sql_ast) | None => SList sql_ast end).
End Construct.

(** ** A query over the [model1] schema *)

(** [for s in Student]: the external name [Student] is the entity set. *)
Definition demo_vartypes : gmap string ptype := {["Student" := TSet (TEntity "Student")]}.
Definition demo_qual (ifs : list pexpr) : qual := mkQual (Some ("s", "OP_ASSIGN")) (QSrc "Student") ifs.

(** The translator after the qualifier [for s in Student]. *)
Definition demo_tstate : tstate :=
  let st0 := match new_subquery None false empty_store with Ok (_, s) => s | Err _ => empty_store end in
  let ts0 := mkTState (init_translator 0 false) st0 in
  match declare_quals model1_schema false 10 demo_vartypes false [demo_qual []] ts0 with
  | Ok (_, ts) => ts
  | Err _ => ts0
  end.

(** [s.<attr> == value] *)
Definition demo_eq (attr : string) (v : string) : pexpr :=
  PCompare (PGetattr (PName "s") attr) [("==", PConst (SStr v))].

(** The state after [preNot] or [postNot]. *)
Definition flip_not (ts : tstate) : tstate :=
  mkTState (t_set_inside_not (negb (t_inside_not (ts_tr ts))) (ts_tr ts)) (ts_store ts).

(** ** Induction over the nested AST *)

Section pexpr_nested_ind.
Variable P : pexpr → Prop.
Hypothesis HName : ∀ n, P (PName n).
Hypothesis HExternal : ∀ s n, P (PExternal s n).
Hypothesis HConst : ∀ v, P (PConst v).
Hypothesis HTuple : ∀ l, Forall P l → P (PTuple l).
Hypothesis HList : ∀ l, Forall P l → P (PList l).
Hypothesis HCompare : ∀ e ops, P e → Forall (λ o, P (snd o)) ops → P (PCompare e ops).
Hypothesis HArith : ∀ op l r, P l → P r → P (PArith op l r).
Hypothesis HPower : ∀ l r, P l → P r → P (PPower l r).
Hypothesis HUnarySub : ∀ e, P e → P (PUnarySub e).
Hypothesis HGetattr : ∀ e n, P e → P (PGetattr e n).
Hypothesis HAnd : ∀ l, Forall P l → P (PAnd l).
Hypothesis HOr : ∀ l, Forall P l → P (POr l).
Hypothesis HNot : ∀ e, P e → P (PNot e).
Hypothesis HCallFunc : ∀ f args, P f → Forall P args → P (PCallFunc f args).
Hypothesis HSubscript : ∀ e subs, P e → Forall P subs → P (PSubscript e subs).
Hypothesis HSlice : ∀ e lo up, P e → (∀ x, lo = Some x → P x) → (∀ x, up = Some x → P x) →
  P (PSlice e lo up).

Fixpoint pexpr_nested_ind (e : pexpr) : P e :=
  let fix go (l : list pexpr) : Forall P l :=
    match l with [] => Forall_nil_2 _ | x :: l' => Forall_cons_2 _ _ _ (pexpr_nested_ind x) (go l') end in
  let fix go2 (l : list (string * pexpr)) : Forall (λ o, P (snd o)) l :=
    match l with
    | [] => Forall_nil_2 _
    | (s, x) :: l' => Forall_cons_2 (λ o, P (snd o)) (s, x) _ (pexpr_nested_ind x) (go2 l')
    end in
  let opt (o : option pexpr) : ∀ x, o = Some x → P x :=
    match o with Some y => λ x H, eq_ind y P (pexpr_nested_ind y) x (Some_inj _ _ H) | None => λ x H, False_ind (P x) (None_ne_Some _ H) end in
  match e with
  | PName n => HName n
  | PExternal s n => HExternal s n
  | PConst v => HConst v
  | PTuple l => HTuple l (go l)
  | PList l => HList l (go l)
  | PCompare x ops => HCompare x ops (pexpr_nested_ind x) (go2 ops)
  | PArith op l r => HArith op l r (pexpr_nested_ind l) (pexpr_nested_ind r)
  | PPower l r => HPower l r (pexpr_nested_ind l) (pexpr_nested_ind r)
  | PUnarySub x => HUnarySub x (pexpr_nested_ind x)
  | PGetattr x n => HGetattr x n (pexpr_nested_ind x)
  | PAnd l => HAnd l (go l)
  | POr l => HOr l (go l)
  | PNot x => HNot x (pexpr_nested_ind x)
  | PCallFunc f args => HCallFunc f args (pexpr_nested_ind f) (go args)
  | PSubscript x subs => HSubscript x subs (pexpr_nested_ind x) (go subs)
  | PSlice x lo up => HSlice x lo up (pexpr_nested_ind x) (opt lo) (opt up)
  end.
End pexpr_nested_ind.

(** ** The translator's state along a run *)

Lemma stm_rel_on_store {A} (R : tstate → tstate → Prop) (c : stm store A) :
  (∀ ts st, R ts (mkTState (ts_tr ts) st)) → stm_rel R (on_store c).
Proof.
  intros HR ts a ts' H. unfold on_store in H.
  destruct (c (ts_store ts)) as [[b st]|]; simplify_eq. apply HR.
Qed.

Lemma stm_rel_modify_t (R : tstate → tstate → Prop) f :
  (∀ ts, R ts (mkTState (f (ts_tr ts)) (ts_store ts))) → stm_rel R (modify_t f).
Proof. intros HR ts a ts' [= <- <-]. apply HR. Qed.

Lemma stm_rel_get_t (R : tstate → tstate → Prop) `{!Reflexive R} : stm_rel R get_t.
Proof. intros ts a ts' [= <- <-]. reflexivity. Qed.

(** Take apart a computation built from binds, conditionals and matches
    whose pieces keep [R]. *)
Ltac rel_solve :=
  repeat first
    [ refine (stm_rel_bind _ _ _ _ _); [|intros ?]
    | refine (stm_rel_ret _ _) | refine (stm_rel_slift _ _) | refine (stm_rel_sthrow _ _)
    | refine (stm_rel_get_t _)
    | progress (match goal with |- stm_rel _ (if ?b then _ else _) => destruct b end)
    | progress (match goal with |- stm_rel _ (match ?x with _ => _ end) => destruct x end)
    | progress (match goal with |- stm_rel _ (let '(_, _) := ?x in _) => destruct x end) ].

(** [inside_not] is the same in both states. *)
Definition same_not (ts ts' : tstate) : Prop := t_inside_not (ts_tr ts') = t_inside_not (ts_tr ts).

#[export] Instance same_not_preorder : PreOrder same_not.
Proof. split; [intros ?; done | intros ??? H1 H2; unfold same_not in *; congruence]. Qed.

Lemma same_not_on_store {A} (c : stm store A) : stm_rel same_not (on_store c).
Proof. by apply stm_rel_on_store. Qed.


Lemma same_not_call_post cs r : stm_rel same_not (call_post cs r).
Proof. unfold call_post. rel_solve. by apply stm_rel_modify_t. Qed.
Lemma same_not_entity_monad sch en : stm_rel same_not (entity_monad sch en).
Proof. unfold entity_monad. rel_solve; by apply stm_rel_modify_t. Qed.

Lemma same_not_dispatch_external sch vt src n : stm_rel same_not (dispatch_external sch vt src n).
Proof. unfold dispatch_external. rel_solve; try apply same_not_entity_monad; by apply stm_rel_modify_t. Qed.

Lemma same_not_post_name src : stm_rel same_not (post_name src).
Proof. unfold post_name. rel_solve; apply same_not_on_store. Qed.

Lemma same_not_compare_fm sch sa fuel op l r : stm_rel same_not (compare_fm sch sa fuel op l r).
Proof. unfold compare_fm. rel_solve; apply same_not_on_store. Qed.

Lemma get_t_inv ts a ts' : get_t ts = Ok (a, ts') → a = ts_tr ts ∧ ts' = ts.
Proof. by intros [= <- <-]. Qed.

Lemma modify_t_inv f ts u ts' :
  modify_t f ts = Ok (u, ts') → ts' = mkTState (f (ts_tr ts)) (ts_store ts).
Proof. by intros [= _ <-]. Qed.

(** One bind of a successful run. *)
Ltac step H := let E := fresh "E" in apply stm_bind_Ok_inv in H as (? & ? & E & H).

Lemma translate_same_not sch sa fuel vt e : stm_rel same_not (translate sch sa fuel vt e).
Proof.
  induction e using pexpr_nested_ind; simpl.
  all: try (rel_solve; try apply same_not_call_post; try apply same_not_on_store;
            try apply same_not_post_name; try apply same_not_dispatch_external; try done;
            try (refine (stm_rel_mapM _ _ _ _); done); by eauto).
  - (* PCompare *)
    intros ts r ts' Hr. do 2 step Hr. apply get_t_inv in E0 as [-> ->].
    step Hr. destruct x1 as [ms rs]. step Hr. apply modify_t_inv in E1 as ->.
    match type of Hr with ?c _ = _ =>
      assert (Hc : stm_rel same_not c) by (rel_solve; try apply same_not_on_store; apply same_not_call_post) end.
    apply Hc in Hr. specialize (IHe _ _ _ E). unfold same_not in *. simpl in Hr. rewrite Hr.
    destruct x0 as [[] ?]; simpl in *; congruence.
  - (* PNot *)
    intros ts r ts' Hr. step Hr. apply get_t_inv in E as [-> ->]. step Hr. apply modify_t_inv in E as ->.
    step Hr. step Hr. apply get_t_inv in E0 as [-> ->]. step Hr. apply modify_t_inv in E0 as ->.
    step Hr. apply same_not_on_store in E0. apply same_not_call_post in Hr. apply IHe in E.
    unfold same_not in *; simpl in *. rewrite Hr, E0. simpl. rewrite E. simpl. by destruct (t_inside_not (ts_tr ts)).
Qed.

(** C23: the walk restores [inside_not]: [preCompare] puts back the value
    it saved and [postNot] undoes the flip of [preNot], whatever the
    node.  So the assertion [assert not translator.inside_not] after the
    selector is dispatched (line 248) holds whenever it held before. *)
Theorem translate_restores_inside_not sch sa fuel vt e ts r ts' :
  translate sch sa fuel vt e ts = Ok (r, ts') → t_inside_not (ts_tr ts') = t_inside_not (ts_tr ts).
Proof. apply translate_same_not. Qed.

(** ** Conditions of the qualifier pass *)
Lemma on_store_inv {A} (c : stm store A) ts a ts' :
  on_store c ts = Ok (a, ts') → ∃ st', c (ts_store ts) = Ok (a, st') ∧ ts' = mkTState (ts_tr ts) st'.
Proof. unfold on_store. destruct (c _) as [[b st]|]; intros; simplify_eq; eauto. Qed.

Lemma call_post_inv cs r ts r' ts' :
  call_post cs r ts = Ok (r', ts') →
  r' = FM (fm_monad r) (Some (default (existsb (fm_flag fm_aggregated) cs) (fm_aggregated r)))
          (Some (default (existsb (fm_flag fm_nogroup) cs) (fm_nogroup r))) (fm_operands r).
Proof.
  unfold call_post. destruct (default _ (fm_aggregated r)); [|by intros [= <- _]].
  intros H. step H. destruct (_ && _); [discriminate|]. by injection H as <- _.
Qed.

Lemma logical_operand_fm_nonbool sch sa fuel b o st ys st' :
  logical_operand_fm sch sa fuel b o st = Ok (ys, st') → mtype (fm_monad o) ≠ TBool →
  ∃ n, ys = [fm_fresh n].
Proof.
  unfold logical_operand_fm. intros H Hb. rewrite bool_decide_false in H by done. simpl in H.
  step H. injection H as <- _. eauto.
Qed.

Lemma logical_fm_operands sch sa fuel b cs st r st' :
  logical_fm sch sa fuel b cs st = Ok (r, st') →
  fm_monad r = mk_logical b (map fm_monad (fm_operands r)) ∧
  ∃ items, fm_operands r = concat items ∧
    Forall2 (λ o ys, mtype (fm_monad o) ≠ TBool → ∃ n, ys = [fm_fresh n]) cs items.
Proof.
  unfold logical_fm. intros H. step H. step H. injection H as <- _.
  split; [done|]. exists x1. split; [done|]. apply stm_mapM_Forall2 in E0.
  eapply Forall2_impl; [exact E0|]. intros o ys (s1 & s2 & Hs) Hb.
  by eapply logical_operand_fm_nonbool.
Qed.

Lemma add_condition_flag sch sa fuel c ts u ts' :
  add_condition sch sa fuel c ts = Ok (u, ts') → is_Some (fm_aggregated c).
Proof. unfold add_condition. destruct (fm_aggregated c); [eauto|discriminate]. Qed.

(** C10: the conjuncts of an [if] clause must be boolean.  The operand
    objects [LogicalBinOpMonad.__init__] creates by [nonzero()] never went
    through [call], so they have no [aggregated] attribute, and the
    condition loop of [__init__] (line 241) raises [AttributeError] on
    them: [if s.first_name and s.last_name == 'Smith'] cannot be
    translated.  A conjunction clause is translated only when every
    operand is boolean. *)
Theorem and_condition_requires_bool sch sa fuel vt nodes ts u ts' :
  translate_cond sch sa fuel vt (PAnd nodes) ts = Ok (u, ts') →
  ∃ cs ts1, mapM (translate sch sa fuel vt) nodes ts = Ok (cs, ts1) ∧
            Forall (λ c, mtype (fm_monad c) = TBool) cs.
Proof.
  unfold translate_cond, translate_if. intros H.
  apply stm_bind_Ok_inv in H as (m & ts2 & Hm & H).
  apply stm_bind_Ok_inv in Hm as (xm & ts3 & Hx & Hm). simpl in Hx.
  apply stm_bind_Ok_inv in Hx as (cs & ts1 & Hcs & Hx).
  apply stm_bind_Ok_inv in Hx as (r & ts4 & Hl & Hx).
  apply on_store_inv in Hl as (st1 & Hl & ->). apply call_post_inv in Hx as ->.
  exists cs, ts1. split; [done|].
  destruct (logical_fm_operands _ _ _ _ _ _ _ _ Hl) as (Hr & items & Hops & Hrel).
  cbn [fm_monad fm_operands] in Hm. rewrite Hr, decide_True in Hm by (by destruct AndOp).
  apply stm_bind_Ok_inv in Hm as (m0 & ts5 & [= <- <-] & Hm). apply call_post_inv in Hm as ->.
  apply stm_bind_Ok_inv in H as (us & ts6 & Hus & _).
  apply stm_mapM_Forall2 in Hus. rewrite Hops in Hus. cbn [cond_monads fm_monad fm_operands mk_logical] in Hus.
  assert (Hall : Forall (Forall (λ c, is_Some (fm_aggregated c))) items).
  { apply Forall_concat. apply (Forall2_Forall_l _ (λ c, is_Some (fm_aggregated c))) in Hus; [done|].
    apply Forall_forall. intros y _ c (s1 & s2 & Hs). by eapply add_condition_flag. }
  clear -Hrel Hall. induction Hrel as [|o ys cs items Ho _ IH]; constructor; inversion_clear Hall as [|? ? Hys Hrest].
  - destruct (decide (mtype (fm_monad o) = TBool)) as [|Hb]; [done|].
    destruct (Ho Hb) as [n ->]. inversion_clear Hys as [|? ? [? Hn]]. by destruct n.
  - by apply IH.
Qed.

(** ** Negation in the walk *)

Lemma flip_not_twice ts : flip_not (flip_not ts) = ts.
Proof. destruct ts as [[] ?]. unfold flip_not. simpl. by rewrite negb_involutive. Qed.

Lemma translate_not_eq sch sa fuel vt e ts :
  translate sch sa fuel vt (PNot e) ts =
    match translate sch sa fuel vt e (flip_not ts) with
    | Ok (xm, ts2) =>
        match negate_fm sch sa fuel xm (ts_store ts2) with
        | Ok (r, st) => call_post [xm] r (mkTState (ts_tr (flip_not ts2)) st)
        | Err err => Err err
        end
    | Err err => Err err
    end.
Proof.
  cbn [translate]. cbv [mbind stm_bind get_t modify_t]. fold (flip_not ts).
  destruct (translate _ _ _ _ e (flip_not ts)) as [[xm ts2]|]; [|done].
  unfold on_store. by destruct (negate_fm _ _ _ _ _) as [[]|].
Qed.

Lemma negate_fm_cmp sch sa fuel o op op' l r st :
  fm_monad o = MCmp op l r → cmp_normal sch op l r → cmp_negate op = Ok op' →
  negate_fm sch sa fuel o st = Ok (fm_fresh (MCmp op' l r), st).
Proof.
  destruct o as [m a n ops]. simpl. intros -> Hn Hop. unfold negate_fm. simpl.
  cbv [mbind stm_bind slift]. rewrite Hop, (cmp_monad_fixed _ _ _ _ (cmp_normal_negate _ _ _ _ _ Hn Hop)). reflexivity.
Qed.

Lemma call_post_unagg cs r ts :
  existsb (fm_flag fm_aggregated) cs = false → fm_aggregated r = None →
  call_post cs r ts =
    Ok (FM (fm_monad r) (Some false) (Some (default (existsb (fm_flag fm_nogroup) cs) (fm_nogroup r)))
           (fm_operands r), ts).
Proof. intros Hc Hr. unfold call_post. by rewrite Hr, Hc. Qed.

(** double negation of a comparison gives the comparison back: the
    walk of [not not e], where [e] is a non-aggregated comparison, ends in
    the same state as the walk of [e] with the same comparison monad. *)
Theorem translate_double_not_cmp sch sa fuel vt e ts x ts1 op l r :
  translate sch sa fuel vt e ts = Ok (x, ts1) →
  fm_monad x = MCmp op l r → cmp_normal sch op l r → fm_aggregated x = Some false →
  ∃ x', translate sch sa fuel vt (PNot (PNot e)) ts = Ok (x', ts1) ∧ fm_monad x' = fm_monad x.
Proof.
  intros Hx Hm Hn Ha. destruct (cmp_normal_negate_total _ _ _ _ Hn) as [op' Hop].
  pose proof (cmp_normal_negate _ _ _ _ _ Hn Hop) as Hn'.
  rewrite !translate_not_eq, flip_not_twice, Hx.
  rewrite (negate_fm_cmp _ _ _ _ _ _ _ _ _ Hm Hn Hop).
  rewrite call_post_unagg by (first [done | by cbn [existsb]; unfold fm_flag; rewrite Ha]).
  erewrite negate_fm_cmp; [| reflexivity | exact Hn' | exact (cmp_negate_inv _ _ Hop)].
  rewrite call_post_unagg by done.
  eexists. split; [f_equal; f_equal; exact (flip_not_twice ts1)|]. by rewrite Hm.
Qed.

Lemma translate_if_flags sch sa fuel vt test ts m ts1 :
  translate_if sch sa fuel vt test ts = Ok (m, ts1) → is_Some (fm_aggregated m).
Proof.
  unfold translate_if. intros H. apply stm_bind_Ok_inv in H as (xm & ts2 & _ & H).
  apply stm_bind_Ok_inv in H as (r & ts3 & _ & H). apply call_post_inv in H as ->. simpl. eauto.
Qed.

(** an [if] clause that is not a conjunction goes to WHERE (the
    subquery's [conditions]) when its monad is not aggregated and to
    HAVING ([having_conditions]) when it is; [call] always gives it the
    [aggregated] attribute, so it never raises [AttributeError]. *)
Theorem cond_where_having sch sa fuel vt test ts m ts1 sql st2 s :
  translate_if sch sa fuel vt test ts = Ok (m, ts1) →
  (∀ ops, fm_monad m ≠ MAnd ops) →
  getsql sch sa fuel (fm_monad m) (ts_store ts1) = Ok (sql, st2) →
  st_subqueries st2 !! t_subquery (ts_tr ts1) = Some s →
  translate_cond sch sa fuel vt test ts =
    Ok (tt, if fm_flag fm_aggregated m
            then mkTState (t_set_having (t_having (ts_tr ts1) ++ [sql]) (ts_tr ts1)) st2
            else mkTState (ts_tr ts1)
                   (st_set_sq (t_subquery (ts_tr ts1)) (sq_set_conditions (sq_conditions s ++ [sql]) s) st2)).
Proof.
  intros Hm Hand Hsql Hs. pose proof (translate_if_flags _ _ _ _ _ _ _ _ Hm) as [a Ha].
  unfold translate_cond. rewrite stm_bind_unfold, Hm.
  assert (Hc : cond_monads m = [m]) by (unfold cond_monads; destruct (fm_monad m); naive_solver).
  rewrite Hc. cbn [mapM]. rewrite !stm_bind_unfold. unfold add_condition, fm_flag. rewrite Ha.
  destruct a; cbv [mbind stm_bind on_store get_t modify_t]; rewrite Hsql; simpl; [done|].
  unfold append_cond, modify_sq, get_sq. cbv [mbind stm_bind smodify]. by rewrite Hs.
Qed.

(** ** Witnesses on the [model1] schema *)

Example translate_restores_inside_not_witness :
  ∃ r ts', translate model1_schema false 10 demo_vartypes (PNot (demo_eq "first_name" "A")) demo_tstate
             = Ok (r, ts') ∧ t_inside_not (ts_tr ts') = t_inside_not (ts_tr demo_tstate).
Proof.
  eexists _, _.
  assert (Heq : translate model1_schema false 10 demo_vartypes (PNot (demo_eq "first_name" "A")) demo_tstate
                = Ok (_, _)) by (vm_compute; reflexivity).
  split; [exact Heq | exact (translate_restores_inside_not _ _ _ _ _ _ _ _ Heq)].
Defined.

Example and_condition_requires_bool_witness :
  ∃ u ts' cs ts1,
    translate_cond model1_schema false 10 demo_vartypes
      (PAnd [demo_eq "first_name" "A"; demo_eq "last_name" "B"]) demo_tstate = Ok (u, ts') ∧
    mapM (translate model1_schema false 10 demo_vartypes) [demo_eq "first_name" "A"; demo_eq "last_name" "B"]
      demo_tstate = Ok (cs, ts1) ∧
    Forall (λ c, mtype (fm_monad c) = TBool) cs.
Proof.
  eexists _, _.
  assert (Heq : translate_cond model1_schema false 10 demo_vartypes
                  (PAnd [demo_eq "first_name" "A"; demo_eq "last_name" "B"]) demo_tstate = Ok (_, _))
    by (vm_compute; reflexivity).
  destruct (and_condition_requires_bool _ _ _ _ _ _ _ _ Heq) as (cs & ts1 & H1 & H2).
  exists cs, ts1. split_and!; [exact Heq | exact H1 | exact H2].
Defined.

Example translate_double_not_cmp_witness :
  ∃ x ts1 op l r,
    translate model1_schema false 10 demo_vartypes (demo_eq "first_name" "A") demo_tstate = Ok (x, ts1) ∧
    fm_monad x = MCmp op l r ∧ cmp_normal model1_schema op l r ∧ fm_aggregated x = Some false ∧
    ∃ x', translate model1_schema false 10 demo_vartypes (PNot (PNot (demo_eq "first_name" "A"))) demo_tstate
            = Ok (x', ts1) ∧ fm_monad x' = fm_monad x.
Proof.
  eexists _, _, _, _, _.
  match goal with |- ?A ∧ ?B ∧ ?C ∧ ?D ∧ _ =>
    assert (H1 : A) by (vm_compute; reflexivity);
    assert (H2 : B) by (vm_compute; reflexivity);
    assert (H3 : C) by (split_and!; [vm_compute; reflexivity | eexists; reflexivity | discriminate
                                    | split; intros Hc; vm_compute in Hc; discriminate | discriminate]);
    assert (H4 : D) by reflexivity
  end.
  split_and!; [exact H1 | exact H2 | exact H3 | exact H4 |].
  exact (translate_double_not_cmp _ _ _ _ _ _ _ _ _ _ _ H1 H2 H3 H4).
Defined.

Example cond_where_having_witness :
  ∃ m ts1 sql st2 s,
    translate_if model1_schema false 10 demo_vartypes (demo_eq "last_name" "B") demo_tstate = Ok (m, ts1) ∧
    (∀ ops, fm_monad m ≠ MAnd ops) ∧
    getsql model1_schema false 10 (fm_monad m) (ts_store ts1) = Ok (sql, st2) ∧
    st_subqueries st2 !! t_subquery (ts_tr ts1) = Some s ∧
    translate_cond model1_schema false 10 demo_vartypes (demo_eq "last_name" "B") demo_tstate =
      Ok (tt, if fm_flag fm_aggregated m
              then mkTState (t_set_having (t_having (ts_tr ts1) ++ [sql]) (ts_tr ts1)) st2
              else mkTState (ts_tr ts1)
                     (st_set_sq (t_subquery (ts_tr ts1)) (sq_set_conditions (sq_conditions s ++ [sql]) s) st2)).
Proof.
  eexists _, _, _, _, _.
  match goal with |- ?A ∧ ?B ∧ ?C ∧ ?D ∧ _ =>
    assert (H1 : A) by (vm_compute; reflexivity);
    assert (H2 : B) by (intros ops; vm_compute; discriminate);
    assert (H3 : C) by (vm_compute; reflexivity);
    assert (H4 : D) by (vm_compute; reflexivity)
  end.
  split_and!; [exact H1 | exact H2 | exact H3 | exact H4 |].
  exact (cond_where_having _ _ _ _ _ _ _ _ _ _ _ H1 H2 H3 H4).
Defined.

(** ** Comparisons, [construct_sql_ast] and the FROM list *)
(** C29: [x not in s] on a string [s] is translated as [x in s]:
    [StringMixin.contains] (lines 1011-1019) ignores its [not_in]
    argument, so the comparison [preCompare] builds for ['not in'] is the
    [LIKE] of ['in']. *)
Theorem string_not_in_is_in sch sa fuel l r :
  is_string_monad (fm_monad r) = true →
  compare_fm sch sa fuel "not in" l r = compare_fm sch sa fuel "in" l r.
Proof.
  intros Hs. unfold compare_fm, contains_dispatch.
  rewrite !bool_decide_true by (by (left + right)).
  destruct (fm_monad r); simpl in Hs; try discriminate; reflexivity.
Qed.

(** C30: [COUNT] over a query that selects a tuple of two or more
    columns raises [AssertionError]: the test [assert
    len(translator.expr_columns) == 1] (line 345) comes before the branch
    for tuples (lines 351-356), which only a one-column tuple reaches. *)
Theorem count_tuple_assertion sch sa fuel t sel opt range dist ts st :
  sel_expr_type sel = TTuple ts → 2 ≤ length (sel_expr_columns sel) →
  construct_sql_ast sch sa fuel t sel opt range dist (Some "COUNT") st = Err AssertionError.
Proof.
  intros Ht Hl. unfold construct_sql_ast, aggregate_select. rewrite Ht. simpl.
  destruct (sel_expr_columns sel) as [|c1 [|c2 cs]]; simpl in Hl; [lia|lia|]. reflexivity.
Qed.

(** a SQL AST with a HAVING section always has a GROUP BY section:
    [construct_sql_ast] raises [TranslationError] when there are
    [having_conditions] and no grouping monad. *)
Theorem having_requires_group_by sch sa fuel t sel opt range dist aggr st ast st' :
  construct_sql_ast sch sa fuel t sel opt range dist aggr st = Ok (ast, st') →
  t_having t ≠ [] → ∃ m ms, sel_groupby sel = Some (m :: ms).
Proof.
  intros H Hh. unfold construct_sql_ast in H.
  apply stm_bind_Ok_inv in H as ([sel_ast tr] & st1 & _ & H).
  apply stm_bind_Ok_inv in H as (s & st2 & _ & H).
  apply stm_bind_Ok_inv in H as (gb & st3 & Hgb & H).
  apply stm_bind_Ok_inv in H as (hv & st4 & Hhv & _).
  rewrite bool_decide_false in Hhv by done.
  destruct (sel_groupby sel) as [[|m ms]|]; [| by eauto |];
    injection Hgb as <- _; rewrite bool_decide_true in Hhv by done; discriminate.
Qed.

(** a query whose selector and conditions never read the loop
    variable, such as [1 for s in Student], raises [IndexError] in
    [__init__]: a root table reference is added to FROM only by its first
    [make_join], so [subquery.from_ast[1]] (line 325) does not exist. *)
Theorem const_query_index_error (z : Z) :
  translator_init model1_schema false 10 demo_vartypes [demo_qual []] (PConst (SInt z)) None false None
    empty_store = Err IndexError.
Proof. vm_compute. reflexivity. Qed.

Example string_not_in_is_in_witness :
  is_string_monad (fm_monad (fm_fresh (MParam TUnicode (SStr "x")))) = true ∧
  compare_fm model1_schema false 10 "not in" (fm_fresh (MConst TUnicode (SStr "a")))
    (fm_fresh (MParam TUnicode (SStr "x")))
  = compare_fm model1_schema false 10 "in" (fm_fresh (MConst TUnicode (SStr "a")))
    (fm_fresh (MParam TUnicode (SStr "x"))).
Proof.
  assert (H : is_string_monad (fm_monad (fm_fresh (MParam TUnicode (SStr "x")))) = true) by reflexivity.
  split; [exact H | exact (string_not_in_is_in _ _ _ _ _ H)].
Defined.

Example count_tuple_assertion_witness :
  let sel := mkSelection None (TTuple [TUnicode; TUnicode])
               [column (Some "s") "first_name"; column (Some "s") "last_name"] None in
  sel_expr_type sel = TTuple [TUnicode; TUnicode] ∧ 2 ≤ length (sel_expr_columns sel) ∧
  construct_sql_ast model1_schema false 10 (ts_tr demo_tstate) sel false None None (Some "COUNT")
    (ts_store demo_tstate) = Err AssertionError.
Proof.
  intros sel. assert (H1 : sel_expr_type sel = TTuple [TUnicode; TUnicode]) by reflexivity.
  assert (H2 : 2 ≤ length (sel_expr_columns sel)) by (simpl; lia).
  split_and!; [exact H1 | exact H2 | exact (count_tuple_assertion _ _ _ _ _ _ _ _ _ _ H1 H2)].
Defined.

Example having_requires_group_by_witness :
  let t := t_set_having [node "GT" [node "COUNT" [SStr "ALL"]; value (SInt 1)]] (ts_tr demo_tstate) in
  let sel := mkSelection None TUnicode [column (Some "s") "last_name"]
               (Some [fm_fresh (MConst TUnicode (SStr "x"))]) in
  ∃ ast st', construct_sql_ast model1_schema false 10 t sel false None None None (ts_store demo_tstate)
               = Ok (ast, st') ∧ t_having t ≠ [] ∧ ∃ m ms, sel_groupby sel = Some (m :: ms).
Proof.
  intros t sel. eexists _, _.
  assert (H1 : construct_sql_ast model1_schema false 10 t sel false None None None (ts_store demo_tstate)
               = Ok (_, _)) by (vm_compute; reflexivity).
  assert (H2 : t_having t ≠ []) by discriminate.
  split_and!; [exact H1 | exact H2 | exact (having_requires_group_by _ _ _ _ _ _ _ _ _ _ _ _ H1 H2)].
Defined.
