(* ===== verification/Urllib.v ===== *)
(** * Urllib: the string functions of the Python 2 library that the web
    dispatcher ([src/pony/web.py]) calls.

    None of them is code of the repository: [str.split], [os.path.splitext]
    ([posixpath._splitext]), [urllib.quote], [urllib.quote_plus],
    [urllib.unquote] and [cgi.parse_qsl] ([urlparse.parse_qsl]) are
    written here after the Python 2.7 library, character by character, so
    that the dispatcher's definitions in [Web] can call them.  The file
    proves the round trips the dispatcher relies on: [unquote] undoes
    [quote] whatever the string, [str.split] undoes ['/'.join], and
    [parse_qsl] reads back a query string built with [quote_plus] except
    for its blank values. *)
From S2P Require Import Prelude.


(** ** Splitting and joining *)

(** [s.split(sep)] for a one-character separator: never empty. *)
Fixpoint py_split (sep : ascii) (s : string) : list string :=
  match s with
  | EmptyString => [EmptyString]
  | String c r =>
      let rest := py_split sep r in
      if decide (c = sep) then EmptyString :: rest
      else match rest with
           | w :: ws => String c w :: ws
           | [] => [String c EmptyString]
           end
  end.

(** [s.split(sep, 1)] where the caller has tested [sep in s]: [None] when
    [sep] does not occur. *)
Fixpoint split_once (sep : ascii) (s : string) : option (string * string) :=
  match s with
  | EmptyString => None
  | String c r =>
      if decide (c = sep) then Some (EmptyString, r)
      else match split_once sep r with
           | Some (a, b) => Some (String c a, b)
           | None => None
           end
  end.

(** [s.rfind(c)], [None] for Python's [-1]. *)
Fixpoint rfind (c : ascii) (s : string) : option nat :=
  match s with
  | EmptyString => None
  | String c' r =>
      match rfind c r with
      | Some i => Some (S i)
      | None => if decide (c' = c) then Some 0 else None
      end
  end.

Definition has_non_dot (s : string) : bool :=
  existsb (λ c, negb (bool_decide (c = "."%char))) (String.list_ascii_of_string s).

(** [posixpath._splitext(p, '/', None, '.')]: the extension starts at the
    last dot of the last path component, unless only dots precede it in
    that component (the loop over [filenameIndex]). *)
Definition splitext (p : string) : string * string :=
  match rfind "." p with
  | None => (p, EmptyString)
  | Some dot =>
      let fname := match rfind "/" p with Some sep => S sep | None => 0 end in
      if (fname <=? dot)%nat && has_non_dot (String.substring fname (dot - fname) p)
      then (String.substring 0 dot p, String.substring dot (String.length p - dot) p)
      else (p, EmptyString)
  end.

(** ** Percent encoding *)

(** The keys of [urllib._hextochr]: two characters of
    ['0123456789ABCDEFabcdef']. *)
Definition hex_value (c : ascii) : option nat :=
  let n := nat_of_ascii c in
  if (48 <=? n) && (n <=? 57) then Some (n - 48)
  else if (65 <=? n) && (n <=? 70) then Some (n - 55)
  else if (97 <=? n) && (n <=? 102) then Some (n - 87)
  else None.

(** [urllib.unquote]: every ['%'] followed by two hexadecimal digits is
    decoded, any other ['%'] is kept. *)
Fixpoint unquote (s : string) : string :=
  match s with
  | EmptyString => EmptyString
  | String c r =>
      if decide (c = "%"%char) then
        match r with
        | String h1 (String h2 r') =>
            match hex_value h1, hex_value h2 with
            | Some a, Some b => String (ascii_of_nat (16 * a + b)) (unquote r')
            | _, _ => String c (unquote r)
            end
        | _ => String c (unquote r)
        end
      else String c (unquote r)
  end.

(** [urllib.always_safe]: letters, digits and ['_.-']. *)
Definition is_always_safe (c : ascii) : bool :=
  is_ident_char c || bool_decide (c = "."%char) || bool_decide (c = "-"%char).

(** ['%02X' % i]: an upper-case hexadecimal digit. *)
Definition hex_digit (n : nat) : ascii :=
  ascii_of_nat (if n <? 10 then 48 + n else 55 + n).

(** [urllib._safe_map] updated with the [safe] characters. *)
Definition quote_char (safe : list ascii) (c : ascii) : string :=
  if is_always_safe c || bool_decide (c ∈ safe) then String c EmptyString
  else String "%" (String (hex_digit (nat_of_ascii c / 16))
                          (String (hex_digit (nat_of_ascii c mod 16)) EmptyString)).

(** [urllib.quote(s, safe)]; its fast path [if not s.rstrip(safe): return s]
    returns what the character map returns on such a string. *)
Fixpoint quote (safe : list ascii) (s : string) : string :=
  match s with
  | EmptyString => EmptyString
  | String c r => quote_char safe c +:+ quote safe r
  end.

(** [s.replace(a, b)] for single characters. *)
Fixpoint replace_char (a b : ascii) (s : string) : string :=
  match s with
  | EmptyString => EmptyString
  | String c r => String (if decide (c = a) then b else c) (replace_char a b r)
  end.

(** [urllib.quote_plus(s, safe='')]. *)
Definition quote_plus (s : string) : string :=
  if bool_decide (" "%char ∈ String.list_ascii_of_string s)
  then replace_char " " "+" (quote [" "%char] s)
  else quote [] s.

(** One field of [urlparse.parse_qsl]: [None] when the field is skipped. *)
Definition parse_qsl_field (keep_blank strict : bool) (name_value : string)
    : result (option (string * string)) :=
  if bool_decide (name_value = EmptyString) && negb strict then mret None
  else
    nv ← match split_once "=" name_value with
         | Some nv => mret (Some nv)
         | None =>
             if strict then Err (ValueError ("bad query field: " +:+ name_value))
             else if keep_blank then mret (Some (name_value, EmptyString))
             else mret None
         end;
    match nv with
    | None => mret None
    | Some (n, v) =>
        if bool_decide (v ≠ EmptyString) || keep_blank
        then mret (Some (unquote (replace_char "+" " " n), unquote (replace_char "+" " " v)))
        else mret None
    end.

(** [urlparse.parse_qsl(qs, keep_blank_values, strict_parsing)]: the
    fields are separated by ['&'] or [';']. *)
Definition parse_qsl (keep_blank strict : bool) (qs : string) : result (list (string * string)) :=
  let pairs := mjoin (map (py_split ";") (py_split "&" qs)) in
  fields ← mapM (parse_qsl_field keep_blank strict) pairs;
  mret (omap id fields).

(** [dict(pairs)]: later pairs overwrite earlier ones. *)
Definition py_dict {V} (pairs : list (string * V)) : gmap string V :=
  foldl (λ m kv, <[kv.1 := kv.2]> m) ∅ pairs.

(** ** Lemmas on strings *)

Abbreviation str_chars := String.list_ascii_of_string.

Lemma str_app_cons c s t : String c s +:+ t = String c (s +:+ t).
Proof. reflexivity. Qed.

Lemma str_app_nil s : s +:+ EmptyString = s.
Proof. induction s as [|c s IH]; [done|]. exact (f_equal (String c) IH). Qed.

Lemma str_app_assoc s1 s2 s3 : (s1 +:+ s2) +:+ s3 = s1 +:+ (s2 +:+ s3).
Proof. induction s1 as [|c s1 IH]; [done|]. exact (f_equal (String c) IH). Qed.

Lemma str_chars_app s1 s2 : str_chars (s1 +:+ s2) = str_chars s1 ++ str_chars s2.
Proof. induction s1 as [|c s1 IH]; [done|]. exact (f_equal (cons c) IH). Qed.

#[export] Hint Rewrite str_app_nil str_app_assoc str_chars_app : pony_rw.

Lemma ascii_nat_inv c : ascii_of_nat (nat_of_ascii c) = c.
Proof. apply Ascii.ascii_nat_embedding. Qed.

Lemma nat_of_ascii_lt c : nat_of_ascii c < 256.
Proof. apply Ascii.nat_ascii_bounded. Qed.

Lemma hex_value_digit k : k < 16 → hex_value (hex_digit k) = Some k.
Proof. intros Hk. do 16 (destruct k as [|k]; [reflexivity|]). lia. Qed.

Lemma hex_digit_safe k : k < 16 → is_always_safe (hex_digit k) = true.
Proof. intros Hk. do 16 (destruct k as [|k]; [reflexivity|]). lia. Qed.

(** The characters of [quote safe s]: ['%'], the hexadecimal digits of
    an escape, and the characters of [s] that are safe. *)
Lemma quote_chars safe s x :
  x ∈ str_chars (quote safe s) →
  x = "%"%char ∨ (∃ k, k < 16 ∧ x = hex_digit k) ∨
  (x ∈ str_chars s ∧ (is_always_safe x || bool_decide (x ∈ safe)) = true).
Proof.
  induction s as [|c r IH]; simpl; [set_solver|].
  rewrite str_chars_app, elem_of_app. unfold quote_char.
  destruct (is_always_safe c || bool_decide (c ∈ safe)) eqn:E; simpl.
  - intros [Hx|Hx]; [rewrite list_elem_of_singleton in Hx; subst; set_solver|].
    destruct (IH Hx) as [?|[?|[??]]]; [by left|by right; left|right; right; set_solver].
  - rewrite !elem_of_cons, elem_of_nil.
    assert (nat_of_ascii c / 16 < 16 ∧ nat_of_ascii c `mod` 16 < 16)
      by (pose proof (nat_of_ascii_lt c); split; [apply Nat.Div0.div_lt_upper_bound|apply Nat.mod_upper_bound]; lia).
    intros [[->|[->|[->|[]]]]|Hx]; [by left|right; left; eexists; split; [|reflexivity]; tauto..|].
    destruct (IH Hx) as [?|[?|[??]]]; [by left|by right; left|right; right; set_solver].
Qed.

Lemma unquote_cons c s : c ≠ "%"%char → unquote (String c s) = String c (unquote s).
Proof. intros Hc. simpl. by rewrite decide_False. Qed.

Lemma unquote_quote_char safe c s :
  "%"%char ∉ safe → unquote (quote_char safe c +:+ s) = String c (unquote s).
Proof.
  intros Hsafe. unfold quote_char.
  destruct (is_always_safe c || bool_decide (c ∈ safe)) eqn:E.
  - rewrite str_app_cons. apply unquote_cons. intros ->. simpl in E. by rewrite bool_decide_false in E.
  - pose proof (nat_of_ascii_lt c).
    assert (Hc : ascii_of_nat (16 * (nat_of_ascii c / 16) + nat_of_ascii c `mod` 16) = c)
      by (rewrite <-Nat.div_mod_eq; apply ascii_nat_inv).
    assert (Ha : nat_of_ascii c / 16 < 16) by (apply Nat.Div0.div_lt_upper_bound; lia).
    assert (Hb : nat_of_ascii c `mod` 16 < 16) by (apply Nat.mod_upper_bound; lia).
    revert Hc Ha Hb. generalize (nat_of_ascii c / 16) (nat_of_ascii c `mod` 16).
    intros a b Hc Ha Hb.
    rewrite !str_app_cons. cbn -[Nat.mul Nat.add hex_value hex_digit].
    by rewrite !hex_value_digit, Hc.
Qed.

(** [unquote] undoes [quote] whenever ['%'] is not declared safe. *)
Lemma unquote_quote safe s : "%"%char ∉ safe → unquote (quote safe s) = s.
Proof.
  intros Hsafe. induction s as [|c r IH]; [done|].
  simpl. by rewrite unquote_quote_char, IH.
Qed.

Lemma quote_no_char safe s x :
  x ≠ "%"%char → is_always_safe x = false → x ∉ safe → x ∉ str_chars (quote safe s).
Proof.
  intros H1 H3 H4 Hx. destruct (quote_chars safe s x Hx) as [?|[(k&?&->)|[_ Hs]]].
  - done.
  - by rewrite hex_digit_safe in H3.
  - rewrite H3, bool_decide_false in Hs by done. discriminate.
Qed.

(** ** Splitting what was joined *)

Lemma py_split_nosep sep s : sep ∉ str_chars s → py_split sep s = [s].
Proof.
  induction s as [|c r IH]; [done|]. simpl. rewrite not_elem_of_cons.
  intros [Hc Hr]. rewrite decide_False by done. by rewrite IH.
Qed.

Lemma py_split_app sep s t :
  sep ∉ str_chars s → py_split sep (s +:+ String sep t) = s :: py_split sep t.
Proof.
  induction s as [|c r IH]; simpl.
  - intros _. by rewrite decide_True.
  - rewrite not_elem_of_cons. intros [Hc Hr]. rewrite decide_False by done. by rewrite IH.
Qed.

(** [s.split(sep)] undoes [sep.join(l)] when no item contains [sep]. *)
Lemma py_split_concat sep l :
  l ≠ [] → Forall (λ w, sep ∉ str_chars w) l →
  py_split sep (String.concat (String sep EmptyString) l) = l.
Proof.
  induction l as [|w l IH]; [done|]. intros _ Hl. apply Forall_cons in Hl as [Hw Hl].
  destruct l as [|w' l].
  - by apply py_split_nosep.
  - change (py_split sep (w +:+ String sep (String.concat (String sep EmptyString) (w' :: l))) = w :: w' :: l).
    rewrite py_split_app by done. by rewrite IH.
Qed.

Lemma split_once_app sep s t :
  sep ∉ str_chars s → split_once sep (s +:+ String sep t) = Some (s, t).
Proof.
  induction s as [|c r IH]; simpl.
  - intros _. by rewrite decide_True.
  - rewrite not_elem_of_cons. intros [Hc Hr]. rewrite decide_False by done. by rewrite IH.
Qed.

Lemma split_once_nosep sep s : sep ∉ str_chars s → split_once sep s = None.
Proof.
  induction s as [|c r IH]; [done|]. simpl. rewrite not_elem_of_cons.
  intros [Hc Hr]. rewrite decide_False by done. by rewrite IH.
Qed.

(** ** Replacing characters *)

Lemma replace_char_chars a b s x : x ∈ str_chars (replace_char a b s) → x = b ∨ x ∈ str_chars s.
Proof.
  induction s as [|c r IH]; simpl; [set_solver|].
  rewrite !elem_of_cons. case_decide; naive_solver.
Qed.

Lemma replace_char_id a b s : a ∉ str_chars s → replace_char a b s = s.
Proof.
  induction s as [|c r IH]; [done|]. simpl. rewrite not_elem_of_cons.
  intros [Hc Hr]. rewrite decide_False by done. by rewrite IH.
Qed.

Lemma replace_char_back a b s : b ∉ str_chars s → replace_char b a (replace_char a b s) = s.
Proof.
  induction s as [|c r IH]; [done|]. simpl. rewrite not_elem_of_cons.
  intros [Hc Hr]. rewrite IH by done. f_equal. repeat case_decide; congruence.
Qed.

(** A character that [quote_plus] escapes never occurs in its result. *)
Lemma quote_plus_no_char s x :
  x ≠ "%"%char → x ≠ "+"%char → x ≠ " "%char → is_always_safe x = false →
  x ∉ str_chars (quote_plus s).
Proof.
  intros H1 H2 H3 H4. unfold quote_plus. case_bool_decide.
  - intros [?|?]%replace_char_chars; [done|]. revert H0. apply quote_no_char; set_solver.
  - apply quote_no_char; set_solver.
Qed.

Lemma quote_plus_nonempty s : quote_plus s = EmptyString ↔ s = EmptyString.
Proof.
  destruct s as [|c r]; [done|]. unfold quote_plus. split; [|done].
  case_bool_decide; simpl; unfold quote_char; by case_match.
Qed.

(** The query decoding of [parse_qsl] undoes [quote_plus]. *)
Lemma unquote_plus_quote_plus s : unquote (replace_char "+" " " (quote_plus s)) = s.
Proof.
  unfold quote_plus. case_bool_decide.
  - rewrite replace_char_back by (apply quote_no_char; [done|done|set_solver]).
    apply unquote_quote. set_solver.
  - rewrite replace_char_id by (apply quote_no_char; [done|done|set_solver]).
    apply unquote_quote. set_solver.
Qed.

Lemma quote_plus_no_sep s x :
  x ∈ ["&"; ";"; "="; "/"; "?"]%char → x ∉ str_chars (quote_plus s).
Proof. intros Hx. apply quote_plus_no_char; set_solver. Qed.

(** A field [name=value] written with [quote_plus] is read back by
    [parse_qsl] without [keep_blank_values], except a blank value. *)
Lemma parse_qsl_field_quoted n v :
  parse_qsl_field false false (quote_plus n +:+ String "=" (quote_plus v)) =
  Ok (if bool_decide (v ≠ EmptyString) then Some (n, v) else None).
Proof.
  unfold parse_qsl_field. rewrite bool_decide_false.
  2:{ by destruct (quote_plus n). }
  rewrite split_once_app by (apply quote_plus_no_sep; set_solver). simpl.
  rewrite orb_false_r. rewrite !unquote_plus_quote_plus.
  assert (bool_decide (quote_plus v ≠ EmptyString) = bool_decide (v ≠ EmptyString)) as ->.
  { apply bool_decide_ext. by rewrite quote_plus_nonempty. }
  by case_bool_decide.
Qed.

(** ** Positions in a string *)

Lemma str_length_app s t : String.length (s +:+ t) = String.length s + String.length t.
Proof. induction s as [|c s IH]; [done|]. exact (f_equal S IH). Qed.

Lemma substring_app_l s t : String.substring 0 (String.length s) (s +:+ t) = s.
Proof. induction s as [|c s IH]; [by destruct t|]. exact (f_equal (String c) IH). Qed.

Lemma substring_app_r s t n m :
  String.substring (String.length s + n) m (s +:+ t) = String.substring n m t.
Proof. induction s as [|c s IH]; [done|]. exact IH. Qed.

Lemma substring_all t : String.substring 0 (String.length t) t = t.
Proof. induction t as [|c t IH]; [done|]. exact (f_equal (String c) IH). Qed.

Lemma rfind_none c s : c ∉ str_chars s → rfind c s = None.
Proof.
  induction s as [|c' s IH]; [done|]. simpl. rewrite not_elem_of_cons. intros [Hc Hs].
  rewrite IH by done. by rewrite decide_False by congruence.
Qed.

Lemma rfind_app c s t :
  rfind c (s +:+ t) = match rfind c t with
                      | Some i => Some (String.length s + i)
                      | None => rfind c s
                      end.
Proof.
  induction s as [|c' s IH]; [change (EmptyString +:+ t) with t; simpl; by destruct (rfind c t)|].
  change (rfind c (String c' s +:+ t)) with
    (match rfind c (s +:+ t) with Some i => Some (S i) | None => if decide (c' = c) then Some 0 else None end).
  rewrite IH. by destruct (rfind c t).
Qed.

Lemma rfind_cons_last c s : c ∉ str_chars s → rfind c (String c s) = Some 0.
Proof. intros Hs. simpl. rewrite rfind_none by done. by rewrite decide_True. Qed.

Lemma has_non_dot_spec s : "."%char ∉ str_chars s → has_non_dot s = bool_decide (s ≠ EmptyString).
Proof.
  destruct s as [|c s]; [done|]. intros Hs. rewrite bool_decide_true by done.
  apply existsb_exists. exists c. split; [by left|].
  apply negb_true_iff, bool_decide_eq_false. intros ->. apply Hs. by left.
Qed.

Lemma rfind_lt c s d : rfind c s = Some d → d < String.length s.
Proof.
  revert d. induction s as [|c' s IH]; intros d Hd; [done|]. simpl in Hd.
  destruct (rfind c s) as [d'|]; [injection Hd as <-; specialize (IH d' eq_refl); simpl; lia|].
  case_decide; [injection Hd as <-; simpl; lia|done].
Qed.

Lemma rfind_sep_last c pre last :
  c ∉ str_chars last → rfind c (pre +:+ String c last) = Some (String.length pre).
Proof. intros H. rewrite rfind_app, rfind_cons_last by done. by rewrite Nat.add_0_r. Qed.

Lemma rfind_skip c c' pre last :
  c ≠ c' → c ∉ str_chars last → rfind c (pre +:+ String c' last) = rfind c pre.
Proof. intros Hc H. rewrite rfind_app. simpl. rewrite rfind_none by done. by rewrite decide_False. Qed.

(** [splitext] on a path whose last component holds no dot: the
    extension is the suffix [ext] when it is a dot followed by a
    dot-free, slash-free text and the last component is not empty, and
    there is none when [ext] is empty. *)
Lemma splitext_app pre last ext :
  "/"%char ∉ str_chars last → "."%char ∉ str_chars last →
  (ext = EmptyString ∨
   ∃ e', ext = String "." e' ∧ "."%char ∉ str_chars e' ∧ "/"%char ∉ str_chars e' ∧ last ≠ EmptyString) →
  splitext ((pre +:+ String "/" last) +:+ ext) = (pre +:+ String "/" last, ext).
Proof.
  intros Hsl Hdl [->|(e' & -> & Hde & Hse & Hne)]; unfold splitext.
  - rewrite str_app_nil, rfind_skip by done.
    destruct (rfind "." pre) as [d|] eqn:Hd; [|done].
    rewrite rfind_sep_last by done. apply rfind_lt in Hd.
    by rewrite (proj2 (Nat.leb_gt _ _)) by lia.
  - set (p := pre +:+ String "/" last).
    assert (Hp : String.length p = String.length pre + S (String.length last))
      by (unfold p; rewrite str_length_app; done).
    rewrite rfind_app, rfind_cons_last by done. rewrite Nat.add_0_r.
    rewrite rfind_app, (rfind_none "/" (String "." e')) by set_solver.
    unfold p. rewrite rfind_sep_last by done. fold p.
    rewrite (proj2 (Nat.leb_le _ _)) by lia. simpl andb.
    replace (String.length p - S (String.length pre)) with (String.length last) by lia.
    assert (Hsub : String.substring (S (String.length pre)) (String.length last) (p +:+ String "." e') = last).
    { unfold p. rewrite str_app_assoc. replace (S (String.length pre)) with (String.length pre + 1) by lia.
      rewrite substring_app_r. exact (substring_app_l last (String "." e')). }
    rewrite Hsub, has_non_dot_spec, bool_decide_true by done.
    rewrite substring_app_l. rewrite str_length_app.
    replace (String.length p + String.length (String "." e') - String.length p)
      with (String.length (String "." e')) by lia.
    rewrite <-(Nat.add_0_r (String.length p)).
    rewrite substring_app_r. by rewrite substring_all.
Qed.

(** ** Joined strings *)

Lemma concat_chars sep l x :
  x ∈ str_chars (String.concat sep l) → x ∈ str_chars sep ∨ ∃ w, w ∈ l ∧ x ∈ str_chars w.
Proof.
  induction l as [|w l IH]; [simpl; set_solver|]. destruct l as [|w' l].
  - intros Hx. right. exists w. split; [by left|done].
  - change (String.concat sep (w :: w' :: l)) with (w +:+ sep +:+ String.concat sep (w' :: l)).
    rewrite !str_chars_app, !elem_of_app. intros [Hx|[Hx|Hx]].
    + right. exists w. split; [by left|done].
    + by left.
    + destruct (IH Hx) as [?|(w0 & ? & ?)]; [by left|right]. exists w0. split; [by right|done].
Qed.

Lemma concat_snoc sep l x :
  l ≠ [] → String.concat sep (l ++ [x]) = String.concat sep l +:+ sep +:+ x.
Proof.
  induction l as [|w l IH]; [done|]. intros _. destruct l as [|w' l]; [done|].
  change (String.concat sep ((w :: w' :: l) ++ [x])) with
    (w +:+ sep +:+ String.concat sep ((w' :: l) ++ [x])).
  rewrite IH by done. change (String.concat sep (w :: w' :: l)) with (w +:+ sep +:+ String.concat sep (w' :: l)).
  by rewrite !str_app_assoc.
Qed.

Lemma quote_nonempty safe s : quote safe s = EmptyString → s = EmptyString.
Proof. destruct s as [|c s]; [done|]. simpl. unfold quote_char. by case_match. Qed.
