(* ===== verification/Web.v ===== *)
(** * Web: the URL dispatcher of [src/pony/web.py].

    [@http(url)] turns a URL pattern into an [HttpInfo]: the path
    components and the query values are parsed by [re_component], each
    parameter ([$1], [$name]) is bound to an argument of the decorated
    function by [adjust], [check] makes sure every argument without a
    default value is bound, and [register] files the info in
    [http_registry], a trie of dictionaries keyed by the literal path
    components ([None] for a parameter).  [url(func, *args)] builds a URL
    from argument values with [build_url]; [get_http_handlers(url)] walks
    the trie back and rebinds the arguments; [http_remove] and
    [http_clear] take handlers out of the registry.

    The registry and the [http] lists of the functions are the state
    [web]; an [HttpInfo] object is a record with a number standing for
    its identity.  A function is its name and its [argspec], the four
    values [getargspec] computes.  The binding of the arguments of [url()]
    by [dummy_func] is not modelled: [build_url] receives the bound
    positional values and the keyword values, converted to strings. *)
From S2P Require Import Prelude Urllib.
From stdpp Require Import sorting.

(** ** Data *)

(** The [x] of a parameter: an index into the positional arguments (an
    [int]) or a keyword name (a [str]). *)
Inductive pref := PIdx (i : Z) | PKey (name : string).

(** An item [(is_param, x)] of [parsed_path] and [parsed_query]. *)
Inductive pcomp := PLit (s : string) | PParam (x : pref).

(** [func.argspec]: [(names, argsname, keyargsname, defaults)], the
    defaults converted to UTF-8 strings or [None]. *)
Record argspec := ArgSpec {
  as_names : list string;
  as_argsname : option string;
  as_keyargsname : option string;
  as_defaults : list (option string)
}.

(** A decorated function: its [__name__] and its [argspec]. *)
Record func := Func { f_name : string; f_argspec : argspec }.

(** The [ext] argument of [@http]: [None], a string or a list. *)
Inductive ext_arg := ExtNone | ExtOne (e : string) | ExtMany (es : list string).

(** An [HttpInfo] object; [hi_id] is its identity. *)
Record http_info := HttpInfo {
  hi_id : nat;
  hi_func : func;
  hi_url : string;
  hi_ext : list string;
  hi_path : list pcomp;
  hi_query : list (string * pcomp)
}.

(** [http_registry]: a dictionary from a literal component ([Some]) or
    [None] to a sub-registry, and the list of infos whose path ends
    here. *)
Inductive registry := Registry (children : list (option string * registry)) (handlers : list http_info).

Definition reg_children (r : registry) := match r with Registry ch _ => ch end.
Definition reg_handlers (r : registry) := match r with Registry _ hs => hs end.
Definition empty_registry := Registry [] [].

(** The global state: the registry, the [http] attribute of every
    decorated function (absent before its first registration), and the
    next object identity. *)
Record web := Web {
  w_registry : registry;
  w_http : gmap string (list http_info);
  w_next : nat
}.

(** The sets [self.args] and [self.keyargs] filled by [adjust]. *)
Record adj := Adj { adj_args : gset Z; adj_keyargs : gset string }.

(** [dict.get(key)] on an association list. *)
Fixpoint dict_get {K V} `{EqDecision K} (k : K) (l : list (K * V)) : option V :=
  match l with
  | [] => None
  | (k', v) :: l' => if decide (k = k') then Some v else dict_get k l'
  end.

(** ** Parsing a URL pattern *)

Definition is_digit (c : ascii) : bool :=
  let n := nat_of_ascii c in (48 <=? n) && (n <=? 57).

(** [$] at the end of a pattern also matches before a final newline. *)
Fixpoint strip_final_newline (s : string) : string :=
  match s with
  | EmptyString => EmptyString
  | String c EmptyString => if decide (c = "010"%char) then EmptyString else String c EmptyString
  | String c r => String c (strip_final_newline r)
  end.

(** The third alternative [(?:[$][$] | [^$])*$]: every ['$'] is doubled. *)
Fixpoint dollars_paired (s : string) : bool :=
  match s with
  | EmptyString => true
  | String c r =>
      if decide (c = "$"%char) then
        match r with
        | String c' r' => bool_decide (c' = "$"%char) && dollars_paired r'
        | EmptyString => false
        end
      else dollars_paired r
  end.

(** [s.replace('$$', '$')]. *)
Fixpoint replace_dd (s : string) : string :=
  match s with
  | EmptyString => EmptyString
  | String c r =>
      match r with
      | String c' r' =>
          if decide (c = "$"%char ∧ c' = "$"%char) then String "$" (replace_dd r')
          else String c (replace_dd r)
      | EmptyString => String c EmptyString
      end
  end.

(** The group [re_component.match] sets: 1 (a parameter number), 2 (a
    parameter name) or 3 (a path component). *)
Inductive component_match := GNum (digits : string) | GName (ident : string) | GPath (text : string).

Definition re_component (s : string) : option component_match :=
  let alt3 := if dollars_paired s then Some (GPath s) else None in
  match s with
  | String c r =>
      if decide (c = "$"%char) then
        let r' := strip_final_newline r in
        if bool_decide (r' ≠ EmptyString) && forallb is_digit (str_chars r') then Some (GNum r')
        else if is_ident r' then Some (GName r')
        else alt3
      else alt3
  | EmptyString => alt3
  end.

(** [int(digits)]. *)
Definition digits_value (s : string) : Z :=
  foldl (λ acc c, 10 * acc + Z.of_nat (nat_of_ascii c - 48))%Z 0%Z (str_chars s).

Definition pref_str (x : pref) : string :=
  match x with PIdx i => pretty i | PKey k => k end.

Section Parse.
Context (spec : argspec).

(** [HttpInfo.adjust]: bind a parameter to an argument. *)
Definition adjust (x : pref) : stm adj pref :=
  a ← sget;
  match x with
  | PIdx i =>
      if bool_decide (i < 0)%Z ||
         (bool_decide (Z.of_nat (length (as_names spec)) ≤ i)%Z && bool_decide (as_argsname spec = None))
      then sthrow (TypeError ("Invalid parameter index: " +:+ pretty (i + 1)%Z))
      else if bool_decide (i ∈ adj_args a)
      then sthrow (TypeError ("Parameter index " +:+ pretty (i + 1)%Z +:+ " already in use"))
      else sput (Adj ({[i]} ∪ adj_args a) (adj_keyargs a));; mret (PIdx i)
  | PKey k =>
      match list_find (λ n, n = k) (as_names spec) with
      | None =>
          if bool_decide (as_keyargsname spec = None) || bool_decide (k ∈ adj_keyargs a)
          then sthrow (TypeError ("Invalid parameter name: " +:+ k))
          else sput (Adj (adj_args a) ({[k]} ∪ adj_keyargs a));; mret (PKey k)
      | Some (i, _) =>
          if bool_decide (Z.of_nat i ∈ adj_args a)
          then sthrow (TypeError ("Parameter name " +:+ k +:+ " already in use"))
          else sput (Adj ({[Z.of_nat i]} ∪ adj_args a) (adj_keyargs a));; mret (PIdx (Z.of_nat i))
      end
  end.

(** [HttpInfo.parse_component]. *)
Definition parse_component (component : string) : stm adj pcomp :=
  match re_component component with
  | None => sthrow (ValueError ("Invalid url component: " +:+ component))
  | Some (GNum d) => x ← adjust (PIdx (digits_value d - 1)%Z); mret (PParam x)
  | Some (GName n) => x ← adjust (PKey n); mret (PParam x)
  | Some (GPath t) => mret (PLit (replace_dd t))
  end.

(** [if not components[0]: components = components[1:]]. *)
Definition drop_empty_head (cs : list string) : list string :=
  match cs with EmptyString :: cs' => cs' | _ => cs end.

(** [HttpInfo.parse_path]. *)
Definition parse_path (path : string) : stm adj (list pcomp) :=
  mapM parse_component (map unquote (drop_empty_head (py_split "/" path))).

(** [HttpInfo.parse_query]: strict parsing, blank values kept. *)
Definition parse_query (query : option string) : stm adj (list (string * pcomp)) :=
  match query with
  | None => mret []
  | Some q =>
      params ← slift (parse_qsl true true q);
      mapM (λ nv, x ← parse_component nv.2; mret (nv.1, x)) params
  end.

(** The first loop of [HttpInfo.check]: every argument without a
    default is bound. *)
Fixpoint check_required (i : nat) (names : list string) (args : gset Z) : result unit :=
  match names with
  | [] => mret ()
  | name :: names' =>
      if bool_decide (Z.of_nat i ∈ args) then check_required (S i) names' args
      else Err (TypeError ("Undefined path parameter: " +:+ name))
  end.

Definition set_max (s : gset Z) : Z :=
  match elements s with [] => 0%Z | x :: xs => foldr Z.max x xs end.

(** [HttpInfo.check]: the required arguments, then the [*args]
    positions from [len(names)] up to the largest one used. *)
Definition check : stm adj unit :=
  a ← sget;
  let names := as_names spec in
  slift (check_required 0 (take (length names - length (as_defaults spec)) names) (adj_args a));;
  if bool_decide (adj_args a = ∅) then mret ()
  else
    slift (mapM (λ i, if bool_decide (i ∈ adj_args a) then mret ()
                      else Err (TypeError ("Undefined path parameter: " +:+ pretty (i + 1)%Z)))
                (seqZ (Z.of_nat (length names)) (set_max (adj_args a) - Z.of_nat (length names))));;
    mret ().
End Parse.

(** ** Registration *)

Definition comp_key (c : pcomp) : option string :=
  match c with PLit s => Some s | PParam _ => None end.

(** [dict.setdefault(key, ({}, []))] followed by an update of the
    sub-registry; a new key goes last. *)
Fixpoint setdefault_update (key : option string) (f : registry → registry)
    (ch : list (option string * registry)) : list (option string * registry) :=
  match ch with
  | [] => [(key, f empty_registry)]
  | (k, sub) :: ch' =>
      if decide (key = k) then (k, f sub) :: ch' else (k, sub) :: setdefault_update key f ch'
  end.

(** The loop of [HttpInfo.register]: walk down the keys of the path and
    append the info to the list found there. *)
Fixpoint reg_insert (keys : list (option string)) (info : http_info) (r : registry) : registry :=
  match keys with
  | [] => Registry (reg_children r) (reg_handlers r ++ [info])
  | k :: keys' => Registry (setdefault_update k (reg_insert keys' info) (reg_children r)) (reg_handlers r)
  end.

Definition info_keys (info : http_info) : list (option string) := map comp_key (hi_path info).

Definition fname (info : http_info) : string := f_name (hi_func info).

(** [HttpInfo.register]: [list.append(self)] in the registry and
    [func.http.insert(0, self)]. *)
Definition register (info : http_info) (w : web) : web :=
  Web (reg_insert (info_keys info) info (w_registry w))
      (<[fname info := info :: default [] (w_http w !! fname info)]> (w_http w))
      (w_next w).

Definition is_ascii (s : string) : bool :=
  forallb (λ c, nat_of_ascii c <? 128) (str_chars s).

Definition ext_list (e : ext_arg) : list string :=
  match e with ExtNone => [] | ExtOne e => [e] | ExtMany es => es end.

(** The parsing part of [HttpInfo.__init__], from empty [args] and
    [keyargs]. *)
Definition parse_url (spec : argspec) (path : string) (query : option string)
    : result (list pcomp * list (string * pcomp)) :=
  r ← (pp ← parse_path spec path; pq ← parse_query spec query; check spec;; mret (pp, pq))
        (Adj ∅ ∅);
  mret r.1.

(** [HttpInfo.__init__] for a [str] url: split off the query and the
    extension, collect the extensions, parse, check and register. *)
Definition http_info_new (f : func) (url : string) (ext : ext_arg) : stm web http_info :=
  (if is_ascii url then mret ()
   else sthrow (ValueError "Url string contains non-ascii symbols. Such urls must be in unicode."));;
  let '(path, query) := match split_once "?" url with
                        | Some (p, q) => (p, Some q)
                        | None => (url, None)
                        end in
  let '(path, e0) := splitext path in
  let exts := (if bool_decide (e0 = EmptyString) then [] else [e0]) ++ ext_list ext in
  let exts := match exts with [] => [EmptyString] | _ => exts end in
  '(pp, pq) ← slift (parse_url (f_argspec f) path query);
  w ← sget;
  let info := HttpInfo (w_next w) f url exts pp pq in
  sput (register info (Web (w_registry w) (w_http w) (S (w_next w))));;
  mret info.

(** The decorator [@http(url, ext)]: the url defaults to the function's
    name. *)
Definition http (f : func) (url : option string) (ext : ext_arg) : stm web http_info :=
  http_info_new f (default (f_name f) url) ext.

(** ** Building a URL *)

(** [urllib.quote(component, safe=':@&=+$,')]. *)
Definition path_safe : list ascii := [":"; "@"; "&"; "="; "+"; "$"; ","]%char.

(** The query string: ["%s=%s" % (quote_plus(name), quote_plus(value))]
    joined by ['&']. *)
Definition format_query (q : list (string * string)) : string :=
  String.concat "&" ((λ nv, quote_plus nv.1 +:+ "=" +:+ quote_plus nv.2) <$> q).

(** The sets [used_indexparams] and [used_keyparams]. *)
Definition used := (gset Z * gset string)%type.

Section Build.
Context (info : http_info) (indexparams : list (option string))
        (keyparams : gmap string (option string)).

Definition b_names := as_names (f_argspec (hi_func info)).
Definition b_defaults := as_defaults (f_argspec (hi_func info)).
Definition b_offset : Z := (Z.of_nat (length b_names) - Z.of_nat (length b_defaults))%Z.

(** The local function [build_param]: the value of a parameter and
    whether it equals the argument's default. *)
Definition build_param (x : pref) : stm used (bool * option string) :=
  match x with
  | PIdx i =>
      value ← slift (py_getitem indexparams i);
      smodify (λ u, ({[i]} ∪ u.1, u.2));;
      let is_default :=
        bool_decide (b_offset ≤ i < Z.of_nat (length b_names))%Z &&
        bool_decide (b_defaults !! Z.to_nat (i - b_offset) = Some value) in
      mret (is_default, value)
  | PKey k =>
      match keyparams !! k with
      | None => sthrow AssertionError
      | Some value => smodify (λ u, (u.1, {[k]} ∪ u.2));; mret (false, value)
      end
  end.

Definition none_error (x : pref) : exc :=
  PathError ("Value for parameter " +:+ pref_str x +:+ " is None").

(** The loop over [info.parsed_path]: the quoted components. *)
Definition build_path_item (c : pcomp) : stm used string :=
  match c with
  | PLit x => mret (quote path_safe x)
  | PParam x =>
      '(_, component) ← build_param x;
      match component with
      | None => sthrow (none_error x)
      | Some v => mret (quote path_safe v)
      end
  end.

(** The loop over [info.parsed_query]: a parameter equal to its
    default is left out. *)
Definition build_query_item (nc : string * pcomp) : stm used (option (string * string)) :=
  match nc.2 with
  | PLit x => mret (Some (nc.1, x))
  | PParam x =>
      p ← build_param x;
      let '(is_default, value) := (p : bool * option string) in
      if is_default then mret None
      else match value with
           | None => sthrow (none_error x)
           | Some v => mret (Some (nc.1, v))
           end
  end.

Definition errmsg := "Not all parameters were used during path construction".

(** The final checks: every keyword and every positional value that
    is not its default was used. *)
Definition check_used (u : used) : result unit :=
  if bool_decide (size u.2 ≠ size keyparams) then Err (PathError errmsg)
  else if bool_decide (size u.1 ≠ length indexparams) then
    mapM (λ iv : nat * option string,
            if bool_decide (Z.of_nat iv.1 ∈ u.1) then mret ()
            else d ← py_getitem b_defaults (Z.of_nat iv.1 - b_offset)%Z;
                 if bool_decide (iv.2 ≠ d) then Err (PathError errmsg) else mret ())
         (imap pair indexparams);;
    mret ()
  else mret ().

(** [build_url(info, func, args, keyargs)]. *)
Definition build_url : result string :=
  '(r, u) ← (path ← mapM build_path_item (hi_path info);
             query ← mapM build_query_item (hi_query info);
             mret (path, omap id query)) (∅, ∅);
  let '(path, query) := r in
  check_used u;;
  let ext := default EmptyString (head (hi_ext info)) in
  let q := format_query query in
  if bool_decide (q = EmptyString) then mret ("/" +:+ String.concat "/" path +:+ ext)
  else mret ("/" +:+ String.concat "/" path +:+ ext +:+ "?" +:+ q).
End Build.

(** [url(func, *args, **keyargs)]: the first info of [func.http] (the
    latest registered) for which [build_url] raises no [PathError]. *)
Fixpoint url_loop (name : string) (infos : list http_info) (ip : list (option string))
    (kp : gmap string (option string)) : result string :=
  match infos with
  | [] => Err (PathError ("Suitable url path for " +:+ name +:+ "() not found"))
  | info :: infos' =>
      match build_url info ip kp with
      | Err (PathError _) => url_loop name infos' ip kp
      | r => r
      end
  end.

Definition url (w : web) (name : string) (ip : list (option string))
    (kp : gmap string (option string)) : result string :=
  match w_http w !! name with
  | None => Err (AttributeError "http")
  | Some infos => url_loop name infos ip kp
  end.

(** ** Dispatching a URL *)

(** One step of the walk down the registry: for every variant, the
    child of the literal component, then the child of a parameter. *)
Definition variants_step (vs : list registry) (component : string) : list registry :=
  mjoin ((λ r, option_list (dict_get (Some component) (reg_children r)) ++
               option_list (dict_get None (reg_children r))) <$> vs).

(** The query loop of [get_http_handlers], its [break] as [None]. *)
Fixpoint query_loop (offset n : Z) (params : gmap string string) (q : list (string * pcomp))
    (args : gmap Z string) (keyargs : gmap string string)
    : option (gmap Z string * gmap string string) :=
  match q with
  | [] => Some (args, keyargs)
  | (name, c) :: q' =>
      let value := params !! name in
      match c with
      | PLit x =>
          if bool_decide (value = Some x) then query_loop offset n params q' args keyargs else None
      | PParam (PIdx x) =>
          match value with
          | None =>
              if bool_decide (offset ≤ x < n)%Z then query_loop offset n params q' args keyargs
              else None
          | Some v => query_loop offset n params q' (<[x := v]> args) keyargs
          end
      | PParam (PKey x) =>
          match value with
          | None => None
          | Some v => query_loop offset n params q' args (<[x := v]> keyargs)
          end
      end
  end.

(** The path loop: the component at each parameter's position. *)
Definition path_args (components : list string) (path : list pcomp)
    : result (gmap Z string * gmap string string) :=
  foldM (λ acc ic,
           let '(args, keyargs) := (acc : gmap Z string * gmap string string) in
           match ic.2 with
           | PLit _ => mret (args, keyargs)
           | PParam x =>
               value ← py_getitem components (Z.of_nat ic.1);
               match x with
               | PIdx i => mret (<[i := value]> args, keyargs)
               | PKey k => mret (args, <[k := value]> keyargs)
               end
           end) (∅, ∅) (imap pair path).

(** [arglist[i] = value], or the append the [except IndexError] branch
    makes when [i == len(arglist)]. *)
Definition set_or_append (arglist : list (option string)) (iv : Z * string)
    : result (list (option string)) :=
  match py_setitem arglist iv.1 (Some iv.2) with
  | Ok l => Ok l
  | Err IndexError =>
      if bool_decide (iv.1 = Z.of_nat (length arglist)) then Ok (arglist ++ [Some iv.2])
      else Err AssertionError
  | Err e => Err e
  end.

(** [sorted(args.items())]: the keys are distinct integers. *)
Definition key_le (p q : Z * string) : Prop := (p.1 ≤ q.1)%Z.
#[export] Instance key_le_dec : RelDecision key_le := λ p q, decide (p.1 ≤ q.1)%Z.

(** The argument list: [[None] * len(names)], then
    [arglist[-len(defaults):] = defaults] (with no defaults, [-0] is [0]
    and the whole list is replaced by the empty one), then the bound
    arguments in increasing order. *)
Definition initial_arglist (names_len : nat) (defaults : list (option string)) : list (option string) :=
  let start := if bool_decide (length defaults = 0) then 0 else names_len - length defaults in
  take start (replicate names_len None) ++ defaults.

Definition build_arglist (names_len : nat) (defaults : list (option string))
    (args : gmap Z string) : result (list (option string)) :=
  foldM set_or_append (initial_arglist names_len defaults) (merge_sort key_le (map_to_list args)).

Definition handler := (http_info * list (option string) * gmap string string)%type.

(** The body of the loop over the infos of a variant. *)
Definition match_info (components : list string) (params : gmap string string) (ext : string)
    (info : http_info) : result (option handler) :=
  if bool_decide (ext ∉ hi_ext info) then mret None
  else
    '(args, keyargs) ← path_args components (hi_path info);
    let spec := f_argspec (hi_func info) in
    let n := length (as_names spec) in
    let offset := (Z.of_nat n - Z.of_nat (length (as_defaults spec)))%Z in
    match query_loop offset (Z.of_nat n) params (hi_query info) args keyargs with
    | None => mret None
    | Some (args, keyargs) =>
        arglist ← build_arglist n (as_defaults spec) args;
        mret (Some (info, arglist, keyargs))
    end.

(** [get_http_handlers(url)] for a [str] url. *)
Definition get_http_handlers (r : registry) (url : string) : result (list handler) :=
  '(path, params) ← match split_once "?" url with
                    | Some (p, q) => pairs ← parse_qsl false false q; mret (p, py_dict (reverse pairs))
                    | None => mret (url, ∅)
                    end;
  let '(path, ext) := splitext path in
  let components := drop_empty_head (map unquote (py_split "/" path)) in
  let variants := foldl variants_step [r] components in
  hs ← mapM (match_info components params ext) (mjoin (map reg_handlers variants));
  mret (omap id hs).

(** [invoke(url)] up to the call of the handler: the first handler
    found, or [Http404]. *)
Definition invoke (w : web) (url : string) : result handler :=
  hs ← get_http_handlers (w_registry w) url;
  match hs with
  | [] => Err (Http404 "Page not found")
  | h :: _ => mret h
  end.

(** ** Removing handlers *)

(** [list.remove(x)] on infos, by identity: [ValueError] when absent. *)
Fixpoint remove_info (info : http_info) (l : list http_info) : result (list http_info) :=
  match l with
  | [] => Err (ValueError "list.remove(x): x not in list")
  | i :: l' =>
      if decide (hi_id i = hi_id info) then Ok l'
      else l'' ← remove_info info l'; Ok (i :: l'')
  end.

(** [info.list.remove(info)]: [info.list] is the list of the node of the
    registry at the keys of the info's path. *)
Fixpoint reg_remove (keys : list (option string)) (info : http_info) (r : registry) : result registry :=
  match keys with
  | [] => hs ← remove_info info (reg_handlers r); Ok (Registry (reg_children r) hs)
  | k :: keys' =>
      match dict_get k (reg_children r) with
      | None => Err (ValueError "list.remove(x): x not in list")
      | Some sub =>
          sub' ← reg_remove keys' info sub;
          Ok (Registry (setdefault_update k (λ _, sub') (reg_children r)) (reg_handlers r))
      end
  end.

(** [info.func.http.remove(info)]. *)
Definition func_remove (info : http_info) (http : gmap string (list http_info))
    : result (gmap string (list http_info)) :=
  l' ← remove_info info (default [] (http !! fname info));
  Ok (<[fname info := l']> http).

(** [http_remove(url)]: every handler [get_http_handlers(url)] finds
    leaves its list and its function's [http]. *)
Definition http_remove_url (w : web) (u : string) : result web :=
  hs ← get_http_handlers (w_registry w) u;
  foldM (λ w h,
           r ← reg_remove (info_keys h.1.1) h.1.1 (w_registry w);
           http ← func_remove h.1.1 (w_http w);
           Ok (Web r http (w_next w))) w hs.

(** [http_remove(func)]: [for info in x.http: info.list.remove(info);
    x.http[:] = []].  The loop runs over the list by position while
    its body empties that list; [fuel] bounds the loop by the length of
    the list at its start. *)
Fixpoint remove_func_loop (fuel : nat) (name : string) (pos : nat) (w : web) : result web :=
  match fuel with
  | O => Ok w
  | S fuel' =>
      match default [] (w_http w !! name) !! pos with
      | None => Ok w
      | Some info =>
          r ← reg_remove (info_keys info) info (w_registry w);
          remove_func_loop fuel' name (S pos) (Web r (<[name := []]> (w_http w)) (w_next w))
      end
  end.

Definition http_remove_func (w : web) (name : string) : result web :=
  match w_http w !! name with
  | None => Err (ValueError ("This object is not bound to url: " +:+ name))
  | Some infos => remove_func_loop (length infos) name 0 w
  end.

(** Every info of the registry: the node's list, then its children. *)
Fixpoint reg_infos (r : registry) : list http_info :=
  match r with
  | Registry ch hs => hs ++ (fix go ch := match ch with
                                         | [] => []
                                         | (_, sub) :: ch' => reg_infos sub ++ go ch'
                                         end) ch
  end.

(** [http_clear()]: [_http_clear] removes every info of the registry
    from its function's [http], then empties the lists and the
    dictionaries. *)
Definition http_clear (w : web) : result web :=
  http ← foldM (λ http info, func_remove info http) (w_http w) (reg_infos (w_registry w));
  Ok (Web empty_registry http (w_next w)).

(** ** What registration guarantees *)

Definition comp_params (c : pcomp) : list pref :=
  match c with PParam x => [x] | PLit _ => [] end.

(** The parameters of a parsed path and query, in order. *)
Definition params_of (pp : list pcomp) (pq : list (string * pcomp)) : list pref :=
  mjoin (map comp_params pp) ++ mjoin (map (λ nc, comp_params nc.2) pq).

(** [self.args] and [self.keyargs] hold exactly the parameters parsed so
    far, each bound once, at a non-negative position. *)
Definition adj_inv (ps : list pref) (a : adj) : Prop :=
  (∀ i, i ∈ adj_args a ↔ PIdx i ∈ ps) ∧ (∀ k, k ∈ adj_keyargs a ↔ PKey k ∈ ps) ∧
  NoDup ps ∧ (∀ i, PIdx i ∈ ps → (0 ≤ i)%Z).

Definition n_names (spec : argspec) : Z := Z.of_nat (length (as_names spec)).
Definition n_offset (spec : argspec) : Z :=
  (Z.of_nat (length (as_names spec)) - Z.of_nat (length (as_defaults spec)))%Z.

(** The parameters of a registered URL: distinct, non-negative, every
    argument without a default bound, and the [*args] positions bound
    from [len(names)] on without a gap.  [getargspec] never returns more
    defaults than names. *)
Record params_ok (spec : argspec) (ps : list pref) : Prop := {
  po_defaults : length (as_defaults spec) ≤ length (as_names spec);
  po_nodup : NoDup ps;
  po_nonneg : ∀ i, PIdx i ∈ ps → (0 ≤ i)%Z;
  po_required : ∀ i, (0 ≤ i < n_offset spec)%Z → PIdx i ∈ ps;
  po_extra : ∀ i j, (n_names spec ≤ i ≤ j)%Z → PIdx j ∈ ps → PIdx i ∈ ps
}.

Definition info_ok (info : http_info) : Prop :=
  params_ok (f_argspec (hi_func info)) (params_of (hi_path info) (hi_query info)) ∧
  hi_ext info ≠ [].

(** ** The registry as a trie *)

(** The node at a sequence of keys, following [dict.get]. *)
Fixpoint reg_at (keys : list (option string)) (r : registry) : option registry :=
  match keys with
  | [] => Some r
  | k :: keys' => dict_get k (reg_children r) ≫= reg_at keys'
  end.

Definition reg_handlers_at (keys : list (option string)) (r : registry) : list http_info :=
  default [] (reg_handlers <$> reg_at keys r).

Definition registered (r : registry) (info : http_info) : Prop :=
  info ∈ reg_handlers_at (info_keys info) r.

(** Every info of the registry sits at the keys of its own path and was
    accepted by [check]. *)
Definition reg_wf (r : registry) : Prop :=
  ∀ keys info, info ∈ reg_handlers_at keys r → info_keys info = keys ∧ info_ok info.

Definition key_matches (k : option string) (c : string) : Prop := k = Some c ∨ k = None.

(** The value [build_param] reads for a parameter. *)
Definition param_value (ip : list (option string)) (kp : gmap string (option string)) (x : pref)
    : option (option string) :=
  match x with PIdx i => ip !! Z.to_nat i | PKey k => kp !! k end.

Definition used_add (u : used) (x : pref) : used :=
  match x with PIdx i => ({[i]} ∪ u.1, u.2) | PKey k => (u.1, {[k]} ∪ u.2) end.

(** The text a path component stands for. *)
Definition path_text ip kp (c : pcomp) (t : string) : Prop :=
  match c with PLit x => t = x | PParam x => param_value ip kp x = Some (Some t) end.

(** A parameter left out of the query because it has its default. *)
Definition omitted_default (info : http_info) ip kp (x : pref) : Prop :=
  ∃ i v, x = PIdx i ∧ (b_offset info ≤ i < Z.of_nat (length (b_names info)))%Z ∧
         param_value ip kp x = Some v ∧ b_defaults info !! Z.to_nat (i - b_offset info) = Some v.

(** The query item a query component gives. *)
Definition query_item_rel (info : http_info) ip kp (nc : string * pcomp) (o : option (string * string)) : Prop :=
  match nc.2 with
  | PLit x => o = Some (nc.1, x)
  | PParam x => (o = None ∧ omitted_default info ip kp x) ∨
                (∃ t, o = Some (nc.1, t) ∧ param_value ip kp x = Some (Some t))
  end.

Definition nonneg_param (x : pref) : Prop := ∀ i, x = PIdx i → (0 ≤ i)%Z.

(** Identities of the infos in the [http] list of each function:
    distinct and below the next identity. *)
Definition http_ids_ok (w : web) : Prop :=
  ∀ name l, w_http w !! name = Some l → NoDup (hi_id <$> l) ∧ Forall (λ i, hi_id i < w_next w) l.

(** ** A concrete registry *)

(** [def student(id, page=1)] registered under [pupil/$id], then under
    [student/$id?page=$page]. *)
Definition demo_student : func := Func "student" (ArgSpec ["id"; "page"] None None [Some "1"]).
Definition demo_web0 : web := Web empty_registry ∅ 0.
Definition demo_reg : result (http_info * http_info * web) :=
  '(i1, w1) ← http_info_new demo_student "pupil/$id" ExtNone demo_web0;
  '(i2, w2) ← http_info_new demo_student "student/$id?page=$page" ExtNone w1;
  mret (i1, i2, w2).
Definition demo_web : web := match demo_reg with Ok (_, _, w) => w | Err _ => demo_web0 end.
(** A function with [*args]: [def page(id, page=1, *rest)], and its
    info for the pattern [pupil/$id]. *)
Definition demo_varargs : func := Func "page" (ArgSpec ["id"; "page"] (Some "rest") None [Some "1"]).
Definition demo_pupil : http_info :=
  Eval vm_compute in
  match http_info_new demo_varargs "pupil/$id" ExtNone demo_web0 with
  | Ok (i, _) => i
  | Err _ => HttpInfo 0 demo_varargs "" [] [] []
  end.
Definition demo_old : http_info :=
  match demo_reg with Ok (i, _, _) => i | Err _ => HttpInfo 0 demo_student "" [] [] [] end.
Definition demo_new : http_info :=
  match demo_reg with Ok (_, i, _) => i | Err _ => HttpInfo 0 demo_student "" [] [] [] end.

(** ** Lemmas: parsing a pattern *)

Lemma adj_inv_nil : adj_inv [] (Adj ∅ ∅).
Proof. split_and!; [set_solver|set_solver|constructor|set_solver]. Qed.

Lemma adj_inv_add_idx ps a i :
  adj_inv ps a → i ∉ adj_args a → (0 ≤ i)%Z →
  adj_inv (ps ++ [PIdx i]) (Adj ({[i]} ∪ adj_args a) (adj_keyargs a)).
Proof.
  intros (Hi & Hk & Hnd & Hpos) Hnot Hle. split_and!; simpl.
  - intros j. rewrite elem_of_union, elem_of_singleton, elem_of_app, Hi. set_solver.
  - intros k. rewrite Hk, elem_of_app. set_solver.
  - apply NoDup_app. split_and!; [done| |apply NoDup_singleton].
    intros x Hx Hx'%list_elem_of_singleton. subst x. apply Hnot, Hi, Hx.
  - intros j [Hj|Hj%list_elem_of_singleton]%elem_of_app; [by apply Hpos|]. congruence.
Qed.

Lemma adj_inv_add_key ps a k :
  adj_inv ps a → k ∉ adj_keyargs a →
  adj_inv (ps ++ [PKey k]) (Adj (adj_args a) ({[k]} ∪ adj_keyargs a)).
Proof.
  intros (Hi & Hk & Hnd & Hpos) Hnot. split_and!; simpl.
  - intros j. rewrite Hi, elem_of_app. set_solver.
  - intros k'. rewrite elem_of_union, elem_of_singleton, elem_of_app, Hk. set_solver.
  - apply NoDup_app. split_and!; [done| |apply NoDup_singleton].
    intros x Hx Hx'%list_elem_of_singleton. subst x. apply Hnot, Hk, Hx.
  - intros j [Hj|Hj%list_elem_of_singleton]%elem_of_app; [by apply Hpos|]. discriminate.
Qed.

(** [adjust] binds one more parameter and keeps [adj_inv]. *)
Lemma adjust_inv spec x ps a y a' :
  adjust spec x a = Ok (y, a') → adj_inv ps a → adj_inv (ps ++ [y]) a'.
Proof.
  intros H Hinv. unfold adjust in H. rewrite stm_bind_unfold in H. simpl in H.
  destruct x as [i|k].
  - destruct (bool_decide (i < 0)%Z || _) eqn:E1; simpl in H; [discriminate|].
    case_bool_decide; simpl in H; [discriminate|].
    injection H as <- <-. apply adj_inv_add_idx; [done..|].
    apply orb_false_iff in E1 as [E1 _]. apply bool_decide_eq_false in E1. lia.
  - destruct (list_find _ _) as [[i n]|].
    + case_bool_decide; simpl in H; [discriminate|]. injection H as <- <-.
      apply adj_inv_add_idx; [done..|lia].
    + destruct (bool_decide _ || bool_decide _) eqn:E; simpl in H; [discriminate|].
      injection H as <- <-. apply adj_inv_add_key; [done|].
      apply orb_false_iff in E as [_ E]. by apply bool_decide_eq_false in E.
Qed.

Lemma parse_component_inv spec s ps a y a' :
  parse_component spec s a = Ok (y, a') → adj_inv ps a → adj_inv (ps ++ comp_params y) a'.
Proof.
  unfold parse_component. intros H Hinv.
  destruct (re_component s) as [[d|n|t]|]; simpl in H.
  - apply stm_bind_Ok_inv in H as (x & a1 & Hx & H). injection H as <- <-.
    exact (adjust_inv _ _ _ _ _ _ Hx Hinv).
  - apply stm_bind_Ok_inv in H as (x & a1 & Hx & H). injection H as <- <-.
    exact (adjust_inv _ _ _ _ _ _ Hx Hinv).
  - injection H as <- <-. by rewrite app_nil_r.
  - discriminate.
Qed.

Lemma parse_path_inv spec path ps a pp a' :
  parse_path spec path a = Ok (pp, a') → adj_inv ps a →
  adj_inv (ps ++ mjoin (map comp_params pp)) a'.
Proof.
  intros H Hinv.
  apply (stm_mapM_inv (λ ys a, adj_inv (ps ++ mjoin (map comp_params ys)) a)
           (parse_component spec)) with (ys := []) in H as Hi; [done| |by rewrite app_nil_r].
  intros x ys s y s' Hy Hs. rewrite map_app, join_app, app_assoc. simpl.
  rewrite app_nil_r. exact (parse_component_inv _ _ _ _ _ _ Hy Hs).
Qed.

Lemma parse_query_inv spec query ps a pq a' :
  parse_query spec query a = Ok (pq, a') → adj_inv ps a →
  adj_inv (ps ++ mjoin (map (λ nc, comp_params nc.2) pq)) a'.
Proof.
  intros H Hinv. destruct query as [q|]; simpl in H; [|injection H as <- <-; by rewrite app_nil_r].
  apply stm_bind_Ok_inv in H as (params & a1 & Hp & H).
  unfold slift in Hp. destruct (parse_qsl _ _ _); simplify_eq.
  apply (stm_mapM_inv (λ ys a, adj_inv (ps ++ mjoin (map (λ nc, comp_params nc.2) ys)) a))
    with (ys := []) in H as Hi; [done| |by rewrite app_nil_r].
  intros x ys s y s' Hy Hs. apply stm_bind_Ok_inv in Hy as (c & s1 & Hc & Hy).
  injection Hy as <- <-. rewrite map_app, join_app, app_assoc. simpl.
  rewrite app_nil_r. exact (parse_component_inv _ _ _ _ _ _ Hc Hs).
Qed.

Lemma check_required_sound k names args :
  check_required k names args = Ok () → ∀ i, i < length names → Z.of_nat (k + i) ∈ args.
Proof.
  revert k. induction names as [|n names IH]; intros k H i Hi; simpl in *; [lia|].
  case_bool_decide; [|discriminate]. destruct i as [|i]; [by rewrite Nat.add_0_r|].
  rewrite <-Nat.add_succ_comm. apply IH; [done|lia].
Qed.

Lemma foldr_max_ge x xs j : j ∈ x :: xs → (j ≤ foldr Z.max x xs)%Z.
Proof.
  induction xs as [|y xs IH]; simpl; intros Hj.
  - apply list_elem_of_singleton in Hj. lia.
  - rewrite !elem_of_cons in Hj.
    destruct Hj as [->|[->|Hj]]; [|lia|];
      [assert (x ∈ x :: xs) as Hx by (apply elem_of_cons; by left)
      |assert (j ∈ x :: xs) as Hx by (apply elem_of_cons; by right)];
      pose proof (IH Hx); lia.
Qed.

Lemma set_max_ge (s : gset Z) j : j ∈ s → (j ≤ set_max s)%Z.
Proof.
  unfold set_max. rewrite <-elem_of_elements. destruct (elements s) as [|x xs]; [set_solver|].
  apply foldr_max_ge.
Qed.

(** What a successful [check] establishes about [self.args]. *)
Lemma check_sound spec a u a' :
  length (as_defaults spec) ≤ length (as_names spec) →
  check spec a = Ok (u, a') →
  a' = a ∧ (∀ i, (0 ≤ i < n_offset spec)%Z → i ∈ adj_args a) ∧
  (∀ i j, (n_names spec ≤ i ≤ j)%Z → j ∈ adj_args a → i ∈ adj_args a).
Proof.
  intros Hd H. unfold check in H. rewrite stm_bind_unfold in H. cbn [sget] in H.
  rewrite stm_bind_unfold in H. unfold slift at 1 in H.
  destruct (check_required _ _ _) as [[]|] eqn:Hr; [|discriminate].
  assert (Hreq : ∀ i, (0 ≤ i < n_offset spec)%Z → i ∈ adj_args a).
  { intros i Hi. unfold n_offset in Hi.
    assert (Z.of_nat (0 + Z.to_nat i) ∈ adj_args a) as Hin
      by (apply (check_required_sound _ _ _ Hr); rewrite length_take; lia).
    by rewrite Nat.add_0_l, Z2Nat.id in Hin by lia. }
  case_bool_decide as Hempty.
  - cbv [mret stm_ret] in H. injection H as _ <-. split_and!; [done|done|set_solver].
  - rewrite stm_bind_unfold in H. unfold slift in H.
    destruct (mapM _ _) as [l|] eqn:Hm; [|discriminate]. cbv [mret stm_ret] in H. injection H as _ <-.
    split_and!; [done|done|]. intros i j Hij Hj.
    apply mapM_Ok in Hm. destruct (decide (i = j)) as [->|]; [done|].
    assert (Hi : i ∈ seqZ (Z.of_nat (length (as_names spec)))
                   (set_max (adj_args a) - Z.of_nat (length (as_names spec))))
      by (apply elem_of_seqZ; pose proof (set_max_ge _ _ Hj); unfold n_names in Hij; lia).
    apply list_elem_of_lookup in Hi as [k Hk].
    destruct (Forall2_lookup_l _ _ _ _ _ Hm Hk) as (y & _ & Hy). simpl in Hy.
    by case_bool_decide.
Qed.

(** The parameters of a pattern that parses and passes [check]. *)
Lemma parse_url_ok spec path query pp pq :
  length (as_defaults spec) ≤ length (as_names spec) →
  parse_url spec path query = Ok (pp, pq) → params_ok spec (params_of pp pq).
Proof.
  intros Hd H. unfold parse_url in H. apply bind_Ok_inv in H as ([r a] & E & H).
  injection H as ->.
  apply stm_bind_Ok_inv in E as (pp1 & a1 & Hp & E).
  apply stm_bind_Ok_inv in E as (pq1 & a2 & Hq & E).
  apply stm_bind_Ok_inv in E as ([] & a3 & Hc & E). injection E as <- <-.
  pose proof (parse_query_inv _ _ _ _ _ _ Hq (parse_path_inv _ _ [] _ _ _ Hp adj_inv_nil))
    as (Hi & Hk & Hnd & Hpos).
  destruct (check_sound _ _ _ _ Hd Hc) as (_ & Hreq & Hext).
  constructor; [done|done|done|intros i ?; apply Hi, Hreq; lia|].
  intros i j Hij Hj. apply Hi. apply Hi in Hj. eauto.
Qed.

(** ** Lemmas: the registry *)

Lemma dict_get_setdefault k k' f ch :
  dict_get k' (setdefault_update k f ch) =
  if decide (k' = k) then Some (f (default empty_registry (dict_get k ch))) else dict_get k' ch.
Proof.
  induction ch as [|[k0 sub] ch IH]; simpl; [by repeat case_decide|].
  repeat case_decide; simplify_eq/=; rewrite ?decide_True, ?decide_False by done; done.
Qed.

Lemma reg_handlers_at_nil r : reg_handlers_at [] r = reg_handlers r.
Proof. done. Qed.

Lemma reg_handlers_at_cons k ks r :
  reg_handlers_at (k :: ks) r = default [] (reg_handlers_at ks <$> dict_get k (reg_children r)).
Proof. unfold reg_handlers_at. simpl. by destruct (dict_get k _). Qed.

Lemma reg_handlers_at_empty ks : reg_handlers_at ks empty_registry = [].
Proof. by destruct ks. Qed.

Lemma reg_infos_child ch hs k sub i :
  dict_get k ch = Some sub → i ∈ reg_infos sub → i ∈ reg_infos (Registry ch hs).
Proof.
  intros Hk Hi. simpl. apply elem_of_app. right.
  induction ch as [|[k' s'] ch IH]; simpl in *; [done|]. apply elem_of_app.
  case_decide; [simplify_eq; by left|right; by apply IH].
Qed.

(** A registered info is one of the infos [_http_clear] walks over. *)
Lemma registered_reg_infos r i : registered r i → i ∈ reg_infos r.
Proof.
  unfold registered. generalize (info_keys i). intros ks. revert r.
  induction ks as [|k ks IH]; intros [ch hs] Hi.
  - rewrite reg_handlers_at_nil in Hi. simpl. apply elem_of_app. by left.
  - rewrite reg_handlers_at_cons in Hi. simpl in Hi.
    destruct (dict_get k ch) as [sub|] eqn:Hk; simpl in Hi; [|set_solver].
    eapply reg_infos_child; [exact Hk|]. by apply IH.
Qed.

#[export] Hint Rewrite reg_handlers_at_nil reg_handlers_at_cons reg_handlers_at_empty
  dict_get_setdefault : pony_rw.

(** [register] appends the info to the list at its keys and nowhere
    else. *)
Lemma reg_insert_at ks info r ks' :
  reg_handlers_at ks' (reg_insert ks info r) =
  reg_handlers_at ks' r ++ (if decide (ks' = ks) then [info] else []).
Proof.
  revert r ks'. induction ks as [|k ks IH]; intros [ch hs] [|k' ks']; simpl;
    autorewrite with pony_rw; simpl; rewrite ?decide_True, ?decide_False by done;
    rewrite ?app_nil_r; try done.
  rewrite dict_get_setdefault. destruct (decide (k' = k)) as [->|Hk].
  - simpl. rewrite IH. destruct (dict_get k ch); simpl; autorewrite with pony_rw; simpl;
      destruct (decide (ks' = ks)); subst;
      [rewrite decide_True|rewrite decide_False by congruence|rewrite decide_True|rewrite decide_False by congruence];
      done.
  - rewrite decide_False by congruence. by rewrite app_nil_r.
Qed.

Lemma remove_info_other info l l' i :
  remove_info info l = Ok l' → hi_id i ≠ hi_id info → i ∈ l' ↔ i ∈ l.
Proof.
  revert l'. induction l as [|j l IH]; intros l' H Hne; simpl in H; [discriminate|].
  case_decide.
  - injection H as <-. rewrite elem_of_cons. split; [by right|]. intros [->|?]; [done|done].
  - apply bind_Ok_inv in H as (l'' & Hl & [= <-]). rewrite !elem_of_cons, IH; done.
Qed.

Lemma remove_info_subset info l l' i : remove_info info l = Ok l' → i ∈ l' → i ∈ l.
Proof.
  revert l'. induction l as [|j l IH]; intros l' H; simpl in H; [discriminate|].
  case_decide.
  - injection H as <-. intros; by right.
  - apply bind_Ok_inv in H as (l'' & Hl & [= <-]). rewrite !elem_of_cons. naive_solver.
Qed.

(** [info.list.remove(info)] changes the list at the info's keys only. *)
Lemma reg_remove_at ks info r r' :
  reg_remove ks info r = Ok r' →
  ∃ l', remove_info info (reg_handlers_at ks r) = Ok l' ∧
        ∀ ks', reg_handlers_at ks' r' = if decide (ks' = ks) then l' else reg_handlers_at ks' r.
Proof.
  revert r r'. induction ks as [|k ks IH]; intros [ch hs] r' H; simpl in H.
  - apply bind_Ok_inv in H as (hs' & Hhs & [= <-]). exists hs'. split; [done|].
    intros [|k' ks']; autorewrite with pony_rw; simpl; done.
  - destruct (dict_get k ch) as [sub|] eqn:Hsub; [|discriminate].
    apply bind_Ok_inv in H as (sub' & Hs & [= <-]).
    destruct (IH _ _ Hs) as (l' & Hl' & Hat). exists l'.
    rewrite (reg_handlers_at_cons k ks (Registry ch hs)). simpl. rewrite Hsub. simpl. split; [done|].
    intros [|k' ks']; [done|]. rewrite !reg_handlers_at_cons. simpl.
    rewrite dict_get_setdefault. destruct (decide (k' = k)) as [->|Hk].
    + rewrite Hsub. simpl. rewrite Hat.
      destruct (decide (ks' = ks)); [rewrite decide_True by congruence|rewrite decide_False by congruence];
        done.
    + by rewrite decide_False by congruence.
Qed.

(** ** Lemmas: the walk of [get_http_handlers] *)


Lemma reg_at_cons k ks r : reg_at (k :: ks) r = dict_get k (reg_children r) ≫= reg_at ks.
Proof. done. Qed.

(** The walk reaches every node whose keys match the components. *)
Lemma variants_complete ks comps vs r node :
  Forall2 key_matches ks comps → r ∈ vs → reg_at ks r = Some node →
  node ∈ foldl variants_step vs comps.
Proof.
  intros Hm. revert vs r. induction Hm as [|k c ks comps Hkc Hm IH]; intros vs r Hr Hat.
  - injection Hat as <-. done.
  - rewrite reg_at_cons in Hat. destruct (dict_get k _) as [sub|] eqn:Hsub; [|discriminate].
    simpl. apply (IH _ sub); [|done]. unfold variants_step.
    apply list_elem_of_join. eexists; split; [|apply list_elem_of_fmap; by exists r].
    apply elem_of_app. destruct Hkc as [->| ->]; [left|right]; rewrite Hsub; by left.
Qed.

(** Every node the walk reaches is at keys that match the components. *)
Lemma variants_sound comps vs node :
  node ∈ foldl variants_step vs comps →
  ∃ r ks, r ∈ vs ∧ Forall2 key_matches ks comps ∧ reg_at ks r = Some node.
Proof.
  revert vs. induction comps as [|c comps IH]; intros vs Hn; simpl in Hn.
  - exists node, []. split_and!; [done|constructor|done].
  - destruct (IH _ Hn) as (r' & ks & Hr' & Hks & Hat).
    unfold variants_step in Hr'. apply list_elem_of_join in Hr' as (l & Hr' & Hl).
    apply list_elem_of_fmap in Hl as (r & -> & Hr).
    apply elem_of_app in Hr' as [Hr'|Hr'];
      destruct (dict_get _ (reg_children r)) as [sub|] eqn:Hsub; simpl in Hr'; try set_solver;
      apply list_elem_of_singleton in Hr' as ->.
    + exists r, (Some c :: ks). split_and!; [done|constructor; [by left|done]|].
      by rewrite reg_at_cons, Hsub.
    + exists r, (None :: ks). split_and!; [done|constructor; [by right|done]|].
      by rewrite reg_at_cons, Hsub.
Qed.

(** ** Lemmas: building a URL *)

Lemma build_param_spec info ip kp x u d v u' :
  nonneg_param x → build_param info ip kp x u = Ok ((d, v), u') →
  param_value ip kp x = Some v ∧ u' = used_add u x ∧
  (d = true → omitted_default info ip kp x).
Proof.
  intros Hx H. destruct x as [i|k]; simpl in H.
  - specialize (Hx i eq_refl). apply stm_bind_Ok_inv in H as (v' & u1 & Hv & H).
    unfold slift in Hv. destruct (py_getitem ip i) as [w|] eqn:Hg; [|discriminate].
    injection Hv as <- <-. apply py_getitem_nonneg in Hg; [|done].
    apply stm_bind_Ok_inv in H as ([] & u2 & [= <-] & H). injection H as <- <- <-.
    split_and!; [done|done|]. intros Hd. apply andb_prop in Hd as [H1 H2].
    apply bool_decide_eq_true in H1, H2. by exists i, w.
  - destruct (kp !! k) as [w|] eqn:Hk; [|discriminate].
    apply stm_bind_Ok_inv in H as ([] & u2 & [= <-] & H). injection H as <- <- <-.
    split_and!; [done|done|discriminate].
Qed.

Lemma build_path_item_spec info ip kp c u s u' :
  Forall nonneg_param (comp_params c) → build_path_item info ip kp c u = Ok (s, u') →
  (∃ t, s = quote path_safe t ∧ path_text ip kp c t) ∧ u' = foldl used_add u (comp_params c).
Proof.
  intros Hc H. destruct c as [x|x]; simpl in H.
  - injection H as <- <-. split; [by eexists|done].
  - simpl in Hc. apply Forall_inv in Hc.
    apply stm_bind_Ok_inv in H as ([d v] & u1 & Hb & H).
    destruct (build_param_spec _ _ _ _ _ _ _ _ Hc Hb) as (Hv & -> & _).
    destruct v as [t|]; [|discriminate]. injection H as <- <-.
    split; [by exists t|done].
Qed.

Lemma build_query_item_spec info ip kp nc u o u' :
  Forall nonneg_param (comp_params nc.2) → build_query_item info ip kp nc u = Ok (o, u') →
  query_item_rel info ip kp nc o ∧ u' = foldl used_add u (comp_params nc.2).
Proof.
  intros Hc H. destruct nc as [name [x|x]]; unfold build_query_item in H; simpl in *.
  - injection H as <- <-. done.
  - simpl in Hc. apply Forall_inv in Hc.
    apply stm_bind_Ok_inv in H as ([d v] & u1 & Hb & H).
    destruct (build_param_spec _ _ _ _ _ _ _ _ Hc Hb) as (Hv & -> & Hd).
    destruct d.
    + injection H as <- <-. split; [left; split; [done|by apply Hd]|done].
    + destruct v as [t|]; [|discriminate]. injection H as <- <-.
      split; [right; by exists t|done].
Qed.

(** C26: When positional values are left unused, the final check of
    [build_url] reads [defaults[i-offset]] for each unused index [i] in
    order; the first unused index at or past the named parameters (an
    extra value of [*args]) reads past the end of [defaults] and raises
    [IndexError] (web.py, line 222), not the [PathError] on which [url()]
    tries the next pattern. *)
Theorem check_used_extra_index_error info ip kp u i v :
  size u.2 = size kp → size u.1 ≠ length ip →
  (∀ j vj, j < i → ip !! j = Some vj →
     Z.of_nat j ∈ u.1 ∨ py_getitem (b_defaults info) (Z.of_nat j - b_offset info)%Z = Ok vj) →
  ip !! i = Some v → Z.of_nat i ∉ u.1 → length (b_names info) ≤ i →
  check_used info ip kp u = Err IndexError.
Proof.
  intros H2 H1 Hb Hi Hu Hn. unfold check_used.
  rewrite bool_decide_false by tauto. rewrite bool_decide_true by done.
  rewrite (mapM_Err_at _ _ i (i, v) IndexError); [done| | |].
  - intros j [j' y] Hj Hl. rewrite list_lookup_imap in Hl.
    destruct (ip !! j) as [vj|] eqn:E; simpl in Hl; [|discriminate]. injection Hl as <- <-. simpl.
    case_bool_decide; [by eexists|]. destruct (Hb j vj) as [|Hd]; [lia|done|done|].
    rewrite Hd. simpl. rewrite bool_decide_false by tauto. by eexists.
  - by rewrite list_lookup_imap, Hi.
  - simpl. rewrite bool_decide_false by done. rewrite py_getitem_past; [done|].
    unfold b_offset. lia.
Qed.

Lemma check_used_extra_index_error_witness :
  size (∅ : gset string) = size (∅ : gmap string (option string)) ∧
  size ({[0%Z]} : gset Z) ≠ length [Some "42"; Some "1"; Some "x"] ∧
  (∀ j vj, j < 2 → [Some "42"; Some "1"; Some "x"] !! j = Some vj →
     Z.of_nat j ∈ ({[0%Z]} : gset Z) ∨
     py_getitem (b_defaults demo_pupil) (Z.of_nat j - b_offset demo_pupil)%Z = Ok vj) ∧
  [Some "42"; Some "1"; Some "x"] !! 2 = Some (Some "x") ∧ Z.of_nat 2 ∉ ({[0%Z]} : gset Z) ∧
  length (b_names demo_pupil) ≤ 2 ∧
  check_used demo_pupil [Some "42"; Some "1"; Some "x"] ∅ ({[0%Z]}, ∅) = Err IndexError.
Proof.
  assert (Hb : ∀ j vj, j < 2 → [Some "42"; Some "1"; Some "x"] !! j = Some vj →
     Z.of_nat j ∈ ({[0%Z]} : gset Z) ∨
     py_getitem (b_defaults demo_pupil) (Z.of_nat j - b_offset demo_pupil)%Z = Ok vj).
  { intros [|[|j]] vj Hj Hl; simpl in Hl; [left; set_solver|right; injection Hl as <-; vm_compute; reflexivity|lia]. }
  assert (Hu : Z.of_nat 2 ∉ ({[0%Z]} : gset Z)) by (rewrite elem_of_singleton; lia).
  assert (Hs1 : size ({[0%Z]} : gset Z) ≠ length [Some "42"; Some "1"; Some "x"])
    by (rewrite size_singleton; simpl; lia).
  split_and!; [reflexivity|exact Hs1|exact Hb|reflexivity|exact Hu|vm_compute; lia|].
  exact (check_used_extra_index_error demo_pupil _ ∅ ({[0%Z]}, ∅) 2 (Some "x") eq_refl Hs1 Hb eq_refl Hu
           ltac:(vm_compute; lia)).
Defined.

(** ** Registration *)

(** What [HttpInfo.__init__] does on success: the info carries the
    parsed pattern, a fresh identity and at least one extension, and it
    is registered. *)
Lemma http_info_new_inv f url ext w info w' :
  http_info_new f url ext w = Ok (info, w') →
  ∃ path query pp pq,
    parse_url (f_argspec f) path query = Ok (pp, pq) ∧
    hi_id info = w_next w ∧ hi_func info = f ∧ hi_path info = pp ∧ hi_query info = pq ∧
    hi_ext info ≠ [] ∧
    w' = register info (Web (w_registry w) (w_http w) (S (w_next w))).
Proof.
  intros H. unfold http_info_new in H. rewrite stm_bind_unfold in H.
  destruct (is_ascii url); simpl in H; [|discriminate].
  destruct (match split_once "?" url with Some (p, q) => (p, Some q) | None => (url, None) end)
    as [path query].
  destruct (splitext path) as [path' e0].
  set (exts := (if bool_decide (e0 = EmptyString) then [] else [e0]) ++ ext_list ext) in H.
  rewrite stm_bind_unfold in H. unfold slift at 1 in H.
  destruct (parse_url _ _ _) as [[pp pq]|] eqn:Hp; [|discriminate]. simpl in H.
  injection H as <- <-. exists path', query, pp, pq. split_and!; try done.
  simpl. by destruct exts.
Qed.

(** Registration adds the info to the list at its keys and keeps every
    other list. *)
Lemma register_at info w ks :
  reg_handlers_at ks (w_registry (register info w)) =
  reg_handlers_at ks (w_registry w) ++ (if decide (ks = info_keys info) then [info] else []).
Proof. apply reg_insert_at. Qed.

Lemma register_registered info w : registered (w_registry (register info w)) info.
Proof. unfold registered. rewrite register_at, decide_True by done. set_solver. Qed.


(** [HttpInfo.__init__] keeps the registry well formed, registers the
    info and accepts only patterns that bind every argument without a
    default once. *)
Lemma http_info_new_wf f url ext w info w' :
  length (as_defaults (f_argspec f)) ≤ length (as_names (f_argspec f)) →
  reg_wf (w_registry w) → http_info_new f url ext w = Ok (info, w') →
  reg_wf (w_registry w') ∧ registered (w_registry w') info ∧ info_ok info.
Proof.
  intros Hd Hwf H.
  destruct (http_info_new_inv _ _ _ _ _ _ H) as (path & query & pp & pq & Hp & Hid & Hf & Hpp & Hpq & Hext & ->).
  assert (Hok : info_ok info).
  { split; [|done]. rewrite Hf, Hpp, Hpq. exact (parse_url_ok _ _ _ _ _ Hd Hp). }
  split_and!; [|apply register_registered|done].
  intros ks i Hi. rewrite register_at in Hi. simpl in Hi.
  apply elem_of_app in Hi as [Hi|Hi]; [by apply Hwf|].
  case_decide; [|set_solver]. apply list_elem_of_singleton in Hi as ->. done.
Qed.

Lemma http_info_new_ids f url ext w info w' :
  http_ids_ok w → http_info_new f url ext w = Ok (info, w') → http_ids_ok w'.
Proof.
  intros Hids H.
  destruct (http_info_new_inv _ _ _ _ _ _ H) as (path & query & pp & pq & _ & Hid & Hf & _ & _ & _ & ->).
  intros name l. simpl. destruct (decide (name = fname info)) as [->|Hne].
  - rewrite lookup_insert_eq. intros [= <-].
    destruct (w_http w !! fname info) as [old|] eqn:Hold; simpl.
    + destruct (Hids _ _ Hold) as [Hnd Hlt]. rewrite Forall_forall in Hlt. split.
      * simpl. constructor; [|done]. rewrite Hid. intros (j & Hj & Hin)%list_elem_of_fmap.
        specialize (Hlt j Hin). lia.
      * constructor; [lia|]. rewrite Forall_forall. intros j Hj. specialize (Hlt j Hj). lia.
    + split; [simpl; constructor; [set_solver|constructor]|]. constructor; [lia|constructor].
  - rewrite lookup_insert_ne by done. intros Hl. destruct (Hids _ _ Hl) as [Hnd Hlt].
    split; [done|]. eapply Forall_impl; [done|]. simpl. lia.
Qed.

(** ** Removal *)

(** [info.list.remove(info)] keeps every info of another identity
    registered. *)
Lemma reg_remove_keeps ks info r r' i :
  reg_remove ks info r = Ok r' → hi_id i ≠ hi_id info → registered r i → registered r' i.
Proof.
  intros H Hne Hi. destruct (reg_remove_at _ _ _ _ H) as (l' & Hl' & Hat).
  unfold registered in *. rewrite Hat. case_decide as Hks; [|done].
  subst ks. by apply (remove_info_other _ _ _ _ Hl').
Qed.

Lemma reg_remove_wf ks info r r' : reg_remove ks info r = Ok r' → reg_wf r → reg_wf r'.
Proof.
  intros H Hwf ks' i Hi. destruct (reg_remove_at _ _ _ _ H) as (l' & Hl' & Hat).
  rewrite Hat in Hi. apply Hwf. case_decide; [subst ks'|done].
  exact (remove_info_subset _ _ _ _ Hl' Hi).
Qed.

(** The identities of the demo state are distinct and below its counter. *)
Lemma demo_web_ids : http_ids_ok demo_web.
Proof.
  assert (H0 : http_ids_ok demo_web0) by (intros ??; simpl; rewrite lookup_empty; discriminate).
  unfold demo_web, demo_reg.
  destruct (http_info_new demo_student "pupil/$id" ExtNone demo_web0) as [[i1 w1]|] eqn:E1;
    [|vm_compute in E1; discriminate].
  pose proof (http_info_new_ids _ _ _ _ _ _ H0 E1) as H1. simpl.
  destruct (http_info_new demo_student "student/$id?page=$page" ExtNone w1) as [[i2 w2]|] eqn:E2;
    [|exact H0].
  exact (http_info_new_ids _ _ _ _ _ _ H1 E2).
Qed.

(** The loop of [http_remove(func)] on a list of at least two infos:
    the first turn takes the first info out of the registry and empties
    the list, so the loop stops there. *)
Lemma remove_func_two w name i1 i2 rest w' :
  http_ids_ok w → w_http w !! name = Some (i1 :: i2 :: rest) →
  registered (w_registry w) i2 → http_remove_func w name = Ok w' →
  w_http w' !! name = Some [] ∧ registered (w_registry w') i2.
Proof.
  intros Hids Hl Hreg H.
  assert (hi_id i2 ≠ hi_id i1) as Hne.
  { destruct (Hids _ _ Hl) as [Hnd _]. simpl in Hnd. apply NoDup_cons in Hnd as [Hnd _].
    set_solver. }
  unfold http_remove_func in H. rewrite Hl in H. simpl in H. rewrite Hl in H. simpl in H.
  apply bind_Ok_inv in H as (r1 & Hr1 & H). simpl in H. rewrite lookup_insert_eq in H.
  simpl in H. injection H as <-. simpl. split; [apply lookup_insert_eq|].
  exact (reg_remove_keeps _ _ _ _ _ Hr1 Hne Hreg).
Qed.

(** C13: [http_remove(func)] empties the function's [http] list after
    the first iteration of its loop, so it takes only the latest
    registration out of the registry: an older URL of the function is
    still registered (and still dispatched) while [func.http] is empty. *)
Theorem http_remove_func_keeps_older w name i1 i2 rest w' :
  http_ids_ok w → w_http w !! name = Some (i1 :: i2 :: rest) →
  registered (w_registry w) i2 → http_remove_func w name = Ok w' →
  w_http w' !! name = Some [] ∧ registered (w_registry w') i2.
Proof. exact (remove_func_two w name i1 i2 rest w'). Qed.

Example http_remove_func_keeps_older_witness :
  http_ids_ok demo_web ∧ w_http demo_web !! "student" = Some [demo_new; demo_old] ∧
  registered (w_registry demo_web) demo_old ∧
  ∃ w', http_remove_func demo_web "student" = Ok w' ∧
        w_http w' !! "student" = Some [] ∧ registered (w_registry w') demo_old ∧
        invoke w' "/pupil/42" = Ok (demo_old, [Some "42"; Some "1"], ∅).
Proof.
  pose proof demo_web_ids as Hids.
  assert (Hl : w_http demo_web !! "student" = Some [demo_new; demo_old]) by (vm_compute; reflexivity).
  assert (Hr : registered (w_registry demo_web) demo_old) by (vm_compute; left).
  assert (Hrm : http_remove_func demo_web "student" =
                Ok (match http_remove_func demo_web "student" with Ok w => w | Err _ => demo_web end))
    by (vm_compute; reflexivity).
  destruct (http_remove_func_keeps_older _ _ _ _ _ _ Hids Hl Hr Hrm) as [H1 H2].
  split_and!; [done..|]. eexists. split_and!; [exact Hrm|exact H1|exact H2|].
  vm_compute. reflexivity.
Defined.

(** C21: The decorator accepts a pattern only when it binds every
    argument without a default, binds no argument twice, binds the
    extra positional arguments of [*args] without gaps, and uses no
    negative index; the info it returns is then registered. *)
Theorem http_binds_parameters f u ext w info w' :
  length (as_defaults (f_argspec f)) ≤ length (as_names (f_argspec f)) →
  http f u ext w = Ok (info, w') →
  hi_func info = f ∧ params_ok (f_argspec f) (params_of (hi_path info) (hi_query info)) ∧
  registered (w_registry w') info.
Proof.
  intros Hd H. unfold http in H.
  destruct (http_info_new_inv _ _ _ _ _ _ H) as (path & query & pp & pq & Hp & _ & Hf & Hpp & Hpq & _ & ->).
  split_and!; [done| |apply register_registered].
  rewrite Hpp, Hpq. exact (parse_url_ok _ _ _ _ _ Hd Hp).
Qed.

Example http_binds_parameters_witness :
  ∃ info w', http demo_student (Some "student/$id?page=$page") ExtNone demo_web0 = Ok (info, w') ∧
    params_ok (f_argspec demo_student) (params_of (hi_path info) (hi_query info)) ∧
    registered (w_registry w') info.
Proof.
  destruct (http demo_student (Some "student/$id?page=$page") ExtNone demo_web0) as [[info w']|] eqn:E;
    [|vm_compute in E; discriminate].
  exists info, w'.
  destruct (http_binds_parameters demo_student _ _ _ _ _ ltac:(vm_compute; lia) E) as (_ & H1 & H2).
  split_and!; [reflexivity|exact H1|exact H2].
Defined.

(** A positional value with a dot does not survive the round trip:
    [build_url] writes [/student/a.b?page=2], which [get_http_handlers]
    reads as the component [a] with the extension [.b], and no handler
    of the registry accepts it. *)
Example build_url_dotted_value_lost :
  build_url demo_new [Some "a.b"; Some "2"] ∅ = Ok "/student/a.b?page=2" ∧
  get_http_handlers (w_registry demo_web) "/student/a.b?page=2" = Ok [].
Proof. split; vm_compute; reflexivity. Qed.

(** A blank value does not survive the round trip: [build_url]
    writes [?page=], [parse_qsl] drops the blank value and the handler
    receives the default of [page] instead. *)
Example build_url_blank_value_default :
  build_url demo_new [Some "42"; Some EmptyString] ∅ = Ok "/student/42?page=" ∧
  get_http_handlers (w_registry demo_web) "/student/42?page=" =
    Ok [(demo_new, [Some "42"; Some "1"], ∅)].
Proof. split; vm_compute; reflexivity. Qed.
