(* ===== verification/WebRoundtrip.v ===== *)
(** * WebRoundtrip: a URL built by [build_url] is dispatched back to its
    handler by [get_http_handlers] of [src/pony/web.py].

    The main theorem [build_url_dispatch] follows a URL through both
    directions: the components [build_url] quotes are split and
    unquoted back, the query written with [quote_plus] is read back by
    [parse_qsl], the walk down the registry reaches the node of the
    info, and the argument list [get_http_handlers] rebuilds is the one
    [build_url] started from.  The hypotheses say where the round trip
    holds: the values are not empty and hold no dot, the extension is
    empty or a single dotted suffix, and the query names are distinct.
    The examples [Web.build_url_dotted_value_lost] and
    [Web.build_url_blank_value_default] show two places where it
    breaks: a dotted value is taken for an extension, and a blank query
    value is dropped by [parse_qsl] and replaced by the default. *)
From S2P Require Import Prelude Urllib Web.
From stdpp Require Import sorting.

(** ** Conditions of the round trip *)

(** A value that survives the trip: not empty and without a dot. *)
Definition value_clean (v : string) : Prop := v ≠ EmptyString ∧ "."%char ∉ str_chars v.
#[export] Instance value_clean_dec v : Decision (value_clean v).
Proof. unfold value_clean. apply _. Defined.

(** The extension [build_url] appends: none, or a dot followed by a text
    without dot, slash or question mark. *)
Definition ext_clean (e : string) : Prop :=
  e = EmptyString ∨
  ∃ e', e = String "." e' ∧ "."%char ∉ str_chars e' ∧ "/"%char ∉ str_chars e' ∧ "?"%char ∉ str_chars e'.

(** The bindings the loops of [get_http_handlers] insert. *)
Definition sel_pidx (cv : pcomp * string) : option (Z * string) :=
  match cv.1 with PParam (PIdx i) => Some (i, cv.2) | _ => None end.
Definition sel_pkey (cv : pcomp * string) : option (string * string) :=
  match cv.1 with PParam (PKey k) => Some (k, cv.2) | _ => None end.
Definition sel_qidx (params : gmap string string) (nc : string * pcomp) : option (Z * string) :=
  match nc.2, params !! nc.1 with PParam (PIdx i), Some v => Some (i, v) | _, _ => None end.
Definition sel_qkey (params : gmap string string) (nc : string * pcomp) : option (string * string) :=
  match nc.2, params !! nc.1 with PParam (PKey k), Some v => Some (k, v) | _, _ => None end.

(** A query item the loop of [get_http_handlers] accepts. *)
Definition qitem_ok (offset n : Z) (params : gmap string string) (nc : string * pcomp) : Prop :=
  match nc.2 with
  | PLit x => params !! nc.1 = Some x
  | PParam (PIdx i) => is_Some (params !! nc.1) ∨ (offset ≤ i < n)%Z
  | PParam (PKey _) => is_Some (params !! nc.1)
  end.

(** ** The query string *)

Lemma format_field_chars nv x :
  x ∈ ["&"; ";"]%char → x ∉ str_chars (quote_plus nv.1 +:+ "=" +:+ quote_plus nv.2).
Proof.
  intros Hx. rewrite !str_chars_app, !not_elem_of_app. split_and!.
  - apply quote_plus_no_sep. set_solver.
  - simpl. set_solver.
  - apply quote_plus_no_sep. set_solver.
Qed.

Lemma omap_filter {A} (P : A → Prop) `{∀ x, Decision (P x)} l :
  omap id (map (λ x, if bool_decide (P x) then Some x else None) l) = filter P l.
Proof.
  induction l as [|x l IH]; [done|].
  change (omap id (map ?g (x :: l))) with
    (match g x with Some y => y :: omap id (map g l) | None => omap id (map g l) end).
  cbv beta. case_bool_decide.
  - by rewrite filter_cons_True, IH.
  - by rewrite filter_cons_False, IH.
Qed.

(** [parse_qsl] without [keep_blank_values] reads back the query that
    [build_url] writes, without its blank values. *)
Lemma parse_qsl_format_query l :
  parse_qsl false false (format_query l) = Ok (filter (λ nv, nv.2 ≠ EmptyString) l).
Proof.
  destruct l as [|nv l]; [reflexivity|]. unfold parse_qsl, format_query.
  set (fields := (λ nv, quote_plus nv.1 +:+ "=" +:+ quote_plus nv.2) <$> (nv :: l)).
  rewrite py_split_concat.
  2:{ done. }
  2:{ apply Forall_forall. intros f (nv' & -> & _)%list_elem_of_fmap.
      apply format_field_chars. set_solver. }
  assert (Hj : mjoin (map (py_split ";") fields) = fields).
  { assert (Hf : Forall (λ f, ";"%char ∉ str_chars f) fields).
    { apply Forall_forall. intros f (nv' & -> & _)%list_elem_of_fmap.
      apply format_field_chars. set_solver. }
    clear -Hf. induction Hf as [|f fs Hf _ IH]; [done|]. simpl. by rewrite py_split_nosep, IH. }
  rewrite Hj.
  assert (Hm : mapM (parse_qsl_field false false) fields =
               Ok (map (λ nv, if bool_decide (nv.2 ≠ EmptyString) then Some nv else None) (nv :: l))).
  { apply mapM_Ok. unfold fields. generalize (nv :: l). intros l'.
    induction l' as [|[n v] l' IH]; constructor; [|done].
    exact (parse_qsl_field_quoted n v). }
  rewrite Hm. cbn [mbind result_bind]. f_equal. apply omap_filter.
Qed.

(** ** What [build_url] produced *)

Lemma params_of_nonneg info :
  info_ok info → Forall nonneg_param (params_of (hi_path info) (hi_query info)).
Proof.
  intros [Hok _]. apply Forall_forall. intros x Hx i ->. exact (po_nonneg _ _ Hok i Hx).
Qed.

Lemma Forall_join_map {A B} (P : B → Prop) (F : A → list B) l :
  Forall P (mjoin (map F l)) → Forall (λ x, Forall P (F x)) l.
Proof.
  induction l as [|x l IH]; simpl; [constructor|]. rewrite Forall_app. intros [??]. by constructor; [|apply IH].
Qed.

(** The URL [build_url] returns: the quoted texts of the path
    components, the first extension, and the query items that are not
    defaults; every parameter has been used. *)
Lemma build_url_spec info ip kp url :
  Forall nonneg_param (params_of (hi_path info) (hi_query info)) →
  build_url info ip kp = Ok url →
  ∃ texts qs,
    Forall2 (path_text ip kp) (hi_path info) texts ∧
    Forall2 (query_item_rel info ip kp) (hi_query info) qs ∧
    check_used info ip kp (foldl used_add (∅, ∅) (params_of (hi_path info) (hi_query info))) = Ok () ∧
    let P := String.concat "/" (quote path_safe <$> texts) in
    let e := default EmptyString (head (hi_ext info)) in
    let q := format_query (omap id qs) in
    url = if bool_decide (q = EmptyString) then "/" +:+ P +:+ e else "/" +:+ P +:+ e +:+ "?" +:+ q.
Proof.
  intros Hnn H. unfold params_of in Hnn. apply Forall_app in Hnn as [Hnp Hnq].
  apply Forall_join_map in Hnp, Hnq.
  unfold build_url in H. apply bind_Ok_inv in H as ([[path query] u] & E & H).
  apply stm_bind_Ok_inv in E as (path' & u1 & Hp & E).
  apply stm_bind_Ok_inv in E as (query' & u2 & Hq & E). injection E as <- <- <-.
  destruct (stm_mapM_Forall2_state _ _ (λ c s, ∃ t, s = quote path_safe t ∧ path_text ip kp c t)
              (λ u c, foldl used_add u (comp_params c))
              (λ c s y s' Hc Hy, build_path_item_spec info ip kp c s y s' Hc Hy)
              _ _ _ _ Hnp Hp) as [Hpf ->].
  destruct (stm_mapM_Forall2_state _ _ (query_item_rel info ip kp)
              (λ u nc, foldl used_add u (comp_params nc.2))
              (λ nc s y s' Hc Hy, build_query_item_spec info ip kp nc s y s' Hc Hy)
              _ _ _ _ Hnq Hq) as [Hqf ->].
  apply Forall2_exists_map in Hpf as (texts & -> & Hpt).
  apply bind_Ok_inv in H as ([] & Hc & H).
  exists texts, query'. split_and!; [done|done| |].
  - by rewrite !foldl_join, <-foldl_app in Hc.
  - simpl. case_bool_decide; by injection H.
Qed.

(** What the final checks of [build_url] guarantee: every keyword was
    used, and every positional value was used or equals its default. *)
Lemma check_used_sound info ip kp (u : used) :
  check_used info ip kp u = Ok () →
  (∀ i, i ∈ u.1 → (0 ≤ i)%Z ∧ Z.to_nat i < length ip) →
  (∀ k, k ∈ u.2 → is_Some (kp !! k)) →
  (∀ k, is_Some (kp !! k) → k ∈ u.2) ∧
  (∀ j v, ip !! j = Some v →
          Z.of_nat j ∈ u.1 ∨ py_getitem (b_defaults info) (Z.of_nat j - b_offset info)%Z = Ok v).
Proof.
  intros H Hu1 Hu2. unfold check_used in H.
  case_bool_decide as Hk; [discriminate|]. split.
  - assert (u.2 = dom kp) as Hdom.
    { apply set_subseteq_size_eq.
      - intros k Hk'. apply elem_of_dom. by apply Hu2.
      - rewrite size_dom. lia. }
    intros k Hs. rewrite Hdom. by apply elem_of_dom.
  - intros j v Hj. case_bool_decide as Hi.
    + apply bind_Ok_inv in H as (l & Hm & _). apply mapM_Ok in Hm.
      assert (Hij : imap pair ip !! j = Some (j, v)) by (rewrite list_lookup_imap, Hj; done).
      destruct (Forall2_lookup_l _ _ _ _ _ Hm Hij) as (y & _ & Hy). simpl in Hy.
      case_bool_decide; [by left|right].
      apply bind_Ok_inv in Hy as (d & Hd & Hy). case_bool_decide as Hne; [discriminate|].
      by subst.
    + left. assert (u.1 = list_to_set (seqZ 0 (Z.of_nat (length ip)))) as ->.
      { apply set_subseteq_size_eq.
        - intros i Hi'. apply elem_of_list_to_set, elem_of_seqZ. specialize (Hu1 i Hi'). lia.
        - rewrite size_list_to_set by apply NoDup_seqZ. rewrite length_seqZ. lia. }
      apply elem_of_list_to_set, elem_of_seqZ. apply lookup_lt_Some in Hj. lia.
Qed.

(** ** The loops of [get_http_handlers] *)

(** The path loop binds each parameter to the component at its
    position. *)
Lemma path_args_eq comps path :
  length path ≤ length comps →
  path_args comps path =
  Ok (foldl (ins_sel sel_pidx) ∅ (zip path comps), foldl (ins_sel sel_pkey) ∅ (zip path comps)).
Proof.
  unfold path_args. intros Hlen.
  match goal with |- foldM ?step _ _ = _ => set (F := step) end.
  assert (Hgen : ∀ m a1 a2, length path + m ≤ length comps →
    foldM F (a1, a2) (imap (λ k c, (m + k, c)) path) =
    Ok (foldl (ins_sel sel_pidx) a1 (zip path (drop m comps)),
        foldl (ins_sel sel_pkey) a2 (zip path (drop m comps)))).
  { clear Hlen. induction path as [|c path IH]; intros m a1 a2 Hl; [done|].
    rewrite imap_cons. simpl in Hl.
    destruct (drop m comps) as [|v vs] eqn:Hd.
    { apply (f_equal length) in Hd. rewrite length_drop in Hd. simpl in Hd. lia. }
    assert (Hv : py_getitem comps (Z.of_nat (m + 0)) = Ok v).
    { apply py_getitem_nonneg; [lia|]. rewrite Nat2Z.id, Nat.add_0_r.
      rewrite <-(Nat.add_0_r m), <-lookup_drop, Hd. done. }
    assert (Hd' : drop (S m) comps = vs).
    { rewrite <-Nat.add_1_r, <-drop_drop, Hd. done. }
    assert (Himap : imap ((λ k c, (m + k, c)) ∘ S) path = imap (λ k c, (S m + k, c)) path).
    { apply imap_ext. intros k x _. simpl. f_equal. lia. }
    assert (HF : F (a1, a2) (m + 0, c) = Ok (ins_sel sel_pidx a1 (c, v), ins_sel sel_pkey a2 (c, v))).
    { unfold F. destruct c as [x|[i|k]]; simpl; [done|rewrite Hv; done..]. }
    rewrite Himap. cbn [foldM]. rewrite HF, IH by lia. rewrite Hd'. done. }
  rewrite (imap_ext _ (λ k c, (0 + k, c))) by done.
  rewrite Hgen by lia. done.
Qed.

(** The query loop accepts every item or breaks, and binds the
    parameters it finds. *)
Lemma query_loop_eq offset n params q args kargs :
  Forall (qitem_ok offset n params) q →
  query_loop offset n params q args kargs =
  Some (foldl (ins_sel (sel_qidx params)) args q, foldl (ins_sel (sel_qkey params)) kargs q).
Proof.
  revert args kargs. induction q as [|[name c] q IH]; intros args kargs Hq; [done|].
  apply Forall_cons in Hq as [Hc Hq]. unfold qitem_ok in Hc. simpl in Hc. simpl.
  unfold ins_sel at 2 4, sel_qidx, sel_qkey. simpl.
  destruct c as [x|[i|k]].
  - rewrite bool_decide_true by done. rewrite IH by done.
    by destruct (params !! name).
  - destruct (params !! name) as [v|]; [by rewrite IH|].
    destruct Hc as [[? [=]]|Hc]. rewrite bool_decide_true by done. by rewrite IH.
  - destruct Hc as [v Hv]. rewrite Hv. by rewrite IH.
Qed.

Lemma query_loop_Some offset n params q args kargs r :
  query_loop offset n params q args kargs = Some r → Forall (qitem_ok offset n params) q.
Proof.
  revert args kargs. induction q as [|[name c] q IH]; intros args kargs H; [constructor|].
  simpl in H. constructor; [|destruct c as [x|[i|k]]; [case_bool_decide|destruct (params !! name)|destruct (params !! name)];
                             try case_bool_decide; try discriminate; by eapply IH].
  unfold qitem_ok. simpl. destruct c as [x|[i|k]].
  - by case_bool_decide.
  - destruct (params !! name); [by left|right]. by case_bool_decide.
  - by destruct (params !! name).
Qed.

(** ** The argument list *)

#[export] Instance key_le_trans : Transitive key_le.
Proof. intros [] [] []; unfold key_le; simpl; lia. Qed.
#[export] Instance key_le_total : Total key_le.
Proof. intros [] []; unfold key_le; simpl; lia. Qed.

Lemma dict_get_None {K V} `{EqDecision K} (k : K) (l : list (K * V)) :
  k ∉ l.*1 → dict_get k l = None.
Proof.
  induction l as [|[k' v] l IH]; [done|]. simpl. rewrite not_elem_of_cons. intros [? ?].
  rewrite decide_False by done. by apply IH.
Qed.

Lemma dict_get_Some {K V} `{EqDecision K} (k : K) v (l : list (K * V)) :
  NoDup l.*1 → (k, v) ∈ l → dict_get k l = Some v.
Proof.
  induction l as [|[k' v'] l IH]; intros Hnd Hin; [set_solver|]. simpl in *.
  apply NoDup_cons in Hnd as [Hk' Hnd]. apply elem_of_cons in Hin as [[= -> ->]|Hin].
  - by rewrite decide_True.
  - rewrite decide_False; [by apply IH|]. intros ->. apply Hk', list_elem_of_fmap. by exists (k', v).
Qed.

(** The loop [for i, value in sorted(args.items())] on keys sorted,
    distinct and, from the length of the list on, without a gap: each
    value is written at its index or appended. *)
Lemma foldM_set_or_append (A : list (option string)) (L : list (Z * string)) :
  StronglySorted key_le L → NoDup L.*1 → Forall (λ p, (0 ≤ p.1)%Z) L →
  (∀ j j', (Z.of_nat (length A) ≤ j' ≤ j)%Z → j ∈ L.*1 → j' ∈ L.*1) →
  ∃ A', foldM set_or_append A L = Ok A' ∧
        ∀ j, A' !! j = match dict_get (Z.of_nat j) L with Some t => Some (Some t) | None => A !! j end.
Proof.
  revert A. induction L as [|[i t] L IH]; intros A Hs Hnd Hpos Hcl.
  { exists A. split; [done|]. intros j. done. }
  apply StronglySorted_inv in Hs as [Hs Hle]. apply NoDup_cons in Hnd as [Hi Hnd].
  apply Forall_cons in Hpos as [Hi0 Hpos]. simpl in Hi0.
  assert (HiL : ∀ j t', dict_get j L = Some t' → j ≠ i).
  { intros j t' Hj ->. apply Hi. clear -Hj. induction L as [|[k v] L IH]; [done|].
    simpl in Hj. case_decide; [subst; by left|right; by apply IH]. }
  destruct (decide (i < Z.of_nat (length A))%Z) as [Hlt|Hge].
  - set (A1 := <[Z.to_nat i := Some t]> A).
    assert (Hstep : set_or_append A (i, t) = Ok A1).
    { unfold set_or_append, py_setitem, py_norm_index. simpl.
      rewrite (bool_decide_false (i < 0)%Z), bool_decide_true by lia. done. }
    destruct (IH A1) as (A' & HA' & Hlk); [done..| |].
    { intros j j' Hj Hin. unfold A1 in Hj. rewrite length_insert in Hj.
      assert (Hj' : j' ∈ ((i, t) :: L).*1) by (apply (Hcl j); [lia|simpl; by right]).
      simpl in Hj'. apply elem_of_cons in Hj' as [->|Hj']; [lia|done]. }
    exists A'. split; [simpl; by rewrite Hstep|]. intros j. rewrite Hlk. simpl.
    destruct (decide (Z.of_nat j = i)) as [<-|Hne].
    + try (rewrite decide_True by done). destruct (dict_get (Z.of_nat j) L) eqn:Hd.
      { by apply HiL in Hd. }
      unfold A1. rewrite Nat2Z.id. apply list_lookup_insert_eq. lia.
    + try (rewrite decide_False by done). destruct (dict_get _ L); [done|].
      unfold A1. rewrite list_lookup_insert_ne by lia. done.
  - assert (i = Z.of_nat (length A)) as ->.
    { assert (Hin : Z.of_nat (length A) ∈ ((i, t) :: L).*1) by (apply (Hcl i); [lia|simpl; by left]).
      simpl in Hin. apply elem_of_cons in Hin as [Heq|Hin]; [done|].
      apply list_elem_of_fmap in Hin as ([k v] & Hk & Hkin). simpl in Hk. subst k.
      rewrite Forall_forall in Hle. specialize (Hle _ Hkin). unfold key_le in Hle. simpl in Hle. lia. }
    set (A1 := A ++ [Some t]).
    assert (Hstep : set_or_append A (Z.of_nat (length A), t) = Ok A1).
    { unfold set_or_append, py_setitem, py_norm_index. simpl.
      rewrite (bool_decide_false (Z.of_nat (length A) < 0)%Z) by lia.
      rewrite bool_decide_false by lia. by rewrite bool_decide_true. }
    destruct (IH A1) as (A' & HA' & Hlk); [done..| |].
    { intros j j' Hj Hin. unfold A1 in Hj. rewrite length_app in Hj. simpl in Hj.
      assert (Hj' : j' ∈ ((Z.of_nat (length A), t) :: L).*1) by (apply (Hcl j); [lia|simpl; by right]).
      simpl in Hj'. apply elem_of_cons in Hj' as [->|Hj']; [lia|done]. }
    exists A'. split; [simpl; by rewrite Hstep|]. intros j. rewrite Hlk. simpl.
    destruct (decide (j = length A)) as [->|Hne].
    + try (rewrite decide_True by done). destruct (dict_get _ L) eqn:Hd; [by apply HiL in Hd|].
      unfold A1. rewrite lookup_app_r, Nat.sub_diag by lia. done.
    + try (rewrite decide_False by lia). destruct (dict_get _ L); [done|].
      unfold A1. destruct (decide (j < length A)).
      * by rewrite lookup_app_l.
      * rewrite lookup_app_r by lia. destruct (j - length A) as [|k] eqn:E; [lia|].
        simpl. symmetry. apply lookup_ge_None_2. lia.
Qed.

(** The argument list [get_http_handlers] builds: the bound arguments
    over the initial list of [None]s and defaults, provided the bound
    positions from the end of the initial list on have no gap. *)
Lemma build_arglist_spec n defaults args :
  (∀ i t, args !! i = Some t → (0 ≤ i)%Z) →
  (∀ j j', (Z.of_nat (length (initial_arglist n defaults)) ≤ j' ≤ j)%Z →
           is_Some (args !! j) → is_Some (args !! j')) →
  ∃ L, build_arglist n defaults args = Ok L ∧
       ∀ j, L !! j = match args !! Z.of_nat j with
                     | Some t => Some (Some t)
                     | None => initial_arglist n defaults !! j
                     end.
Proof.
  intros Hpos Hcl. unfold build_arglist.
  set (S := merge_sort key_le (map_to_list args)).
  assert (Hperm : S ≡ₚ map_to_list args) by apply merge_sort_Permutation.
  assert (Hnd : NoDup S.*1) by (rewrite Hperm; apply NoDup_fst_map_to_list).
  assert (Hin : ∀ k v, (k, v) ∈ S ↔ args !! k = Some v)
    by (intros k v; rewrite Hperm; apply elem_of_map_to_list).
  assert (Hin1 : ∀ k, k ∈ S.*1 ↔ is_Some (args !! k)).
  { intros k. rewrite list_elem_of_fmap. split.
    - intros ([k' v] & -> & Hkv). apply Hin in Hkv. by exists v.
    - intros [v Hv]. exists (k, v). split; [done|by apply Hin]. }
  destruct (foldM_set_or_append (initial_arglist n defaults) S) as (L & HL & Hlk).
  - apply StronglySorted_merge_sort; apply _.
  - done.
  - apply Forall_forall. intros [k v] Hkv. apply Hin in Hkv. exact (Hpos _ _ Hkv).
  - intros j j' Hj Hjin. apply Hin1. apply Hin1 in Hjin. exact (Hcl j j' Hj Hjin).
  - exists L. split; [done|]. intros j. rewrite Hlk.
    destruct (args !! Z.of_nat j) as [t|] eqn:Ht.
    + by rewrite (dict_get_Some _ t) by (done || by apply Hin).
    + rewrite dict_get_None; [done|]. rewrite Hin1, Ht. by intros [? ?].
Qed.

(** ** Reading a built URL back *)

Lemma quote_path_no_char t x :
  x ∈ ["/"; "?"]%char → x ∉ str_chars (quote path_safe t).
Proof. intros Hx. apply quote_no_char; [set_solver|by apply list_elem_of_In in Hx as [<-|[<-|[]]]|].
  unfold path_safe. set_solver. Qed.

Lemma quote_path_no_dot t : "."%char ∉ str_chars t → "."%char ∉ str_chars (quote path_safe t).
Proof.
  intros Ht Hx. destruct (quote_chars _ _ _ Hx) as [?|[(k & Hk & Heq)|[? _]]]; [done| |done].
  do 16 (destruct k as [|k]; [discriminate|]). lia.
Qed.

Lemma format_query_empty ql : format_query ql = EmptyString → ql = [].
Proof.
  destruct ql as [|nv ql]; [done|]. unfold format_query. rewrite fmap_cons.
  destruct ql as [|nv' ql]; simpl; [|change (String.concat "&" (?w :: ?l)) with (w +:+ "&" +:+ String.concat "&" l)];
    destruct (quote_plus nv.1); discriminate.
Qed.

Lemma py_dict_reverse {V} (l : list (string * V)) k : py_dict (reverse l) !! k = dict_get k l.
Proof.
  induction l as [|[k' v] l IH]; [done|]. unfold py_dict. rewrite reverse_cons, foldl_app. simpl.
  destruct (decide (k = k')) as [->|Hne]; [by rewrite lookup_insert_eq|].
  rewrite lookup_insert_ne by congruence. apply IH.
Qed.

Lemma map_unquote_quote ts : map unquote (quote path_safe <$> ts) = ts.
Proof.
  induction ts as [|t ts IH]; [done|]. rewrite fmap_cons. simpl.
  rewrite unquote_quote by (unfold path_safe; set_solver). by rewrite IH.
Qed.

(** [get_http_handlers] on a URL of the shape [build_url] writes: the
    components are the texts, the parameters those of the query without
    its blank values, and the extension the one appended. *)
Lemma get_http_handlers_built r texts e ql :
  texts ≠ [] → Forall value_clean texts → ext_clean e →
  get_http_handlers r
    (let P := String.concat "/" (quote path_safe <$> texts) in
     let q := format_query ql in
     if bool_decide (q = EmptyString) then "/" +:+ P +:+ e else "/" +:+ P +:+ e +:+ "?" +:+ q) =
  (hs ← mapM (match_info texts (py_dict (reverse (filter (λ nv, nv.2 ≠ EmptyString) ql))) e)
             (mjoin (map reg_handlers (foldl variants_step [r] texts)));
   mret (omap id hs)).
Proof.
  intros Hne Hclean He. set (P := String.concat "/" (quote path_safe <$> texts)).
  assert (HqP : "?"%char ∉ str_chars ("/" +:+ P +:+ e)).
  { rewrite !str_chars_app, !not_elem_of_app. split_and!; [set_solver| |].
    - intros [?|(w & Hw & Hx)]%concat_chars; [set_solver|].
      apply list_elem_of_fmap in Hw as (t & -> & _). revert Hx. apply quote_path_no_char. set_solver.
    - destruct He as [->|(e' & -> & _ & _ & ?)]; set_solver. }
  assert (Hlast : ∃ pre lt, "/" +:+ P = pre +:+ String "/" (quote path_safe lt) ∧ value_clean lt).
  { destruct (exists_last Hne) as (init & lt & Ht). exists (match init with [] => EmptyString | _ => "/" +:+ String.concat "/" (quote path_safe <$> init) end), lt.
    split; [|rewrite Ht, Forall_app, Forall_singleton in Hclean; by destruct Hclean].
    unfold P. rewrite Ht, fmap_app. change (quote path_safe <$> [lt]) with [quote path_safe lt].
    destruct init as [|t0 init]; [done|].
    rewrite concat_snoc by done. by rewrite !str_app_assoc. }
  destruct Hlast as (pre & lt & Hpre & Hlt_ne & Hlt_dot).
  assert (Hsx : splitext ("/" +:+ P +:+ e) = ("/" +:+ P, e)).
  { rewrite <-str_app_assoc, Hpre. apply splitext_app.
    - apply quote_path_no_char. set_solver.
    - by apply quote_path_no_dot.
    - destruct He as [->|(e' & -> & ? & ? & _)]; [by left|right].
      exists e'. split_and!; [done..|]. intros Hq. by apply quote_nonempty in Hq. }
  assert (Hcomp : drop_empty_head (map unquote (py_split "/" ("/" +:+ P))) = texts).
  { assert (HP : "/" +:+ P = String.concat "/" (EmptyString :: (quote path_safe <$> texts)))
      by (unfold P; destruct texts; [done|reflexivity]).
    rewrite HP, py_split_concat.
    - simpl. apply map_unquote_quote.
    - done.
    - constructor; [set_solver|]. apply Forall_fmap, Forall_true. intros t.
      apply quote_path_no_char. set_solver. }
  unfold get_http_handlers. case_bool_decide as Hq.
  - rewrite split_once_nosep by done. apply format_query_empty in Hq as ->.
    cbn [mbind result_bind mret result_ret]. rewrite Hsx, Hcomp. done.
  - replace ("/" +:+ P +:+ e +:+ "?" +:+ format_query ql)
      with (("/" +:+ P +:+ e) +:+ String "?" (format_query ql)) by (by rewrite !str_app_assoc).
    rewrite split_once_app by done. rewrite parse_qsl_format_query.
    cbn [mbind result_bind mret result_ret]. rewrite Hsx, Hcomp. done.
Qed.

(** ** The arguments rebound by [match_info] *)

Lemma elem_of_params_of x pp pq :
  x ∈ params_of pp pq ↔ PParam x ∈ pp ∨ ∃ name, (name, PParam x) ∈ pq.
Proof.
  unfold params_of. rewrite elem_of_app, !list_elem_of_join. split.
  - intros [(l & Hx & Hl)|(l & Hx & Hl)].
    + apply list_elem_of_In, in_map_iff in Hl as ([y|y] & <- & Hy); [set_solver|].
      apply list_elem_of_singleton in Hx as ->. left. by apply list_elem_of_In.
    + apply list_elem_of_In, in_map_iff in Hl as ([name [y|y]] & <- & Hy); [set_solver|].
      apply list_elem_of_singleton in Hx as ->. right. exists name. by apply list_elem_of_In.
  - intros [Hx|(name & Hx)].
    + left. exists [x]. split; [by left|]. apply list_elem_of_In, in_map_iff. exists (PParam x).
      split; [done|by apply list_elem_of_In].
    + right. exists [x]. split; [by left|]. apply list_elem_of_In, in_map_iff. exists (name, PParam x).
      split; [done|by apply list_elem_of_In].
Qed.

Lemma elem_of_zip_l {A B} (l1 : list A) (l2 : list B) x :
  length l1 = length l2 → x ∈ l1 → ∃ y, (x, y) ∈ zip l1 l2.
Proof.
  intros Hlen Hx. apply list_elem_of_lookup in Hx as [i Hi].
  destruct (lookup_lt_is_Some_2 l2 i) as [y Hy]; [apply lookup_lt_Some in Hi; lia|].
  exists y. apply list_elem_of_lookup. exists i. by rewrite lookup_zip_with, Hi, Hy.
Qed.

Section Bindings.
Context (path : list pcomp) (comps : list string) (params : gmap string string)
        (query : list (string * pcomp)).

Definition bound_args : gmap Z string :=
  foldl (ins_sel (sel_qidx params)) (foldl (ins_sel sel_pidx) ∅ (zip path comps)) query.
Definition bound_keys : gmap string string :=
  foldl (ins_sel (sel_qkey params)) (foldl (ins_sel sel_pkey) ∅ (zip path comps)) query.

Lemma bound_args_sound i t :
  bound_args !! i = Some t →
  (PParam (PIdx i), t) ∈ zip path comps ∨
  ∃ name, (name, PParam (PIdx i)) ∈ query ∧ params !! name = Some t.
Proof.
  unfold bound_args. intros [Hp|(nc & Hnc & Hs)]%foldl_ins_sound.
  - left. destruct (foldl_ins_sound _ _ _ _ _ Hp) as [Hp'|([c v] & Hcv & Hs)]; [by rewrite lookup_empty in Hp'|].
    unfold sel_pidx in Hs. simpl in Hs. destruct c as [|[]]; simplify_eq. done.
  - right. destruct nc as [name c]. unfold sel_qidx in Hs. simpl in Hs.
    destruct c as [|[]], (params !! name) eqn:?; simplify_eq. by exists name.
Qed.

Lemma bound_keys_sound k t :
  bound_keys !! k = Some t →
  (PParam (PKey k), t) ∈ zip path comps ∨
  ∃ name, (name, PParam (PKey k)) ∈ query ∧ params !! name = Some t.
Proof.
  unfold bound_keys. intros [Hp|(nc & Hnc & Hs)]%foldl_ins_sound.
  - left. destruct (foldl_ins_sound _ _ _ _ _ Hp) as [Hp'|([c v] & Hcv & Hs)]; [by rewrite lookup_empty in Hp'|].
    unfold sel_pkey in Hs. simpl in Hs. destruct c as [|[]]; simplify_eq. done.
  - right. destruct nc as [name c]. unfold sel_qkey in Hs. simpl in Hs.
    destruct c as [|[]], (params !! name) eqn:?; simplify_eq. by exists name.
Qed.

Lemma bound_args_path i t : (PParam (PIdx i), t) ∈ zip path comps → is_Some (bound_args !! i).
Proof. intros H. apply foldl_ins_mono. by apply (foldl_ins_complete _ _ _ _ _ t H). Qed.

Lemma bound_keys_path k t : (PParam (PKey k), t) ∈ zip path comps → is_Some (bound_keys !! k).
Proof. intros H. apply foldl_ins_mono. by apply (foldl_ins_complete _ _ _ _ _ t H). Qed.

Lemma bound_args_query name i v :
  (name, PParam (PIdx i)) ∈ query → params !! name = Some v → is_Some (bound_args !! i).
Proof. intros H Hv. apply (foldl_ins_complete _ _ _ _ _ v H). unfold sel_qidx. simpl. by rewrite Hv. Qed.

Lemma bound_keys_query name k v :
  (name, PParam (PKey k)) ∈ query → params !! name = Some v → is_Some (bound_keys !! k).
Proof. intros H Hv. apply (foldl_ins_complete _ _ _ _ _ v H). unfold sel_qkey. simpl. by rewrite Hv. Qed.
End Bindings.

Lemma elem_of_zip_fst {A B} (l1 : list A) (l2 : list B) a b : (a, b) ∈ zip l1 l2 → a ∈ l1.
Proof.
  intros H. apply list_elem_of_lookup in H as [i Hi]. rewrite lookup_zip_with in Hi.
  destruct (l1 !! i) eqn:E1, (l2 !! i); simplify_eq/=. apply list_elem_of_lookup. by exists i.
Qed.

Lemma length_initial_arglist n d :
  length d ≤ n → length (initial_arglist n d) = if bool_decide (length d = 0) then 0 else n.
Proof.
  intros Hd. unfold initial_arglist. rewrite length_app, length_take, length_replicate.
  case_bool_decide; lia.
Qed.

Section InfoBindings.
Context (info : http_info) (comps : list string) (params : gmap string string).
Context (Hok : info_ok info) (Hlen : length (hi_path info) = length comps).

Local Abbreviation spec := (f_argspec (hi_func info)).
Local Abbreviation n := (length (as_names spec)).
Local Abbreviation offset := (n_offset spec).
Local Abbreviation args := (bound_args (hi_path info) comps params (hi_query info)).

Lemma bound_args_param i t : args !! i = Some t → PIdx i ∈ params_of (hi_path info) (hi_query info).
Proof.
  intros [Hp|(name & Hq & _)]%bound_args_sound; apply elem_of_params_of; [left|right; by exists name].
  exact (elem_of_zip_fst _ _ _ _ Hp).
Qed.

(** A parameter the loop must bind: on the path, or outside the range
    of the arguments with defaults. *)
Lemma bound_args_forced i :
  Forall (qitem_ok offset (Z.of_nat n) params) (hi_query info) →
  PIdx i ∈ params_of (hi_path info) (hi_query info) →
  ¬ (offset ≤ i < Z.of_nat n)%Z → is_Some (args !! i).
Proof.
  intros Hq Hi Hrange. apply elem_of_params_of in Hi as [Hp|(name & Hn)].
  - destruct (elem_of_zip_l _ comps _ Hlen Hp) as [t Ht]. exact (bound_args_path _ _ _ _ _ _ Ht).
  - rewrite Forall_forall in Hq. specialize (Hq _ Hn). unfold qitem_ok in Hq. simpl in Hq.
    destruct Hq as [[v Hv]|]; [|done]. exact (bound_args_query _ _ _ _ _ _ _ Hn Hv).
Qed.

Lemma bound_args_closed :
  Forall (qitem_ok offset (Z.of_nat n) params) (hi_query info) →
  ∀ j j', (Z.of_nat (length (initial_arglist n (as_defaults spec))) ≤ j' ≤ j)%Z →
          is_Some (args !! j) → is_Some (args !! j').
Proof.
  intros Hq j j' Hj [t Ht]. destruct Hok as [Hpo _].
  pose proof (po_defaults _ _ Hpo) as Hd. rewrite length_initial_arglist in Hj by done.
  apply bound_args_param in Ht.
  assert (PIdx j' ∈ params_of (hi_path info) (hi_query info)) as Hj'.
  { destruct (decide (j' < offset)%Z).
    - apply (po_required _ _ Hpo). case_bool_decide; lia.
    - apply (po_extra _ _ Hpo j' j); [|done]. unfold n_names, n_offset in *.
      case_bool_decide as Hd0; [rewrite Hd0 in *|]; lia. }
  apply bound_args_forced; [done..|]. unfold n_offset in *. case_bool_decide as Hd0; lia.
Qed.
End InfoBindings.

(** Every info of the registry the walk reaches is matched without an
    exception: [match_info] never raises on a well-formed info. *)
Lemma match_info_total comps params e info :
  info_ok info → length (hi_path info) = length comps →
  ∃ o, match_info comps params e info = Ok o.
Proof.
  intros Hok Hlen. unfold match_info. case_bool_decide; [by eexists|].
  rewrite path_args_eq by lia. cbn [mbind result_bind].
  destruct (query_loop _ _ _ _ _ _) as [[args1 kargs1]|] eqn:Hq; [|by eexists].
  pose proof (query_loop_Some _ _ _ _ _ _ _ Hq) as Hqok.
  rewrite query_loop_eq in Hq by done. injection Hq as <- <-.
  destruct (build_arglist_spec (length (as_names (f_argspec (hi_func info))))
              (as_defaults (f_argspec (hi_func info)))
              (bound_args (hi_path info) comps params (hi_query info))) as (L & HL & _).
  - intros i t Ht.
    exact (po_nonneg _ _ (proj1 Hok) i (bound_args_param info comps params i t Ht)).
  - exact (bound_args_closed info comps params Hok Hlen Hqok).
  - unfold bound_args in HL. rewrite HL. by eexists.
Qed.

(** ** The info a URL was built from *)

Lemma used_fold_spec ps u :
  (∀ i, i ∈ (foldl used_add u ps).1 ↔ i ∈ u.1 ∨ PIdx i ∈ ps) ∧
  (∀ k, k ∈ (foldl used_add u ps).2 ↔ k ∈ u.2 ∨ PKey k ∈ ps).
Proof.
  revert u. induction ps as [|x ps IH]; intros u; simpl.
  - split; intros; set_solver.
  - destruct (IH (used_add u x)) as [H1 H2]. split; intros y; [rewrite H1|rewrite H2];
      destruct x; simpl; set_solver.
Qed.

Lemma Forall2_in_zip {A B} (R : A → B → Prop) l1 l2 a b :
  Forall2 R l1 l2 → (a, b) ∈ zip l1 l2 → R a b.
Proof.
  intros HR H. apply list_elem_of_lookup in H as [i Hi]. rewrite lookup_zip_with in Hi.
  destruct (l1 !! i) eqn:E1, (l2 !! i) eqn:E2; simplify_eq/=.
  exact (Forall2_lookup_lr _ _ _ _ _ _ HR E1 E2).
Qed.

Lemma Forall2_in_l {A B} (R : A → B → Prop) l1 l2 a :
  Forall2 R l1 l2 → a ∈ l1 → ∃ b, b ∈ l2 ∧ R a b.
Proof.
  intros HR Ha. apply list_elem_of_lookup in Ha as [i Hi].
  destruct (Forall2_lookup_l _ _ _ _ _ HR Hi) as (b & Hb & HRb).
  exists b. split; [apply list_elem_of_lookup; by exists i|done].
Qed.

Definition nonblank (v : string) : option string :=
  if bool_decide (v ≠ EmptyString) then Some v else None.

(** The query parameters [get_http_handlers] reads: each name of the
    pattern's query gives the value built for it, unless it was left
    out or blank. *)
Lemma built_params_lookup (hq : list (string * pcomp)) (qs : list (option (string * string))) nc o :
  Forall2 (λ nc o, ∀ nv, o = Some nv → nv.1 = nc.1) hq qs → NoDup hq.*1 →
  (nc, o) ∈ zip hq qs →
  dict_get nc.1 (filter (λ nv, nv.2 ≠ EmptyString) (omap id qs)) = o ≫= (λ nv, nonblank nv.2).
Proof.
  intros HR. induction HR as [|nc0 o0 hq qs Hno HR IH]; intros Hnd Hin; [set_solver|].
  apply NoDup_cons in Hnd as [Hn0 Hnd].
  assert (Hout : ∀ nv, nv ∈ omap id qs → nv.1 ∈ hq.*1).
  { intros nv Hnv. apply list_elem_of_omap in Hnv as (o' & Ho' & Hid). simpl in Hid. subst o'.
    clear -HR Ho'. induction HR as [|nc' o' hq' qs' Hno' HR' IH']; [set_solver|].
    apply elem_of_cons in Ho' as [<-|Ho']; simpl; rewrite elem_of_cons; [left; by rewrite (Hno' nv)|].
    right. by apply IH'. }
  assert (Habsent : ∀ k, k ∉ hq.*1 → dict_get k (filter (λ nv, nv.2 ≠ EmptyString) (omap id qs)) = None).
  { intros k Hk. apply dict_get_None. intros (nv & -> & Hnv)%list_elem_of_fmap.
    apply list_elem_of_filter in Hnv as [_ Hnv]. by apply Hk, Hout. }
  change (omap id (o0 :: qs)) with (match o0 with Some nv => nv :: omap id qs | None => omap id qs end).
  apply elem_of_cons in Hin as [[= -> ->]|Hin].
  - destruct o0 as [[name v]|]; simpl; [|by apply Habsent].
    specialize (Hno _ eq_refl). simpl in Hno. subst name. unfold nonblank. case_bool_decide.
    + rewrite filter_cons_True by (simpl; done). simpl. case_decide; [done|congruence].
    + rewrite filter_cons_False; [by apply Habsent|simpl; tauto].
  - assert (Hne : nc.1 ≠ nc0.1).
    { intros Heq. apply Hn0. rewrite <-Heq. apply list_elem_of_fmap. exists nc.
      split; [done|exact (elem_of_zip_fst _ _ _ _ Hin)]. }
    destruct o0 as [[name v]|]; [|by apply IH].
    specialize (Hno _ eq_refl). simpl in Hno. subst name.
    destruct (decide (v ≠ EmptyString)).
    + rewrite filter_cons_True by (simpl; done). simpl. case_decide; [congruence|]. by apply IH.
    + rewrite filter_cons_False; [by apply IH|simpl; tauto].
Qed.

Section Built.
Context (info : http_info) (ip : list (option string)) (kp : gmap string (option string))
        (texts : list string) (qs : list (option (string * string))).
Context (Hok : info_ok info)
        (Hpt : Forall2 (path_text ip kp) (hi_path info) texts)
        (Hqi : Forall2 (query_item_rel info ip kp) (hi_query info) qs)
        (Hnd : NoDup (hi_query info).*1)
        (Hlit : ∀ name x, (name, PLit x) ∈ hi_query info → x ≠ EmptyString)
        (Hval : ∀ x v, param_value ip kp x = Some (Some v) → v ≠ EmptyString).

Local Abbreviation params := (py_dict (reverse (filter (λ nv, nv.2 ≠ EmptyString) (omap id qs)))).
Local Abbreviation spec := (f_argspec (hi_func info)).

Lemma built_params nc o : (nc, o) ∈ zip (hi_query info) qs → params !! nc.1 = o ≫= (λ nv, nonblank nv.2).
Proof.
  intros Hin. rewrite py_dict_reverse. apply (built_params_lookup (hi_query info)); [|done|done].
  eapply Forall2_impl; [exact Hqi|]. intros [name c] o' Hr nv ->.
  unfold query_item_rel in Hr. simpl in Hr. destruct c as [x|x].
  - by injection Hr as ->.
  - destruct Hr as [[? _]|(t & Ht & _)]; [discriminate|]. by injection Ht as ->.
Qed.

Lemma built_item nc : nc ∈ hi_query info → ∃ o, (nc, o) ∈ zip (hi_query info) qs ∧ query_item_rel info ip kp nc o.
Proof.
  intros Hnc. destruct (elem_of_zip_l _ qs _ (Forall2_length _ _ _ Hqi) Hnc) as [o Ho].
  exists o. split; [done|exact (Forall2_in_zip _ _ _ _ _ Hqi Ho)].
Qed.

Lemma built_qitems :
  Forall (qitem_ok (n_offset spec) (Z.of_nat (length (as_names spec))) params) (hi_query info).
Proof.
  apply Forall_forall. intros [name c] Hnc. destruct (built_item _ Hnc) as (o & Ho & Hr).
  pose proof (built_params _ _ Ho) as Hp. unfold qitem_ok, query_item_rel in *. simpl in *.
  destruct c as [x|x].
  - subst o. simpl in Hp. unfold nonblank in Hp. rewrite bool_decide_true in Hp; [done|].
    exact (Hlit _ _ Hnc).
  - destruct Hr as [[-> (i & v & -> & Hrange & _)]|(t & -> & Ht)].
    + right. unfold n_offset, b_offset, b_names, b_defaults in *. lia.
    + simpl in Hp. unfold nonblank in Hp. rewrite bool_decide_true in Hp by exact (Hval _ _ Ht).
      destruct x; [left|]; by rewrite Hp.
Qed.

Lemma built_args_sound i t :
  bound_args (hi_path info) texts params (hi_query info) !! i = Some t →
  param_value ip kp (PIdx i) = Some (Some t).
Proof.
  intros [Hp|(name & Hq & Hv)]%bound_args_sound.
  - exact (Forall2_in_zip _ _ _ _ _ Hpt Hp).
  - destruct (built_item _ Hq) as (o & Ho & Hr). pose proof (built_params _ _ Ho) as Hp.
    simpl in Hp. rewrite Hv in Hp. unfold query_item_rel in Hr. simpl in Hr.
    destruct Hr as [[-> _]|(t' & -> & Ht')]; [discriminate|]. simpl in Hp.
    unfold nonblank in Hp. case_bool_decide; [|discriminate]. by injection Hp as ->.
Qed.

Lemma built_keys_sound k t :
  bound_keys (hi_path info) texts params (hi_query info) !! k = Some t → kp !! k = Some (Some t).
Proof.
  intros [Hp|(name & Hq & Hv)]%bound_keys_sound.
  - exact (Forall2_in_zip _ _ _ _ _ Hpt Hp).
  - destruct (built_item _ Hq) as (o & Ho & Hr). pose proof (built_params _ _ Ho) as Hp.
    simpl in Hp. rewrite Hv in Hp. unfold query_item_rel in Hr. simpl in Hr.
    destruct Hr as [[-> _]|(t' & -> & Ht')]; [discriminate|]. simpl in Hp.
    unfold nonblank in Hp. case_bool_decide; [|discriminate]. by injection Hp as ->.
Qed.

Lemma built_param_value x :
  x ∈ params_of (hi_path info) (hi_query info) → is_Some (param_value ip kp x).
Proof.
  intros [Hp|(name & Hq)]%elem_of_params_of.
  - destruct (elem_of_zip_l _ texts _ (Forall2_length _ _ _ Hpt) Hp) as [t Ht].
    pose proof (Forall2_in_zip _ _ _ _ _ Hpt Ht) as Hv. simpl in Hv. by rewrite Hv.
  - destruct (built_item _ Hq) as (o & _ & Hr). unfold query_item_rel in Hr. simpl in Hr.
    destruct Hr as [[_ (i & v & -> & _ & Hv & _)]|(t & _ & Hv)]; by rewrite Hv.
Qed.

Context (Hcu : check_used info ip kp (foldl used_add (∅, ∅) (params_of (hi_path info) (hi_query info))) = Ok ())
        (Hnames : length (as_names spec) ≤ length ip).

Lemma built_check_used :
  (∀ k, is_Some (kp !! k) → PKey k ∈ params_of (hi_path info) (hi_query info)) ∧
  (∀ j v, ip !! j = Some v →
          PIdx (Z.of_nat j) ∈ params_of (hi_path info) (hi_query info) ∨
          py_getitem (b_defaults info) (Z.of_nat j - b_offset info)%Z = Ok v).
Proof.
  destruct (used_fold_spec (params_of (hi_path info) (hi_query info)) (∅, ∅)) as [Hu1 Hu2].
  destruct (check_used_sound _ _ _ _ Hcu) as [Hk Hi].
  - intros i Hin. apply Hu1 in Hin as [Hin|Hin]; [set_solver|].
    split; [exact (po_nonneg _ _ (proj1 Hok) _ Hin)|].
    destruct (built_param_value _ Hin) as [v Hv]. simpl in Hv. by apply lookup_lt_Some in Hv.
  - intros k Hin. apply Hu2 in Hin as [Hin|Hin]; [set_solver|].
    exact (built_param_value _ Hin).
  - split.
    + intros k Hs. apply Hk in Hs. apply Hu2 in Hs as [Hs|Hs]; [set_solver|done].
    + intros j v Hj. destruct (Hi j v Hj) as [Hin|?]; [left|by right].
      apply Hu1 in Hin as [Hin|Hin]; [set_solver|done].
Qed.

(** An argument [get_http_handlers] leaves unbound holds its default. *)
Lemma built_unbound_default j v :
  ip !! j = Some v → bound_args (hi_path info) texts params (hi_query info) !! Z.of_nat j = None →
  (n_offset spec ≤ Z.of_nat j < Z.of_nat (length (as_names spec)))%Z ∧
  as_defaults spec !! Z.to_nat (Z.of_nat j - n_offset spec) = Some v.
Proof.
  intros Hj Hb. pose proof (Forall2_length _ _ _ Hpt) as Hlen.
  assert (Hparam : PIdx (Z.of_nat j) ∈ params_of (hi_path info) (hi_query info) →
                   (n_offset spec ≤ Z.of_nat j < Z.of_nat (length (as_names spec)))%Z ∧
                   as_defaults spec !! Z.to_nat (Z.of_nat j - n_offset spec) = Some v).
  { intros Hin. assert (Hr : (n_offset spec ≤ Z.of_nat j < Z.of_nat (length (as_names spec)))%Z).
    { destruct (decide (n_offset spec ≤ Z.of_nat j < Z.of_nat (length (as_names spec)))%Z); [done|].
      destruct (bound_args_forced info texts params Hlen (Z.of_nat j) built_qitems Hin) as [? Hs]; [done|].
      congruence. }
    split; [done|]. apply elem_of_params_of in Hin as [Hp|(name & Hq)].
    - destruct (elem_of_zip_l _ texts _ Hlen Hp) as [t Ht].
      destruct (bound_args_path _ _ params (hi_query info) _ _ Ht) as [? Hs]. congruence.
    - destruct (built_item _ Hq) as (o & Ho & Hrel). unfold query_item_rel in Hrel. simpl in Hrel.
      destruct Hrel as [[_ (i & v' & [= <-] & _ & Hv' & Hd)]|(t & -> & Ht)].
      + simpl in Hv'. rewrite Nat2Z.id, Hj in Hv'. injection Hv' as <-.
        unfold b_defaults, b_offset, n_offset, b_names in *. done.
      + pose proof (built_params _ _ Ho) as Hp. simpl in Hp.
        unfold nonblank in Hp. rewrite bool_decide_true in Hp by exact (Hval (PIdx _) _ Ht).
        destruct (bound_args_query (hi_path info) texts _ _ _ _ _ Hq Hp) as [? Hs]. congruence. }
  destruct (proj2 built_check_used j v Hj) as [Hin|Hg]; [by apply Hparam|].
  destruct (decide (Z.of_nat j < n_offset spec)%Z) as [Hlt|Hge].
  - apply Hparam, (po_required _ _ (proj1 Hok)). lia.
  - unfold b_defaults, b_offset, b_names, n_offset in *.
    assert (Hnn : (0 ≤ Z.of_nat j - (Z.of_nat (length (as_names spec)) - Z.of_nat (length (as_defaults spec))))%Z) by lia.
    apply (py_getitem_nonneg _ _ _ Hnn) in Hg.
    pose proof (lookup_lt_Some _ _ _ Hg) as Hlt. split; [|done]. lia.
Qed.

(** The argument list rebuilt by [get_http_handlers] is the list
    [build_url] received. *)
Lemma built_arglist :
  build_arglist (length (as_names spec)) (as_defaults spec)
    (bound_args (hi_path info) texts params (hi_query info)) = Ok ip.
Proof.
  pose proof (Forall2_length _ _ _ Hpt) as Hlen. pose proof (po_defaults _ _ (proj1 Hok)) as Hd.
  destruct (build_arglist_spec (length (as_names spec)) (as_defaults spec)
              (bound_args (hi_path info) texts params (hi_query info))) as (L & HL & Hlk).
  - intros i t Ht. exact (po_nonneg _ _ (proj1 Hok) i (bound_args_param info texts params i t Ht)).
  - exact (bound_args_closed info texts params Hok Hlen built_qitems).
  - rewrite HL. f_equal. apply list_eq. intros j. rewrite Hlk.
    destruct (bound_args _ _ _ _ !! Z.of_nat j) as [t|] eqn:Hb.
    + apply built_args_sound in Hb. simpl in Hb. by rewrite Nat2Z.id in Hb.
    + destruct (ip !! j) as [v|] eqn:Hj.
      * destruct (built_unbound_default j v Hj Hb) as [Hr Hdef].
        unfold initial_arglist, n_offset in *. rewrite bool_decide_false by (intros Hz; rewrite Hz in Hr; lia).
        rewrite lookup_app_r; rewrite length_take, length_replicate; [|lia].
        rewrite <-Hdef. f_equal. lia.
      * apply lookup_ge_None_2. rewrite length_initial_arglist by done.
        apply lookup_ge_None_1 in Hj. case_bool_decide; lia.
Qed.

Lemma built_keyargs : kp = Some <$> bound_keys (hi_path info) texts params (hi_query info).
Proof.
  pose proof (Forall2_length _ _ _ Hpt) as Hlen.
  apply map_eq. intros k. rewrite lookup_fmap.
  destruct (bound_keys _ _ _ _ !! k) as [t|] eqn:Hb; [exact (built_keys_sound _ _ Hb)|].
  destruct (kp !! k) as [w|] eqn:Hk; [exfalso|done].
  assert (Hin : PKey k ∈ params_of (hi_path info) (hi_query info))
    by (apply (proj1 built_check_used); by rewrite Hk).
  apply elem_of_params_of in Hin as [Hp|(name & Hq)].
  - destruct (elem_of_zip_l _ texts _ Hlen Hp) as [t Ht].
    destruct (bound_keys_path _ _ params (hi_query info) _ _ Ht) as [? Hs]. congruence.
  - destruct (built_item _ Hq) as (o & Ho & Hrel). unfold query_item_rel in Hrel. simpl in Hrel.
    destruct Hrel as [[_ (i & v' & [=] & _)]|(t & -> & Ht)].
    pose proof (built_params _ _ Ho) as Hp. simpl in Hp.
    unfold nonblank in Hp. rewrite bool_decide_true in Hp by exact (Hval (PKey _) _ Ht).
    destruct (bound_keys_query (hi_path info) texts _ _ _ _ _ Hq Hp) as [? Hs]. congruence.
Qed.

(** [match_info] on the info the URL was built from returns the
    arguments [build_url] started from. *)
Lemma match_info_built :
  match_info texts params (default EmptyString (head (hi_ext info))) info =
  Ok (Some (info, ip, bound_keys (hi_path info) texts params (hi_query info))).
Proof.
  pose proof (Forall2_length _ _ _ Hpt) as Hlen. unfold match_info.
  rewrite bool_decide_false.
  2:{ intros Hn. apply Hn. destruct (hi_ext info) as [|e0 es] eqn:He; [by destruct (proj2 Hok)|].
      simpl. by left. }
  rewrite path_args_eq by lia. cbn [mbind result_bind].
  rewrite query_loop_eq by exact built_qitems.
  fold (bound_args (hi_path info) texts params (hi_query info)).
  fold (bound_keys (hi_path info) texts params (hi_query info)).
  rewrite built_arglist. done.
Qed.
End Built.

(** ** The round trip *)

Lemma mapM_total {A B} (f : A → result B) l :
  (∀ x, x ∈ l → ∃ y, f x = Ok y) → ∃ ys, mapM f l = Ok ys.
Proof.
  induction l as [|x l IH]; intros Hall; [by exists []|].
  destruct (Hall x) as [y Hy]; [by left|]. destruct IH as [ys Hys]; [set_solver|].
  exists (y :: ys). simpl. by rewrite Hy, Hys.
Qed.

Lemma mapM_elem_Ok {A B} (f : A → result B) l ys x y :
  mapM f l = Ok ys → x ∈ l → f x = Ok y → y ∈ ys.
Proof.
  intros Hm%mapM_Ok Hx Hy. apply list_elem_of_lookup in Hx as [i Hi].
  destruct (Forall2_lookup_l _ _ _ _ _ Hm Hi) as (y' & Hy' & Hf).
  rewrite Hy in Hf. injection Hf as <-. apply list_elem_of_lookup. by exists i.
Qed.

(** The keys of a pattern match the components [build_url] writes for it. *)
Lemma info_keys_match ip kp info texts :
  Forall2 (path_text ip kp) (hi_path info) texts → Forall2 key_matches (info_keys info) texts.
Proof.
  intros Hpt. unfold info_keys. apply Forall2_fmap_l. eapply Forall2_impl; [exact Hpt|].
  intros [x|x] t H; simpl in *; [left; by rewrite H|by right].
Qed.

Lemma built_texts_clean ip kp info texts :
  (∀ x, PLit x ∈ hi_path info → value_clean x) →
  (∀ x v, param_value ip kp x = Some (Some v) → value_clean v) →
  Forall2 (path_text ip kp) (hi_path info) texts → Forall value_clean texts.
Proof.
  intros Hpl Hval Hpt. apply Forall2_flip in Hpt. apply Forall_forall. intros t Ht.
  destruct (Forall2_in_l _ _ _ _ Hpt Ht) as ([x|x] & Hc & Hct); simpl in Hct.
  - subst. by apply Hpl.
  - exact (Hval _ _ Hct).
Qed.

(** Every info the walk over the components reaches is matched without
    an exception, so [get_http_handlers] returns a list. *)
Lemma walk_total r texts params e :
  reg_wf r →
  ∃ hs, mapM (match_info texts params e) (mjoin (map reg_handlers (foldl variants_step [r] texts))) = Ok hs.
Proof.
  intros Hwf. apply mapM_total. intros i Hi.
  apply list_elem_of_join in Hi as (hsl & Hi & Hl). apply list_elem_of_In, in_map_iff in Hl as (node & <- & Hnode).
  apply list_elem_of_In in Hnode.
  destruct (variants_sound _ _ _ Hnode) as (r0 & ks & Hr0 & Hks & Hat).
  apply list_elem_of_singleton in Hr0 as ->.
  assert (Hin : i ∈ reg_handlers_at ks r) by (unfold reg_handlers_at; rewrite Hat; done).
  destruct (Hwf _ _ Hin) as [Hk Hok]. apply match_info_total; [done|].
  rewrite <-(Forall2_length _ _ _ Hks), <-Hk. unfold info_keys. by rewrite length_map.
Qed.

(** The walk reaches every registered info whose keys match. *)
Lemma walk_complete r info texts :
  registered r info → Forall2 key_matches (info_keys info) texts →
  info ∈ mjoin (map reg_handlers (foldl variants_step [r] texts)).
Proof.
  intros Hreg Hks. unfold registered, reg_handlers_at in Hreg.
  destruct (reg_at (info_keys info) r) as [node|] eqn:Hat; simpl in Hreg; [|set_solver].
  apply list_elem_of_join. exists (reg_handlers node). split; [done|].
  apply list_elem_of_In, in_map_iff. exists node. split; [done|].
  apply list_elem_of_In. apply (variants_complete _ _ _ r _ Hks); [by left|done].
Qed.

(** C4: Round trip of [build_url] and [get_http_handlers]: in a well
    formed registry, the URL [build_url] writes for a registered info
    from positional values [ip] (one for every named argument) and
    keyword values [kp] is dispatched back to that info with exactly the
    values [ip] and the keyword values of [kp], provided the values and
    the pattern's literals are clean (not empty, no dot), the extension
    is clean and the query names of the pattern are distinct. *)
Theorem build_url_dispatch r info ip kp u :
  reg_wf r → registered r info →
  hi_path info ≠ [] → NoDup (hi_query info).*1 →
  (∀ name x, (name, PLit x) ∈ hi_query info → x ≠ EmptyString) →
  (∀ x, PLit x ∈ hi_path info → value_clean x) →
  ext_clean (default EmptyString (head (hi_ext info))) →
  (∀ x v, param_value ip kp x = Some (Some v) → value_clean v) →
  length (as_names (f_argspec (hi_func info))) ≤ length ip →
  build_url info ip kp = Ok u →
  ∃ hs ka, get_http_handlers r u = Ok hs ∧ (info, ip, ka) ∈ hs ∧ kp = Some <$> ka.
Proof.
  intros Hwf Hreg Hpne Hnd Hlit Hpl He Hclean Hn Hb.
  destruct (Hwf _ _ Hreg) as [_ Hok].
  destruct (build_url_spec info ip kp u) as (texts & qs & Hpt & Hqi & Hcu & ->); [|done|].
  { apply Forall_forall. intros x Hx i ->. exact (po_nonneg _ _ (proj1 Hok) i Hx). }
  assert (Hval : ∀ x v, param_value ip kp x = Some (Some v) → v ≠ EmptyString)
    by (intros x v Hx; exact (proj1 (Hclean _ _ Hx))).
  rewrite get_http_handlers_built.
  2:{ intros ->. apply Forall2_length in Hpt. destruct (hi_path info); [done|discriminate]. }
  2:{ exact (built_texts_clean _ _ _ _ Hpl Hclean Hpt). }
  2:{ done. }
  destruct (walk_total r texts (py_dict (reverse (filter (λ nv, nv.2 ≠ EmptyString) (omap id qs))))
              (default EmptyString (head (hi_ext info))) Hwf) as [ys Hys].
  pose proof (match_info_built info ip kp texts qs) as Hm.
  repeat match type of Hm with ?P → _ => specialize (Hm ltac:(assumption)) end.
  exists (omap id ys), (bound_keys (hi_path info) texts
                          (py_dict (reverse (filter (λ nv, nv.2 ≠ EmptyString) (omap id qs))))
                          (hi_query info)).
  rewrite Hys. split_and!; [done| |].
  - apply list_elem_of_omap. eexists. split; [|reflexivity].
    exact (mapM_elem_Ok _ _ _ _ _ Hys (walk_complete _ _ _ Hreg (info_keys_match _ _ _ _ Hpt)) Hm).
  - pose proof (built_keyargs info ip kp texts qs) as Hk.
    repeat match type of Hk with ?P → _ => specialize (Hk ltac:(assumption)) end. exact Hk.
Qed.

(** The demo registry of [Web] is well formed and holds [demo_new]. *)
Lemma demo_web_wf : reg_wf (w_registry demo_web) ∧ registered (w_registry demo_web) demo_new.
Proof.
  assert (H0 : reg_wf (w_registry demo_web0)).
  { intros [|k ks] i; simpl; [set_solver|]. unfold reg_handlers_at. simpl. set_solver. }
  unfold demo_web, demo_new, demo_reg.
  destruct (http_info_new demo_student "pupil/$id" ExtNone demo_web0) as [[i1 w1]|] eqn:E1;
    [|vm_compute in E1; discriminate].
  destruct (http_info_new_wf demo_student _ _ _ _ _ ltac:(vm_compute; lia) H0 E1) as [H1 _]. simpl.
  destruct (http_info_new demo_student "student/$id?page=$page" ExtNone w1) as [[i2 w2]|] eqn:E2.
  - destruct (http_info_new_wf demo_student _ _ _ _ _ ltac:(vm_compute; lia) H1 E2) as (H2 & Hr & _). done.
  - exfalso. revert E2. vm_compute in E1. injection E1 as <- <-. vm_compute. discriminate.
Qed.

Example build_url_dispatch_witness :
  build_url demo_new [Some "42"; Some "2"] ∅ = Ok "/student/42?page=2" ∧
  ∃ hs ka, get_http_handlers (w_registry demo_web) "/student/42?page=2" = Ok hs ∧
           (demo_new, [Some "42"; Some "2"], ka) ∈ hs ∧ ∅ = Some <$> ka.
Proof.
  assert (Hb : build_url demo_new [Some "42"; Some "2"] ∅ = Ok "/student/42?page=2")
    by (vm_compute; reflexivity).
  split; [exact Hb|].
  apply (build_url_dispatch (w_registry demo_web) demo_new [Some "42"; Some "2"] ∅).
  - exact (proj1 demo_web_wf).
  - exact (proj2 demo_web_wf).
  - vm_compute. discriminate.
  - vm_compute. apply NoDup_singleton.
  - vm_compute. intros name x Hx. apply list_elem_of_singleton in Hx. discriminate.
  - intros x Hx. vm_compute in Hx. apply elem_of_cons in Hx as [Hx|Hx];
      [injection Hx as ->; apply (bool_decide_eq_true_1 (value_clean _)); vm_compute; reflexivity|].
    apply list_elem_of_singleton in Hx. discriminate.
  - vm_compute. by left.
  - intros [i|k] v Hx; simpl in Hx; [|by rewrite lookup_empty in Hx].
    apply list_elem_of_lookup_2 in Hx.
    apply elem_of_cons in Hx as [[= ->]|Hx]; [apply (bool_decide_eq_true_1 (value_clean _)); vm_compute; reflexivity|].
    apply list_elem_of_singleton in Hx as [= ->]. apply (bool_decide_eq_true_1 (value_clean _)); vm_compute; reflexivity.
  - vm_compute. lia.
  - exact Hb.
Defined.
