(* ===== verification/WebState.v ===== *)
(** * WebState: the registry of [src/pony/web.py] as a state machine.

    The state [web] changes through four operations: the decorator
    [http] (via [HttpInfo.__init__]), [http_remove(url)],
    [http_remove(func)] and [http_clear()].  [web_step] is one of them
    and [reachable] the states a program reaches from the empty
    registry of [http_registry = ({}, [])].  The theorems show, by
    induction on the steps, that every reachable state keeps the
    registry well formed (each info at the keys of its own path and
    accepted by [check]) and the identities of the infos fresh.  From a
    state where every registered info is still in its function's
    [http] list, [http_clear()] completes and empties the registry;
    after [http_remove(func)] that no longer holds and [http_clear()]
    raises.  Two more examples show where the decorator and [url()]
    raise. *)
From S2P Require Import Prelude Urllib Web.

(** [http_registry = ({}, [])] and no function decorated yet. *)
Definition initial_web : web := Web empty_registry ∅ 0.

(** Every info of the registry has an identity below the next one. *)
Definition reg_ids_below (w : web) : Prop :=
  ∀ ks i, i ∈ reg_handlers_at ks (w_registry w) → hi_id i < w_next w.

(** One operation on the registry.  [inspect.getargspec] never gives
    more defaults than names, which the decorator step assumes. *)
Inductive web_step (w w' : web) : Prop :=
  | StepHttp f u ext info :
      length (as_defaults (f_argspec f)) ≤ length (as_names (f_argspec f)) →
      http f u ext w = Ok (info, w') → web_step w w'
  | StepRemoveUrl u : http_remove_url w u = Ok w' → web_step w w'
  | StepRemoveFunc name : http_remove_func w name = Ok w' → web_step w w'
  | StepClear : http_clear w = Ok w' → web_step w w'.

Inductive reachable : web → Prop :=
  | reach_init : reachable initial_web
  | reach_step w w' : reachable w → web_step w w' → reachable w'.


(** [info.func.http.remove(info)] can succeed: the identity of the info
    is in its function's [http] list. *)
Definition info_in_http (w : web) (i : http_info) : bool :=
  bool_decide (hi_id i ∈ hi_id <$> default [] (w_http w !! fname i)).

(** Every info of the registry is in its function's [http] list, and
    the infos of the registry are distinct objects. *)
Definition http_consistent (w : web) : bool :=
  forallb (info_in_http w) (reg_infos (w_registry w)) &&
  bool_decide (NoDup (hi_id <$> reg_infos (w_registry w))).

(** The invariant of the registry. *)
Definition web_inv (w : web) : Prop := reg_wf (w_registry w) ∧ http_ids_ok w ∧ reg_ids_below w.

(** ** Generic lemmas *)

Lemma foldM_inv {A B} (P : A → Prop) (f : A → B → result A) :
  (∀ a x a', P a → f a x = Ok a' → P a') → ∀ l a a', P a → foldM f a l = Ok a' → P a'.
Proof.
  intros Hf l. induction l as [|x l IH]; intros a a' Ha H; simpl in H; [by injection H as <-|].
  destruct (f a x) as [a1|] eqn:E; [|discriminate]. exact (IH _ _ (Hf _ _ _ Ha E) H).
Qed.

Lemma remove_info_sublist info l l' : remove_info info l = Ok l' → sublist l' l.
Proof.
  revert l'. induction l as [|j l IH]; intros l' H; simpl in H; [discriminate|].
  case_decide.
  - injection H as <-. by apply sublist_cons.
  - apply bind_Ok_inv in H as (l'' & Hl & [= <-]). apply sublist_skip. by apply IH.
Qed.

(** ** The invariant of the [http] lists *)

Definition http_map_ok (http : gmap string (list http_info)) (next : nat) : Prop :=
  ∀ name l, http !! name = Some l → NoDup (hi_id <$> l) ∧ Forall (λ i, hi_id i < next) l.

Lemma http_map_ok_empty next : http_map_ok ∅ next.
Proof. intros name l. by rewrite lookup_empty. Qed.

Lemma func_remove_ok info http http' next :
  func_remove info http = Ok http' → http_map_ok http next → http_map_ok http' next.
Proof.
  unfold func_remove. intros H Hok. apply bind_Ok_inv in H as (l' & Hl & [= <-]).
  apply remove_info_sublist in Hl.
  intros name l. destruct (decide (name = fname info)) as [->|Hne].
  - rewrite lookup_insert_eq. intros [= <-].
    destruct (http !! fname info) as [l0|] eqn:E; simpl in Hl.
    + destruct (Hok _ _ E) as [Hnd Hlt]. split.
      * eapply sublist_NoDup; [exact Hnd|]. by apply fmap_sublist.
      * rewrite Forall_forall in *. intros x Hx. apply Hlt.
        eapply elem_of_submseteq; [exact Hx|]. by apply sublist_submseteq.
    + apply sublist_nil_r in Hl as ->. split; constructor.
  - rewrite lookup_insert_ne by done. apply Hok.
Qed.

Lemma http_map_ok_clear http name next : http_map_ok http next → http_map_ok (<[name := []]> http) next.
Proof.
  intros Hok n l. destruct (decide (n = name)) as [->|Hne].
  - rewrite lookup_insert_eq. intros [= <-]. split; constructor.
  - rewrite lookup_insert_ne by done. apply Hok.
Qed.

(** ** Each operation keeps the invariant *)

Lemma reg_remove_ids_below ks info w r :
  reg_remove ks info (w_registry w) = Ok r → reg_ids_below w →
  ∀ ks' i, i ∈ reg_handlers_at ks' r → hi_id i < w_next w.
Proof.
  intros H Hb ks' i Hi. destruct (reg_remove_at _ _ _ _ H) as (l' & Hl' & Hat).
  rewrite Hat in Hi. apply (Hb ks'). case_decide; [subst ks'|done].
  exact (remove_info_subset _ _ _ _ Hl' Hi).
Qed.

Lemma http_step_inv f u ext w info w' :
  length (as_defaults (f_argspec f)) ≤ length (as_names (f_argspec f)) →
  http f u ext w = Ok (info, w') → web_inv w → web_inv w'.
Proof.
  intros Hd H (Hwf & Hids & Hb). unfold http in H.
  split_and!.
  - exact (proj1 (http_info_new_wf _ _ _ _ _ _ Hd Hwf H)).
  - exact (http_info_new_ids _ _ _ _ _ _ Hids H).
  - destruct (http_info_new_inv _ _ _ _ _ _ H) as (_ & _ & _ & _ & _ & Hid & _ & _ & _ & _ & ->).
    intros ks i Hi. simpl. unfold register in Hi. simpl in Hi.
    rewrite reg_insert_at in Hi. apply elem_of_app in Hi as [Hi|Hi].
    + specialize (Hb _ _ Hi). lia.
    + case_decide; [|set_solver]. apply list_elem_of_singleton in Hi as ->. lia.
Qed.

Lemma remove_url_step_inv w u w' : http_remove_url w u = Ok w' → web_inv w → web_inv w'.
Proof.
  unfold http_remove_url. intros H Hinv. apply bind_Ok_inv in H as (hs & _ & H).
  revert H. apply foldM_inv; [|done].
  intros w1 h w2 (Hwf & Hids & Hb) E.
  apply bind_Ok_inv in E as (r & Hr & E). apply bind_Ok_inv in E as (http & Hh & [= <-]).
  split_and!; simpl.
  - exact (reg_remove_wf _ _ _ _ Hr Hwf).
  - exact (func_remove_ok _ _ _ _ Hh Hids).
  - exact (reg_remove_ids_below _ _ _ _ Hr Hb).
Qed.

Lemma remove_func_loop_inv fuel name pos w w' :
  remove_func_loop fuel name pos w = Ok w' → web_inv w → web_inv w'.
Proof.
  revert pos w. induction fuel as [|fuel IH]; intros pos w H Hinv; simpl in H; [by injection H as <-|].
  destruct (default [] (w_http w !! name) !! pos) as [info|]; [|by injection H as <-].
  apply bind_Ok_inv in H as (r & Hr & H). apply (IH _ _ H).
  destruct Hinv as (Hwf & Hids & Hb). split_and!; simpl.
  - exact (reg_remove_wf _ _ _ _ Hr Hwf).
  - exact (http_map_ok_clear _ _ _ Hids).
  - exact (reg_remove_ids_below _ _ _ _ Hr Hb).
Qed.

Lemma clear_step_inv w w' : http_clear w = Ok w' → web_inv w → web_inv w'.
Proof.
  unfold http_clear. intros H (_ & Hids & _). apply bind_Ok_inv in H as (http & Hh & [= <-]).
  split_and!.
  - intros ks i Hi. rewrite reg_handlers_at_empty in Hi. set_solver.
  - exact (foldM_inv (λ h, http_map_ok h (w_next w)) _
             (λ h i h' Hh' E, func_remove_ok _ _ _ _ E Hh') _ _ _ Hids Hh).
  - intros ks i Hi. rewrite reg_handlers_at_empty in Hi. set_solver.
Qed.

Lemma web_step_inv w w' : web_step w w' → web_inv w → web_inv w'.
Proof.
  destruct 1 as [f u ext info Hd H|u H|name H|H].
  - exact (http_step_inv _ _ _ _ _ _ Hd H).
  - exact (remove_url_step_inv _ _ _ H).
  - unfold http_remove_func in H. destruct (w_http w !! name); [|discriminate].
    exact (remove_func_loop_inv _ _ _ _ _ H).
  - exact (clear_step_inv _ _ H).
Qed.

Lemma initial_web_inv : web_inv initial_web.
Proof.
  split_and!.
  - intros ks i Hi. rewrite reg_handlers_at_empty in Hi. set_solver.
  - apply http_map_ok_empty.
  - intros ks i Hi. rewrite reg_handlers_at_empty in Hi. set_solver.
Qed.

(** ** The reachable states *)

(** C18: Every state reachable from the empty registry by [@http],
    [http_remove(url)], [http_remove(func)] and [http_clear()] keeps the
    registry well formed (every info is filed at the keys of its own
    path and passed [check]), the infos of each function's [http] list
    distinct, and every identity below the next fresh one. *)
Theorem reachable_inv w :
  reachable w →
  reg_wf (w_registry w) ∧ http_ids_ok w ∧
  (∀ ks i, i ∈ reg_handlers_at ks (w_registry w) → hi_id i < w_next w).
Proof.
  induction 1 as [|w w' _ IH Hs]; [exact initial_web_inv|].
  exact (web_step_inv _ _ Hs IH).
Qed.

Example reachable_inv_witness :
  reachable demo_web ∧ reg_wf (w_registry demo_web) ∧ http_ids_ok demo_web.
Proof.
  assert (Hr : reachable demo_web).
  { unfold demo_web, demo_reg.
    destruct (http_info_new demo_student "pupil/$id" ExtNone demo_web0) as [[i1 w1]|] eqn:E1;
      [|vm_compute in E1; discriminate].
    simpl.
    destruct (http_info_new demo_student "student/$id?page=$page" ExtNone w1) as [[i2 w2]|] eqn:E2.
    - apply (reach_step w1); [apply (reach_step initial_web); [apply reach_init|]|].
      + apply (StepHttp _ _ demo_student (Some "pupil/$id") ExtNone i1); [vm_compute; lia|exact E1].
      + apply (StepHttp _ _ demo_student (Some "student/$id?page=$page") ExtNone i2); [vm_compute; lia|exact E2].
    - exfalso. revert E2. vm_compute in E1. injection E1 as <- <-. vm_compute. discriminate. }
  destruct (reachable_inv _ Hr) as (H1 & H2 & _). split_and!; [exact Hr|exact H1|exact H2].
Defined.

(** The decorator raises on a bad pattern: [TypeError] when an
    argument without a default is not bound or is bound twice,
    [ValueError] on a component [re_component] does not match (a lone
    [$]), and [ValueError] on a non-ASCII url. *)
Example http_pattern_errors :
  http demo_student (Some "pupil") ExtNone initial_web = Err (TypeError "Undefined path parameter: id") ∧
  http demo_student (Some "pupil/$id/$id") ExtNone initial_web =
    Err (TypeError "Parameter name id already in use") ∧
  http demo_student (Some "pupil/$id/$") ExtNone initial_web = Err (ValueError "Invalid url component: $") ∧
  http demo_student (Some (String "233"%char "/$id")) ExtNone initial_web =
    Err (ValueError "Url string contains non-ascii symbols. Such urls must be in unicode.").
Proof. split_and!; vm_compute; reflexivity. Qed.

(** For [def page(id, page=1, *rest)] under [pupil/$id], an extra
    positional value makes [url()] raise [IndexError], while the same
    call without it builds the URL. *)
Example url_extra_arg_index_error :
  ∃ w, http demo_varargs (Some "pupil/$id") ExtNone initial_web = Ok (w.1, w.2) ∧
       url w.2 "page" [Some "42"; Some "1"; Some "x"] ∅ = Err IndexError ∧
       url w.2 "page" [Some "42"; Some "1"] ∅ = Ok "/pupil/42".
Proof.
  destruct (http demo_varargs (Some "pupil/$id") ExtNone initial_web) as [[i w]|] eqn:E;
    [|vm_compute in E; discriminate].
  exists (i, w). split; [done|]. vm_compute in E. injection E as <- <-.
  split; vm_compute; reflexivity.
Qed.

(** ** Clearing the registry *)

Lemma remove_info_Some info l : hi_id info ∈ hi_id <$> l → ∃ l', remove_info info l = Ok l'.
Proof.
  induction l as [|j l IH]; simpl; [set_solver|]. intros Hin.
  case_decide as Hj; [by eexists|].
  destruct IH as [l' ->]; [set_solver|]. by eexists.
Qed.

Lemma remove_info_ids info l l' j :
  remove_info info l = Ok l' → j ≠ hi_id info → j ∈ hi_id <$> l' ↔ j ∈ hi_id <$> l.
Proof.
  revert l'. induction l as [|k l IH]; intros l' H Hne; simpl in H; [discriminate|].
  case_decide.
  - injection H as <-. rewrite fmap_cons, elem_of_cons. naive_solver.
  - apply bind_Ok_inv in H as (l'' & Hl & [= <-]). rewrite !fmap_cons, !elem_of_cons, IH; done.
Qed.

(** The loop of [_http_clear] over the infos of the registry removes
    each of them from its function's list without raising, when each is
    there and they are distinct. *)
Lemma clear_loop_Ok (infos : list http_info) http :
  NoDup (hi_id <$> infos) →
  (∀ i, i ∈ infos → hi_id i ∈ hi_id <$> default [] (http !! fname i)) →
  ∃ http', foldM (λ h i, func_remove i h) http infos = Ok http'.
Proof.
  revert http. induction infos as [|x infos IH]; intros http Hnd Hin; [by eexists|].
  rewrite fmap_cons in Hnd. apply NoDup_cons in Hnd as [Hx Hnd].
  destruct (remove_info_Some x (default [] (http !! fname x))) as [l' Hl']; [apply Hin; by left|].
  cbn [foldM]. unfold func_remove at 1. rewrite Hl'. simpl.
  apply IH; [done|]. intros i Hi.
  assert (Hne : hi_id i ≠ hi_id x) by (intros Heq; apply Hx, list_elem_of_fmap; by exists i).
  destruct (decide (fname i = fname x)) as [Heq|Hne'].
  - rewrite Heq, lookup_insert_eq. simpl. rewrite (remove_info_ids _ _ _ _ Hl' Hne), <-Heq.
    apply Hin. by right.
  - rewrite lookup_insert_ne by congruence. apply Hin. by right.
Qed.

(** [list.remove(x)] raises only [ValueError], and succeeds only on a
    list that holds [x]. *)
Lemma remove_info_Err info l e : remove_info info l = Err e → e = ValueError "list.remove(x): x not in list".
Proof.
  induction l as [|j l IH]; simpl; [congruence|]. case_decide; [congruence|].
  destruct (remove_info info l); simpl; [congruence|auto].
Qed.

Lemma remove_info_Ok_in info l l' : remove_info info l = Ok l' → hi_id info ∈ hi_id <$> l.
Proof.
  revert l'. induction l as [|j l IH]; intros l' H; simpl in H; [discriminate|].
  rewrite fmap_cons, elem_of_cons. case_decide; [by left|].
  apply bind_Ok_inv in H as (l'' & Hl & _). right. by eapply IH.
Qed.

(** The loop of [_http_clear] raises [ValueError] when one of the infos
    it walks over is no longer in its function's [http] list. *)
Lemma clear_loop_orphan (infos : list http_info) http i :
  i ∈ infos → hi_id i ∉ hi_id <$> default [] (http !! fname i) →
  foldM (λ h x, func_remove x h) http infos = Err (ValueError "list.remove(x): x not in list").
Proof.
  revert http. induction infos as [|x infos IH]; intros http Hi Hout; [set_solver|].
  cbn [foldM]. unfold func_remove at 1.
  destruct (remove_info x (default [] (http !! fname x))) as [l'|e] eqn:Hx; simpl;
    [|by rewrite (remove_info_Err _ _ _ Hx)].
  apply elem_of_cons in Hi as [->|Hi]; [by apply remove_info_Ok_in in Hx|].
  apply IH; [done|]. destruct (decide (fname i = fname x)) as [Heq|Hne].
  - rewrite Heq, lookup_insert_eq. simpl. intros Hin. apply Hout. rewrite Heq.
    eapply elem_of_sublist; [exact Hin|]. apply fmap_sublist. by apply (remove_info_sublist x).
  - by rewrite lookup_insert_ne by congruence.
Qed.

Lemma variants_empty comps vs :
  Forall (λ r, r = empty_registry) vs → Forall (λ r, r = empty_registry) (foldl variants_step vs comps).
Proof.
  revert vs. induction comps as [|c comps IH]; intros vs Hvs; [done|]. simpl. apply IH.
  unfold variants_step. apply Forall_forall. intros r Hr.
  apply list_elem_of_join in Hr as (l & Hr & Hl). apply list_elem_of_fmap in Hl as (r0 & -> & Hr0).
  rewrite Forall_forall in Hvs. rewrite (Hvs _ Hr0) in Hr. simpl in Hr. set_solver.
Qed.

(** No URL is dispatched by the empty registry. *)
Lemma get_http_handlers_empty u hs : get_http_handlers empty_registry u = Ok hs → hs = [].
Proof.
  unfold get_http_handlers. intros H. apply bind_Ok_inv in H as ([path params] & _ & H).
  destruct (splitext path) as [path' ext]. apply bind_Ok_inv in H as (ms & Hm & [= <-]).
  assert (H0 : Forall (λ r, r = empty_registry) [empty_registry]) by (repeat constructor).
  match type of Hm with mapM _ (mjoin (map reg_handlers (foldl variants_step _ ?cs))) = _ =>
    pose proof (variants_empty cs _ H0) as Hv;
    assert (Hl : mjoin (map reg_handlers (foldl variants_step [empty_registry] cs)) = [])
  end.
  { induction Hv as [|r vs -> _ IH]; [done|]. simpl. by rewrite IH. }
  rewrite Hl in Hm. injection Hm as <-. done.
Qed.

(** C19: From a state in which every info of the registry is still in
    its function's [http] list, [http_clear()] runs to completion: it
    raises nothing, empties the registry, and afterwards no URL is
    dispatched to any handler. *)
Theorem http_clear_completes w :
  http_consistent w = true →
  ∃ w', http_clear w = Ok w' ∧ w_registry w' = empty_registry ∧
        ∀ u hs, get_http_handlers (w_registry w') u = Ok hs → hs = [].
Proof.
  unfold http_consistent. intros [Hin Hnd]%andb_prop.
  apply bool_decide_eq_true in Hnd. rewrite forallb_forall in Hin.
  destruct (clear_loop_Ok (reg_infos (w_registry w)) (w_http w) Hnd) as [http' Hh].
  { intros i Hi. apply list_elem_of_In in Hi. specialize (Hin _ Hi). unfold info_in_http in Hin.
    by apply bool_decide_eq_true in Hin. }
  exists (Web empty_registry http' (w_next w)). unfold http_clear. rewrite Hh.
  split_and!; [done|done|]. exact get_http_handlers_empty.
Qed.

Example http_clear_completes_witness :
  http_consistent demo_web = true ∧ ∃ w', http_clear demo_web = Ok w' ∧ w_registry w' = empty_registry.
Proof.
  assert (Hc : http_consistent demo_web = true) by (vm_compute; reflexivity).
  destruct (http_clear_completes _ Hc) as (w' & H1 & H2 & _).
  split; [exact Hc|]. exists w'. split; [exact H1|exact H2].
Defined.

(** C27: After [http_remove(func)] on a function with two or more
    patterns, an older info of the function is still in the registry but
    no longer in [func.http]: [http_clear()] then raises [ValueError]
    from [func.http.remove(info)], so the registry can no longer be
    cleared. *)
Theorem http_clear_after_remove_func w name i1 i2 rest w' :
  http_ids_ok w → w_http w !! name = Some (i1 :: i2 :: rest) → fname i2 = name →
  registered (w_registry w) i2 → http_remove_func w name = Ok w' →
  http_clear w' = Err (ValueError "list.remove(x): x not in list").
Proof.
  intros Hids Hl Hn Hreg H.
  destruct (remove_func_two _ _ _ _ _ _ Hids Hl Hreg H) as [Hempty Hreg'].
  unfold http_clear. rewrite (clear_loop_orphan _ _ i2); [done|by apply registered_reg_infos|].
  rewrite Hn, Hempty. simpl. set_solver.
Qed.

Example http_clear_after_remove_func_witness :
  http_ids_ok demo_web ∧ w_http demo_web !! "student" = Some [demo_new; demo_old] ∧
  fname demo_old = "student" ∧ registered (w_registry demo_web) demo_old ∧
  ∃ w', http_remove_func demo_web "student" = Ok w' ∧
        http_clear w' = Err (ValueError "list.remove(x): x not in list").
Proof.
  pose proof demo_web_ids as Hids.
  assert (Hl : w_http demo_web !! "student" = Some [demo_new; demo_old]) by (vm_compute; reflexivity).
  assert (Hr : registered (w_registry demo_web) demo_old) by (vm_compute; left).
  assert (Hrm : http_remove_func demo_web "student" =
                Ok (match http_remove_func demo_web "student" with Ok w => w | Err _ => demo_web end))
    by (vm_compute; reflexivity).
  split_and!; [exact Hids|exact Hl|reflexivity|exact Hr|]. eexists. split; [exact Hrm|].
  exact (http_clear_after_remove_func _ _ _ _ _ _ Hids Hl eq_refl Hr Hrm).
Defined.
