(* ===== verification/Layout.v ===== *)
(** * Layout: the page-layout normaliser of [src/pony/layout/__init__.py].

    [normalize(html)] rewrites an lxml tree in place so that the body of
    the page is a sequence of layout elements ([layout], [header],
    [footer], [sidebar], [content]), every [content] a sequence of
    [column]s and every column a sequence of block-level elements.  It
    works in two phases: the unnesting phase ([unnest_p],
    [unnest_layout], [unnest_content], [unnest_element], all built on
    [_unnest]) lifts layout elements out of paragraphs and out of each
    other, and the wrapping phase ([normalize_content],
    [normalize_column] and the last loop of [normalize]) wraps the loose
    children of an element into fresh wrapper elements.

    An lxml element is the inductive [elem]: tag, attributes (an
    association list in document order), [text], children and [tail].
    lxml moves an element when it is inserted elsewhere (an element has
    one parent), so a rewrite is a function on the list of children of
    the parent it changes; [_unnest(x)] reaches two levels up
    ([x.getparent().getparent()]), so it is modelled on the children of
    the grandparent ([sibs]) with the position [j] of the parent and [i]
    of [x].  The [for x in element] loops iterate over lxml's child
    iterator, which fetches the next sibling before the body runs; the
    bodies only move the current child, so the loops iterate over the
    children as they were when the loop started.  The [while i < len(e)]
    loops read the length again at each turn: the model keeps the index
    and reads the current list, with fuel bounded by the number of nodes
    below the element, which the theorems show is enough.  Comments,
    processing instructions and entities (children whose [tag] is not a
    string) are not modelled.

    The theorems: the fuel of every [while] loop is enough
    ([unnest_loops_enough_fuel], by a measure: the nodes after the
    index); the unnesting loop moves nodes and creates or loses none
    ([unnest_body_nodes]); [normalize] always finds a [head] and a
    [body] ([normalize_head_body]); on a page where every [layout]
    element with a text has a child ([layout_ok]) the new body shows the
    visible text of the old one, after that of the layout elements
    taken from the head ([normalize_keeps_text], through the invariants
    [keeps_vis] of the unnesting loops and [keeps_text] of the wrapping
    loops); the body it lays out has the shape of a YUI page
    ([normalize_layout_shape]); [correct_width_list] picks the first
    YUI row that fits ([correct_width_list_spec]).  Without
    [layout_ok], [unnest_layout] loses the tail of a [layout] element
    that has a text and no child ([normalize_drops_layout_tail]). *)
From S2P Require Import Prelude Urllib.

(** ** lxml elements *)

Inductive elem := Elem (tag : string) (attrs : list (string * string)) (text : option string)
                       (kids : list elem) (tail : option string).

Definition e_tag (e : elem) : string := match e with Elem t _ _ _ _ => t end.
Definition e_attrs (e : elem) : list (string * string) := match e with Elem _ a _ _ _ => a end.
Definition e_text (e : elem) : option string := match e with Elem _ _ x _ _ => x end.
Definition e_kids (e : elem) : list elem := match e with Elem _ _ _ k _ => k end.
Definition e_tail (e : elem) : option string := match e with Elem _ _ _ _ t => t end.

Definition set_text (x : option string) (e : elem) : elem :=
  match e with Elem t a _ k tl => Elem t a x k tl end.
Definition set_kids (k : list elem) (e : elem) : elem :=
  match e with Elem t a x _ tl => Elem t a x k tl end.
Definition set_tail (tl : option string) (e : elem) : elem :=
  match e with Elem t a x k _ => Elem t a x k tl end.
Definition set_attrs (a : list (string * string)) (e : elem) : elem :=
  match e with Elem t _ x k tl => Elem t a x k tl end.

(** [parent.makeelement(tag)]: a new element, not in the tree. *)
Definition makeelement (t : string) : elem := Elem t [] None [] None.

(** [element.get(key)]. *)
Fixpoint attr_get (k : string) (a : list (string * string)) : option string :=
  match a with
  | [] => None
  | (k', v) :: a' => if decide (k = k') then Some v else attr_get k a'
  end.

(** [element.set(key, value)]: replaces the value in place, or adds the
    attribute last. *)
Fixpoint attr_set (k v : string) (a : list (string * string)) : list (string * string) :=
  match a with
  | [] => [(k, v)]
  | (k', v') :: a' => if decide (k = k') then (k', v) :: a' else (k', v') :: attr_set k v a'
  end.

Definition set_attr (k v : string) (e : elem) : elem := set_attrs (attr_set k v (e_attrs e)) e.

(** [element.find(tag)]: the position of the first child with that tag. *)
Definition find_child (t : string) (l : list elem) : option nat :=
  fst <$> list_find (λ e, e_tag e = t) l.

(** Apply [f] to the last item of a list: the object a variable of the
    loop still points to after it was appended. *)
Definition map_last {A} (f : A → A) (l : list A) : list A :=
  match l with [] => [] | _ => take (length l - 1) l ++ (f <$> drop (length l - 1) l) end.

(** ** Python strings *)

(** [str.isspace()] on a byte string: not empty and only the C
    whitespace characters. *)
Definition is_space_char (c : ascii) : bool :=
  bool_decide (c ∈ [" "; "009"; "010"; "011"; "012"; "013"]%char).

Definition py_isspace (s : string) : bool :=
  bool_decide (s ≠ EmptyString) && forallb is_space_char (String.list_ascii_of_string s).

(** [text and not text.isspace()]: a text that is not blank. *)
Definition has_text (o : option string) : bool :=
  match o with Some s => bool_decide (s ≠ EmptyString) && negb (py_isspace s) | None => false end.

(** [(s or '') + t]. *)
Definition str_or_empty (o : option string) : string := default EmptyString o.

(** [int(s)] in base 10 succeeds: surrounding whitespace, an optional
    sign and at least one digit. *)
Fixpoint strip_left (s : string) : string :=
  match s with String c r => if is_space_char c then strip_left r else s | EmptyString => s end.

Definition strip_right (s : string) : string :=
  String.string_of_list_ascii (rev (String.list_ascii_of_string
    (strip_left (String.string_of_list_ascii (rev (String.list_ascii_of_string s)))))).

Definition is_digit_char (c : ascii) : bool :=
  let n := nat_of_ascii c in (48 <=? n) && (n <=? 57).

Definition digits_ok (s : string) : bool :=
  bool_decide (s ≠ EmptyString) && forallb is_digit_char (String.list_ascii_of_string s).

Definition py_int_ok (s : string) : bool :=
  match strip_right (strip_left s) with
  | String c r => if bool_decide (c = "+"%char ∨ c = "-"%char) then digits_ok r else digits_ok (String c r)
  | EmptyString => false
  end.

(** [s[-2:]] and [s[:-2]]. *)
Definition last2 (s : string) : string := String.substring (String.length s - 2) 2 s.
Definition drop_last2 (s : string) : string := String.substring 0 (String.length s - 2) s.

(** ** Tags *)

Definition normalize_width (e : elem) : elem :=
  match attr_get "width" (e_attrs e) with
  | None => e
  | Some width =>
      if bool_decide (last2 width ≠ "px") then e
      else if py_int_ok (drop_last2 width) then set_attr "width" (drop_last2 width) e
      else e
  end.

Definition normalize_layout (layout : elem) : elem := normalize_width layout.
Definition normalize_header (header : elem) : elem := header.
Definition normalize_footer (footer : elem) : elem := footer.
Definition normalize_sidebar (sidebar : elem) : elem := normalize_width sidebar.

(** [block_level_tags]. *)
Definition block_level_tags : list string :=
  ["address"; "blockquote"; "center"; "dir"; "div"; "dl"; "fieldset"; "form"; "h1"; "h2"; "h3";
   "h4"; "h5"; "h6"; "hr"; "isindex"; "menu"; "noframes"; "noscript"; "ol"; "p"; "pre"; "table"; "ul"].

Definition is_block_level (x : elem) : bool := bool_decide (e_tag x ∈ block_level_tags).

(** The keys of [layout_tags]. *)
Definition layout_tag_names : list string := ["layout"; "header"; "footer"; "sidebar"; "content"; "column"].

Definition is_layout (x : elem) : bool := bool_decide (e_tag x ∈ layout_tag_names).

(** [layout_tags_xpath(e)]: the children of [e] whose tag is a key of
    [layout_tags], in document order. *)
Definition layout_tags_xpath (e : elem) : list elem := filter (λ x, is_layout x = true) (e_kids e).

(** [yui_columns]. *)
Definition yui_columns (n : nat) : option (list (list string)) :=
  match n with
  | 2 => Some [["1/2"; "1/2"]; ["1/3"; "2/3"]; ["2/3"; "1/3"]; ["1/4"; "3/4"]; ["3/4"; "1/4"]]
  | 3 => Some [["1/3"; "1/3"; "1/3"]; ["1/2"; "1/4"; "1/4"]; ["1/4"; "1/4"; "1/2"]]
  | 4 => Some [["1/4"; "1/4"; "1/4"; "1/4"]]
  | _ => None
  end.

(** The inner loop of [correct_width_list]: no given width differs
    from the row (a [break] makes it [false]). *)
Fixpoint row_fits (ws : list (option string)) (row : list string) : bool :=
  match ws, row with
  | w1 :: ws', w2 :: row' =>
      if bool_decide (w1 ≠ None ∧ w1 ≠ Some EmptyString ∧ w1 ≠ Some w2) then false else row_fits ws' row'
  | _, _ => true
  end.

(** The outer loop: the first row that fits. *)
Fixpoint first_fit (ws : list (option string)) (rows : list (list string)) : option (list string) :=
  match rows with
  | [] => None
  | row :: rows' => if row_fits ws row then Some row else first_fit ws rows'
  end.

Definition correct_width_list (ws : list (option string)) : list (option string) :=
  match yui_columns (length ws) with
  | None => ws
  | Some rows => match first_fit ws rows with Some row => Some <$> row | None => ws end
  end.

(** The specification of a fitting row: every width that is given
    (neither missing nor empty) is the row's width at that column. *)
Definition widths_agree (ws : list (option string)) (row : list string) : Prop :=
  ∀ i w r, ws !! i = Some (Some w) → w ≠ EmptyString → row !! i = Some r → w = r.

(** [width or '?']. *)
Definition width_or_q (w : option string) : string :=
  match w with Some s => if bool_decide (s = EmptyString) then "?" else s | None => "?" end.

(** ** The wrapping loops *)

(** One turn of the [for x in parent] loop of [normalize_column],
    [normalize_content] and [normalize]: [is_sep] says which children
    stay where they are (block-level elements, columns, layout
    elements), the others go into a wrapper element of tag [wrap].  The
    open wrapper ([p], [column], [content] in the code) is the last
    element of the list built so far, flagged [true]: [close] is what
    the code does to it when it is left, [norm] what it does to a child
    that stays. *)
Definition wrap_step (is_sep : elem → bool) (wrap : string) (close norm : elem → elem)
    (st : list elem * bool) (x : elem) : list elem * bool :=
  let '(els, open) := st in
  if is_sep x then
    let els := if open then map_last close els else els in
    if has_text (e_tail x) then (els ++ [norm (set_tail None x); set_text (e_tail x) (makeelement wrap)], true)
    else (els ++ [norm x], false)
  else if open then (map_last (λ w, set_kids (e_kids w ++ [x]) w) els, true)
  else (els ++ [set_kids [x] (makeelement wrap)], true).

(** The text of the parent opens the first wrapper; the loop runs over
    the children; the open wrapper is closed; [parent[:] = elements]. *)
Definition wrap_children (is_sep : elem → bool) (wrap : string) (close norm : elem → elem)
    (parent : elem) : elem :=
  let '(st0, parent) :=
    if has_text (e_text parent) then (([set_text (e_text parent) (makeelement wrap)], true), set_text None parent)
    else (([], false), parent) in
  let '(els, open) := foldl (wrap_step is_sep wrap close norm) st0 (e_kids parent) in
  set_kids (if open then map_last close els else els) parent.

Definition normalize_column (column : elem) : elem :=
  wrap_children is_block_level "p" id id column.

Definition is_column (x : elem) : bool := bool_decide (e_tag x = "column").

Definition normalize_content (content : elem) : elem :=
  let content := wrap_children is_column "column" normalize_column normalize_column content in
  let width_list := correct_width_list ((λ c, attr_get "width" (e_attrs c)) <$> e_kids content) in
  let kids := zip_with (λ c w, set_attr "width" (default EmptyString w) c) (e_kids content) width_list in
  set_attr "pattern" (String.concat "-" (width_or_q <$> width_list)) (set_kids kids content).

(** [layout_tags[tag](x)]. *)
Definition layout_tags (x : elem) : elem :=
  if bool_decide (e_tag x = "layout") then normalize_layout x
  else if bool_decide (e_tag x = "header") then normalize_header x
  else if bool_decide (e_tag x = "footer") then normalize_footer x
  else if bool_decide (e_tag x = "sidebar") then normalize_sidebar x
  else if bool_decide (e_tag x = "content") then normalize_content x
  else if bool_decide (e_tag x = "column") then normalize_column x
  else x.

(** ** The unnesting loops *)

(** Number of nodes of a tree: the bound of the [while] loops. *)
Fixpoint esize (e : elem) : nat :=
  match e with
  | Elem _ _ _ k _ => S ((fix go (l : list elem) : nat := match l with [] => 0 | x :: l' => esize x + go l' end) k)
  end.

Definition forest_size (l : list elem) : nat := foldr (λ x n, esize x + n) 0 l.

(** [i = 0; while i < len(e): body; i += 1], for at most [fuel] turns. *)
Fixpoint while_index {St} (fuel : nat) (len : St → nat) (body : St → nat → St) (s : St) (i : nat) : St :=
  match fuel with
  | O => s
  | S fuel' => if bool_decide (i < len s) then while_index fuel' len body (body s i) (S i) else s
  end.

(** [len(parent)] and [parent[i]] for the parent at [j] among [sibs]. *)
Definition kid_count (sibs : list elem) (j : nat) : nat := default 0 (length ∘ e_kids <$> sibs !! j).
Definition kid_at (sibs : list elem) (j i : nat) : option elem := sibs !! j ≫= λ p, e_kids p !! i.
Definition kids_size (sibs : list elem) (j : nat) : nat := default 0 (forest_size ∘ e_kids <$> sibs !! j).

(** A change of the children of the element at [j]. *)
Definition update_kids (sibs : list elem) (j : nat) (f : list elem → list elem) : list elem :=
  match sibs !! j with Some e => <[j := set_kids (f (e_kids e)) e]> sibs | None => sibs end.

(** [_unnest(x)] for [x = parent[i]], [parent = sibs[j]] and [sibs]
    the children of [parent2]: a tail of the parent that is not blank
    is appended to the tail of its last child, and [x] with every
    following sibling moves to [parent2], right after [parent]. *)
Definition unnest (sibs : list elem) (j i : nat) : list elem :=
  match sibs !! j with
  | None => sibs
  | Some parent =>
      let tail := e_tail parent in
      let parent1 :=
        if has_text tail
        then set_tail None (set_kids (map_last (λ last, set_tail (Some (str_or_empty (e_tail last) +:+ str_or_empty tail)) last)
                                               (e_kids parent)) parent)
        else parent in
      take j sibs ++ [set_kids (take i (e_kids parent1)) parent1] ++ drop i (e_kids parent1) ++ drop (S j) sibs
  end.

(** [unnest_p(p)] for [p = sibs[j]]: one turn, and the loop. *)
Definition unnest_p_step (j : nat) (s : list elem) (i : nat) : list elem :=
  match kid_at s j i with
  | Some x => if is_layout x then unnest s j i else s
  | None => s
  end.

Definition unnest_p (sibs : list elem) (j : nat) : list elem :=
  while_index (S (kid_count sibs j)) (λ s, kid_count s j) (unnest_p_step j) sibs 0.

(** [unnest_element(element)] for [element = sibs[j]]. *)
Definition unnest_element_step (j : nat) (s : list elem) (i : nat) : list elem :=
  match kid_at s j i with
  | Some x =>
      if bool_decide (e_tag x = "p") then update_kids s j (λ ks, unnest_p ks i)
      else if is_layout x then unnest s j i
      else s
  | None => s
  end.

Definition unnest_element (sibs : list elem) (j : nat) : list elem :=
  while_index (S (kids_size sibs j)) (λ s, kid_count s j) (unnest_element_step j) sibs 0.

(** [unnest_content(content)] for [content = sibs[j]]. *)
Definition unnest_content_step (j : nat) (s : list elem) (i : nat) : list elem :=
  match kid_at s j i with
  | Some x =>
      if bool_decide (e_tag x = "p") then update_kids s j (λ ks, unnest_p ks i)
      else if bool_decide (e_tag x = "column") then update_kids s j (λ ks, unnest_element ks i)
      else if is_layout x then unnest s j i
      else s
  | None => s
  end.

Definition unnest_content (sibs : list elem) (j : nat) : list elem :=
  while_index (S (kids_size sibs j)) (λ s, kid_count s j) (unnest_content_step j) sibs 0.

(** [unnest_layout(layout)] for [layout = sibs[j]]: every child moves
    out, then a text that is not blank becomes the tail. *)
Definition unnest_layout (sibs : list elem) (j : nat) : list elem :=
  let s := if bool_decide (0 < kid_count sibs j) then unnest sibs j 0 else sibs in
  match s !! j with
  | Some layout =>
      if has_text (e_text layout) then <[j := set_tail (e_text layout) (set_text None layout)]> s else s
  | None => s
  end.

(** One turn of the loop of [normalize] over the body. *)
Definition unnest_body_step (s : list elem) (i : nat) : list elem :=
  match s !! i with
  | Some x =>
      if bool_decide (e_tag x = "p") then unnest_p s i
      else if is_layout x then
        if bool_decide (e_tag x = "layout") then unnest_layout s i
        else if bool_decide (e_tag x = "content") then unnest_content s i
        else unnest_element s i
      else s
  | None => s
  end.

(** The [while] loop of [normalize] over the children of the body. *)
Definition unnest_body (kids : list elem) : list elem :=
  while_index (S (forest_size kids)) length unnest_body_step kids 0.

(** ** [normalize] *)

Definition insert_at {A} (n : nat) (x : A) (l : list A) : list A := take n l ++ [x] ++ drop n l.

(** The children of [html] with a [body] and a [head], and their
    positions: [SubElement(html, 'body')] appends, [html.insert(-1,
    head)] inserts before the last child. *)
Definition head_and_body (hk : list elem) : list elem * nat * nat :=
  let '(hk, b) := match find_child "body" hk with
                  | Some b => (hk, b)
                  | None => (hk ++ [makeelement "body"], length hk)
                  end in
  match find_child "head" hk with
  | Some h => (hk, h, b)
  | None => (insert_at (length hk - 1) (makeelement "head") hk, length hk - 1,
             if bool_decide (length hk - 1 ≤ b) then S b else b)
  end.

Definition is_body_sep (x : elem) : bool := is_layout x && negb (is_column x).

(** Does the body hold anything to unnest: layout elements moved from
    the head, layout children, or a paragraph with a layout child. *)
Definition needs_layout (head_list : list elem) (body : elem) : bool :=
  bool_decide (head_list ≠ []) || bool_decide (layout_tags_xpath body ≠ []) ||
  existsb (λ p, bool_decide (e_tag p = "p") && bool_decide (layout_tags_xpath p ≠ [])) (e_kids body).

Definition normalize (html : elem) : elem :=
  let '(hk, h, b) := head_and_body (e_kids html) in
  match hk !! h, hk !! b with
  | Some head, Some body =>
      let head_list := layout_tags_xpath head in
      let head := set_kids (filter (λ x, is_layout x = false) (e_kids head)) head in
      let body := set_kids (head_list ++ e_kids body) body in
      let body :=
        if needs_layout head_list body then
          wrap_children is_body_sep "content" normalize_content layout_tags
            (set_kids (unnest_body (e_kids body)) body)
        else body in
      set_kids (<[b := body]> (<[h := head]> hk)) html
  | _, _ => html
  end.

(** [move_content(target, source_list)]: the text of every source is
    appended after the last child of the target (or to its text), and
    the children of the source move to the target. *)
Definition move_one (target_source : elem * list elem) (source : elem) : elem * list elem :=
  let '(target, done) := target_source in
  let text := e_text source in
  let target :=
    if has_text text then
      match e_kids target with
      | [] => set_text (Some (str_or_empty (e_text target) +:+ str_or_empty text)) target
      | _ => set_kids (map_last (λ last, set_tail (Some (str_or_empty (e_tail last) +:+ str_or_empty text)) last)
                                (e_kids target)) target
      end
    else target in
  (set_kids (e_kids target ++ e_kids source) target, done ++ [set_kids [] source]).

Definition move_content (target : elem) (sources : list elem) : elem * list elem :=
  foldl move_one (target, []) sources.

(** The module [transform(html)] delegates to: [pony.layout.<type>]
    for the [type] of the body's [layout] element ([yui] by default),
    [LayoutError] when no such module is among [available] (the modules
    are not part of the sources), [AttributeError] when there is no
    body. *)
Definition transform_module (available : list string) (html : elem) : result string :=
  match find_child "body" (e_kids html) ≫= λ b, e_kids html !! b with
  | None => Err (AttributeError "'NoneType' object has no attribute 'find'")
  | Some body =>
      let layout_type :=
        match find_child "layout" (e_kids body) ≫= λ l, e_kids body !! l with
        | Some layout => default "yui" (attr_get "type" (e_attrs layout))
        | None => "yui"
        end in
      if bool_decide (layout_type ∈ available) then Ok ("pony.layout." +:+ layout_type)
      else Err (LayoutError ("Invalid layout type: " +:+ layout_type))
  end.

(** ** Measures, visible text and shapes, for the proofs *)

(** The list [s'] keeps the nodes of [s], its items before [j], and an
    item at [j]. *)
Definition conserves (j : nat) (s s' : list elem) : Prop :=
  forest_size s' = forest_size s ∧ take j s' = take j s ∧ j < length s'.

(** The parent of [_unnest] after its tail went to its last child. *)
Definition unnest_parent (parent : elem) : elem :=
  let tail := e_tail parent in
  if has_text tail
  then set_tail None (set_kids (map_last (λ last, set_tail (Some (str_or_empty (e_tail last) +:+ str_or_empty tail)) last)
                                         (e_kids parent)) parent)
  else parent.

(** The nodes after position [i] among the children of [s[j]]. *)
Definition kids_after (s : list elem) (j i : nat) : nat :=
  forest_size (drop i (default [] (e_kids <$> s !! j))).

(** The characters of a text that are not whitespace. *)
Definition vis (o : option string) : list ascii :=
  filter (λ c, is_space_char c = false) (str_chars (str_or_empty o)).

(** The visible text of an element in document order ([itertext()]
    without the whitespace): its text, then each child with its tail. *)
Fixpoint elem_vis (e : elem) : list ascii :=
  match e with
  | Elem _ _ x k _ =>
      vis x ++ (fix go (l : list elem) : list ascii :=
                  match l with [] => [] | y :: l' => elem_vis y ++ vis (e_tail y) ++ go l' end) k
  end.

Definition sibs_vis (l : list elem) : list ascii := foldr (λ y acc, elem_vis y ++ vis (e_tail y) ++ acc) [] l.

(** A [layout] element with a text that is not blank has children: the
    condition under which [unnest_layout] loses no text. *)
Fixpoint layout_ok (e : elem) : bool :=
  match e with
  | Elem t _ x k _ =>
      (negb (bool_decide (t = "layout") && has_text x) || bool_decide (k ≠ [])) && forallb layout_ok k
  end.

(** What a turn of an inner unnesting loop keeps: the visible text,
    the well-formedness of the forest and the tag at [j]. *)
Definition keeps_vis (j : nat) (s s' : list elem) : Prop :=
  sibs_vis s' = sibs_vis s ∧ forallb layout_ok s' = true ∧ e_tag <$> s' !! j = e_tag <$> s !! j.

(** A rewriting of an element that keeps its visible text and tail. *)
Definition keeps_text (f : elem → elem) : Prop := ∀ x, elem_vis (f x) = elem_vis x ∧ e_tail (f x) = e_tail x.

(** The open wrapper, when there is one, is the last element built and
    has no tail. *)
Definition wrap_open_ok (st : list elem * bool) : Prop := st.2 = true → ∃ l w, st.1 = l ++ [w] ∧ e_tail w = None.

(** The state of the wrapping loop when every element built satisfies
    [Q], but for the open wrapper. *)
Definition wrap_shape_ok (wrap : string) (Q : elem → bool) (st : list elem * bool) : Prop :=
  match st with
  | (els, true) => ∃ l w, els = l ++ [w] ∧ Forall (λ c, Q c = true) l ∧ e_tag w = wrap
  | (els, false) => Forall (λ c, Q c = true) els
  end.

(** The shape [normalize] gives a layout: a column holds block-level
    elements, a content holds columns, the body holds layout elements
    other than columns. *)
Definition column_ok (col : elem) : bool := is_column col && forallb is_block_level (e_kids col).
Definition content_ok (c : elem) : bool := forallb column_ok (e_kids c).
Definition body_child_ok (c : elem) : bool := is_body_sep c && (negb (bool_decide (e_tag c = "content")) || content_ok c).

(** A page with a sidebar in the head, and a header inside a paragraph
    of the body. *)
Definition demo_head : elem := Elem "head" [] None [Elem "sidebar" [] (Some "menu") [] None] None.
Definition demo_body : elem :=
  Elem "body" [] (Some "hello")
    [Elem "p" [] (Some "a") [Elem "header" [] (Some "top") [] (Some "b")] (Some "c");
     Elem "column" [("width", "30px")] (Some "x") [] None] None.
Definition demo_html : elem := Elem "html" [] None [demo_head; demo_body] None.

(** A layout element with a text and no child, followed by a text. *)
Definition lost_tail_body : elem := Elem "body" [] None [Elem "layout" [] (Some "abc") [] (Some "def")] None.
Definition lost_tail_html : elem := Elem "html" [] None [Elem "head" [] None [] None; lost_tail_body] None.

(** ** Sizes and the loop combinator *)

(** Induction on elements, with the hypothesis on every child. *)
Lemma elem_ind' (P : elem → Prop) :
  (∀ t a x k tl, Forall P k → P (Elem t a x k tl)) → ∀ e, P e.
Proof.
  intros H. fix IH 1. intros [t a x k tl]. apply H.
  induction k as [|e k IHk]; constructor; [apply IH|exact IHk].
Qed.

Lemma esize_Elem t a x k tl : esize (Elem t a x k tl) = S (forest_size k).
Proof. simpl. f_equal. Qed.

Lemma esize_pos e : 0 < esize e.
Proof. destruct e. rewrite esize_Elem. lia. Qed.

Lemma esize_set_kids k e : esize (set_kids k e) = S (forest_size k).
Proof. destruct e. apply esize_Elem. Qed.

Lemma esize_kids e : esize e = S (forest_size (e_kids e)).
Proof. destruct e. apply esize_Elem. Qed.

Lemma forest_size_app l1 l2 : forest_size (l1 ++ l2) = forest_size l1 + forest_size l2.
Proof. induction l1 as [|e l1 IH]; simpl; [done|]. unfold forest_size in *. simpl. lia. Qed.

Lemma forest_size_take_drop n l : forest_size l = forest_size (take n l) + forest_size (drop n l).
Proof. rewrite <-forest_size_app. by rewrite take_drop. Qed.

Lemma forest_size_cons e l : forest_size (e :: l) = esize e + forest_size l.
Proof. done. Qed.

(** The size of a list changes by the size of the item replaced. *)
Lemma forest_size_insert l j e e' :
  l !! j = Some e → forest_size (<[j := e']> l) + esize e = forest_size l + esize e'.
Proof.
  revert j. induction l as [|x l IH]; intros [|j] Hj; simpl in *; try discriminate.
  - injection Hj as ->. unfold forest_size. simpl. lia.
  - unfold forest_size in *. simpl. specialize (IH _ Hj). lia.
Qed.

Lemma map_last_snoc {A} (f : A → A) l x : map_last f (l ++ [x]) = l ++ [f x].
Proof.
  unfold map_last. destruct (l ++ [x]) as [|y l'] eqn:E; [by destruct l|]. rewrite <-E.
  rewrite length_app. simpl. rewrite Nat.add_sub, take_app_length, drop_app_length. done.
Qed.

Lemma map_last_nil {A} (f : A → A) : map_last f [] = [].
Proof. done. Qed.

(** A statement about [map_last] by cases: empty list or [l ++ [x]]. *)
Lemma map_last_cases {A} (f : A → A) l :
  (l = [] ∧ map_last f l = []) ∨ ∃ l0 x, l = l0 ++ [x] ∧ map_last f l = l0 ++ [f x].
Proof.
  destruct l as [|y l]; [by left|right]. destruct (exists_last (l:=y :: l)) as (l0 & x & E); [done|].
  exists l0, x. rewrite E. split; [done|apply map_last_snoc].
Qed.

Lemma forest_size_map_last f l : (∀ e, esize (f e) = esize e) → forest_size (map_last f l) = forest_size l.
Proof.
  intros Hf. destruct (map_last_cases f l) as [[-> ->]|(l0 & x & -> & ->)]; [done|].
  rewrite !forest_size_app, !forest_size_cons, Hf. done.
Qed.

(** A loop over an index stops once [fuel] exceeds a measure that every
    turn decreases: more fuel changes nothing. *)
Lemma while_index_fuel {St} (len : St → nat) (body : St → nat → St) (μ : St → nat → nat) :
  (∀ s i, i < len s → μ (body s i) (S i) < μ s i) →
  ∀ fuel k s i, μ s i < fuel → while_index (fuel + k) len body s i = while_index fuel len body s i.
Proof.
  intros Hdec fuel. induction fuel as [|fuel IH]; intros k s i Hμ; [lia|].
  simpl. case_bool_decide as Hi; [|done]. apply IH. specialize (Hdec s i Hi). lia.
Qed.

(** What every turn keeps, the loop keeps. *)
Lemma while_index_inv {St} (P : St → Prop) len (body : St → nat → St) :
  (∀ s i, P s → i < len s → P (body s i)) → ∀ fuel s i, P s → P (while_index fuel len body s i).
Proof.
  intros Hb fuel. induction fuel as [|fuel IH]; intros s i Hs; simpl; [done|].
  case_bool_decide; [|done]. apply IH, Hb; done.
Qed.

(** ** The unnesting passes move nodes, they create and lose none *)

Lemma esize_set_tail tl e : esize (set_tail tl e) = esize e.
Proof. by destruct e. Qed.
Lemma esize_set_text x e : esize (set_text x e) = esize e.
Proof. by destruct e. Qed.
Lemma e_kids_set_tail tl e : e_kids (set_tail tl e) = e_kids e.
Proof. by destruct e. Qed.
Lemma e_kids_set_text x e : e_kids (set_text x e) = e_kids e.
Proof. by destruct e. Qed.
Lemma e_kids_set_kids k e : e_kids (set_kids k e) = k.
Proof. by destruct e. Qed.
Lemma e_tag_set_kids k e : e_tag (set_kids k e) = e_tag e.
Proof. by destruct e. Qed.
Lemma e_tag_set_tail tl e : e_tag (set_tail tl e) = e_tag e.
Proof. by destruct e. Qed.
Lemma e_tag_set_text x e : e_tag (set_text x e) = e_tag e.
Proof. by destruct e. Qed.

Create Rewrite HintDb layout_rw.
#[export] Hint Rewrite esize_set_tail esize_set_text e_kids_set_tail e_kids_set_text e_kids_set_kids
  e_tag_set_kids e_tag_set_tail e_tag_set_text : layout_rw.


Lemma conserves_refl j s : j < length s → conserves j s s.
Proof. done. Qed.

Lemma conserves_trans j s1 s2 s3 : conserves j s1 s2 → conserves j s2 s3 → conserves j s1 s3.
Proof. intros (H1 & H2 & H3) (H4 & H5 & H6). split_and!; congruence. Qed.

Lemma forest_size_middle s j e : s !! j = Some e → forest_size s = forest_size (take j s) + esize e + forest_size (drop (S j) s).
Proof.
  intros Hj. rewrite <-(take_drop_middle s j e Hj) at 1. rewrite forest_size_app, forest_size_cons. lia.
Qed.


Lemma unnest_eq s j i parent :
  s !! j = Some parent →
  unnest s j i = take j s ++ [set_kids (take i (e_kids (unnest_parent parent))) (unnest_parent parent)] ++
                 drop i (e_kids (unnest_parent parent)) ++ drop (S j) s.
Proof. intros Hj. unfold unnest. by rewrite Hj. Qed.

Lemma unnest_parent_size parent : forest_size (e_kids (unnest_parent parent)) = forest_size (e_kids parent).
Proof.
  unfold unnest_parent. destruct (has_text _); [|done]. autorewrite with layout_rw.
  apply forest_size_map_last. intros. apply esize_set_tail.
Qed.

Lemma unnest_conserves s j i : j < length s → conserves j s (unnest s j i).
Proof.
  intros Hj. destruct (lookup_lt_is_Some_2 s j Hj) as [parent Hp]. rewrite (unnest_eq _ _ _ _ Hp).
  split_and!.
  - rewrite (forest_size_middle s j parent Hp), !forest_size_app, forest_size_cons, esize_set_kids.
    rewrite (esize_kids parent), <-unnest_parent_size, (forest_size_take_drop i (e_kids (unnest_parent parent))).
    unfold forest_size at 3. simpl. lia.
  - rewrite take_app, take_take, Nat.min_id, length_take, Nat.min_l by lia.
    rewrite Nat.sub_diag. simpl. by rewrite app_nil_r.
  - rewrite !length_app, length_take. simpl. lia.
Qed.

Lemma update_kids_conserves s j f e :
  s !! j = Some e → forest_size (f (e_kids e)) = forest_size (e_kids e) → conserves j s (update_kids s j f).
Proof.
  intros Hj Hf. unfold update_kids. rewrite Hj. split_and!.
  - pose proof (forest_size_insert s j e (set_kids (f (e_kids e)) e) Hj) as H.
    rewrite esize_set_kids, Hf, <-esize_kids in H. lia.
  - by rewrite take_insert_ge.
  - rewrite length_insert. by apply lookup_lt_Some in Hj.
Qed.

Lemma kid_at_Some s j i x : kid_at s j i = Some x → ∃ e, s !! j = Some e ∧ e_kids e !! i = Some x.
Proof. unfold kid_at. destruct (s !! j); simpl; [eauto|discriminate]. Qed.

(** A loop whose every turn conserves [j] conserves [j]. *)
Lemma while_conserves j len (body : list elem → nat → list elem) fuel s i :
  (∀ s' i, j < length s' → conserves j s' (body s' i)) → j < length s →
  conserves j s (while_index fuel len body s i).
Proof.
  intros Hb Hj. apply (while_index_inv (conserves j s)); [|by apply conserves_refl].
  intros s' i' Hs' _. eapply conserves_trans; [exact Hs'|]. apply Hb. apply Hs'.
Qed.

Lemma unnest_p_conserves s j : j < length s → conserves j s (unnest_p s j).
Proof.
  intros Hj. apply while_conserves; [|done]. intros s' i Hj'. unfold unnest_p_step.
  destruct (kid_at s' j i) as [x|]; [|by apply conserves_refl].
  destruct (is_layout x); [by apply unnest_conserves|by apply conserves_refl].
Qed.

(** [unnest_p] on the children of the element at [j] keeps the size of
    that element. *)
Lemma update_unnest_p_conserves s j i x :
  kid_at s j i = Some x → conserves j s (update_kids s j (λ ks, unnest_p ks i)).
Proof.
  intros (e & He & Hx)%kid_at_Some. apply (update_kids_conserves _ _ _ e He).
  apply unnest_p_conserves. by apply lookup_lt_Some in Hx.
Qed.

Lemma unnest_element_conserves s j : j < length s → conserves j s (unnest_element s j).
Proof.
  intros Hj. apply while_conserves; [|done]. intros s' i Hj'. unfold unnest_element_step, unnest_content_step.
  destruct (kid_at s' j i) as [x|] eqn:Hx; [|by apply conserves_refl].
  case_bool_decide; [by eapply update_unnest_p_conserves|].
  destruct (is_layout x); [by apply unnest_conserves|by apply conserves_refl].
Qed.

Lemma unnest_content_conserves s j : j < length s → conserves j s (unnest_content s j).
Proof.
  intros Hj. apply while_conserves; [|done]. intros s' i Hj'. unfold unnest_element_step, unnest_content_step.
  destruct (kid_at s' j i) as [x|] eqn:Hx; [|by apply conserves_refl].
  case_bool_decide; [by eapply update_unnest_p_conserves|].
  case_bool_decide.
  - destruct (kid_at_Some _ _ _ _ Hx) as (e & He & Hk). apply (update_kids_conserves _ _ _ e He).
    apply unnest_element_conserves. by apply lookup_lt_Some in Hk.
  - destruct (is_layout x); [by apply unnest_conserves|by apply conserves_refl].
Qed.

Lemma set_at_conserves s j e f :
  s !! j = Some e → esize (f e) = esize e → conserves j s (<[j := f e]> s).
Proof.
  intros Hj Hf. split_and!.
  - pose proof (forest_size_insert s j e (f e) Hj). lia.
  - by rewrite take_insert_ge.
  - rewrite length_insert. by apply lookup_lt_Some in Hj.
Qed.

Lemma unnest_layout_conserves s j : j < length s → conserves j s (unnest_layout s j).
Proof.
  intros Hj. unfold unnest_layout.
  set (s1 := if bool_decide (0 < kid_count s j) then unnest s j 0 else s).
  assert (H1 : conserves j s s1) by (unfold s1; case_bool_decide; [by apply unnest_conserves|by apply conserves_refl]).
  destruct (lookup_lt_is_Some_2 s1 j (proj2 (proj2 H1))) as [l Hl]. rewrite Hl.
  destruct (has_text _); [|done]. eapply conserves_trans; [exact H1|].
  apply (set_at_conserves _ _ _ (λ l, set_tail (e_text l) (set_text None l)) Hl).
  by autorewrite with layout_rw.
Qed.


Lemma unnest_body_step_conserves s i : i < length s → conserves i s (unnest_body_step s i).
Proof.
  intros Hi. unfold unnest_body_step. destruct (s !! i) as [x|]; [|by apply conserves_refl].
  case_bool_decide; [by apply unnest_p_conserves|].
  destruct (is_layout x); [|by apply conserves_refl].
  case_bool_decide; [by apply unnest_layout_conserves|].
  case_bool_decide; [by apply unnest_content_conserves|by apply unnest_element_conserves].
Qed.

(** ** The fuel of the [while] loops is enough *)

(** A turn that conserves position [i] leaves fewer nodes after [i]. *)
Lemma conserves_measure i s s' : conserves i s s' → forest_size (drop (S i) s') < forest_size (drop i s).
Proof.
  intros (Hs & Ht & Hl). destruct (lookup_lt_is_Some_2 s' i Hl) as [e He].
  pose proof (forest_size_middle s' i e He) as H1. pose proof (forest_size_take_drop i s) as H2.
  pose proof (esize_pos e). rewrite Ht in H1. lia.
Qed.


Lemma kids_after_update s j f e i :
  s !! j = Some e → kids_after (update_kids s j f) j i = forest_size (drop i (f (e_kids e))).
Proof.
  intros Hj. unfold kids_after, update_kids. rewrite Hj, list_lookup_insert_eq by (by apply lookup_lt_Some in Hj).
  simpl. by rewrite e_kids_set_kids.
Qed.

Lemma kids_after_unnest s j i e : s !! j = Some e → i < length (e_kids e) → kids_after (unnest s j i) j (S i) = 0.
Proof.
  intros Hj Hi. unfold kids_after. rewrite (unnest_eq _ _ _ _ Hj).
  rewrite lookup_app_r by (rewrite length_take; apply lookup_lt_Some in Hj; lia).
  rewrite length_take, Nat.min_l by (apply lookup_lt_Some in Hj; lia). rewrite Nat.sub_diag. simpl.
  rewrite e_kids_set_kids, drop_ge; [done|]. rewrite length_take. lia.
Qed.

Lemma kids_after_pos s j i e x : s !! j = Some e → e_kids e !! i = Some x → 0 < kids_after s j i.
Proof.
  intros Hj Hx. unfold kids_after. rewrite Hj. simpl.
  rewrite (drop_S _ _ _ Hx), forest_size_cons. pose proof (esize_pos x). lia.
Qed.

Lemma kids_after_same s j i e x : s !! j = Some e → e_kids e !! i = Some x → kids_after s j (S i) < kids_after s j i.
Proof.
  intros Hj Hx. unfold kids_after. rewrite Hj. simpl.
  rewrite (drop_S _ _ _ Hx), forest_size_cons. pose proof (esize_pos x). lia.
Qed.

Lemma kids_after_update_p s j i x :
  kid_at s j i = Some x → kids_after (update_kids s j (λ ks, unnest_p ks i)) j (S i) < kids_after s j i.
Proof.
  intros (e & He & Hx)%kid_at_Some. rewrite (kids_after_update _ _ _ e _ He).
  unfold kids_after. rewrite He. simpl. apply conserves_measure, unnest_p_conserves.
  by apply lookup_lt_Some in Hx.
Qed.

Lemma unnest_step_measure s j i x :
  kid_at s j i = Some x → kids_after (unnest s j i) j (S i) < kids_after s j i.
Proof.
  intros (e & He & Hx)%kid_at_Some. rewrite (kids_after_unnest _ _ _ e He) by (by apply lookup_lt_Some in Hx).
  exact (kids_after_pos _ _ _ _ _ He Hx).
Qed.

Lemma same_step_measure s j i x : kid_at s j i = Some x → kids_after s j (S i) < kids_after s j i.
Proof. intros (e & He & Hx)%kid_at_Some. exact (kids_after_same _ _ _ _ _ He Hx). Qed.

Lemma kid_at_lt s j i : i < kid_count s j → ∃ x, kid_at s j i = Some x.
Proof.
  unfold kid_count, kid_at. destruct (s !! j) as [e|]; simpl; [|lia].
  intros Hi. by apply lookup_lt_is_Some_2.
Qed.

Lemma kids_after_start s j : kids_after s j 0 = kids_size s j.
Proof. unfold kids_after, kids_size. by destruct (s !! j). Qed.

Lemma unnest_element_step_measure j s i :
  i < kid_count s j → kids_after (unnest_element_step j s i) j (S i) < kids_after s j i.
Proof.
  intros (x & Hx)%kid_at_lt. unfold unnest_element_step. rewrite Hx.
  case_bool_decide; [exact (kids_after_update_p _ _ _ _ Hx)|].
  destruct (is_layout x); [exact (unnest_step_measure _ _ _ _ Hx)|exact (same_step_measure _ _ _ _ Hx)].
Qed.

Lemma unnest_content_step_measure j s i :
  i < kid_count s j → kids_after (unnest_content_step j s i) j (S i) < kids_after s j i.
Proof.
  intros (x & Hx)%kid_at_lt. unfold unnest_content_step. rewrite Hx.
  case_bool_decide; [exact (kids_after_update_p _ _ _ _ Hx)|].
  case_bool_decide.
  - destruct (kid_at_Some _ _ _ _ Hx) as (e & He & Hk). rewrite (kids_after_update _ _ _ e _ He).
    unfold kids_after. rewrite He. simpl. apply conserves_measure, unnest_element_conserves.
    by apply lookup_lt_Some in Hk.
  - destruct (is_layout x); [exact (unnest_step_measure _ _ _ _ Hx)|exact (same_step_measure _ _ _ _ Hx)].
Qed.

Lemma unnest_body_step_measure s i :
  i < length s → forest_size (drop (S i) (unnest_body_step s i)) < forest_size (drop i s).
Proof. intros Hi. by apply conserves_measure, unnest_body_step_conserves. Qed.

Lemma kid_count_unnest s j i e : s !! j = Some e → i ≤ length (e_kids e) → kid_count (unnest s j i) j = i.
Proof.
  intros Hj Hi. unfold kid_count. rewrite (unnest_eq _ _ _ _ Hj).
  rewrite lookup_app_r by (rewrite length_take; apply lookup_lt_Some in Hj; lia).
  rewrite length_take, Nat.min_l by (apply lookup_lt_Some in Hj; lia). rewrite Nat.sub_diag. simpl.
  rewrite e_kids_set_kids, length_take.
  assert (length (e_kids (unnest_parent e)) = length (e_kids e)) as ->; [|lia].
  unfold unnest_parent. destruct (has_text _); [|done]. autorewrite with layout_rw.
  destruct (map_last_cases (λ last, set_tail (Some (str_or_empty (e_tail last) +:+ str_or_empty (e_tail e))) last) (e_kids e))
    as [[-> ->]|(l0 & x & -> & ->)]; [done|]. rewrite !length_app. done.
Qed.

Lemma unnest_p_step_measure j s i :
  i < kid_count s j → kid_count (unnest_p_step j s i) j - S i < kid_count s j - i.
Proof.
  intros Hi. destruct (kid_at_lt _ _ _ Hi) as [x Hx]. unfold unnest_p_step. rewrite Hx.
  destruct (is_layout x); [|lia].
  destruct (kid_at_Some _ _ _ _ Hx) as (e & He & Hk).
  rewrite (kid_count_unnest _ _ _ e He) by (apply lookup_lt_Some in Hk; lia). lia.
Qed.

(** C17: The [while] loops of the unnesting phase terminate within the
    fuel the model gives them: the loop over the body within one turn
    per node of the body, the loops of [unnest_element] and
    [unnest_content] within one turn per node below the element, and
    the loop of [unnest_p] within one turn per child of the paragraph;
    any more fuel gives the same result. *)
Theorem unnest_loops_enough_fuel kids s j k :
  while_index (S (forest_size kids) + k) length unnest_body_step kids 0 = unnest_body kids ∧
  while_index (S (kids_size s j) + k) (λ s, kid_count s j) (unnest_element_step j) s 0 = unnest_element s j ∧
  while_index (S (kids_size s j) + k) (λ s, kid_count s j) (unnest_content_step j) s 0 = unnest_content s j ∧
  while_index (S (kid_count s j) + k) (λ s, kid_count s j) (unnest_p_step j) s 0 = unnest_p s j.
Proof.
  split_and!.
  - apply (while_index_fuel _ _ (λ s i, forest_size (drop i s))); [apply unnest_body_step_measure|]. rewrite drop_0. lia.
  - apply (while_index_fuel _ _ (λ s i, kids_after s j i)); [apply unnest_element_step_measure|].
    rewrite kids_after_start. lia.
  - apply (while_index_fuel _ _ (λ s i, kids_after s j i)); [apply unnest_content_step_measure|].
    rewrite kids_after_start. lia.
  - apply (while_index_fuel _ _ (λ s i, kid_count s j - i)); [apply unnest_p_step_measure|]. lia.
Qed.

(** ** The unnesting phase keeps the visible text *)





Lemma elem_vis_kids e : elem_vis e = vis (e_text e) ++ sibs_vis (e_kids e).
Proof.
  by destruct e.
Qed.

Lemma sibs_vis_app l1 l2 : sibs_vis (l1 ++ l2) = sibs_vis l1 ++ sibs_vis l2.
Proof. induction l1 as [|y l1 IH]; [done|]. simpl. rewrite IH. by rewrite !app_assoc. Qed.

Lemma sibs_vis_cons y l : sibs_vis (y :: l) = elem_vis y ++ vis (e_tail y) ++ sibs_vis l.
Proof. done. Qed.

Lemma layout_ok_kids e :
  layout_ok e = (negb (bool_decide (e_tag e = "layout") && has_text (e_text e)) || bool_decide (e_kids e ≠ []))
                && forallb layout_ok (e_kids e).
Proof.
  by destruct e.
Qed.

Lemma vis_none : vis None = [].
Proof. done. Qed.

Lemma vis_str_or_empty o : vis (Some (str_or_empty o)) = vis o.
Proof. by destruct o. Qed.

Lemma vis_app a b : vis (Some (a +:+ b)) = vis (Some a) ++ vis (Some b).
Proof. unfold vis. simpl. by rewrite str_chars_app, filter_app. Qed.

(** A text that is blank shows nothing. *)
Lemma vis_blank o : has_text o = false → vis o = [].
Proof.
  destruct o as [s|]; [|done]. simpl. intros H. unfold vis. simpl.
  apply andb_false_iff in H as [H|H].
  - apply bool_decide_eq_false in H. apply dec_stable in H. by subst.
  - apply negb_false_iff in H. unfold py_isspace in H. apply andb_true_iff in H as [_ H].
    rewrite forallb_forall in H. induction (str_chars s) as [|c l IH]; [done|].
    rewrite filter_cons_False; [apply IH; intros; apply H; by right|].
    rewrite H; [done|by left].
Qed.

Lemma elem_vis_set_tail tl e : elem_vis (set_tail tl e) = elem_vis e.
Proof. by destruct e. Qed.
Lemma e_tail_set_tail tl e : e_tail (set_tail tl e) = tl.
Proof. by destruct e. Qed.
Lemma e_text_set_kids k e : e_text (set_kids k e) = e_text e.
Proof. by destruct e. Qed.
Lemma e_tail_set_kids k e : e_tail (set_kids k e) = e_tail e.
Proof. by destruct e. Qed.
Lemma e_text_set_tail tl e : e_text (set_tail tl e) = e_text e.
Proof. by destruct e. Qed.
Lemma layout_ok_set_tail tl e : layout_ok (set_tail tl e) = layout_ok e.
Proof. by destruct e. Qed.
#[export] Hint Rewrite elem_vis_set_tail e_tail_set_tail e_text_set_kids e_tail_set_kids e_text_set_tail
  layout_ok_set_tail : layout_rw.

(** The tail moved to the last child shows after the children. *)
Lemma sibs_vis_map_last_tail k t :
  k ≠ [] → sibs_vis (map_last (λ last, set_tail (Some (str_or_empty (e_tail last) +:+ t)) last) k) =
           sibs_vis k ++ vis (Some t).
Proof.
  intros Hk. destruct (map_last_cases (λ last, set_tail (Some (str_or_empty (e_tail last) +:+ t)) last) k)
    as [[-> _]|(l0 & x & -> & ->)]; [done|].
  rewrite !sibs_vis_app, !sibs_vis_cons. autorewrite with layout_rw.
  rewrite vis_app, vis_str_or_empty. simpl. by rewrite !app_nil_r, <-!app_assoc.
Qed.

Lemma forallb_sublist {A} (f : A → bool) l l' : sublist l' l → forallb f l = true → forallb f l' = true.
Proof.
  intros Hs Hl. apply forallb_forall. intros x Hx. rewrite forallb_forall in Hl. apply Hl.
  apply list_elem_of_In. apply list_elem_of_In in Hx. eapply elem_of_submseteq; [exact Hx|].
  by apply sublist_submseteq.
Qed.

Lemma layout_ok_map_last_tail k t :
  forallb layout_ok (map_last (λ last, set_tail (Some (str_or_empty (e_tail last) +:+ t)) last) k) = forallb layout_ok k.
Proof.
  destruct (map_last_cases (λ last, set_tail (Some (str_or_empty (e_tail last) +:+ t)) last) k)
    as [[-> ->]|(l0 & x & -> & ->)]; [done|]. rewrite !forallb_app. simpl. by rewrite layout_ok_set_tail.
Qed.

(** What [_unnest] does to the parent, seen from the text. *)
Lemma unnest_parent_vis e i :
  i < length (e_kids e) →
  sibs_vis (take i (e_kids (unnest_parent e))) ++ vis (e_tail (unnest_parent e)) ++ sibs_vis (drop i (e_kids (unnest_parent e)))
  = sibs_vis (e_kids e) ++ vis (e_tail e).
Proof.
  intros Hi. unfold unnest_parent. destruct (has_text (e_tail e)) eqn:Ht; autorewrite with layout_rw.
  - rewrite vis_none, app_nil_l, <-sibs_vis_app, take_drop, sibs_vis_map_last_tail by (destruct (e_kids e); simpl in *; [lia|done]).
    by rewrite vis_str_or_empty.
  - rewrite (vis_blank _ Ht), app_nil_l, <-sibs_vis_app, take_drop. by rewrite app_nil_r.
Qed.

Lemma unnest_parent_ok e : forallb layout_ok (e_kids (unnest_parent e)) = forallb layout_ok (e_kids e).
Proof.
  unfold unnest_parent. destruct (has_text _); [|done]. autorewrite with layout_rw. apply layout_ok_map_last_tail.
Qed.

Lemma unnest_parent_tag e : e_tag (unnest_parent e) = e_tag e.
Proof. unfold unnest_parent. destruct (has_text _); by autorewrite with layout_rw. Qed.

Lemma unnest_parent_text e : e_text (unnest_parent e) = e_text e.
Proof. unfold unnest_parent. destruct (has_text _); by autorewrite with layout_rw. Qed.

Lemma sibs_vis_middle s j e : s !! j = Some e → sibs_vis s = sibs_vis (take j s) ++ elem_vis e ++ vis (e_tail e) ++ sibs_vis (drop (S j) s).
Proof. intros Hj. rewrite <-(take_drop_middle s j e Hj) at 1. by rewrite sibs_vis_app, sibs_vis_cons. Qed.

(** [_unnest] keeps the visible text of the grandparent's children. *)
Lemma unnest_vis s j i e : s !! j = Some e → i < length (e_kids e) → sibs_vis (unnest s j i) = sibs_vis s.
Proof.
  intros Hj Hi. rewrite (unnest_eq _ _ _ _ Hj), (sibs_vis_middle _ _ _ Hj).
  rewrite !sibs_vis_app, sibs_vis_cons. simpl. rewrite app_nil_r, elem_vis_kids. autorewrite with layout_rw.
  rewrite unnest_parent_text, (elem_vis_kids e), <-!app_assoc, (app_assoc (sibs_vis (e_kids e))).
  by rewrite <-(unnest_parent_vis e i Hi), <-!app_assoc.
Qed.

Lemma unnest_lookup s j i e : s !! j = Some e → unnest s j i !! j = Some (set_kids (take i (e_kids (unnest_parent e))) (unnest_parent e)).
Proof.
  intros Hj. rewrite (unnest_eq _ _ _ _ Hj). rewrite lookup_app_r by (rewrite length_take; apply lookup_lt_Some in Hj; lia).
  rewrite length_take, Nat.min_l by (apply lookup_lt_Some in Hj; lia). by rewrite Nat.sub_diag.
Qed.

Lemma forallb_take_drop_middle {A} (f : A → bool) s j e :
  s !! j = Some e → forallb f s = forallb f (take j s) && f e && forallb f (drop (S j) s).
Proof. intros Hj. rewrite <-(take_drop_middle s j e Hj) at 1. rewrite forallb_app. simpl. by rewrite andb_assoc. Qed.

Lemma unnest_ok s j i e :
  s !! j = Some e → e_tag e ≠ "layout" → forallb layout_ok s = true → forallb layout_ok (unnest s j i) = true.
Proof.
  intros Hj Ht Hs. rewrite (forallb_take_drop_middle _ _ _ _ Hj) in Hs.
  apply andb_true_iff in Hs as [[H1 H2]%andb_true_iff H3]. rewrite layout_ok_kids in H2.
  apply andb_true_iff in H2 as [_ H2]. rewrite <-unnest_parent_ok in H2.
  rewrite (unnest_eq _ _ _ _ Hj), !forallb_app. simpl. rewrite H1, H3, layout_ok_kids. autorewrite with layout_rw.
  rewrite unnest_parent_tag, bool_decide_false by done. simpl.
  rewrite (forallb_sublist _ _ _ (sublist_take _ _) H2), (forallb_sublist _ _ _ (sublist_drop _ _) H2). done.
Qed.

Lemma e_text_set_text x e : e_text (set_text x e) = x.
Proof. by destruct e. Qed.
Lemma e_tail_set_text x e : e_tail (set_text x e) = e_tail e.
Proof. by destruct e. Qed.
#[export] Hint Rewrite e_text_set_text e_tail_set_text : layout_rw.

Lemma unnest_parent_tail_blank e : has_text (e_tail (unnest_parent e)) = false.
Proof. unfold unnest_parent. destruct (has_text (e_tail e)) eqn:H; by autorewrite with layout_rw. Qed.

Lemma sibs_vis_insert s j e e' :
  s !! j = Some e → elem_vis e' ++ vis (e_tail e') = elem_vis e ++ vis (e_tail e) →
  sibs_vis (<[j := e']> s) = sibs_vis s.
Proof.
  intros Hj He. assert (j < length s) by (by apply lookup_lt_Some in Hj).
  rewrite insert_take_drop, (sibs_vis_middle s j e Hj), sibs_vis_app, sibs_vis_cons by done.
  by rewrite (app_assoc (elem_vis e')), He, <-app_assoc.
Qed.

Lemma forallb_insert {A} (f : A → bool) s j e' :
  j < length s → forallb f (<[j := e']> s) = forallb f (take j s) && f e' && forallb f (drop (S j) s).
Proof.
  intros Hj. rewrite insert_take_drop, forallb_app by done. simpl. by rewrite andb_assoc.
Qed.


(** A turn of an inner unnesting loop keeps the visible text, the
    well-formedness of the forest and the tag at [j]. *)
Lemma keeps_vis_refl j s : forallb layout_ok s = true → keeps_vis j s s.
Proof. done. Qed.

Lemma keeps_vis_trans j s1 s2 s3 : keeps_vis j s1 s2 → keeps_vis j s2 s3 → keeps_vis j s1 s3.
Proof. intros (H1 & H2 & H3) (H4 & H5 & H6). split_and!; congruence. Qed.

Lemma while_keeps j len (body : list elem → nat → list elem) fuel s i :
  (∀ s' i, forallb layout_ok s' = true → e_tag <$> s' !! j ≠ Some "layout" → keeps_vis j s' (body s' i)) →
  forallb layout_ok s = true → e_tag <$> s !! j ≠ Some "layout" →
  keeps_vis j s (while_index fuel len body s i).
Proof.
  intros Hb Hs Ht. apply (while_index_inv (keeps_vis j s)); [|done].
  intros s' i' Hs' _. eapply keeps_vis_trans; [exact Hs'|]. destruct Hs' as (_ & ? & Htag).
  apply Hb; [done|]. by rewrite Htag.
Qed.

Lemma unnest_keeps s j i e :
  s !! j = Some e → e_tag e ≠ "layout" → i < length (e_kids e) → forallb layout_ok s = true →
  keeps_vis j s (unnest s j i).
Proof.
  intros Hj Ht Hi Hs. split_and!.
  - by apply (unnest_vis _ _ _ e).
  - by apply (unnest_ok _ _ _ e).
  - rewrite (unnest_lookup _ _ _ e), Hj by done. simpl. autorewrite with layout_rw. by rewrite unnest_parent_tag.
Qed.

Lemma update_kids_keeps s j e f :
  s !! j = Some e → e_tag e ≠ "layout" → forallb layout_ok s = true →
  (forallb layout_ok (e_kids e) = true → sibs_vis (f (e_kids e)) = sibs_vis (e_kids e) ∧ forallb layout_ok (f (e_kids e)) = true) →
  keeps_vis j s (update_kids s j f).
Proof.
  intros Hj Ht Hs Hf. assert (j < length s) by (by apply lookup_lt_Some in Hj).
  pose proof Hs as Hs'. rewrite (forallb_take_drop_middle _ _ _ _ Hj) in Hs'.
  apply andb_true_iff in Hs' as [[H1 H2]%andb_true_iff H3]. rewrite layout_ok_kids in H2.
  apply andb_true_iff in H2 as [_ H2]. destruct (Hf H2) as [Hv Hk].
  unfold update_kids. rewrite Hj. split_and!.
  - apply (sibs_vis_insert _ _ e); [done|]. rewrite !elem_vis_kids. autorewrite with layout_rw. by rewrite Hv.
  - rewrite forallb_insert, H1, H3 by done. rewrite layout_ok_kids. autorewrite with layout_rw.
    rewrite Hk, bool_decide_false by done. done.
  - rewrite list_lookup_insert_eq by done. simpl. autorewrite with layout_rw. by rewrite Hj.
Qed.

Lemma kid_at_tag s j i x :
  kid_at s j i = Some x → e_tag <$> s !! j ≠ Some "layout" →
  ∃ e, s !! j = Some e ∧ e_kids e !! i = Some x ∧ e_tag e ≠ "layout" ∧ i < length (e_kids e).
Proof.
  intros (e & Hj & Hx)%kid_at_Some Ht. exists e. rewrite Hj in Ht. simpl in Ht.
  split_and!; [done|done| |by apply lookup_lt_Some in Hx]. congruence.
Qed.

Lemma unnest_p_keeps s j : forallb layout_ok s = true → e_tag <$> s !! j ≠ Some "layout" → keeps_vis j s (unnest_p s j).
Proof.
  apply while_keeps. intros s' i Hs Ht. unfold unnest_p_step.
  destruct (kid_at s' j i) as [x|] eqn:Hx; [|done].
  destruct (kid_at_tag _ _ _ _ Hx Ht) as (e & Hj & _ & He & Hi).
  destruct (is_layout x); [|done]. by apply (unnest_keeps _ _ _ e).
Qed.

(** The nested call on the [p] child [x], through [update_kids]. *)
Lemma update_unnest_p_keeps s j i e x :
  s !! j = Some e → e_tag e ≠ "layout" → e_kids e !! i = Some x → e_tag x = "p" → forallb layout_ok s = true →
  keeps_vis j s (update_kids s j (λ ks, unnest_p ks i)).
Proof.
  intros Hj He Hx Hp Hs. apply (update_kids_keeps _ _ e); [done..|]. intros Hk.
  destruct (unnest_p_keeps (e_kids e) i Hk) as (? & ? & _); [|done]. rewrite Hx. simpl. by rewrite Hp.
Qed.

Lemma unnest_element_keeps s j :
  forallb layout_ok s = true → e_tag <$> s !! j ≠ Some "layout" → keeps_vis j s (unnest_element s j).
Proof.
  apply while_keeps. intros s' i Hs Ht. unfold unnest_element_step.
  destruct (kid_at s' j i) as [x|] eqn:Hx; [|done].
  destruct (kid_at_tag _ _ _ _ Hx Ht) as (e & Hj & Hxi & He & Hi).
  case_bool_decide; [by apply (update_unnest_p_keeps _ _ _ e x)|].
  destruct (is_layout x); [|done]. by apply (unnest_keeps _ _ _ e).
Qed.

Lemma unnest_content_keeps s j :
  forallb layout_ok s = true → e_tag <$> s !! j ≠ Some "layout" → keeps_vis j s (unnest_content s j).
Proof.
  apply while_keeps. intros s' i Hs Ht. unfold unnest_content_step.
  destruct (kid_at s' j i) as [x|] eqn:Hx; [|done].
  destruct (kid_at_tag _ _ _ _ Hx Ht) as (e & Hj & Hxi & He & Hi).
  case_bool_decide; [by apply (update_unnest_p_keeps _ _ _ e x)|].
  case_bool_decide as Hc.
  - apply (update_kids_keeps _ _ e); [done..|]. intros Hk.
    destruct (unnest_element_keeps (e_kids e) i Hk) as (? & ? & _); [|done]. rewrite Hxi. simpl. by rewrite Hc.
  - destruct (is_layout x); [|done]. by apply (unnest_keeps _ _ _ e).
Qed.

Lemma unnest_insert_eq s j i e e' :
  s !! j = Some e → <[j := e']> (unnest s j i) = take j s ++ [e'] ++ drop i (e_kids (unnest_parent e)) ++ drop (S j) s.
Proof.
  intros Hj. assert (j < length s) by (by apply lookup_lt_Some in Hj).
  rewrite (unnest_eq _ _ _ _ Hj), insert_app_r_alt by (rewrite length_take; lia).
  by rewrite length_take, Nat.min_l, Nat.sub_diag by lia.
Qed.

(** Replacing the parent after [_unnest] by a well-formed element
    leaves a well-formed forest. *)
Lemma unnest_insert_ok s j i e e' :
  s !! j = Some e → forallb layout_ok s = true → layout_ok e' = true →
  forallb layout_ok (<[j := e']> (unnest s j i)) = true.
Proof.
  intros Hj Hs He. rewrite (forallb_take_drop_middle _ _ _ _ Hj) in Hs.
  apply andb_true_iff in Hs as [[H1 H2]%andb_true_iff H3]. rewrite layout_ok_kids in H2.
  apply andb_true_iff in H2 as [_ H2]. rewrite <-unnest_parent_ok in H2.
  rewrite (unnest_insert_eq _ _ _ e) by done. rewrite !forallb_app. simpl.
  by rewrite H1, H3, He, (forallb_sublist _ _ _ (sublist_drop _ _) H2).
Qed.

(** [unnest_layout] keeps the visible text of a well-formed forest. *)
Lemma unnest_layout_vis s j :
  forallb layout_ok s = true → e_tag <$> s !! j = Some "layout" →
  sibs_vis (unnest_layout s j) = sibs_vis s ∧ forallb layout_ok (unnest_layout s j) = true.
Proof.
  intros Hs Ht. unfold unnest_layout, kid_count.
  destruct (s !! j) as [e|] eqn:Hj; [|done]. simpl in Ht. injection Ht as Ht. simpl.
  case_bool_decide as Hk.
  - assert (Hl : unnest s j 0 !! j = Some (set_kids [] (unnest_parent e))) by (by rewrite (unnest_lookup _ _ _ e)).
    rewrite Hl. autorewrite with layout_rw. rewrite unnest_parent_text.
    pose proof (vis_blank _ (unnest_parent_tail_blank e)) as Hb.
    destruct (has_text (e_text e)) eqn:Htx; split.
    + rewrite (sibs_vis_insert _ _ _ _ Hl); [apply (unnest_vis _ _ _ e); [done|lia]|].
      rewrite !elem_vis_kids. autorewrite with layout_rw. rewrite unnest_parent_text, Hb. simpl.
      by rewrite !app_nil_r.
    + apply (unnest_insert_ok _ _ _ e); [done..|]. rewrite layout_ok_kids. autorewrite with layout_rw.
      simpl. by rewrite andb_false_r.
    + apply (unnest_vis _ _ _ e); [done|lia].
    + rewrite <-(list_insert_id _ _ _ Hl). apply (unnest_insert_ok _ _ _ e); [done..|].
      rewrite layout_ok_kids. autorewrite with layout_rw. by rewrite unnest_parent_text, Htx, andb_false_r.
  - rewrite Hj. destruct (has_text (e_text e)) eqn:Htx; [|done].
    rewrite (forallb_take_drop_middle _ _ _ _ Hj), layout_ok_kids, Ht, Htx in Hs.
    destruct (e_kids e); [|simpl in Hk; lia].
    rewrite (bool_decide_eq_false_2 ([] ≠ [])), bool_decide_eq_true_2 in Hs by naive_solver.
    simpl in Hs. by rewrite andb_false_r in Hs.
Qed.

(** A turn of the loop over the body keeps the visible text and the
    well-formedness of the body's children. *)
Lemma unnest_body_step_vis s i :
  forallb layout_ok s = true → sibs_vis (unnest_body_step s i) = sibs_vis s ∧ forallb layout_ok (unnest_body_step s i) = true.
Proof.
  intros Hs. unfold unnest_body_step. destruct (s !! i) as [x|] eqn:Hx; [|done].
  assert (Hne : ∀ t, e_tag x = t → t ≠ "layout" → e_tag <$> s !! i ≠ Some "layout")
    by (intros t Ht Hn; rewrite Hx; simpl; congruence).
  case_bool_decide as Hp; [by destruct (unnest_p_keeps s i Hs (Hne _ Hp ltac:(done))) as (? & ? & _)|].
  destruct (is_layout x); [|done].
  case_bool_decide as Hl; [apply unnest_layout_vis; [done|by rewrite Hx, <-Hl]|].
  case_bool_decide as Hc; [by destruct (unnest_content_keeps s i Hs (Hne _ Hc ltac:(done))) as (? & ? & _)|].
  by destruct (unnest_element_keeps s i Hs (Hne _ eq_refl Hl)) as (? & ? & _).
Qed.

Lemma unnest_body_vis kids :
  forallb layout_ok kids = true → sibs_vis (unnest_body kids) = sibs_vis kids ∧ forallb layout_ok (unnest_body kids) = true.
Proof.
  intros Hk. apply (while_index_inv (λ s, sibs_vis s = sibs_vis kids ∧ forallb layout_ok s = true)); [|done].
  intros s i [Hv Hs] _. destruct (unnest_body_step_vis s i Hs) as [? ?]. split; congruence.
Qed.

(** ** The wrapping phase keeps the visible text *)



Lemma sibs_vis_map_last f l : keeps_text f → sibs_vis (map_last f l) = sibs_vis l.
Proof.
  intros Hf. destruct (map_last_cases f l) as [[-> ->]|(l0 & x & -> & ->)]; [done|].
  rewrite !sibs_vis_app, !sibs_vis_cons. by destruct (Hf x) as [-> ->].
Qed.

Lemma sibs_vis_snoc l x : sibs_vis (l ++ [x]) = sibs_vis l ++ elem_vis x ++ vis (e_tail x).
Proof. rewrite sibs_vis_app, sibs_vis_cons. simpl. by rewrite app_nil_r. Qed.

Lemma elem_vis_wrapper wrap t : elem_vis (set_text t (makeelement wrap)) = vis t.
Proof. simpl. by rewrite app_nil_r. Qed.

Lemma elem_vis_set_kids k e : elem_vis (set_kids k e) = vis (e_text e) ++ sibs_vis k.
Proof. by rewrite elem_vis_kids; autorewrite with layout_rw. Qed.

Lemma elem_vis_set_text_None e : elem_vis (set_text None e) = sibs_vis (e_kids e).
Proof. by rewrite elem_vis_kids; autorewrite with layout_rw. Qed.

Section wrap_text.
Variables (is_sep : elem → bool) (wrap : string) (close norm : elem → elem).
Hypothesis Hclose : keeps_text close.
Hypothesis Hnorm : keeps_text norm.

(** A turn of the wrapping loop shows the child after what was built. *)
Lemma wrap_step_text st x :
  wrap_open_ok st →
  wrap_open_ok (wrap_step is_sep wrap close norm st x) ∧
  sibs_vis (wrap_step is_sep wrap close norm st x).1 = sibs_vis st.1 ++ elem_vis x ++ vis (e_tail x).
Proof.
  destruct st as [els op]. intros Hop. unfold wrap_step.
  assert (Hels : sibs_vis (if op then map_last close els else els) = sibs_vis els)
    by (destruct op; [by apply sibs_vis_map_last|done]).
  destruct (is_sep x); [destruct (has_text (e_tail x)) eqn:Ht|destruct op]; simpl; split.
  - intros _. eexists (_ ++ [_]), _. split; [by rewrite <-app_assoc|done].
  - rewrite sibs_vis_app, !sibs_vis_cons, Hels. destruct (Hnorm (set_tail None x)) as [-> ->].
    autorewrite with layout_rw. simpl. by rewrite !app_nil_r.
  - done.
  - rewrite sibs_vis_snoc, Hels. by destruct (Hnorm x) as [-> ->].
  - destruct (Hop eq_refl) as (l & w & Hl & Hw). simpl in Hl. subst els. rewrite map_last_snoc. eexists _, _.
    split; [done|]. by autorewrite with layout_rw.
  - destruct (Hop eq_refl) as (l & w & Hl & Hw). simpl in Hl. subst els. rewrite map_last_snoc, !sibs_vis_snoc.
    autorewrite with layout_rw. rewrite Hw, elem_vis_set_kids, sibs_vis_snoc, (elem_vis_kids w), ?vis_none.
    by rewrite !app_nil_r, <-!app_assoc.
  - intros _. eexists _, _. by split.
  - rewrite sibs_vis_snoc. simpl. by rewrite !app_nil_r.
Qed.

Lemma wrap_fold_text xs st :
  wrap_open_ok st →
  wrap_open_ok (foldl (wrap_step is_sep wrap close norm) st xs) ∧
  sibs_vis (foldl (wrap_step is_sep wrap close norm) st xs).1 = sibs_vis st.1 ++ sibs_vis xs.
Proof.
  revert st. induction xs as [|x xs IH]; intros st Hst; simpl; [by rewrite app_nil_r|].
  destruct (wrap_step_text st x Hst) as [Hok Hv]. destruct (IH _ Hok) as [? ->].
  split; [done|]. by rewrite Hv, <-!app_assoc.
Qed.

(** [wrap_children] keeps the visible text and the tail of the parent. *)
Lemma wrap_children_text : keeps_text (wrap_children is_sep wrap close norm).
Proof.
  intros p. unfold wrap_children.
  destruct (has_text (e_text p)) eqn:Ht.
  - destruct (wrap_fold_text (e_kids (set_text None p)) ([set_text (e_text p) (makeelement wrap)], true))
      as [Hok Hv]; [intros _; by exists [], (set_text (e_text p) (makeelement wrap))|].
    destruct (foldl _ _ _) as [els []]; cbn [fst] in Hv; simpl; rewrite elem_vis_set_kids; (split; [|by autorewrite with layout_rw]);
      rewrite ?sibs_vis_map_last, Hv by done; autorewrite with layout_rw; rewrite (elem_vis_kids p); simpl;
      by rewrite ?app_nil_r.
  - destruct (wrap_fold_text (e_kids p) ([], false)) as [Hok Hv]; [done|].
    destruct (foldl _ _ _) as [els []]; cbn [fst] in Hv; simpl; rewrite elem_vis_set_kids; (split; [|by autorewrite with layout_rw]);
      rewrite ?sibs_vis_map_last, Hv by done; by rewrite elem_vis_kids, (vis_blank _ Ht).
Qed.

End wrap_text.

Lemma set_attr_text k v : keeps_text (set_attr k v).
Proof. intros [t a x ks tl]. done. Qed.

Lemma normalize_width_text : keeps_text normalize_width.
Proof.
  intros e. unfold normalize_width. destruct (attr_get _ _); [|done].
  case_bool_decide; [done|]. destruct (py_int_ok _); [apply set_attr_text|done].
Qed.

Lemma normalize_column_text : keeps_text normalize_column.
Proof. apply wrap_children_text; by intros x. Qed.

Lemma first_fit_elem ws rows row : first_fit ws rows = Some row → row ∈ rows.
Proof.
  induction rows as [|r rows IH]; simpl; [done|]. destruct (row_fits ws r); [intros [= ->]; by left|].
  intros H. right. by apply IH.
Qed.

Lemma yui_columns_length n rows row : yui_columns n = Some rows → row ∈ rows → length row = n.
Proof.
  intros Hn Hr. destruct n as [|[|[|[|[|n]]]]]; simplify_eq/=;
    apply list_elem_of_In in Hr; simpl in Hr; intuition (subst; reflexivity).
Qed.

(** [correct_width_list] gives one width per column. *)
Lemma correct_width_list_length ws : length (correct_width_list ws) = length ws.
Proof.
  unfold correct_width_list. destruct (yui_columns (length ws)) as [rows|] eqn:Hy; [|done].
  destruct (first_fit ws rows) as [row|] eqn:Hf; [|done].
  rewrite length_fmap. eapply yui_columns_length; [exact Hy|]. by apply (first_fit_elem ws).
Qed.

Lemma sibs_vis_zip_set_attr k (g : option string → string) l ws :
  length ws = length l → sibs_vis (zip_with (λ c w, set_attr k (g w) c) l ws) = sibs_vis l.
Proof.
  revert ws. induction l as [|c l IH]; intros [|w ws] Hl; simpl in Hl; try done. cbn [zip_with].
  rewrite !sibs_vis_cons, IH by lia. by destruct (set_attr_text k (g w) c) as [-> ->].
Qed.

Lemma normalize_content_text : keeps_text normalize_content.
Proof.
  intros e. unfold normalize_content.
  destruct (wrap_children_text is_column "column" normalize_column normalize_column
    normalize_column_text normalize_column_text e) as [Hv Ht].
  rewrite (proj1 (set_attr_text _ _ _)), (proj2 (set_attr_text _ _ _)).
  rewrite elem_vis_set_kids, sibs_vis_zip_set_attr by (by rewrite correct_width_list_length, length_fmap).
  autorewrite with layout_rw. by rewrite <-elem_vis_kids.
Qed.

Lemma layout_tags_text : keeps_text layout_tags.
Proof.
  intros x. unfold layout_tags.
  repeat case_bool_decide; try done;
    [apply normalize_width_text|apply normalize_width_text|apply normalize_content_text|apply normalize_column_text].
Qed.

(** ** [normalize] *)

Lemma find_child_Some t l i : find_child t l = Some i → ∃ e, l !! i = Some e ∧ e_tag e = t.
Proof.
  unfold find_child. destruct (list_find _ l) as [[i' e]|] eqn:H; [|done]. intros [= <-].
  apply list_find_Some in H as (? & ? & _). eauto.
Qed.

Lemma lookup_insert_at_lt {A} n (x : A) l i : i < n → n ≤ length l → insert_at n x l !! i = l !! i.
Proof. intros. unfold insert_at. rewrite lookup_app_l, lookup_take_lt by (rewrite ?length_take; lia). done. Qed.

Lemma lookup_insert_at_eq {A} n (x : A) l : n ≤ length l → insert_at n x l !! n = Some x.
Proof.
  intros. unfold insert_at. rewrite lookup_app_r by (rewrite length_take; lia).
  by rewrite length_take, Nat.min_l, Nat.sub_diag by lia.
Qed.

Lemma lookup_insert_at_ge {A} n (x : A) l i : n ≤ i → n ≤ length l → insert_at n x l !! S i = l !! i.
Proof.
  intros. unfold insert_at. rewrite lookup_app_r by (rewrite length_take; lia).
  rewrite length_take, Nat.min_l by lia. rewrite Nat.sub_succ_l by lia. simpl. rewrite lookup_drop. f_equal. lia.
Qed.

(** The second half of [head_and_body]: a [head] is found or inserted
    before the last child, and the body is found where it was. *)
Lemma head_stage_spec hk b body :
  hk !! b = Some body → e_tag body = "body" →
  let '(hk', h, b') := match find_child "head" hk with
    | Some h => (hk, h, b)
    | None => (insert_at (length hk - 1) (makeelement "head") hk, length hk - 1,
               if bool_decide (length hk - 1 ≤ b) then S b else b)
    end in
  (∃ head, hk' !! h = Some head ∧ e_tag head = "head") ∧ hk' !! b' = Some body.
Proof.
  intros Hb Ht. assert (b < length hk) by (by apply lookup_lt_Some in Hb).
  destruct (find_child "head" hk) as [h|] eqn:Hh.
  - destruct (find_child_Some _ _ _ Hh) as (head & ? & ?). eauto.
  - split; [eexists; split; [apply lookup_insert_at_eq; lia|done]|].
    case_bool_decide; [rewrite lookup_insert_at_ge|rewrite lookup_insert_at_lt]; done || lia.
Qed.

Lemma head_and_body_spec hk0 hk h b :
  head_and_body hk0 = (hk, h, b) →
  (∃ head, hk !! h = Some head ∧ e_tag head = "head") ∧ (∃ body, hk !! b = Some body ∧ e_tag body = "body").
Proof.
  unfold head_and_body. intros E.
  destruct (find_child "body" hk0) as [b0|] eqn:Hb.
  - destruct (find_child_Some _ _ _ Hb) as (body & Hb0 & Ht).
    pose proof (head_stage_spec hk0 b0 body Hb0 Ht) as Hs. rewrite E in Hs. destruct Hs. eauto.
  - pose proof (head_stage_spec (hk0 ++ [makeelement "body"]) (length hk0) (makeelement "body")) as Hs.
    rewrite E in Hs. destruct Hs as [? ?]; [by rewrite lookup_app_r, Nat.sub_diag by lia|done|]. eauto.
Qed.

Lemma head_and_body_ne hk0 hk h b head body :
  head_and_body hk0 = (hk, h, b) → hk !! h = Some head → hk !! b = Some body → h ≠ b.
Proof.
  intros E Hh Hb ->. destruct (head_and_body_spec _ _ _ _ E) as [(? & ? & ?) (? & ? & ?)]. congruence.
Qed.

(** The new body of [normalize], from the head and body it found. *)
Lemma normalize_eq html hk h b head body :
  head_and_body (e_kids html) = (hk, h, b) → hk !! h = Some head → hk !! b = Some body →
  e_kids (normalize html) !! b = Some (
    let head_list := layout_tags_xpath head in
    let body := set_kids (head_list ++ e_kids body) body in
    if needs_layout head_list body then
      wrap_children is_body_sep "content" normalize_content layout_tags (set_kids (unnest_body (e_kids body)) body)
    else body).
Proof.
  intros E Hh Hb. unfold normalize. rewrite E, Hh, Hb. autorewrite with layout_rw.
  apply list_lookup_insert_eq. rewrite length_insert. by apply lookup_lt_Some in Hb.
Qed.

Lemma e_tag_set_attr k v e : e_tag (set_attr k v e) = e_tag e.
Proof. by destruct e. Qed.
Lemma e_kids_set_attr k v e : e_kids (set_attr k v e) = e_kids e.
Proof. by destruct e. Qed.
#[export] Hint Rewrite e_tag_set_attr e_kids_set_attr : layout_rw.

Lemma e_tag_wrap_children is_sep wrap close norm p : e_tag (wrap_children is_sep wrap close norm p) = e_tag p.
Proof.
  unfold wrap_children. destruct (has_text _); destruct (foldl _ _ _) as [? []]; by autorewrite with layout_rw.
Qed.

Lemma e_tag_normalize_width e : e_tag (normalize_width e) = e_tag e.
Proof.
  unfold normalize_width. destruct (attr_get _ _); [|done]. case_bool_decide; [done|].
  destruct (py_int_ok _); by autorewrite with layout_rw.
Qed.

Lemma e_tag_normalize_content e : e_tag (normalize_content e) = e_tag e.
Proof. unfold normalize_content. autorewrite with layout_rw. apply e_tag_wrap_children. Qed.

Lemma e_tag_layout_tags x : e_tag (layout_tags x) = e_tag x.
Proof.
  unfold layout_tags, normalize_layout, normalize_header, normalize_footer, normalize_sidebar, normalize_column.
  repeat case_bool_decide; try done; auto using e_tag_normalize_width, e_tag_normalize_content, e_tag_wrap_children.
Qed.

(** ** The wrapping phase leaves no stray child *)

Lemma set_tail_id x : set_tail (e_tail x) x = x.
Proof. by destruct x. Qed.


Section wrap_shape.
Variables (is_sep : elem → bool) (wrap : string) (close norm : elem → elem) (Q : elem → bool).
Hypothesis Hclose : ∀ w, e_tag w = wrap → Q (close w) = true.
Hypothesis Hnorm : ∀ x tl, is_sep x = true → Q (norm (set_tail tl x)) = true.

Lemma wrap_shape_closed st : wrap_shape_ok wrap Q st → Forall (λ c, Q c = true) (if st.2 then map_last close st.1 else st.1).
Proof.
  destruct st as [els []]; simpl; [|done]. intros (l & w & -> & Hl & Hw).
  rewrite map_last_snoc. apply Forall_app. split; [done|]. apply Forall_singleton. by apply Hclose.
Qed.

Lemma wrap_step_shape st x : wrap_shape_ok wrap Q st → wrap_shape_ok wrap Q (wrap_step is_sep wrap close norm st x).
Proof.
  intros Hst. pose proof (wrap_shape_closed st Hst) as Hc. destruct st as [els op]. unfold wrap_step. simpl in Hc.
  destruct (is_sep x) eqn:Hx; [destruct (has_text (e_tail x))|destruct op]; simpl.
  - eexists (_ ++ [_]), _. split_and!; [by rewrite <-app_assoc| |by destruct wrap].
    apply Forall_app. split; [done|]. apply Forall_singleton. by apply Hnorm.
  - apply Forall_app. split; [done|]. apply Forall_singleton. rewrite <-(set_tail_id x). by apply Hnorm.
  - destruct Hst as (l & w & -> & Hl & Hw). rewrite map_last_snoc. eexists _, _. split_and!; [done..|].
    by autorewrite with layout_rw.
  - eexists _, _. split_and!; [done..|]. done.
Qed.

(** After [wrap_children], every child satisfies [Q]: the children that
    stay were [norm]alised, the wrappers were [close]d. *)
Lemma wrap_children_shape p : Forall (λ c, Q c = true) (e_kids (wrap_children is_sep wrap close norm p)).
Proof.
  unfold wrap_children.
  assert (Hfold : ∀ xs st, wrap_shape_ok wrap Q st → wrap_shape_ok wrap Q (foldl (wrap_step is_sep wrap close norm) st xs)).
  { induction xs as [|x xs IH]; intros st Hst; [done|]. apply IH, wrap_step_shape, Hst. }
  destruct (has_text (e_text p)).
  - pose proof (Hfold (e_kids (set_text None p)) ([set_text (e_text p) (makeelement wrap)], true)) as H.
    destruct (foldl _ _ _) as [els op]. autorewrite with layout_rw.
    apply (wrap_shape_closed (els, op)), H. by exists [], (set_text (e_text p) (makeelement wrap)).
  - pose proof (Hfold (e_kids p) ([], false)) as H.
    destruct (foldl _ _ _) as [els op]. autorewrite with layout_rw.
    apply (wrap_shape_closed (els, op)), H. by apply Forall_nil.
Qed.

End wrap_shape.


Lemma Forall_forallb_true {A} (f : A → bool) l : Forall (λ x, f x = true) l → forallb f l = true.
Proof. induction 1; simpl; [done|]. by apply andb_true_iff. Qed.

Lemma is_block_level_tag x y : e_tag x = e_tag y → is_block_level x = is_block_level y.
Proof. unfold is_block_level. by intros ->. Qed.

Lemma is_body_sep_tag x y : e_tag x = e_tag y → is_body_sep x = is_body_sep y.
Proof. unfold is_body_sep, is_layout, is_column. by intros ->. Qed.

Lemma column_ok_tag_kids x y : e_tag x = e_tag y → e_kids x = e_kids y → column_ok x = column_ok y.
Proof. unfold column_ok, is_column. by intros -> ->. Qed.

(** Every child of a normalised column is a block-level element. *)
Lemma normalize_column_shape e : forallb is_block_level (e_kids (normalize_column e)) = true.
Proof.
  apply Forall_forallb_true, wrap_children_shape.
  - intros w Hw. unfold is_block_level, id. by rewrite Hw.
  - intros x tl Hx. unfold id. by rewrite (is_block_level_tag _ x) by (by autorewrite with layout_rw).
Qed.

Lemma column_ok_normalize_column w : e_tag w = "column" → column_ok (normalize_column w) = true.
Proof.
  intros Hw. unfold column_ok, is_column. rewrite normalize_column_shape. unfold normalize_column.
  rewrite e_tag_wrap_children, Hw.
  by rewrite bool_decide_eq_true_2.
Qed.

Lemma Forall_zip_set_attr (Q : elem → bool) k (g : option string → string) l ws :
  (∀ c v, Q (set_attr k v c) = Q c) → Forall (λ c, Q c = true) l →
  Forall (λ c, Q c = true) (zip_with (λ c w, set_attr k (g w) c) l ws).
Proof.
  intros HQ Hl. revert ws. induction Hl as [|c l Hc Hl IH]; intros [|w ws]; simpl; try constructor.
  - by rewrite HQ.
  - apply IH.
Qed.

(** Every child of a normalised content is a column of block-level
    elements. *)
Lemma normalize_content_shape e : content_ok (normalize_content e) = true.
Proof.
  unfold content_ok, normalize_content. autorewrite with layout_rw. apply Forall_forallb_true, Forall_zip_set_attr.
  - intros c v. apply column_ok_tag_kids; by autorewrite with layout_rw.
  - apply wrap_children_shape; [apply column_ok_normalize_column|].
    intros x tl Hx. apply column_ok_normalize_column. unfold is_column in Hx. apply bool_decide_eq_true_1 in Hx.
    by autorewrite with layout_rw.
Qed.

Lemma layout_tags_content x : e_tag x = "content" → layout_tags x = normalize_content x.
Proof. intros Hx. unfold layout_tags. by rewrite Hx. Qed.

Lemma body_child_ok_content w : e_tag w = "content" → body_child_ok (normalize_content w) = true.
Proof.
  intros Hw. unfold body_child_ok. rewrite normalize_content_shape, orb_true_r, andb_true_r.
  rewrite (is_body_sep_tag _ w) by apply e_tag_normalize_content. unfold is_body_sep, is_layout, is_column.
  rewrite Hw. by rewrite bool_decide_eq_true_2, bool_decide_eq_false_2 by (set_solver || done).
Qed.

(** Every child of a body wrapped by [normalize] is a layout element
    other than a column, and a [content] holds columns only. *)
Lemma normalize_body_wrap_shape p :
  forallb body_child_ok (e_kids (wrap_children is_body_sep "content" normalize_content layout_tags p)) = true.
Proof.
  apply Forall_forallb_true, wrap_children_shape; [apply body_child_ok_content|].
  intros x tl Hx. unfold body_child_ok.
  rewrite (is_body_sep_tag _ x), Hx by (by rewrite e_tag_layout_tags; autorewrite with layout_rw). simpl.
  rewrite e_tag_layout_tags, e_tag_set_tail. case_bool_decide as Hc; [|done].
  rewrite layout_tags_content by (by autorewrite with layout_rw). apply normalize_content_shape.
Qed.

Lemma row_fits_spec ws row :
  row_fits ws row = true →
  ∀ i w r, ws !! i = Some (Some w) → w ≠ EmptyString → row !! i = Some r → w = r.
Proof.
  revert row. induction ws as [|w1 ws IH]; intros [|r1 row] Hf i w r Hw Hne Hr; try done.
  simpl in Hf. case_bool_decide as Hc; [done|]. destruct i as [|i]; simpl in *; [|by eapply IH].
  simplify_eq. destruct (decide (w = r)); [done|]. exfalso. apply Hc. split_and!; congruence.
Qed.

(** A row the loop breaks out of disagrees with a given width. *)
Lemma row_fits_false ws row : row_fits ws row = false → ¬ widths_agree ws row.
Proof.
  revert row. induction ws as [|w1 ws IH]; intros [|r1 row] Hf Hag; try done. simpl in Hf.
  case_bool_decide as Hc.
  - destruct Hc as (Hn & He & Hd). destruct w1 as [w|]; [|done].
    apply Hd. f_equal. apply (Hag 0 w r1); [done|congruence|done].
  - apply (IH row Hf). intros i w r Hw Hne Hr. by apply (Hag (S i)).
Qed.

Lemma first_fit_spec ws rows row :
  first_fit ws rows = Some row →
  ∃ k, rows !! k = Some row ∧ row_fits ws row = true ∧ ∀ k' r', k' < k → rows !! k' = Some r' → row_fits ws r' = false.
Proof.
  revert row. induction rows as [|r rows IH]; intros row; simpl; [done|].
  destruct (row_fits ws r) eqn:Hr.
  - intros [= <-]. exists 0. split_and!; [done..|lia].
  - intros (k & Hk & Hf & Hb)%IH. exists (S k). split_and!; [done..|].
    intros [|k'] r' Hlt Hk'; simpl in Hk'; [by simplify_eq|]. apply (Hb k'); [lia|done].
Qed.

Lemma first_fit_None ws rows : first_fit ws rows = None → Forall (λ r, row_fits ws r = false) rows.
Proof.
  induction rows as [|r rows IH]; simpl; [done|]. destruct (row_fits ws r) eqn:Hr; [done|].
  intros H. constructor; [done|]. by apply IH.
Qed.



(** ** Properties of the layout normaliser *)



(** C28: [normalize] finds or creates a [head] and a [body] child of the
    document, at different positions. *)
Theorem normalize_head_body html :
  ∃ hk h b head body, head_and_body (e_kids html) = (hk, h, b) ∧
    hk !! h = Some head ∧ e_tag head = "head" ∧ hk !! b = Some body ∧ e_tag body = "body" ∧ h ≠ b.
Proof.
  destruct (head_and_body (e_kids html)) as [[hk h] b] eqn:E.
  destruct (head_and_body_spec _ _ _ _ E) as [(head & Hh & Ht) (body & Hb & Hbt)].
  exists hk, h, b, head, body. split_and!; try done. by apply (head_and_body_ne _ _ _ _ head body E).
Qed.

(** C5: For a well-formed page (no [layout] element with a text and no
    child), the body [normalize] builds shows every visible character
    of the old body, after those of the layout elements moved from the
    head, in the same order: the unnesting loops and the wrapping loops
    move nodes and text, they lose none. *)
Theorem normalize_keeps_text html hk h b head body :
  head_and_body (e_kids html) = (hk, h, b) → hk !! h = Some head → hk !! b = Some body →
  forallb layout_ok (layout_tags_xpath head ++ e_kids body) = true →
  ∃ body', e_kids (normalize html) !! b = Some body' ∧
    elem_vis body' = vis (e_text body) ++ sibs_vis (layout_tags_xpath head) ++ sibs_vis (e_kids body).
Proof.
  intros E Hh Hb Hok. eexists. split; [exact (normalize_eq _ _ _ _ _ _ E Hh Hb)|]. simpl.
  destruct (needs_layout _ _).
  - rewrite (proj1 (wrap_children_text _ _ _ _ normalize_content_text layout_tags_text _)), elem_vis_set_kids.
    autorewrite with layout_rw. rewrite (proj1 (unnest_body_vis _ Hok)). by rewrite sibs_vis_app.
  - by rewrite elem_vis_set_kids, sibs_vis_app.
Qed.

Lemma normalize_keeps_text_witness :
  ∃ body', e_kids (normalize demo_html) !! 1 = Some body' ∧
    elem_vis body' = vis (e_text demo_body) ++ sibs_vis (layout_tags_xpath demo_head) ++ sibs_vis (e_kids demo_body).
Proof. apply (normalize_keeps_text demo_html [demo_head; demo_body] 0 1 demo_head demo_body); reflexivity. Defined.

(** C14: When [normalize] lays the body out, every child of the new body
    is a layout element other than a column; every [content] holds
    columns only, and every column holds block-level elements only. *)
Theorem normalize_layout_shape html hk h b head body :
  head_and_body (e_kids html) = (hk, h, b) → hk !! h = Some head → hk !! b = Some body →
  needs_layout (layout_tags_xpath head) (set_kids (layout_tags_xpath head ++ e_kids body) body) = true →
  ∃ body', e_kids (normalize html) !! b = Some body' ∧ forallb body_child_ok (e_kids body') = true.
Proof.
  intros E Hh Hb Hn. eexists. split; [exact (normalize_eq _ _ _ _ _ _ E Hh Hb)|]. simpl.
  rewrite Hn. apply normalize_body_wrap_shape.
Qed.

Lemma normalize_layout_shape_witness :
  ∃ body', e_kids (normalize demo_html) !! 1 = Some body' ∧ forallb body_child_ok (e_kids body') = true.
Proof. apply (normalize_layout_shape demo_html [demo_head; demo_body] 0 1 demo_head demo_body); reflexivity. Defined.

(** C20: for a [layout] element at [j] with a text that is not blank
    and no child, [unnest_layout] puts the text in place of the tail
    (layout/__init__.py, line 200): the visible text of the siblings
    is theirs before the element, its text, and theirs after it; the
    tail the element had is gone. *)
Theorem unnest_layout_drops_tail s j lay :
  s !! j = Some lay → e_kids lay = [] → has_text (e_text lay) = true →
  unnest_layout s j = <[j := set_tail (e_text lay) (set_text None lay)]> s ∧
  sibs_vis s = sibs_vis (take j s) ++ vis (e_text lay) ++ vis (e_tail lay) ++ sibs_vis (drop (S j) s) ∧
  sibs_vis (unnest_layout s j) = sibs_vis (take j s) ++ vis (e_text lay) ++ sibs_vis (drop (S j) s).
Proof.
  intros Hj Hk Ht. assert (j < length s) by (by apply lookup_lt_Some in Hj).
  assert (Hu : unnest_layout s j = <[j := set_tail (e_text lay) (set_text None lay)]> s).
  { unfold unnest_layout, kid_count. rewrite Hj. simpl. rewrite Hk. simpl. by rewrite Hj, Ht. }
  split; [done|]. rewrite Hu, insert_take_drop, (sibs_vis_middle s j lay Hj), sibs_vis_app, sibs_vis_cons by done.
  destruct lay as [t a x k tl]; simpl in Hk |- *; subst k. simpl. by rewrite !app_nil_r.
Qed.

Lemma unnest_layout_drops_tail_witness :
  let s := e_kids lost_tail_body in
  s !! 0 = Some (Elem "layout" [] (Some "abc") [] (Some "def")) ∧
  e_kids (Elem "layout" [] (Some "abc") [] (Some "def")) = [] ∧
  has_text (e_text (Elem "layout" [] (Some "abc") [] (Some "def"))) = true ∧
  (unnest_layout s 0 = <[0 := set_tail (Some "abc") (set_text None (Elem "layout" [] (Some "abc") [] (Some "def")))]> s ∧
   sibs_vis s = sibs_vis (take 0 s) ++ vis (Some "abc") ++ vis (Some "def") ++ sibs_vis (drop 1 s) ∧
   sibs_vis (unnest_layout s 0) = sibs_vis (take 0 s) ++ vis (Some "abc") ++ sibs_vis (drop 1 s)).
Proof.
  cbv zeta. refine (conj eq_refl (conj eq_refl (conj eq_refl _))).
  apply (unnest_layout_drops_tail (e_kids lost_tail_body) 0); reflexivity.
Defined.

(** The unnesting loop over the body moves nodes: it creates and
    loses none. *)
Theorem unnest_body_nodes kids : forest_size (unnest_body kids) = forest_size kids.
Proof.
  apply (while_index_inv (λ s, forest_size s = forest_size kids)); [|done].
  intros s i Hs Hi. destruct (unnest_body_step_conserves s i Hi) as [-> _]. done.
Qed.

(** C22: [correct_width_list] keeps the widths when there are not two to
    four columns or when no YUI row agrees with them; otherwise it gives
    the first YUI row for that many columns that agrees with every width
    given (neither missing nor empty). *)
Theorem correct_width_list_spec ws :
  ((yui_columns (length ws) = None ∨ ∃ rows, yui_columns (length ws) = Some rows ∧ Forall (λ r, ¬ widths_agree ws r) rows)
   ∧ correct_width_list ws = ws) ∨
  ∃ rows row k, yui_columns (length ws) = Some rows ∧ rows !! k = Some row ∧ correct_width_list ws = Some <$> row ∧
    length row = length ws ∧ (∀ k' r', k' < k → rows !! k' = Some r' → ¬ widths_agree ws r') ∧ widths_agree ws row.
Proof.
  unfold correct_width_list. destruct (yui_columns (length ws)) as [rows|] eqn:Hy; [|by left; split; [left|]].
  destruct (first_fit ws rows) as [row|] eqn:Hf.
  - right. destruct (first_fit_spec _ _ _ Hf) as (k & Hk & Hfit & Hb). exists rows, row, k. split_and!; try done.
    + eapply yui_columns_length; [exact Hy|]. by eapply list_elem_of_lookup_2.
    + intros k' r' Hlt Hr'. apply row_fits_false. by apply (Hb k').
    + intros i w r. by apply row_fits_spec.
  - left. split; [right; exists rows; split; [done|]|done].
    eapply Forall_impl; [apply first_fit_None, Hf|]. intros r. apply row_fits_false.
Qed.
