(* ===== verification/LegacyMonads.v ===== *)
(** * LegacyMonads: the monads of the legacy translator

    The monad classes of [src/pony/sqltranslator.py] (lines 438-900):
    [Monad] and its subclasses [ListMonad], [ObjectIterMonad], the
    attribute monads ([NumericAttrMonad], [StringAttrMonad],
    [ObjectAttrMonad]), the parameter, expression and constant monads
    (numeric and string, and [NoneMonad]), [StringMethodMonad], the
    boolean monads ([BoolExprMonad], [CmpMonad], [AndMonad], [OrMonad],
    [NotMonad]) and the special functions of lines 900-946 ([len],
    [abs], [sum], [min], [max]).  A monad is a value of [lmonad]; its
    class is read off the constructor and its type, as [AttrMonad.new],
    [ParamMonad.__new__] and [ConstMonad.__new__] choose it.

    The methods that change the translator ([ObjectAttrMonad._make_join],
    which allocates an alias and joins a table, and
    [ParamMonad.add_extractors], called by [getsql]) run in the state
    monad [stm] over [ltr], the fields of [SQLTranslator] they touch.
    [ObjectParamMonad], [AttrSetMonad] and [QuerySetMonad] (the set
    monads) are not modelled: a walk that reaches one stops with
    [Unsupported].

    The Python list [monad.getsql()] returns is an [sx]: a list for the
    value monads, the SQL node itself for the boolean monads, exactly as
    the code has it, so that [getsql()[0]] is [py_first]. *)

From S2P Require Import Prelude SqlAst Types Schema Tables Legacy Monads.

Set Warnings "-register-all".

(** ** Monads *)

Inductive lmonad :=
  (** [ObjectIterMonad(translator, alias, entity)] *)
  | LObjectIter (alias : string) (entity : string)
  (** [AttrMonad.new(parent, attr)]: numeric, string or object attribute
      monad by the attribute's type *)
  | LAttr (parent : lmonad) (a : attr)
  (** [ParamMonad(translator, type, name)] of a numeric or string type *)
  | LParam (t : ptype) (name : string)
  (** [NumericExprMonad(translator, sql)], [StringExprMonad(...)] *)
  | LExpr (t : ptype) (sql : sx)
  (** [ConstMonad(translator, value)]: numeric, string, or [NoneMonad] *)
  | LConst (v : sx)
  | LList (items : list lmonad)
  (** [StringMethodMonad(translator, parent, attrname)] *)
  | LMethod (parent : lmonad) (name : string)
  | LBoolExpr (sql : sx)
  (** [CmpMonad(op, left, right)] after its normalisation of [op] *)
  | LCmp (op : string) (left right : lmonad)
  | LAnd (operands : list lmonad)
  | LOr (operands : list lmonad)
  | LNot (operand : lmonad)
  (** The [SpecificFuncMonad] of a special function: ["len"], ["abs"],
      ["sum"], ["min"], ["max"], ["select"], ["exists"]. *)
  | LFunc (name : string).

(** The class [list], the type of a [ListMonad]: it only reaches
    [are_comparable_types], where it is neither [NoneType], nor a
    primitive type, nor an entity, as [TTuple []] is not. *)
Definition list_type : ptype := TTuple [].

(** [FuncMonad.type]: [int] for [len], [abs] and [sum], [None] for the
    others ([TFUNCTION] stands for [None], which no type test of the
    code accepts). *)
Definition func_type (name : string) : ptype :=
  if bool_decide (name = "len" ∨ name = "abs" ∨ name = "sum") then TInt else TFUNCTION.

(** [type(value)] of a constant, normalised. *)
Definition const_type (v : sx) : ptype :=
  match v with SInt _ => TInt | SStr _ => TUnicode | SNone => TNone | _ => TTuple [] end.

(** [monad.type]. *)
Definition ltype (m : lmonad) : ptype :=
  match m with
  | LObjectIter _ e => TEntity e
  | LAttr _ a => attr_py_type a
  | LParam t _ | LExpr t _ => t
  | LConst v => const_type v
  | LList _ => list_type
  | LMethod _ _ => TMETHOD
  | LBoolExpr _ | LCmp _ _ _ | LAnd _ | LOr _ | LNot _ => TBool
  | LFunc f => func_type f
  end.

(** [isinstance(monad, NumericMixin)] and [isinstance(monad, StringMixin)]:
    attribute, parameter, expression and constant monads of type [int]
    and [unicode]. *)
Definition is_scalar_l (m : lmonad) : bool :=
  match m with LAttr _ _ | LParam _ _ | LExpr _ _ | LConst _ => true | _ => false end.
Definition is_numeric_l (m : lmonad) : bool := is_scalar_l m && bool_decide (ltype m = TInt).
Definition is_string_l (m : lmonad) : bool := is_scalar_l m && bool_decide (ltype m = TUnicode).

(** [isinstance(monad, ObjectMixin)]: [ObjectIterMonad] and
    [ObjectAttrMonad]. *)
Definition is_object_l (m : lmonad) : bool :=
  match m with
  | LObjectIter _ _ => true
  | LAttr _ a => match attr_py_type a with TEntity _ => true | _ => false end
  | _ => false
  end.

(** [StringConstMonad] with its [value], [NumericConstMonad] with its
    [value]. *)
Definition lstr_const (m : lmonad) : option string := match m with LConst (SStr s) => Some s | _ => None end.
Definition lnum_const (m : lmonad) : option Z := match m with LConst (SInt z) => Some z | _ => None end.

(** [monad.alias]: the alias of an [ObjectIterMonad], the joined alias
    [parent.alias + '-' + attr.name] of an [ObjectAttrMonad], [None]
    for the other attribute monads; the other classes have no such
    attribute. *)
Fixpoint lalias (m : lmonad) : result (option string) :=
  match m with
  | LObjectIter a _ => Ok (Some a)
  | LAttr p a =>
      match attr_py_type a with
      | TEntity _ =>
          pa ← lalias p;
          match pa with
          | Some s => Ok (Some (s +:+ "-" +:+ attr_name a))
          | None => Err (TypeError "sequence item 0: expected string, NoneType found")
          end
      | _ => Ok None
      end
  | _ => Err (AttributeError "alias")
  end.

(** ** The translator state *)

(** The fields of [SQLTranslator] the monads and the qualifier loop
    change: [aliases], the items of [from_] after [FROM], [conditions],
    [extractors] (a parameter name to the variable it reads),
    [alias_counters], [distinct], [inside_expr], [iterables] and
    [diagram]. *)
Record ltr := mkLtr {
  lt_aliases : gmap string string;
  lt_from : list sx;
  lt_conditions : list sx;
  lt_extractors : gmap string string;
  lt_alias_counters : gmap string nat;
  lt_distinct : bool;
  lt_inside_expr : bool;
  lt_iterables : gmap string string;
  lt_diagram : option string
}.

Definition lt_set_aliases x t := mkLtr x (lt_from t) (lt_conditions t) (lt_extractors t) (lt_alias_counters t)
  (lt_distinct t) (lt_inside_expr t) (lt_iterables t) (lt_diagram t).
Definition lt_set_from x t := mkLtr (lt_aliases t) x (lt_conditions t) (lt_extractors t) (lt_alias_counters t)
  (lt_distinct t) (lt_inside_expr t) (lt_iterables t) (lt_diagram t).
Definition lt_set_conditions x t := mkLtr (lt_aliases t) (lt_from t) x (lt_extractors t) (lt_alias_counters t)
  (lt_distinct t) (lt_inside_expr t) (lt_iterables t) (lt_diagram t).
Definition lt_set_extractors x t := mkLtr (lt_aliases t) (lt_from t) (lt_conditions t) x (lt_alias_counters t)
  (lt_distinct t) (lt_inside_expr t) (lt_iterables t) (lt_diagram t).
Definition lt_set_counters x t := mkLtr (lt_aliases t) (lt_from t) (lt_conditions t) (lt_extractors t) x
  (lt_distinct t) (lt_inside_expr t) (lt_iterables t) (lt_diagram t).
Definition lt_set_distinct x t := mkLtr (lt_aliases t) (lt_from t) (lt_conditions t) (lt_extractors t)
  (lt_alias_counters t) x (lt_inside_expr t) (lt_iterables t) (lt_diagram t).
Definition lt_set_inside_expr x t := mkLtr (lt_aliases t) (lt_from t) (lt_conditions t) (lt_extractors t)
  (lt_alias_counters t) (lt_distinct t) x (lt_iterables t) (lt_diagram t).
Definition lt_set_iterables x t := mkLtr (lt_aliases t) (lt_from t) (lt_conditions t) (lt_extractors t)
  (lt_alias_counters t) (lt_distinct t) (lt_inside_expr t) x (lt_diagram t).
Definition lt_set_diagram x t := mkLtr (lt_aliases t) (lt_from t) (lt_conditions t) (lt_extractors t)
  (lt_alias_counters t) (lt_distinct t) (lt_inside_expr t) (lt_iterables t) x.

(** The state of [SQLTranslator.__init__] before its qualifier loop
    (lines 239-246): [from_ = [FROM]] and every dictionary empty. *)
Definition ltr_init : ltr := mkLtr ∅ [] [] ∅ ∅ false false ∅ None.

(** [[FROM] + items]. *)
Definition from_sql (t : ltr) : sx := SList (SStr "FROM" :: lt_from t).

Section Monads.
Variable sch : schema.


(** [get_short_alias(alias, entity_name)] on the translator's counters. *)
Definition lt_short_alias (alias : option string) (entity_name : string) : stm ltr string :=
  t ← sget;
  let '(a, c) := legacy_get_short_alias (lt_alias_counters t) alias entity_name in
  sput (lt_set_counters c t);; mret a.

(** [join_tables(translator.conditions, alias1, alias2, columns1, columns2)]. *)
Definition lt_join_tables (alias1 alias2 : string) (columns1 columns2 : list string) : stm ltr unit :=
  t ← sget;
  conds ← slift (legacy_join_tables (lt_conditions t) (Some alias1) (Some alias2) columns1 columns2);
  sput (lt_set_conditions conds t).

(** [ObjectAttrMonad._make_join()] (lines 694-706) for the joined alias
    [alias] of an attribute [attr] of [parent_alias]: nothing when the
    alias is known, otherwise a short alias, a [FROM] entry and the join
    conditions. *)
Definition make_join_l (parent_alias alias : string) (a : attr) (e : entity) : stm ltr unit :=
  t ← sget;
  match lt_aliases t !! alias with
  | Some _ => mret tt
  | None =>
      short ← lt_short_alias (Some alias) (ent_name e);
      t ← sget;
      sput (lt_set_from (lt_from t ++ [SList [SStr short; SStr "TABLE"; SStr (ent_table e)]])
             (lt_set_aliases (<[alias := short]> (lt_aliases t)) t));;
      lt_join_tables parent_alias short (attr_columns a) (ent_pk_columns e)
  end.

(** [AttrMonad.new(parent, attr)] (lines 671-678), with the join an
    [ObjectAttrMonad] makes when it is created. *)
Definition attr_new_l (parent : lmonad) (a : attr) : stm ltr lmonad :=
  match attr_py_type a with
  | TInt | TUnicode => mret (LAttr parent a)
  | TEntity en =>
      e ← slift (get_entity sch en);
      pa ← slift (lalias parent);
      match pa with
      | Some p => make_join_l p (p +:+ "-" +:+ attr_name a) a e;; mret (LAttr parent a)
      | None => sthrow (TypeError "sequence item 0: expected string, NoneType found")
      end
  | _ => sthrow (NotImplementedError "")
  end.

(** [ObjectMixin.getattr(name)] (lines 652-659): the attribute of the
    entity, a set attribute being an [AttrSetMonad]. *)
Definition object_getattr_l (m : lmonad) (name : string) : stm ltr lmonad :=
  match ltype m with
  | TEntity en =>
      e ← slift (get_entity sch en);
      match find_attr e name with
      | None => sthrow (AttributeError name)
      | Some a => if attr_is_collection a then sthrow (Unsupported "AttrSetMonad") else attr_new_l m a
      end
  | _ => sthrow (AttributeError name)
  end.

(** The columns of [entity._pk_attrs_] that are not collections. *)
Definition pk_attr_columns (e : entity) : result (list string) :=
  cols ← mapM (λ n, match find_attr e n with
                    | Some a => Ok (if attr_is_collection a then [] else attr_columns a)
                    | None => Err (KeyError n)
                    end) (ent_pk_attrs e);
  Ok (concat cols).

(** [cmpops]. *)
Definition cmpop_tag (op : string) : result string :=
  if bool_decide (op = ">=") then Ok "GE" else if bool_decide (op = ">") then Ok "GT"
  else if bool_decide (op = "<=") then Ok "LE" else if bool_decide (op = "<") then Ok "LT"
  else Err (KeyError op).

(** [CmpMonad.getsql()] (lines 849-866) once the SQL of the operands is
    known; [right_sql] is computed only when it is needed. *)
Definition cmp_sql_l (op : string) (left_sql : sx) (right : stm ltr sx) : stm ltr sx :=
  ls ← slift (py_iter left_sql);
  if bool_decide (op = "is") then mret (legacy_sqland ((λ i, node "IS_NULL" [i]) <$> ls))
  else if bool_decide (op = "is not") then mret (legacy_sqland ((λ i, node "IS_NOT_NULL" [i]) <$> ls))
  else
    right_sql ← right;
    rs ← slift (py_iter right_sql);
    slift (assert_ (length ls =? length rs));;
    if bool_decide (op = "<" ∨ op = "<=" ∨ op = ">" ∨ op = ">=") then
      slift (assert_ (length ls =? 1));;
      tag ← slift (cmpop_tag op);
      l0 ← slift (py_first left_sql); r0 ← slift (py_first right_sql);
      mret (node tag [l0; r0])
    else if bool_decide (op = "==") then mret (legacy_sqland (zip_with (λ a b, node "EQ" [a; b]) ls rs))
    else if bool_decide (op = "!=") then mret (legacy_sqlor (zip_with (λ a b, node "NE" [a; b]) ls rs))
    else sthrow AssertionError.

(** [monad.getsql()]: a list of columns for the value monads, the SQL
    node for the boolean monads.  [ParamMonad.getsql] records the
    parameter's extractor. *)
Fixpoint lgetsql (m : lmonad) : stm ltr sx :=
  match m with
  | LObjectIter alias en =>
      e ← slift (get_entity sch en);
      cols ← slift (pk_attr_columns e);
      mret (SList (column (Some alias) <$> cols))
  | LAttr p a =>
      pa ← slift (lalias p);
      mret (SList (column pa <$> attr_columns a))
  | LParam _ name =>
      smodify (λ t, lt_set_extractors (<[name := name]> (lt_extractors t)) t);;
      mret (SList [node "PARAM" [SStr name]])
  | LExpr _ sql => mret (SList [sql])
  | LConst v => mret (SList [value v])
  | LBoolExpr sql => mret sql
  | LCmp op l r => left_sql ← lgetsql l; cmp_sql_l op left_sql (lgetsql r)
  | LAnd ops =>
      ss ← (fix go (l : list lmonad) : stm ltr (list sx) :=
              match l with [] => mret [] | o :: l' => s ← lgetsql o; ss ← go l'; mret (s :: ss) end) ops;
      mret (SList (SStr "AND" :: ss))
  | LOr ops =>
      ss ← (fix go (l : list lmonad) : stm ltr (list sx) :=
              match l with [] => mret [] | o :: l' => s ← lgetsql o; ss ← go l'; mret (s :: ss) end) ops;
      mret (SList (SStr "OR" :: ss))
  | LNot o => s ← lgetsql o; mret (node "NOT" [s])
  | LList _ | LMethod _ _ | LFunc _ => sthrow (AttributeError "getsql")
  end.

(** [monad.getsql()[0]]. *)
Definition lgetsql0 (m : lmonad) : stm ltr sx := x ← lgetsql m; slift (py_first x).

End Monads.

(** ** Operations *)

Section Ops.
Variable sch : schema.

(** [Monad.nonzero()]: no legacy monad class overrides it. *)
Definition nonzero_l (m : lmonad) : stm ltr lmonad := sthrow (TypeError "").

(** [NotMonad(operand)] (lines 884-887): a non-boolean operand is
    replaced by [operand.nonzero()]. *)
Definition not_new_l (operand : lmonad) : stm ltr lmonad :=
  o ← (if bool_decide (ltype operand = TBool) then mret operand else nonzero_l operand);
  mret (LNot o).

(** [BoolExprMonad.negate()] (lines 819-829): a head with an entry in
    [sql_negation] is swapped; the [NOT] branch tests [negated_op], which
    is [None] there, so it is never taken, and [NotMonad(translator, sql)]
    passes one argument too many. *)
Definition boolexpr_negate_l (sql : sx) : stm ltr lmonad :=
  sqlop ← slift (py_first sql);
  negated_op ← slift (sql_negation_get sqlop);
  match negated_op with
  | Some op => rest ← slift (py_tail sql); mret (LBoolExpr (SList (SStr op :: rest)))
  | None => sthrow (TypeError "__init__() takes exactly 2 arguments (3 given)")
  end.

(** [monad.negate()]: [NotMonad.negate] returns the operand,
    [BoolExprMonad] swaps its head, every other class builds a
    [NotMonad]. *)
Definition negate_l (m : lmonad) : stm ltr lmonad :=
  match m with
  | LNot o => mret o
  | LBoolExpr sql => boolexpr_negate_l sql
  | _ => not_new_l m
  end.

(** [CmpMonad(op, left, right)] (lines 834-848). *)
Definition cmp_new_l (op : string) (left right : lmonad) : result lmonad :=
  ok ← legacy_are_comparable_types (entity_root sch) op (ltype left) (ltype right);
  if negb ok then Err (TypeError "") else
  let op := if bool_decide (op = "<>") then "!=" else op in
  '(left, right) ← (if bool_decide (ltype left = TNone) then
                      assert_ (negb (bool_decide (ltype right = TNone)));; Ok (right, left)
                    else Ok (left, right));
  let op :=
    if bool_decide (ltype right = TNone) then
      (if bool_decide (op = "==") then "is" else if bool_decide (op = "!=") then "is not" else op)
    else if bool_decide (op = "is") then "=="
    else if bool_decide (op = "is not") then "!="
    else op in
  Ok (LCmp op left right).

(** [AndMonad(operands)] and [OrMonad(operands)] (lines 868-882). *)
Definition logical_new_l (is_and : bool) (operands : list lmonad) : result lmonad :=
  assert_ (2 <=? length operands);;
  if forallb (λ o, bool_decide (ltype o = TBool)) operands
  then Ok (if is_and then LAnd operands else LOr operands)
  else Err (TypeError "").

(** [ListMonad.contains(x, not_in)] (lines 470-482). *)
Definition list_contains_l (items : list lmonad) (x : lmonad) (not_in : bool) : stm ltr lmonad :=
  oks ← slift (mapM (λ item, legacy_are_comparable_types (entity_root sch) "==" (ltype x) (ltype item)) items);
  if negb (forallb id oks) then sthrow (TypeError "") else
  left_sql ← lgetsql sch x;
  ls ← slift (py_iter left_sql);
  if length ls =? 1 then
    l0 ← slift (py_first left_sql);
    vs ← mapM (lgetsql0 sch) items;
    mret (LBoolExpr (node (if not_in then "NOT_IN" else "IN") [l0; SList vs]))
  else
    rows ← mapM (λ item, s ← lgetsql sch item; slift (py_iter s)) items;
    mret (LBoolExpr
      (if not_in then legacy_sqland ((λ r, legacy_sqlor (zip_with (λ a b, node "NE" [a; b]) ls r)) <$> rows)
       else legacy_sqlor ((λ r, legacy_sqland (zip_with (λ a b, node "EQ" [a; b]) ls r)) <$> rows))).

(** [make_numeric_binop(sqlop)] (lines 483-491) and
    [make_string_binop(CONCAT)] (lines 506-514): both operands of the
    same mixin, one column each. *)
Definition binop_l (is_num : bool) (sqlop : string) (m m2 : lmonad) : stm ltr lmonad :=
  if negb (if is_num then is_numeric_l m2 else is_string_l m2) then sthrow (TypeError "") else
  left_sql ← lgetsql sch m;
  right_sql ← lgetsql sch m2;
  ls ← slift (py_iter left_sql); rs ← slift (py_iter right_sql);
  slift (assert_ ((length ls =? length rs) && (length rs =? 1)));;
  l0 ← slift (py_first left_sql); r0 ← slift (py_first right_sql);
  mret (LExpr (if is_num then TInt else TUnicode) (node sqlop [l0; r0])).

(** [monad + monad2], [-], [*], [/] and [**]: the left operand's class
    decides ([Monad.__add__] raises [TypeError]). *)
Definition arith_l (op : string) (m m2 : lmonad) : stm ltr lmonad :=
  let tag := if bool_decide (op = "+") then "ADD" else if bool_decide (op = "-") then "SUB"
             else if bool_decide (op = "*") then "MUL" else if bool_decide (op = "/") then "DIV" else "POW" in
  if is_numeric_l m then binop_l true tag m m2
  else if is_string_l m && bool_decide (op = "+") then binop_l false "CONCAT" m m2
  else sthrow (TypeError "").

(** [-monad] and [abs(monad)] of [NumericMixin] (lines 499-504). *)
Definition numeric_unary_l (tag : string) (m : lmonad) : stm ltr lmonad :=
  if is_numeric_l m then s ← lgetsql0 sch m; mret (LExpr TInt (node tag [s])) else sthrow (TypeError "").

(** [StringMixin.__getitem__] with a slice (lines 520-562), [start] and
    [stop] the monads of the bounds.  On a string constant with constant
    bounds, [StringConstMonad(...)] (line 530) runs [ConstMonad.__new__],
    whose [assert cls is ConstMonad] fails: [AssertionError]. *)
Definition string_slice_l (m : lmonad) (start stop : option lmonad) : stm ltr lmonad :=
  match start, stop with
  | None, None => mret m
  | _, _ =>
    let cst := λ b, match b with None => Some None | Some x => Some <$> lnum_const x end in
    match lstr_const m, cst start, cst stop with
    | Some v, Some a, Some b => sthrow AssertionError
    | _, _, _ =>
      (match start with Some s => if bool_decide (ltype s = TInt) then mret tt
                                  else sthrow (TypeError "string indices must be integers")
                      | None => mret tt end);;
      (match stop with Some s => if bool_decide (ltype s = TInt) then mret tt
                                 else sthrow (TypeError "string indices must be integers")
                     | None => mret tt end);;
      expr_sql ← lgetsql0 sch m;
      start_sql ← (match start with
        | None => mret (value (SInt 1))
        | Some s => match lnum_const s with
                    | Some v => if (v <? 0)%Z then sthrow (NotImplementedError "Negative slice indices not supported")
                                else mret (value (SInt (v + 1)))
                    | None => s0 ← lgetsql0 sch s; mret (node "ADD" [s0; value (SInt 1)])
                    end
        end);
      len_sql ← (match stop with
        | None => mret SNone
        | Some sp => match lnum_const sp with
                     | Some v =>
                         if (v <? 0)%Z then sthrow (NotImplementedError "Negative slice indices not supported")
                         else match start with
                              | None => mret (value (SInt v))
                              | Some s => match lnum_const s with
                                          | Some a => mret (value (SInt (v - a)))
                                          | None => mret (node "SUB" [value (SInt v); start_sql])
                                          end
                              end
                     | None => stop_sql ← lgetsql0 sch sp; mret (node "SUB" [stop_sql; start_sql])
                     end
        end);
      mret (LExpr TUnicode (node "SUBSTR" [expr_sql; start_sql; len_sql]))
    end
  end.

(** [StringMixin.__getitem__] with an index (lines 564-575).  On a
    string constant and a constant index, [monad.value[index.value]] is
    read (and may raise [IndexError]) before [StringConstMonad(...)]
    raises [AssertionError] as for the slice. *)
Definition string_index_l (m index : lmonad) : stm ltr lmonad :=
  match lstr_const m, lnum_const index with
  | Some v, Some i => slift (py_str_index v i);; sthrow AssertionError
  | _, _ =>
      if negb (bool_decide (ltype index = TInt)) then sthrow (TypeError "string indices must be integers") else
      expr_sql ← lgetsql0 sch m;
      index_sql ← (match lnum_const index with
        | Some v => mret (value (SInt (if (0 <=? v)%Z then v + 1 else v)))
        | None =>
            inner_sql ← lgetsql0 sch index;
            mret (node "ADD" [inner_sql; node "CASE" [SNone; SList [SList [node "GE" [inner_sql; value (SInt 0)];
                                                                       value (SInt 1)]];
                                                     value (SInt 0)]])
        end);
      mret (LExpr TUnicode (node "SUBSTR" [expr_sql; index_sql; value (SInt 1)]))
  end.

(** [StringMixin.len()] and [StringConstMonad.len()] (lines 576-578, 796-797). *)
Definition string_len_l (m : lmonad) : stm ltr lmonad :=
  match lstr_const m with
  | Some v => mret (LExpr TInt (value (SInt (Z.of_nat (String.length v)))))
  | None => s ← lgetsql0 sch m; mret (LExpr TInt (node "LENGTH" [s]))
  end.

(** [StringMixin.contains(item, not_in)] (lines 579-586): [not_in] is
    not read. *)
Definition string_contains_l (m item : lmonad) (not_in : bool) : stm ltr lmonad :=
  if negb (bool_decide (ltype item = TUnicode)) then sthrow (TypeError "") else
  item_sql ← (match lstr_const item with
    | Some v => mret (value (SStr ("%" +:+ v +:+ "%")))
    | None => s ← lgetsql0 sch item; mret (node "CONCAT" [value (SStr "%"); s; value (SStr "%")])
    end);
  s ← lgetsql0 sch m;
  mret (LBoolExpr (node "LIKE" [s; item_sql])).

(** The [call_*] methods of [StringMethodMonad]. *)
Definition string_method_names : list string := ["upper"; "lower"; "startswith"; "endswith"; "strip"; "lstrip"; "rstrip"].

(** [monad.getattr(attrname)]: [ObjectMixin.getattr], or a
    [StringMethodMonad] whose [__init__] checks that the method exists
    (lines 589-595); [Monad.getattr] raises [TypeError]. *)
Definition getattr_l (m : lmonad) (name : string) : stm ltr lmonad :=
  if is_object_l m then object_getattr_l sch m name
  else if is_string_l m then
    if bool_decide (name ∈ string_method_names) then mret (LMethod m name)
    else sthrow (AttributeError ("'unicode' object has no attribute '" +:+ name +:+ "'"))
  else sthrow (TypeError "").

(** [make_string_func(sqlop)] (lines 600-606). *)
Definition string_func_l (sqlop : string) (parent : lmonad) : stm ltr lmonad :=
  sql ← lgetsql sch parent;
  l ← slift (py_iter sql);
  slift (assert_ (length l =? 1));;
  s0 ← slift (py_first sql);
  mret (LExpr TUnicode (node sqlop [s0])).

(** [call_startswith] and [call_endswith] (lines 611-634). *)
Definition string_affix_l (ends : bool) (parent arg : lmonad) : stm ltr lmonad :=
  parent_sql ← lgetsql0 sch parent;
  if negb (bool_decide (ltype arg = TUnicode)) then
    sthrow (TypeError ("Argument of '" +:+ (if ends then "endswith" else "startswith") +:+ "' method must be a string"))
  else
  arg_sql ← (match lstr_const arg with
    | Some v => mret (value (SStr (if ends then "%" +:+ v else v +:+ "%")))
    | None => s ← lgetsql0 sch arg;
              mret (if ends then node "CONCAT" [value (SStr "%"); s] else node "CONCAT" [s; value (SStr "%")])
    end);
  mret (LBoolExpr (node "LIKE" [parent_sql; arg_sql])).

(** [StringMethodMonad.strip(chars, strip_type)] (lines 635-643). *)
Definition string_strip_l (parent : lmonad) (chars : option lmonad) (strip_type : string) : stm ltr lmonad :=
  parent_sql ← lgetsql0 sch parent;
  match chars with
  | Some c =>
      if negb (bool_decide (ltype c = TUnicode)) then sthrow (TypeError "'chars' argument must be a string") else
      chars_sql ← lgetsql0 sch c; mret (LExpr TUnicode (node strip_type [parent_sql; chars_sql]))
  | None => mret (LExpr TUnicode (node strip_type [parent_sql]))
  end.

(** [MethodMonad.__call__] with [*args] (lines 596-598): the [call_*] method
    with the positional arguments; a wrong number of them raises
    [TypeError] as any Python call does. *)
Definition method_call_l (parent : lmonad) (name : string) (args : list lmonad) : stm ltr lmonad :=
  let arity := sthrow (TypeError "takes a different number of arguments") in
  if bool_decide (name = "upper" ∨ name = "lower") then
    match args with [] => string_func_l (if bool_decide (name = "upper") then "UPPER" else "LOWER") parent | _ => arity end
  else if bool_decide (name = "startswith" ∨ name = "endswith") then
    match args with [a] => string_affix_l (bool_decide (name = "endswith")) parent a | _ => arity end
  else
    let tag := if bool_decide (name = "strip") then "TRIM" else if bool_decide (name = "lstrip") then "LTRIM" else "RTRIM" in
    match args with [] => string_strip_l parent None tag | [c] => string_strip_l parent (Some c) tag | _ => arity end.

(** [minmax(monad, sqlop, *args)] (lines 936-946). *)
Definition minmax_l (sqlop : string) (args : list lmonad) : stm ltr lmonad :=
  slift (assert_ (1 <? length args));;
  sqls ← mapM (lgetsql0 sch) args;
  let types := remove_dups (ltype <$> args) in
  match types with
  | [TInt] => mret (LExpr TInt (SList (SStr sqlop :: sqls)))
  | [TUnicode] => mret (LExpr TUnicode (SList (SStr sqlop :: sqls)))
  | _ => sthrow (TypeError "")
  end.

(** A special function called on monads (lines 900-935, 1104-1145):
    [len], [abs] and [sum] call the method of their one argument; [min]
    and [max] of one argument call its method, of several build
    [MIN]/[MAX]; [select] and [exists] take a query set.  The scalar
    monads have no [sum], [min], [max] and are no query sets. *)
Definition func_call_l (f : string) (args : list lmonad) : stm ltr lmonad :=
  let arity := sthrow (TypeError "takes a different number of arguments") in
  if bool_decide (f = "len") then
    match args with [x] => if is_string_l x then string_len_l x else sthrow (TypeError "") | _ => arity end
  else if bool_decide (f = "abs") then
    match args with [x] => numeric_unary_l "ABS" x | _ => arity end
  else if bool_decide (f = "sum") then
    match args with [x] => sthrow (TypeError "") | _ => arity end
  else if bool_decide (f = "min" ∨ f = "max") then
    match args with
    | [] => sthrow (TypeError "")
    | [x] => sthrow (TypeError "")
    | _ => minmax_l (if bool_decide (f = "min") then "MIN" else "MAX") args
    end
  else match args with [x] => sthrow (TypeError "") | _ => arity end.

(** [func_monad] called with [*args]. *)
Definition call_l (f : lmonad) (args : list lmonad) : stm ltr lmonad :=
  match f with
  | LMethod parent name => method_call_l parent name args
  | LFunc name => func_call_l name args
  | _ => sthrow (TypeError "")
  end.

(** [container.contains(item, not_in)]. *)
Definition contains_l (container item : lmonad) (not_in : bool) : stm ltr lmonad :=
  match container with
  | LList items => list_contains_l items item not_in
  | _ => if is_string_l container then string_contains_l container item not_in else sthrow (TypeError "")
  end.

(** [monad[key]] for an index monad, [monad[start:stop]] for a slice. *)
Definition getitem_l (m : lmonad) (key : option lmonad + option lmonad * option lmonad) : stm ltr lmonad :=
  if is_string_l m then
    match key with
    | inl (Some index) => string_index_l m index
    | inl None => sthrow (TypeError "string indices must be integers")
    | inr (start, stop) => string_slice_l m start stop
    end
  else sthrow (TypeError "").

End Ops.

(** ** The meaning of integer SQL *)

(** The value of an integer SQL expression built of [VALUE], [PARAM]
    (read from [env]), [ADD] and [SUB], as SQLite computes it. *)
Fixpoint sql_int_eval (env : string → option Z) (x : sx) : option Z :=
  match x with
  | SList [SStr tag; y] =>
      if bool_decide (tag = "VALUE") then match y with SInt z => Some z | _ => None end
      else if bool_decide (tag = "PARAM") then match y with SStr p => env p | _ => None end
      else None
  | SList [SStr tag; y; z] =>
      a ← sql_int_eval env y; b ← sql_int_eval env z;
      if bool_decide (tag = "ADD") then Some (a + b)%Z
      else if bool_decide (tag = "SUB") then Some (a - b)%Z else None
  | _ => None
  end.

(** [SUBSTR(s, start, len)] of string [v] with the bounds evaluated in
    [env]; a missing length is SQLite's default, the rest of the string. *)
Definition substr_eval (env : string → option Z) (v : string) (start len : sx) : option string :=
  y ← sql_int_eval env start;
  match len with
  | SNone => Some (sqlite_substr v y None)
  | _ => z ← sql_int_eval env len; Some (sqlite_substr v y (Some z))
  end.

(** ** Properties *)

Lemma substring_length i k s : String.length (String.substring i k s) = min k (String.length s - i).
Proof.
  revert i k. induction s as [|c s IH]; intros [|i] [|k]; simpl; rewrite ?IH; try destruct (String.length s - i); lia.
Qed.

Lemma py_str_slice_length v a b :
  (0 <= a <= b)%Z → (b <= Z.of_nat (String.length v))%Z →
  String.length (py_str_slice v (Some a) (Some b)) = Z.to_nat (b - a).
Proof.
  intros Hab Hb. unfold py_str_slice, py_slice_bound.
  rewrite !(proj2 (Z.ltb_ge _ _)) by lia. rewrite !Z.min_l by lia.
  rewrite substring_length. lia.
Qed.

(** C36: slicing a string expression by constant bounds (or none), that
    are not negative, the legacy translator builds the same [SUBSTR] as
    the current one ([StringMixin.__getitem__] of both). *)
Theorem legacy_const_slice_agrees sch sa fuel t st e (a b : option Z) :
  (a ≠ None ∨ b ≠ None) → (∀ z, a = Some z → 0 ≤ z)%Z → (∀ z, b = Some z → 0 ≤ z)%Z →
  ∃ x, string_slice_l sch (LExpr TUnicode e) ((λ z, LConst (SInt z)) <$> a) ((λ z, LConst (SInt z)) <$> b) t
         = Ok (LExpr TUnicode x, t) ∧
       string_getitem sch sa fuel (MExpr TUnicode e)
         (IndexSlice ((λ z, MConst TInt (SInt z)) <$> a) ((λ z, MConst TInt (SInt z)) <$> b) false) st
         = Ok (MExpr TUnicode x, st).
Proof.
  intros Hn Ha Hb. destruct a as [a|], b as [b|]; [| | |naive_solver];
    repeat match goal with H : ∀ z, Some ?a = Some z → _ |- _ => specialize (H a eq_refl) end;
    eexists; split; unfold string_slice_l, string_getitem, slice_start_sql, slice_len_sql; simpl;
    repeat match goal with |- context [(?x <? 0)%Z] => destruct (Z.ltb_spec x 0); [lia|] end;
    rewrite ?Z.sub_0_r; reflexivity.
Qed.

Lemma legacy_const_slice_agrees_witness :
  ∃ x, string_slice_l ∅ (LExpr TUnicode (SStr "s")) (Some (LConst (SInt 1))) (Some (LConst (SInt 3))) ltr_init
         = Ok (LExpr TUnicode x, ltr_init) ∧
       string_getitem ∅ false 0 (MExpr TUnicode (SStr "s"))
         (IndexSlice (Some (MConst TInt (SInt 1))) (Some (MConst TInt (SInt 3))) false) empty_store
         = Ok (MExpr TUnicode x, empty_store).
Proof.
  apply (legacy_const_slice_agrees ∅ false 0 ltr_init empty_store (SStr "s") (Some 1%Z) (Some 3%Z));
    [left; done|intros z [= <-]; lia|intros z [= <-]; lia].
Defined.

(** C9: a slice [s[a:p]] whose stop [p] is not a constant takes one
    character too few: the legacy translator subtracts the start it has
    already shifted by one ([SUB(stop, start + 1)]), so where [p] is [b]
    the SQL means [s[a:b-1]], which differs from [s[a:b]]. *)
Theorem legacy_slice_param_stop_short sch t e a p env b v :
  env p = Some b → (0 <= a < b)%Z → (b <= Z.of_nat (String.length v))%Z →
  ∃ start_sql len_sql t',
    string_slice_l sch (LExpr TUnicode e) (Some (LConst (SInt a))) (Some (LParam TInt p)) t
      = Ok (LExpr TUnicode (node "SUBSTR" [e; start_sql; len_sql]), t') ∧
    substr_eval env v start_sql len_sql = Some (py_str_slice v (Some a) (Some (b - 1)%Z)) ∧
    py_str_slice v (Some a) (Some (b - 1)%Z) ≠ py_str_slice v (Some a) (Some b).
Proof.
  intros Hp Hab Hb. do 3 eexists. split_and!.
  - unfold string_slice_l. simpl. destruct (Z.ltb_spec a 0); [lia|]. reflexivity.
  - unfold substr_eval. simpl. rewrite Hp. simpl. f_equal.
    replace (b - (a + 1))%Z with (b - 1 - a)%Z by lia. apply sqlite_substr_slice. lia.
  - intros H. apply (f_equal String.length) in H. rewrite !py_str_slice_length in H by lia. lia.
Qed.

Lemma legacy_slice_param_stop_short_witness :
  ∃ start_sql len_sql t',
    string_slice_l ∅ (LExpr TUnicode (SStr "s")) (Some (LConst (SInt 1))) (Some (LParam TInt "p")) ltr_init
      = Ok (LExpr TUnicode (node "SUBSTR" [SStr "s"; start_sql; len_sql]), t') ∧
    substr_eval (λ q, if bool_decide (q = "p") then Some 3%Z else None) "hello" start_sql len_sql
      = Some (py_str_slice "hello" (Some 1%Z) (Some (3 - 1)%Z)) ∧
    py_str_slice "hello" (Some 1%Z) (Some (3 - 1)%Z) ≠ py_str_slice "hello" (Some 1%Z) (Some 3%Z).
Proof. apply legacy_slice_param_stop_short; [reflexivity|lia|simpl; lia]. Defined.

(** a comparison with [None] ([x == None], [None == x], [x != None],
    [x <> None]) becomes [is] or [is not] on the other operand, and its
    SQL tests every column of that operand with [IS_NULL] (or
    [IS_NOT_NULL]), joined by [AND]. *)
Theorem legacy_none_comparison sch op m t cols t' :
  op = "==" ∨ op = "!=" ∨ op = "<>" → ltype m ≠ TNone → lgetsql sch m t = Ok (SList cols, t') →
  ∃ c, cmp_new_l sch op m (LConst SNone) = Ok c ∧ cmp_new_l sch op (LConst SNone) m = Ok c ∧
       lgetsql sch c t = Ok (legacy_sqland ((λ i, node (if bool_decide (op = "==") then "IS_NULL" else "IS_NOT_NULL") [i]) <$> cols), t').
Proof.
  intros Hop Hm Hg. exists (LCmp (if bool_decide (op = "==") then "is" else "is not") m (LConst SNone)).
  split_and!.
  1,2: unfold cmp_new_l, legacy_are_comparable_types; simpl;
    destruct Hop as [-> | [-> | ->]]; simpl; rewrite ?(bool_decide_eq_false_2 (ltype m = TNone)) by done;
    simpl; reflexivity.
  simpl. rewrite stm_bind_unfold, Hg. unfold cmp_sql_l. simpl. destruct Hop as [-> | [-> | ->]]; reflexivity.
Qed.

Lemma legacy_none_comparison_witness :
  ∃ c, cmp_new_l ∅ "==" (LParam TUnicode "nm") (LConst SNone) = Ok c ∧
       cmp_new_l ∅ "==" (LConst SNone) (LParam TUnicode "nm") = Ok c ∧
       lgetsql ∅ c ltr_init = Ok (legacy_sqland ((λ i, node (if bool_decide ("==" = "==") then "IS_NULL" else "IS_NOT_NULL") [i])
                                                  <$> [node "PARAM" [SStr "nm"]]),
                                  lt_set_extractors {["nm" := "nm"]} ltr_init).
Proof.
  apply (legacy_none_comparison ∅ "==" (LParam TUnicode "nm") ltr_init [node "PARAM" [SStr "nm"]]);
    [left; done | done | reflexivity].
Defined.
