(* ===== verification/LegacyTranslator.v ===== *)
(** * LegacyTranslator: [SQLTranslator] of the legacy translator

    [SQLTranslator] of [src/pony/sqltranslator.py] (lines 192-436): the
    walk of [ASTTranslator.dispatch] with the [pre*]/[post*] handlers,
    which lifts every node of the query's Python AST (the [pexpr] of
    [Driver]) to a monad of [LegacyMonads], and the qualifier loop of
    [SQLTranslator.__init__], which declares the loop variables, their
    tables and join conditions, translates the [if] clauses into
    conditions and builds the SELECT from the selected monad.

    The dispatch has no [pre*] handler but [preCallFunc] (whose only
    effect here is to read [node.args[0]]) and [preGenExpr] (a nested
    query, not modelled: [GenExpr] nodes are not in [pexpr]): every node
    dispatches its children in order, then its [post*] handler. *)

From S2P Require Import Prelude SqlAst Types Schema Tables Legacy Monads Driver LegacyMonads.

Set Warnings "-register-all".

Section Walk.
Variable sch : schema.
(** [translator.vartypes], [translator.functions] (a name to the special
    function it denotes) and [translator.outer_iterables]. *)
Variable vartypes : gmap string ptype.
Variable functions : gmap string string.
Variable outer_iterables : gmap string string.

(** [ConstMonad(translator, value)] (lines 781-793): [int], [unicode]
    (and [str], normalised to it) and [None]; [normalize_type] raises
    [TypeError] for any other type. *)
Definition const_new_l (v : sx) : result lmonad :=
  match v with SInt _ | SStr _ | SNone => Ok (LConst v) | _ => Err (TypeError "") end.

(** [postName] (lines 358-374). *)
Definition post_name_l (name : string) : stm ltr lmonad :=
  t ← sget;
  match lt_iterables t !! name with
  | Some e => mret (LObjectIter name e)
  | None =>
    match outer_iterables !! name with
    | Some e => mret (LObjectIter name e)
    | None =>
      match vartypes !! name with
      | Some TNone => mret (LConst SNone)
      | Some TInt => mret (LParam TInt name)
      | Some TUnicode => mret (LParam TUnicode name)
      | Some (TEntity _) => sthrow (Unsupported "ObjectParamMonad")
      | Some _ => sthrow AssertionError
      | None =>
          match functions !! name with
          | Some f => mret (LFunc f)
          | None => sthrow (NameError name)
          end
      end
    end
  end.

(** [translator.dispatch(node)] followed by [node.monad]. *)
Fixpoint ltranslate (e : pexpr) : stm ltr lmonad :=
  match e with
  | PName name => post_name_l name
  | PExternal _ _ => sthrow (Unsupported "external")
  | PConst v =>
      slift (match v with SList items => LList <$> mapM const_new_l items | _ => const_new_l v end)
  | PTuple nodes | PList nodes => ms ← mapM ltranslate nodes; mret (LList ms)
  | PCompare l ops =>
      lm ← ltranslate l;
      rms ← mapM (λ o, ltranslate o.2) ops;
      match ops, rms with
      | [(op, _)], [rm] =>
          if bool_decide (op = "in" ∨ op = "not in") then contains_l sch rm lm (bool_decide (op = "not in"))
          else slift (cmp_new_l sch op lm rm)
      | _, _ => sthrow (NotImplementedError "")
      end
  | PArith op l r => lm ← ltranslate l; rm ← ltranslate r; arith_l sch op lm rm
  | PPower l r => lm ← ltranslate l; rm ← ltranslate r; arith_l sch "**" lm rm
  | PUnarySub x => xm ← ltranslate x; numeric_unary_l sch "NEG" xm
  | PGetattr x name => xm ← ltranslate x; getattr_l sch xm name
  | PAnd nodes => ms ← mapM ltranslate nodes; slift (logical_new_l true ms)
  | POr nodes => ms ← mapM ltranslate nodes; slift (logical_new_l false ms)
  | PNot x => xm ← ltranslate x; negate_l xm
  | PCallFunc f args =>
      match args with
      | [] => sthrow IndexError
      | _ => fm ← ltranslate f; ams ← mapM ltranslate args; call_l sch fm ams
      end
  | PSubscript x subs =>
      xm ← ltranslate x; ss ← mapM ltranslate subs;
      match ss with [s] => getitem_l sch xm (inl (Some s)) | _ => sthrow AssertionError end
  | PSlice x lo up =>
      xm ← ltranslate x;
      lom ← (match lo with Some l => l' ← ltranslate l; mret (Some l') | None => mret None end);
      upm ← (match up with Some u => u' ← ltranslate u; mret (Some u') | None => mret None end);
      getitem_l sch xm (inr (lom, upm))
  end.

(** [dispatch(if_)] with [postGenExprIf] (lines 333-336), then
    [translator.conditions.append(if_.monad.getsql())]. *)
Definition translate_if_l (test : pexpr) : stm ltr unit :=
  m ← ltranslate test;
  m ← (if bool_decide (ltype m = TBool) then mret m else nonzero_l m);
  sql ← lgetsql sch m;
  smodify (λ t, lt_set_conditions (lt_conditions t ++ [sql]) t).

(** The source of a qualifier that is a name (lines 260-267): the
    entity [vartypes[iter_name]], of the query's diagram. *)
Definition declare_root_l (i : nat) (iter_name : string) : stm ltr string :=
  (if 0 <? i then smodify (lt_set_distinct true) else mret tt);;
  match vartypes !! iter_name with
  | None => sthrow (KeyError iter_name)
  | Some (TEntity en) =>
      e ← slift (get_entity sch en);
      t ← sget;
      match lt_diagram t with
      | None => sput (lt_set_diagram (Some (ent_database e)) t)
      | Some d => if bool_decide (d = ent_database e) then mret tt
                  else sthrow (TranslationError "All entities in a query must belong to the same diagram")
      end;;
      mret en
  | Some _ => sthrow (NotImplementedError "")
  end.

(** One turn of the qualifier loop of [__init__] (lines 247-299) for the
    [i]-th qualifier [q]. *)
Definition declare_qual_l (i : nat) (q : qual) : stm ltr unit :=
  '(name, flags) ← (match q_assign q with Some nf => mret nf | None => sthrow (TypeError "") end);
  if negb (bool_decide (flags = "OP_ASSIGN")) then sthrow (TypeError "") else
  t ← sget;
  if bool_decide (is_Some (lt_iterables t !! name)) then sthrow (TranslationError ("Duplicate name: " +:+ name)) else
  if String.prefix "__" name then sthrow (TranslationError ("Illegal name: " +:+ name)) else
  slift (assert_ (negb (bool_decide (is_Some (lt_aliases t !! name)))));;
  en ← (match q_iter q with
    | QSrc iter_name | QChain iter_name [] => declare_root_l i iter_name
    | QChain root [attr_name] =>
        t ← sget;
        match lt_iterables t !! root with
        | None => sthrow (TranslationError "Name %r must be defined in query")
        | Some pen =>
            pe ← slift (get_entity sch pen);
            match find_attr pe attr_name with
            | None => sthrow (AttributeError attr_name)
            | Some a =>
                if negb (attr_is_collection a) then sthrow (TypeError "") else
                if negb (attr_is_set a) then sthrow (NotImplementedError "") else
                match attr_py_type a with
                | TEntity en =>
                    e ← slift (get_entity sch en);
                    reverse ← slift (get_reverse sch a);
                    (if negb (attr_is_collection reverse) then
                       lt_join_tables root name (ent_pk_columns pe) (attr_columns reverse)
                     else if negb (attr_is_set reverse) then sthrow (NotImplementedError "")
                     else
                       let m2m_alias := root +:+ "--" +:+ name in
                       smodify (λ t, lt_set_from (lt_from t ++ [SList [SStr m2m_alias; SStr "TABLE"; SStr (attr_table a)]])
                                       (lt_set_aliases (<[m2m_alias := m2m_alias]> (lt_aliases t))
                                         (lt_set_distinct true t)));;
                       lt_join_tables root m2m_alias (ent_pk_columns pe) (attr_columns reverse);;
                       lt_join_tables m2m_alias name (attr_columns a) (ent_pk_columns e));;
                    mret en
                | _ => sthrow (NotImplementedError "")
                end
            end
        end
    | QOther => sthrow (TypeError "")
    | QChain _ _ => sthrow (NotImplementedError "")
    end);
  e ← slift (get_entity sch en);
  smodify (λ t, lt_set_from (lt_from t ++ [SList [SStr name; SStr "TABLE"; SStr (ent_table e)]])
                  (lt_set_aliases (<[name := name]> (lt_aliases t))
                    (lt_set_iterables (<[name := en]> (lt_iterables t)) t)));;
  mapM translate_if_l (q_ifs q);; mret tt.

(** The qualifier loop: [for i, qual in enumerate(tree.quals)]. *)
Fixpoint declare_quals_l (i : nat) (quals : list qual) : stm ltr unit :=
  match quals with [] => mret tt | q :: qs => declare_qual_l i q;; declare_quals_l (S i) qs end.

End Walk.

(** What [__init__] leaves for the SELECT (lines 303-324):
    [translator.attrname], [translator.entity], [translator.alias] and
    [translator.sql_ast]. *)
Record lselect := mkLSelect {
  ls_attrname : option string;
  ls_entity : string;
  ls_alias : string;
  ls_sql_ast : sx
}.

Section Init.
Variable sch : schema.
Variable vartypes : gmap string ptype.
Variable functions : gmap string string.
Variable outer_iterables : gmap string string.

(** [SQLTranslator.__init__(tree, vartypes, functions, outer_iterables)]
    (lines 232-324) for [tree.quals] [quals] and [tree.expr] [expr], from
    the state of lines 239-246. *)
Definition legacy_translator_init (quals : list qual) (expr : pexpr) : stm ltr lselect :=
  declare_quals_l sch vartypes functions outer_iterables 0 quals;;
  smodify (lt_set_inside_expr true);;
  m ← ltranslate sch vartypes functions outer_iterables expr;
  let '(attrname, m) :=
    match m with
    | LAttr p a => match attr_py_type a with TInt | TUnicode => (Some (attr_name a), p) | _ => (None, m) end
    | _ => (None, m)
    end in
  if negb (is_object_l m) then sthrow (TranslationError "") else
  alias ← slift (lalias m);
  alias ← (match alias with Some a => mret a | None => sthrow (TranslationError "") end);
  en ← (match ltype m with TEntity en => mret en | _ => sthrow (TranslationError "") end);
  (match m with
   | LObjectIter _ _ =>
       last ← slift (match last quals ≫= q_assign with Some (n, _) => Ok n | None => Err IndexError end);
       if bool_decide (alias ≠ last) then smodify (lt_set_distinct true) else mret tt
   | _ =>
       smodify (lt_set_distinct true);;
       t ← sget; slift (assert_ (bool_decide (is_Some (lt_aliases t !! alias))))
   end);;
  t ← sget;
  short_alias ← slift (match lt_aliases t !! alias with Some s => Ok s | None => Err (KeyError alias) end);
  e ← slift (get_entity sch en);
  let select := construct_select_clause e (Some short_alias) (lt_distinct t) in
  let sql_ast := [SStr "SELECT"; select; from_sql t] ++
                 (if bool_decide (lt_conditions t = []) then [] else [node "WHERE" [legacy_sqland (lt_conditions t)]]) in
  mret (mkLSelect attrname en short_alias (SList sql_ast)).

End Init.

(** A call without arguments ([f()], [s.upper()]) somewhere in an
    expression. *)
Fixpoint has_nullary_call (e : pexpr) : bool :=
  match e with
  | PName _ | PExternal _ _ | PConst _ => false
  | PTuple ns | PList ns | PAnd ns | POr ns => existsb has_nullary_call ns
  | PCompare l ops => has_nullary_call l || existsb (λ o, has_nullary_call o.2) ops
  | PArith _ l r | PPower l r => has_nullary_call l || has_nullary_call r
  | PUnarySub x | PGetattr x _ | PNot x => has_nullary_call x
  | PCallFunc f args =>
      match args with [] => true | _ => has_nullary_call f || existsb has_nullary_call args end
  | PSubscript x subs => has_nullary_call x || existsb has_nullary_call subs
  | PSlice x lo up =>
      has_nullary_call x || match lo with Some l => has_nullary_call l | None => false end
                         || match up with Some u => has_nullary_call u | None => false end
  end.

(** A query of [model1] whose [if] clause calls [upper()] on a name. *)
Definition upper_query_quals : list qual :=
  [mkQual (Some ("s", "OP_ASSIGN")) (QSrc "Student")
     [PCompare (PCallFunc (PGetattr (PGetattr (PName "s") "last_name") "upper") []) [("==", PConst (SStr "A"))]]].

(** The same query comparing the name itself. *)
Definition plain_query_quals : list qual :=
  [mkQual (Some ("s", "OP_ASSIGN")) (QSrc "Student")
     [PCompare (PGetattr (PName "s") "last_name") [("==", PConst (SStr "A"))]]].

(** ** Calls without arguments *)

Lemma existsb_Forall_false {A} (f : A → bool) l : Forall (λ x, f x = false) l → existsb f l = false.
Proof. induction 1; simpl; [done|]. by apply orb_false_intro. Qed.

Lemma mapM_no_nullary {B C} (f : B → stm ltr C) (g : B → pexpr) l :
  Forall (λ b, ∀ t m t', f b t = Ok (m, t') → has_nullary_call (g b) = false) l →
  ∀ t ms t', mapM f l t = Ok (ms, t') → Forall (λ b, has_nullary_call (g b) = false) l.
Proof. induction 1 as [|b l Hb Hl IH]; intros t ms t' H; simpl in H; run; constructor; eauto. Qed.

(** The walk dispatches [preCallFunc], which reads [node.args[0]], on
    every call: it lifts no expression holding a call without
    arguments. *)
Lemma ltranslate_no_nullary sch vt fs oi : ∀ e t m t',
  ltranslate sch vt fs oi e t = Ok (m, t') → has_nullary_call e = false.
Proof.
  fix IH 1. intros e t m t' H. destruct e; simpl in H; run;
  repeat match goal with
  | H : ltranslate _ _ _ _ ?e _ = Ok _ |- _ => apply IH in H
  | H : mapM (ltranslate _ _ _ _) ?l _ = Ok _ |- _ =>
      apply (mapM_no_nullary _ id l (Forall_true _ _ (λ n, IH n))), existsb_Forall_false in H
  | H : mapM (λ o, ltranslate _ _ _ _ o.2) ?l _ = Ok _ |- _ =>
      apply (mapM_no_nullary _ snd l (Forall_true _ _ (λ o, IH o.2))), existsb_Forall_false in H
  end; simpl in *;
  repeat match goal with G : _ || _ = false |- _ => apply orb_false_iff in G as [? ?] end;
  repeat apply orb_false_intro; done.
Qed.

Lemma translate_ifs_no_nullary sch vt fs oi ifs t us t' :
  mapM (translate_if_l sch vt fs oi) ifs t = Ok (us, t') → Forall (λ c, has_nullary_call c = false) ifs.
Proof.
  intros H. refine (mapM_no_nullary _ id _ (Forall_true _ _ _) _ _ _ H).
  intros c t1 m t2 Hc. unfold translate_if_l in Hc. run; by eapply ltranslate_no_nullary.
Qed.

Lemma declare_quals_no_nullary sch vt fs oi quals : ∀ i t u t',
  declare_quals_l sch vt fs oi i quals t = Ok (u, t') →
  Forall (λ q, Forall (λ c, has_nullary_call c = false) (q_ifs q)) quals.
Proof.
  induction quals as [|q quals IH]; intros i t u t' H; simpl in H; run; constructor; [|by eapply IH].
  unfold declare_qual_l in *. run; by eapply translate_ifs_no_nullary.
Qed.

(** C8: [preCallFunc] reads [node.args[0]] before it looks at the
    call (sqltranslator.py, line 399), so a method call without
    arguments, such as [s.last_name.upper()], raises [IndexError]: a
    query that [SQLTranslator.__init__] translates has no call without
    arguments in its [if] clauses nor in its selected expression, although
    [StringMethodMonad] has [upper], [lower] and [strip] methods. *)
Theorem legacy_nullary_call_untranslatable sch vt fs oi quals expr t r t' :
  legacy_translator_init sch vt fs oi quals expr t = Ok (r, t') →
  has_nullary_call expr = false ∧ Forall (λ q, Forall (λ c, has_nullary_call c = false) (q_ifs q)) quals.
Proof.
  unfold legacy_translator_init. intros H. apply stm_bind_Ok_inv in H as ([] & t1 & Hq & H).
  apply stm_bind_Ok_inv in H as (_ & t2 & _ & H). apply stm_bind_Ok_inv in H as (m & t3 & He & _).
  split; [by eapply ltranslate_no_nullary|by eapply declare_quals_no_nullary].
Qed.

Lemma legacy_nullary_call_untranslatable_witness :
  ∃ r t', legacy_translator_init model1_schema {["Student" := TEntity "Student"]} ∅ ∅
            plain_query_quals (PName "s") ltr_init = Ok (r, t') ∧
          has_nullary_call (PName "s") = false ∧
          Forall (λ q, Forall (λ c, has_nullary_call c = false) (q_ifs q)) plain_query_quals.
Proof.
  destruct (legacy_translator_init model1_schema {["Student" := TEntity "Student"]} ∅ ∅
              plain_query_quals (PName "s") ltr_init) as [[r t']|e] eqn:E; [|vm_compute in E; discriminate].
  exists r, t'. split; [done|]. exact (legacy_nullary_call_untranslatable _ _ _ _ _ _ _ _ _ E).
Defined.

(** The query with [upper()] raises [IndexError]. *)
Example legacy_upper_index_error :
  legacy_translator_init model1_schema {["Student" := TEntity "Student"]} ∅ ∅
    upper_query_quals (PName "s") ltr_init = Err IndexError.
Proof. vm_compute. reflexivity. Qed.
