(* ===== verification/LegacyScope.v ===== *)
(** * LegacyScope: the aliases the legacy translator's SQL mentions

    The SQL of [SQLTranslator] names a table by its alias in every
    [COLUMN] node; a query runs only when each such alias is declared
    in [FROM].  The translator keeps the map [aliases] from the alias of
    a loop variable or an attribute chain ([s], [s-group]) to the alias
    it declares in [FROM], shortened by [get_short_alias] when it is
    longer than [MAX_ALIAS_LENGTH].  This file shows that the walk and
    the qualifier loop keep every alias they write in a condition
    either a key of [aliases] or an alias of [FROM], and every value of
    [aliases] in [FROM] ([scoped]); so, when no alias was shortened, every
    alias the WHERE clause mentions is declared.  The [COLUMN] nodes of
    an attribute reached through a reference use the long alias, so a
    shortened alias leaves the WHERE clause naming an undeclared one. *)

From S2P Require Import Prelude SqlAst Types Schema Tables Legacy Monads Driver LegacyMonads LegacyTranslator.

Set Warnings "-register-all".

(** ** Aliases in SQL, in monads, in the translator *)

(** The alias of a [COLUMN] node at the head of a list. *)
Definition head_alias (l : list sx) : list string :=
  match l with
  | SStr tag :: SStr a :: _ => if bool_decide (tag = "COLUMN") then [a] else []
  | _ => []
  end.

(** The aliases of every [COLUMN] node of an SQL tree. *)
Fixpoint col_aliases (x : sx) : list string :=
  match x with
  | SList l => head_alias l ++ (fix go (l : list sx) : list string :=
                                  match l with [] => [] | y :: l' => col_aliases y ++ go l' end) l
  | _ => []
  end.

(** The aliases a monad carries: those of its loop variables and joined
    attributes, and those of the SQL it holds. *)
Fixpoint lm_aliases (m : lmonad) : list string :=
  let fix go (l : list lmonad) : list string := match l with [] => [] | y :: l' => lm_aliases y ++ go l' end in
  match m with
  | LObjectIter a _ => [a]
  | LAttr p a =>
      lm_aliases p ++ (match attr_py_type a, lalias p with
                       | TEntity _, Ok (Some s) => [s +:+ "-" +:+ attr_name a]
                       | _, _ => []
                       end)
  | LExpr _ sql | LBoolExpr sql | LConst sql => col_aliases sql
  | LCmp _ l r => lm_aliases l ++ lm_aliases r
  | LAnd ops | LOr ops | LList ops => go ops
  | LNot o | LMethod o _ => lm_aliases o
  | LParam _ _ | LFunc _ => []
  end.

(** The aliases declared in [FROM]. *)
Definition from_aliases (t : ltr) : list string :=
  omap (λ x, match x with SList (SStr a :: _) => Some a | _ => None end) (lt_from t).

Definition known (t : ltr) (a : string) : Prop := is_Some (lt_aliases t !! a).

(** An alias is declared when it is a key of [aliases], an alias of
    [FROM], or one of the aliases [P] the current step is about to
    declare. *)
Definition declared (P : list string) (t : ltr) (a : string) : Prop :=
  known t a ∨ a ∈ from_aliases t ∨ a ∈ P.

(** The invariant: every value of [aliases] is declared in [FROM]; every
    alias of a condition is declared; every loop variable is a key of
    [aliases]. *)
Definition scoped_in (P : list string) (t : ltr) : Prop :=
  (∀ k v, lt_aliases t !! k = Some v → v ∈ from_aliases t) ∧
  (∀ a, a ∈ concat (col_aliases <$> lt_conditions t) → declared P t a) ∧
  (∀ n e, lt_iterables t !! n = Some e → known t n).

Definition scoped (t : ltr) : Prop := scoped_in [] t.

(** Keys of [aliases] and aliases of [FROM] are never lost. *)
Definition grows (t t' : ltr) : Prop :=
  (∀ a, known t a → known t' a) ∧ (∀ a, a ∈ from_aliases t → a ∈ from_aliases t').

(** A step that changes none of the fields [scoped] reads. *)
Definition same_scope (t t' : ltr) : Prop :=
  lt_aliases t' = lt_aliases t ∧ lt_from t' = lt_from t ∧ lt_conditions t' = lt_conditions t ∧
  lt_iterables t' = lt_iterables t.

(** Every alias of an SQL tree, of a monad, is a key of the map [A]. *)
Definition sx_ok (A : gmap string string) (x : sx) : Prop := ∀ a, a ∈ col_aliases x → is_Some (A !! a).
Definition lm_ok (A : gmap string string) (m : lmonad) : Prop := ∀ a, a ∈ lm_aliases m → is_Some (A !! a).

(** A tagged SQL node whose tag is not [COLUMN]. *)
Definition tagged (x : sx) : Prop := ∃ tag args, x = node tag args ∧ tag ≠ "COLUMN".

(** The SQL an expression or a boolean monad holds does not begin with
    the string [COLUMN], so that a list of the first items of [getsql]
    (the values of an [IN]) is never read as a [COLUMN] node. *)
Fixpoint lm_wf (m : lmonad) : Prop :=
  let fix go (l : list lmonad) : Prop := match l with [] => True | y :: l' => lm_wf y ∧ go l' end in
  match m with
  | LAttr p _ | LMethod p _ | LNot p => lm_wf p
  | LExpr _ sql => sql ≠ SStr "COLUMN"
  | LBoolExpr sql => tagged sql
  | LCmp _ l r => lm_wf l ∧ lm_wf r
  | LAnd ops | LOr ops | LList ops => go ops
  | LObjectIter _ _ | LParam _ _ | LConst _ | LFunc _ => True
  end.

Definition lm_good (A : gmap string string) (m : lmonad) : Prop := lm_ok A m ∧ lm_wf m.

(** A step of the walk: it loses no alias, keeps the invariant and
    declares no loop variable. *)
Definition ext (t t' : ltr) : Prop :=
  grows t t' ∧ (scoped t → scoped t') ∧ lt_iterables t' = lt_iterables t.

(** [select(s for s in Student if s.group.faculty == 1)] over the schema
    of [model1.py], for the loop variable [v]. *)
Definition legacy_demo_vartypes : gmap string ptype := {["Student" := TEntity "Student"]}.
Definition legacy_demo_quals (v : string) : list qual :=
  [mkQual (Some (v, "OP_ASSIGN")) (QSrc "Student")
     [PCompare (PGetattr (PGetattr (PName v) "group") "faculty") [("==", PConst (SInt 1))]]].
Definition legacy_demo_run (v : string) : result (lselect * ltr) :=
  legacy_translator_init model1_schema legacy_demo_vartypes ∅ ∅ (legacy_demo_quals v) (PName v) ltr_init.
(** [Student.group] of [model1], and an object variable of 28
    characters. *)
Definition legacy_group_attr : attr :=
  ref_attr "Student" "group" "Group" "students" ["group_number"; "group_faculty"] (Some 0) 0.
Definition legacy_long_var : lmonad := LObjectIter "a_very_long_student_variable" "Student".
Definition legacy_demo_short := Eval vm_compute in legacy_demo_run "s".

(** ** SQL trees *)

Lemma col_aliases_SList l : col_aliases (SList l) = head_alias l ++ concat (col_aliases <$> l).
Proof. simpl. f_equal. induction l as [|y l IH]; simpl; [done|]. by rewrite IH. Qed.

Lemma col_aliases_leaf x : (∀ l, x ≠ SList l) → col_aliases x = [].
Proof. destruct x; try done. intros H. by destruct (H l). Qed.

Lemma sx_ok_mono t t' x : grows t t' → sx_ok (lt_aliases t) x → sx_ok (lt_aliases t') x.
Proof. intros [Hk _] Hx a Ha. by apply Hk, Hx. Qed.

Lemma lm_ok_mono t t' m : grows t t' → lm_ok (lt_aliases t) m → lm_ok (lt_aliases t') m.
Proof. intros [Hk _] Hm a Ha. by apply Hk, Hm. Qed.

Lemma sx_ok_SList t l : (∀ a, a ∈ head_alias l → is_Some (t !! a)) → Forall (sx_ok t) l → sx_ok t (SList l).
Proof.
  intros Hh Hl a. rewrite col_aliases_SList, elem_of_app. intros [Ha|Ha]; [by apply Hh|].
  apply list_elem_of_In, in_concat in Ha as (ys & Hys & Ha). apply in_map_iff in Hys as (y & <- & Hy).
  rewrite Forall_forall in Hl. apply (Hl y); [by apply list_elem_of_In|by apply list_elem_of_In].
Qed.

Lemma sx_ok_leaf t x : (∀ l, x ≠ SList l) → sx_ok t x.
Proof. intros H a. rewrite col_aliases_leaf by done. by intros ?%elem_of_nil. Qed.

(** A node whose tag is not [COLUMN] mentions the aliases of its
    arguments. *)
Lemma sx_ok_node t tag args : tag ≠ "COLUMN" → Forall (sx_ok t) args → sx_ok t (node tag args).
Proof.
  intros Ht Ha. apply sx_ok_SList; [|constructor; [apply sx_ok_leaf; by intros ? [=]|done]].
  intros a. simpl. destruct args as [|[] ?]; simpl; try by intros ?%elem_of_nil. rewrite bool_decide_false by done; by intros ?%elem_of_nil.
Qed.

Lemma col_aliases_column a c : col_aliases (column a c) = from_option (λ s, [s]) [] a.
Proof. by destruct a. Qed.

Lemma sx_ok_column t a c : is_Some (t !! a) → sx_ok t (column (Some a) c).
Proof. intros Hk b. rewrite col_aliases_column. by intros ->%list_elem_of_singleton. Qed.

Lemma sx_ok_column_none t c : sx_ok t (column None c).
Proof. intros b. rewrite col_aliases_column. by intros ?%elem_of_nil. Qed.

Lemma sx_ok_sublist t x l : x = SList l → sx_ok t x → Forall (sx_ok t) l.
Proof.
  intros -> Hx. apply Forall_forall. intros y Hy a Ha. apply Hx. rewrite col_aliases_SList, elem_of_app. right.
  apply list_elem_of_In, in_concat. exists (col_aliases y). split; [|by apply list_elem_of_In].
  apply in_map_iff. exists y. split; [done|by apply list_elem_of_In].
Qed.

Lemma py_iter_ok t x l : py_iter x = Ok l → sx_ok t x → Forall (sx_ok t) l.
Proof.
  destruct x as [s| | | |l']; simpl; intros H Hx; simplify_eq; [|by eapply sx_ok_sublist].
  apply Forall_forall. intros y (c & -> & _)%list_elem_of_fmap. by apply sx_ok_leaf.
Qed.

Lemma py_first_ok t x y : py_first x = Ok y → sx_ok t x → sx_ok t y.
Proof.
  unfold py_first. intros H Hx. destruct (py_iter x) as [l|] eqn:Hl; [|done]. simpl in H.
  destruct l as [|z l]; simplify_eq. by eapply Forall_inv, py_iter_ok.
Qed.

Lemma py_tail_ok t x l : py_tail x = Ok l → sx_ok t x → Forall (sx_ok t) l.
Proof.
  destruct x as [| | | |l']; simpl; intros H Hx; try discriminate.
  destruct l' as [|y l']; simplify_eq; [done|]. by eapply Forall_inv_tail, sx_ok_sublist.
Qed.

Lemma sx_ok_connective t op items : op ≠ "COLUMN" → Forall (sx_ok t) items → sx_ok t (legacy_connective op items).
Proof.
  intros Hop Hi. unfold legacy_connective. destruct items as [|x [|y l]]; [| by inversion Hi|];
    apply (sx_ok_node t op); done.
Qed.

Lemma sx_ok_value t v : (∀ l, v ≠ SList l) → sx_ok t (value v).
Proof. intros Hv. apply sx_ok_node; [done|]. constructor; [by apply sx_ok_leaf|done]. Qed.

Create HintDb lscope.
#[export] Hint Resolve sx_ok_node sx_ok_leaf sx_ok_column sx_ok_column_none sx_ok_value sx_ok_connective
  Forall_nil_2 Forall_cons_2 : lscope.



Lemma same_scope_refl t : same_scope t t.
Proof. done. Qed.

Lemma same_scope_trans t1 t2 t3 : same_scope t1 t2 → same_scope t2 t3 → same_scope t1 t3.
Proof. intros (?&?&?&?) (?&?&?&?). split_and!; congruence. Qed.

Lemma same_scope_known t t' a : same_scope t t' → known t' a ↔ known t a.
Proof. intros (Ha & _). unfold known. by rewrite Ha. Qed.

Lemma same_scope_grows t t' : same_scope t t' → grows t t'.
Proof. intros (Ha & Hf & _). split; [intros a; unfold known; by rewrite Ha|unfold from_aliases; by rewrite Hf]. Qed.

Lemma same_scope_scoped P t t' : same_scope t t' → scoped_in P t → scoped_in P t'.
Proof.
  intros (Ha & Hf & Hc & Hi) (H1 & H2 & H3). unfold scoped_in, declared, from_aliases, known.
  rewrite Ha, Hf, Hc, Hi. done.
Qed.

Lemma same_scope_sym t t' : same_scope t t' → same_scope t' t.
Proof. intros (?&?&?&?). by split_and!. Qed.

Lemma lalias_in m s : lalias m = Ok (Some s) → s ∈ lm_aliases m.
Proof.
  destruct m as [a e|p a| | | | | | | | | | |]; simpl; try discriminate.
  - intros [= <-]. by left.
  - destruct (attr_py_type a); try discriminate. destruct (lalias p) as [[s'|]|]; simpl; try discriminate.
    intros [= <-]. apply elem_of_app. right. by left.
Qed.

Lemma Forall_zip_with_2 {A B C} (f : A → B → C) (P : A → Prop) (Q : B → Prop) (R : C → Prop) l1 l2 :
  (∀ a b, P a → Q b → R (f a b)) → Forall P l1 → Forall Q l2 → Forall R (zip_with f l1 l2).
Proof.
  intros Hf H1. revert l2. induction H1 as [|a l1 Ha H1 IH]; intros [|b l2] H2; simpl; constructor.
  - apply Hf; [done|by inversion H2].
  - apply IH. by inversion H2.
Qed.

Lemma Forall_fmap_2 {A B} (f : A → B) (P : A → Prop) (Q : B → Prop) l :
  (∀ a, P a → Q (f a)) → Forall P l → Forall Q (f <$> l).
Proof. intros Hf Hl. apply Forall_fmap. eapply Forall_impl; [exact Hl|]. done. Qed.

Lemma sx_ok_node1 t tag x : tag ≠ "COLUMN" → sx_ok t x → sx_ok t (node tag [x]).
Proof. intros. apply sx_ok_node; [done|]. by repeat constructor. Qed.

Lemma sx_ok_node2 t tag x y : tag ≠ "COLUMN" → sx_ok t x → sx_ok t y → sx_ok t (node tag [x; y]).
Proof. intros. apply sx_ok_node; [done|]. by repeat constructor. Qed.

Lemma Forall_zip_with_3 {A B C} (f : A → B → C) (P : A → Prop) (Q : B → Prop) (R : C → Prop) l1 l2 :
  Forall P l1 → Forall Q l2 → (∀ a b, P a → Q b → R (f a b)) → Forall R (zip_with f l1 l2).
Proof. intros. by apply (Forall_zip_with_2 f P Q). Qed.

Lemma Forall_fmap_3 {A B} (f : A → B) (P : A → Prop) (Q : B → Prop) l :
  Forall P l → (∀ a, P a → Q (f a)) → Forall Q (f <$> l).
Proof. intros. by apply (Forall_fmap_2 f P). Qed.

Lemma sx_ok_node3 t tag x y z : tag ≠ "COLUMN" → sx_ok t x → sx_ok t y → sx_ok t z → sx_ok t (node tag [x; y; z]).
Proof. intros. apply sx_ok_node; [done|]. by repeat constructor. Qed.

(** A list whose first item is a list is no [COLUMN] node. *)
Lemma sx_ok_list_head t l rest : sx_ok t (SList l) → Forall (sx_ok t) rest → sx_ok t (SList (SList l :: rest)).
Proof. intros. apply sx_ok_SList; [by intros ? ?%elem_of_nil|by constructor]. Qed.

#[export] Hint Resolve sx_ok_node1 sx_ok_node2 sx_ok_node3 sx_ok_list_head Forall_zip_with_3 Forall_fmap_3 : lscope.

(** Proves [sx_ok] of SQL built from pieces known to be [sx_ok]. *)
Ltac ok_auto :=
  repeat match goal with
  | H : py_iter ?x = Ok _, Hx : sx_ok ?t ?x |- _ => apply (py_iter_ok t) in H; [|exact Hx]
  | H : py_first ?x = Ok _, Hx : sx_ok ?t ?x |- _ => apply (py_first_ok t) in H; [|exact Hx]
  end;
  eauto 8 with lscope.

Lemma cmpop_tag_ne op tag : cmpop_tag op = Ok tag → tag ≠ "COLUMN".
Proof. unfold cmpop_tag. repeat case_bool_decide; intros [= <-]; done. Qed.

(** [CmpMonad.getsql] once the SQL of the left operand is known. *)
Lemma cmp_sql_l_spec op left_sql (right : stm ltr sx) (P : ltr → Prop) t x t' :
  (∀ t1 y t2, right t1 = Ok (y, t2) → same_scope t1 t2 ∧ (P t1 → sx_ok (lt_aliases t1) y)) →
  cmp_sql_l op left_sql right t = Ok (x, t') →
  same_scope t t' ∧ (sx_ok (lt_aliases t) left_sql → P t → sx_ok (lt_aliases t) x).
Proof.
  intros Hr H. unfold cmp_sql_l in H. run. all: try (split; [done|intros Hl HP; ok_auto]).
  all: destruct (Hr _ _ _ E2) as [Hs Hy]; split; [done|intros Hl HP; specialize (Hy HP)].
  - apply sx_ok_node2; [|by eapply py_first_ok..]. by eapply cmpop_tag_ne.
  - ok_auto.
  - ok_auto.
Qed.

(** ** [getsql] *)

Lemma stm_bind_ext {S A B} (c c' : stm S A) (f f' : A → stm S B) s :
  (∀ s, c s = c' s) → (∀ a s, f a s = f' a s) → (c ≫= f) s = (c' ≫= f') s.
Proof. intros Hc Hf. rewrite !stm_bind_unfold, Hc. destruct (c' s) as [[a s1]|e]; [apply Hf|done]. Qed.

Lemma head_alias_single x : head_alias [x] = [].
Proof. by destruct x as [| | | |]. Qed.

Lemma head_alias_fmap_column a cols : head_alias (column a <$> cols) = [].
Proof. by destruct cols. Qed.

(** The inner loop of [getsql] for [AndMonad] and [OrMonad] is [mapM]. *)
Lemma lgetsql_ops_eq sch ops t :
  (fix go (l : list lmonad) : stm ltr (list sx) :=
     match l with [] => mret [] | o :: l' => s ← lgetsql sch o; ss ← go l'; mret (s :: ss) end) ops t
  = mapM (lgetsql sch) ops t.
Proof.
  revert t. induction ops as [|o ops IH]; intros t; [done|]. simpl.
  apply stm_bind_ext; [done|]. intros a s. apply stm_bind_ext; [apply IH|done].
Qed.

Lemma lm_aliases_ops ops :
  (fix go (l : list lmonad) : list string := match l with [] => [] | y :: l' => lm_aliases y ++ go l' end) ops
  = concat (lm_aliases <$> ops).
Proof. induction ops as [|o ops IH]; simpl; [done|]. by rewrite IH. Qed.

Lemma lm_ok_cons t o ops : (∀ a, a ∈ concat (lm_aliases <$> o :: ops) → is_Some (t !! a)) →
  lm_ok t o ∧ ∀ a, a ∈ concat (lm_aliases <$> ops) → is_Some (t !! a).
Proof. intros H. split; intros a Ha; apply H; simpl; apply elem_of_app; auto. Qed.

(** [getsql] over a list of monads, given its specification on each. *)
Lemma lgetsql_mapM_spec sch ops :
  Forall (λ o, ∀ t x t', lgetsql sch o t = Ok (x, t') →
    same_scope t t' ∧ (lm_ok (lt_aliases t) o → sx_ok (lt_aliases t) x)) ops →
  ∀ t ss t', mapM (lgetsql sch) ops t = Ok (ss, t') →
  same_scope t t' ∧ ((∀ a, a ∈ concat (lm_aliases <$> ops) → known t a) → Forall (sx_ok (lt_aliases t)) ss).
Proof.
  induction 1 as [|o ops Ho Hops IHo]; intros t ss t' E; simpl in E; run; [split; [done|constructor]|].
  match goal with H1 : lgetsql sch o _ = Ok _, H2 : mapM _ ops _ = Ok _ |- _ =>
    destruct (Ho _ _ _ H1) as [Hs1 Hx]; destruct (IHo _ _ _ H2) as [Hs2 Hr] end.
  split; [by eapply same_scope_trans|]. intros Hk. apply lm_ok_cons in Hk as [Hk1 Hk2]. constructor; [by apply Hx|].
  destruct Hs1 as [HA _]. rewrite <-HA. apply Hr. unfold known. rewrite HA. exact Hk2.
Qed.

(** [getsql] changes only the extractors, and the SQL of a monad whose
    aliases are keys of [aliases] mentions only such aliases. *)
Lemma lgetsql_spec sch : ∀ m t x t', lgetsql sch m t = Ok (x, t') →
  same_scope t t' ∧ (lm_ok (lt_aliases t) m → sx_ok (lt_aliases t) x).
Proof.
  fix IH 1. intros [a e|p a|ty n|ty sql|v|items|p n|sql|op l r|ops|ops|o|f] t x t' H; simpl in H.
  - run. split; [done|]. intros Hm. apply sx_ok_SList; [by rewrite head_alias_fmap_column; intros ? ?%elem_of_nil|].
    apply Forall_fmap_2 with (P := λ _, True); [|by apply Forall_true].
    intros c _. apply sx_ok_column, Hm. by left.
  - run. split; [done|]. intros Hm. apply sx_ok_SList; [by rewrite head_alias_fmap_column; intros ? ?%elem_of_nil|].
    apply Forall_fmap_2 with (P := λ _, True); [|by apply Forall_true].
    intros c _. match goal with H : lalias p = Ok ?o |- _ => destruct o as [s|] eqn:? end;
      [|apply sx_ok_column_none].
    apply sx_ok_column, Hm. apply elem_of_app. left. by apply lalias_in.
  - run. split; [done|]. intros _. apply sx_ok_SList; [by intros ? ?%elem_of_nil|]. repeat constructor.
    apply sx_ok_node1; [done|]. by apply sx_ok_leaf.
  - run. split; [done|]. intros Hm. apply sx_ok_SList; [by rewrite head_alias_single; intros ? ?%elem_of_nil|].
    by repeat constructor.
  - run. split; [done|]. intros Hm. apply sx_ok_SList; [by rewrite head_alias_single; intros ? ?%elem_of_nil|].
    repeat constructor. by apply sx_ok_node1.
  - run.
  - run.
  - run. split; [done|]. done.
  - run. destruct (IH l _ _ _ E) as [Hs1 Hl].
    destruct (cmp_sql_l_spec _ _ _ (λ t1, lm_ok (lt_aliases t1) r) _ _ _ (IH r) H) as [Hs2 Hx].
    split; [by eapply same_scope_trans|]. intros Hm.
    assert (lm_ok (lt_aliases t) l ∧ lm_ok (lt_aliases t) r) as [Hml Hmr]
      by (split; intros b Hb; apply Hm; simpl; apply elem_of_app; auto).
    destruct Hs1 as [HA _]. rewrite <-HA in *. apply Hx; [by apply Hl|done].
  - apply stm_bind_Ok_inv in H as (ss & t1 & E & H). rewrite lgetsql_ops_eq in E. run.
    destruct (lgetsql_mapM_spec sch ops (Forall_true _ _ (λ o, IH o)) _ _ _ E) as [Hs Hf].
    split; [done|]. intros Hm. apply sx_ok_node; [done|]. apply Hf. simpl in Hm. by rewrite <-lm_aliases_ops.
  - apply stm_bind_Ok_inv in H as (ss & t1 & E & H). rewrite lgetsql_ops_eq in E. run.
    destruct (lgetsql_mapM_spec sch ops (Forall_true _ _ (λ o, IH o)) _ _ _ E) as [Hs Hf].
    split; [done|]. intros Hm. apply sx_ok_node; [done|]. apply Hf. simpl in Hm. by rewrite <-lm_aliases_ops.
  - run. destruct (IH o _ _ _ E) as [Hs Ho]. split; [done|]. intros Hm. apply sx_ok_node1; [done|]. by apply Ho.
  - run.
Qed.

(** ** Steps of the walk *)

Lemma ext_refl t : ext t t.
Proof. split_and!; [split; done|done|done]. Qed.

Lemma grows_trans t1 t2 t3 : grows t1 t2 → grows t2 t3 → grows t1 t3.
Proof. intros [H1 H2] [H3 H4]. split; auto. Qed.

Lemma ext_trans t1 t2 t3 : ext t1 t2 → ext t2 t3 → ext t1 t3.
Proof. intros (H1 & H2 & H3) (H4 & H5 & H6). split_and!; [by eapply grows_trans|auto|congruence]. Qed.

Lemma same_scope_ext t t' : same_scope t t' → ext t t'.
Proof.
  intros Hs. split_and!; [by apply same_scope_grows|by apply same_scope_scoped|].
  by destruct Hs as (_ & _ & _ & ?).
Qed.

Lemma lm_good_mono t t' m : grows t t' → lm_good (lt_aliases t) m → lm_good (lt_aliases t') m.
Proof. intros Hg [Ho Hw]. split; [by eapply lm_ok_mono|done]. Qed.

Lemma lm_ok_LList A items : lm_ok A (LList items) ↔ Forall (lm_ok A) items.
Proof.
  unfold lm_ok. simpl. rewrite lm_aliases_ops, Forall_forall. split.
  - intros H m Hm a Ha. apply H, list_elem_of_In, in_concat. exists (lm_aliases m).
    split; [apply in_map_iff; exists m; split; [done|by apply list_elem_of_In]|by apply list_elem_of_In].
  - intros H a (l & (m & <- & Hm)%in_map_iff & Ha)%list_elem_of_In%in_concat.
    apply (H m); by apply list_elem_of_In.
Qed.

Lemma lm_wf_ops ops :
  (fix go (l : list lmonad) : Prop := match l with [] => True | y :: l' => lm_wf y ∧ go l' end) ops
  ↔ Forall lm_wf ops.
Proof.
  induction ops as [|m ops IH]; [split; [constructor|done]|].
  rewrite Forall_cons, <-IH. done.
Qed.

Lemma lm_wf_LList items : lm_wf (LList items) ↔ Forall lm_wf items.
Proof. apply lm_wf_ops. Qed.

Lemma lm_good_LList A items : lm_good A (LList items) ↔ Forall (lm_good A) items.
Proof.
  unfold lm_good. rewrite lm_ok_LList, lm_wf_LList. split.
  - intros [H1 H2]. apply Forall_and; done.
  - intros H. by apply Forall_and in H.
Qed.

(** ** The first item of [getsql] *)

Lemma node_tagged tag args : tag ≠ "COLUMN" → tagged (node tag args).
Proof. intros. by exists tag, args. Qed.

Lemma connective_tagged op items : op ≠ "COLUMN" → Forall tagged items → tagged (legacy_connective op items).
Proof.
  intros Hop Hi. unfold legacy_connective. destruct items as [|x [|y l]]; [| by inversion Hi|]; by apply node_tagged.
Qed.

#[export] Hint Resolve node_tagged connective_tagged : lscope.

Lemma tagged_first x y : tagged x → py_first x = Ok y → y ≠ SStr "COLUMN".
Proof. intros (tag & args & -> & Ht) [= <-]. congruence. Qed.

Lemma cmp_sql_l_tagged op left_sql right t x t' : cmp_sql_l op left_sql right t = Ok (x, t') → tagged x.
Proof.
  unfold cmp_sql_l. intros H. run.
  all: try (apply connective_tagged; [done|]; first [apply Forall_fmap_2 with (P := λ _, True) |
                                                      apply Forall_zip_with_2 with (P := λ _, True) (Q := λ _, True)];
            by eauto using Forall_true with lscope).
  apply node_tagged. by eapply cmpop_tag_ne.
Qed.

(** The first item of the SQL of a well-formed monad is never the
    string [COLUMN]. *)
Lemma lgetsql_head sch m t x t' y : lgetsql sch m t = Ok (x, t') → lm_wf m → py_first x = Ok y → y ≠ SStr "COLUMN".
Proof.
  destruct m; simpl; intros H Hw Hy; run; simplify_eq/=; try by eapply tagged_first.
  all: try by (eapply tagged_first; [eapply cmp_sql_l_tagged; eassumption|]).
  all: repeat match goal with H : py_first (SList (_ <$> ?l)) = _ |- _ => destruct l; simpl in H end.
  all: cbv [py_first py_iter] in *; simplify_eq/=; done.
Qed.

(** ** Same-scope operations *)

Lemma node_not_str tag args s : node tag args ≠ SStr s.
Proof. done. Qed.

Lemma value_not_str v s : value v ≠ SStr s.
Proof. done. Qed.

Lemma lm_good_boolexpr A sql : sx_ok A sql → tagged sql → lm_good A (LBoolExpr sql).
Proof. done. Qed.

Lemma lm_good_expr A ty sql : sx_ok A sql → sql ≠ SStr "COLUMN" → lm_good A (LExpr ty sql).
Proof. done. Qed.

#[export] Hint Resolve node_not_str value_not_str lm_good_boolexpr lm_good_expr : lscope.

Lemma mapM_same_scope {B C} (f : B → stm ltr C) (P : gmap string string → B → Prop)
    (Q : gmap string string → C → Prop) :
  (∀ b t c t', f b t = Ok (c, t') → same_scope t t' ∧ (P (lt_aliases t) b → Q (lt_aliases t) c)) →
  ∀ l t l' t', mapM f l t = Ok (l', t') → same_scope t t' ∧ (Forall (P (lt_aliases t)) l → Forall (Q (lt_aliases t)) l').
Proof.
  intros Hf l. induction l as [|b l IH]; intros t l' t' H; simpl in H; run; [done|].
  destruct (Hf _ _ _ _ E) as [Hs1 Hb], (IH _ _ _ E0) as [Hs2 Hl].
  split; [by eapply same_scope_trans|]. intros [Hp Hps]%Forall_cons.
  destruct Hs1 as [HA _]. rewrite <-HA in *. constructor; auto.
Qed.

(** [getsql()[0]] of a good monad mentions only keys of [aliases] and is
    not the string [COLUMN]. *)
Lemma lgetsql0_spec sch m t x t' : lgetsql0 sch m t = Ok (x, t') →
  same_scope t t' ∧ (lm_good (lt_aliases t) m → sx_ok (lt_aliases t) x ∧ x ≠ SStr "COLUMN").
Proof.
  unfold lgetsql0. intros H. run.
  match goal with H1 : lgetsql _ _ _ = Ok _ |- _ =>
    pose proof (λ y, lgetsql_head _ _ _ _ _ y H1); destruct (lgetsql_spec _ _ _ _ _ H1) as [Hs Hx] end.
  split; [done|]. intros [Ho Hw]. split; [by eapply py_first_ok; eauto|eauto].
Qed.

Lemma lgetsql0_mapM_spec sch ms t xs t' : mapM (lgetsql0 sch) ms t = Ok (xs, t') →
  same_scope t t' ∧ (Forall (lm_good (lt_aliases t)) ms → Forall (λ x, sx_ok (lt_aliases t) x ∧ x ≠ SStr "COLUMN") xs).
Proof. apply (mapM_same_scope _ lm_good (λ A x, sx_ok A x ∧ x ≠ SStr "COLUMN")), lgetsql0_spec. Qed.

Lemma head_alias_not_column l : Forall (λ x, x ≠ SStr "COLUMN") l → head_alias l = [].
Proof.
  intros Hl. destruct l as [|[s| | | |] [|[] l]]; try done. simpl.
  inversion Hl. case_bool_decide; [subst; done|done].
Qed.

(** Apply the specifications of [getsql] to the runs in the context. *)
Ltac specs :=
  repeat match goal with
  | H : lgetsql ?s ?m _ = Ok _ |- _ => apply lgetsql_spec in H as [?Hs ?Hx]
  | H : lgetsql0 ?s ?m _ = Ok _ |- _ => apply lgetsql0_spec in H as [?Hs ?Hx]
  | H : mapM (lgetsql0 _) _ _ = Ok _ |- _ => apply lgetsql0_mapM_spec in H as [?Hs ?Hx]
  end.

(** Split the [same_scope] facts and prove the [same_scope] goal. *)
Ltac scope_eqs := repeat match goal with H : same_scope _ _ |- _ => destruct H as (?&?&?&?) end.
Ltac alias_rw := repeat match goal with H : lt_aliases ?a = lt_aliases ?b |- _ => try rewrite H in *; clear H end.
Ltac scope_split := scope_eqs; split; [unfold same_scope; simpl; split_and!; congruence|alias_rw].

Lemma Forall_zip_with_all {A B C} (f : A → B → C) (R : C → Prop) l1 l2 :
  (∀ a b, R (f a b)) → Forall R (zip_with f l1 l2).
Proof.
  intros Hf. apply (Forall_zip_with_2 f (λ _, True) (λ _, True)); [auto|by apply Forall_true..].
Qed.

Lemma Forall_fmap_all {A B} (f : A → B) (R : B → Prop) l : (∀ a, R (f a)) → Forall R (f <$> l).
Proof. intros Hf. apply (Forall_fmap_2 f (λ _, True)); [auto|by apply Forall_true]. Qed.

#[export] Hint Resolve Forall_zip_with_all Forall_fmap_all : lscope.

Lemma sql_negation_not_column x op : sql_negation_get x = Ok (Some op) → op ≠ "COLUMN".
Proof. unfold sql_negation_get. destruct x; try discriminate. repeat case_bool_decide; intros [= <-]; done. Qed.

Lemma lm_good_not A m : lm_good A (LNot m) ↔ lm_good A m.
Proof. done. Qed.

Lemma lm_good_cmp A op l r : lm_good A (LCmp op l r) ↔ lm_good A l ∧ lm_good A r.
Proof.
  unfold lm_good, lm_ok. simpl. setoid_rewrite elem_of_app.
  split; [intros [Ho [Hl Hr]]; split_and!; auto|intros [[Hl Hl'] [Hr Hr']]; split_and!; [intros a [?|?]|..]; auto].
Qed.

Lemma lm_good_and A ops : lm_good A (LAnd ops) ↔ Forall (lm_good A) ops.
Proof. apply lm_good_LList. Qed.

Lemma lm_good_or A ops : lm_good A (LOr ops) ↔ Forall (lm_good A) ops.
Proof. apply lm_good_LList. Qed.

Lemma not_new_l_spec m t r t' : not_new_l m t = Ok (r, t') →
  same_scope t t' ∧ (lm_good (lt_aliases t) m → lm_good (lt_aliases t) r).
Proof. unfold not_new_l, nonzero_l. intros H. run. split; [done|]. by rewrite lm_good_not. Qed.

Lemma boolexpr_negate_l_spec sql t r t' : boolexpr_negate_l sql t = Ok (r, t') →
  same_scope t t' ∧ (lm_good (lt_aliases t) (LBoolExpr sql) → lm_good (lt_aliases t) r).
Proof.
  unfold boolexpr_negate_l. intros H. run. split; [done|]. intros [Ho _].
  match goal with H : sql_negation_get _ = Ok (Some ?op) |- _ => apply sql_negation_not_column in H end.
  apply lm_good_boolexpr; [|by apply node_tagged]. apply sx_ok_node; [done|]. by eapply py_tail_ok.
Qed.

Lemma negate_l_spec m t r t' : negate_l m t = Ok (r, t') →
  same_scope t t' ∧ (lm_good (lt_aliases t) m → lm_good (lt_aliases t) r).
Proof.
  unfold negate_l. intros H. destruct m; try by apply not_new_l_spec.
  - by apply boolexpr_negate_l_spec.
  - run. split; [done|]. by rewrite lm_good_not.
Qed.

(** The operands of a [CmpMonad] are its two operands, maybe swapped. *)
Lemma cmp_new_l_spec sch op l r m A : cmp_new_l sch op l r = Ok m →
  lm_good A l → lm_good A r → lm_good A m.
Proof.
  unfold cmp_new_l. intros H Hl Hr.
  destruct (legacy_are_comparable_types _ _ _ _) as [[]|]; simpl in H; try discriminate.
  destruct (bool_decide (ltype l = TNone)); simpl in H.
  - destruct (negb _); simpl in H; [|discriminate]. injection H as <-. by apply lm_good_cmp.
  - injection H as <-. by apply lm_good_cmp.
Qed.

Lemma logical_new_l_spec is_and ops m A : logical_new_l is_and ops = Ok m →
  Forall (lm_good A) ops → lm_good A m.
Proof.
  unfold logical_new_l. intros H Hops. destruct (2 <=? length ops); simpl in H; [|discriminate].
  destruct (forallb _ _); simpl in H; [|discriminate]. injection H as <-. destruct is_and; by apply lm_good_LList.
Qed.

Lemma getsql_iter_spec sch item t row t' : (s ← lgetsql sch item; slift (py_iter s)) t = Ok (row, t') →
  same_scope t t' ∧ (lm_good (lt_aliases t) item → Forall (sx_ok (lt_aliases t)) row).
Proof.
  intros H. run. match goal with H : lgetsql _ _ _ = Ok _ |- _ => apply lgetsql_spec in H as [Hs Hx] end.
  split; [done|]. intros [Ho _]. by eapply py_iter_ok, Hx.
Qed.

Lemma sx_ok_values A vs : Forall (sx_ok A) vs → Forall (λ x, x ≠ SStr "COLUMN") vs → sx_ok A (SList vs).
Proof.
  intros Ho Hn. apply sx_ok_SList; [|done].
  rewrite head_alias_not_column by done. by intros ? ?%elem_of_nil.
Qed.

#[export] Hint Resolve sx_ok_values : lscope.

(** Use the facts the specifications give: split [lm_good] and
    conjunctions under [Forall], discharge the premises of implications. *)
Ltac good_facts :=
  repeat match goal with
  | H : ?P → _, H' : ?P |- _ => specialize (H H')
  | H : lm_good _ _ |- _ => destruct H as [? ?]
  | H : _ ∧ _ |- _ => destruct H as [? ?]
  | H : Forall (λ x, _ ∧ _) _ |- _ => apply Forall_and in H as [? ?]
  | H : Forall _ (_ :: _) |- _ => apply Forall_cons in H as [? ?]
  end.

Ltac specs_rows :=
  repeat match goal with
  | H : mapM _ _ _ = Ok _ |- _ =>
      apply (mapM_same_scope _ lm_good (λ A row, Forall (sx_ok A) row) (getsql_iter_spec _)) in H as [?Hs ?Hx]
  end.

Lemma list_contains_l_spec sch items x not_in t r t' : list_contains_l sch items x not_in t = Ok (r, t') →
  same_scope t t' ∧ (Forall (lm_good (lt_aliases t)) items → lm_good (lt_aliases t) x → lm_good (lt_aliases t) r).
Proof.
  unfold list_contains_l. intros H. run; specs; specs_rows; scope_split; intros Hi Hxg; good_facts.
  - apply lm_good_boolexpr; [|by destruct not_in; apply node_tagged].
    apply sx_ok_node2; [by destruct not_in| |by apply sx_ok_values]. by eapply py_first_ok.
  - destruct not_in; apply lm_good_boolexpr; ok_auto.
Qed.

Lemma lm_good_intro A m : lm_ok A m → lm_wf m → lm_good A m.
Proof. by split. Qed.

Lemma lm_good_str A s : lm_good A (LConst (SStr s)).
Proof. split; [|done]. intros a Ha. simpl in Ha. by apply elem_of_nil in Ha. Qed.

Lemma lm_good_int A z : lm_good A (LConst (SInt z)).
Proof. split; [|done]. intros a Ha. simpl in Ha. by apply elem_of_nil in Ha. Qed.

Lemma sx_ok_value_int A z : sx_ok A (value (SInt z)).
Proof. by apply sx_ok_value. Qed.

Lemma sx_ok_value_str A s : sx_ok A (value (SStr s)).
Proof. by apply sx_ok_value. Qed.

Lemma sx_ok_none A : sx_ok A SNone.
Proof. by apply sx_ok_leaf. Qed.

Lemma sx_ok_str A s : sx_ok A (SStr s).
Proof. by apply sx_ok_leaf. Qed.

#[export] Hint Resolve lm_good_intro lm_good_str lm_good_int sx_ok_value_int sx_ok_value_str sx_ok_none sx_ok_str : lscope.

(** Prove [lm_good] of a monad, [sx_ok] and [tagged] of its SQL, by the
    shape of the SQL. *)
Ltac sx_step :=
  match goal with
  | |- lm_good _ (LExpr _ _) => apply lm_good_expr; [|done]
  | |- lm_good _ (LBoolExpr _) => apply lm_good_boolexpr
  | |- sx_ok _ (node _ _) => apply sx_ok_node; [by repeat case_match|]
  | |- sx_ok _ (value _) => apply sx_ok_value; by intros ? [=]
  | |- sx_ok _ (SList (SList _ :: _)) => apply sx_ok_list_head
  | |- sx_ok _ (legacy_sqland _) => apply sx_ok_connective; [done|]
  | |- sx_ok _ (legacy_sqlor _) => apply sx_ok_connective; [done|]
  | |- sx_ok _ SNone => apply sx_ok_none
  | |- sx_ok _ (SStr _) => apply sx_ok_str
  | |- Forall _ (_ :: _) => apply Forall_cons_2
  | |- Forall _ [] => apply Forall_nil_2
  | |- tagged (node _ _) => apply node_tagged; by repeat case_match
  | |- sx_ok _ (if ?b then _ else _) => destruct b
  | |- tagged (if ?b then _ else _) => destruct b
  end.

Ltac good_auto :=
  repeat match goal with
  | H : py_iter ?x = Ok _, Hx : sx_ok ?t ?x |- _ => apply (py_iter_ok t) in H; [|exact Hx]
  | H : py_first ?x = Ok _, Hx : sx_ok ?t ?x |- _ => apply (py_first_ok t) in H; [|exact Hx]
  end;
  repeat sx_step; eauto 8 with lscope.

(** The proof of a specification of a same-scope operation. *)
Ltac op_tac := intros H; run; specs; scope_split; intros; good_facts; good_auto.

Lemma binop_l_spec sch is_num sqlop m m2 t r t' : sqlop ≠ "COLUMN" → binop_l sch is_num sqlop m m2 t = Ok (r, t') →
  same_scope t t' ∧ (lm_good (lt_aliases t) m → lm_good (lt_aliases t) m2 → lm_good (lt_aliases t) r).
Proof. unfold binop_l. intros Hop. op_tac. Qed.

Lemma arith_l_spec sch op m m2 t r t' : arith_l sch op m m2 t = Ok (r, t') →
  same_scope t t' ∧ (lm_good (lt_aliases t) m → lm_good (lt_aliases t) m2 → lm_good (lt_aliases t) r).
Proof.
  unfold arith_l. intros H. run; apply binop_l_spec in H; try done; repeat case_bool_decide; done.
Qed.

Lemma numeric_unary_l_spec sch tag m t r t' : tag ≠ "COLUMN" → numeric_unary_l sch tag m t = Ok (r, t') →
  same_scope t t' ∧ (lm_good (lt_aliases t) m → lm_good (lt_aliases t) r).
Proof. unfold numeric_unary_l. intros Hop. op_tac. Qed.

Lemma string_slice_l_spec sch m start stop t r t' : string_slice_l sch m start stop t = Ok (r, t') →
  same_scope t t' ∧ (lm_good (lt_aliases t) m → (∀ s, start = Some s → lm_good (lt_aliases t) s) →
                     (∀ s, stop = Some s → lm_good (lt_aliases t) s) → lm_good (lt_aliases t) r).
Proof.
  unfold string_slice_l. destruct start as [s1|], stop as [s2|]; intros H; run; specs; scope_split; intros Hm Hs1 Hs2.
  all: try specialize (Hs1 _ eq_refl); try specialize (Hs2 _ eq_refl); good_facts; good_auto.
Qed.

Lemma string_index_l_spec sch m index t r t' : string_index_l sch m index t = Ok (r, t') →
  same_scope t t' ∧ (lm_good (lt_aliases t) m → lm_good (lt_aliases t) index → lm_good (lt_aliases t) r).
Proof. unfold string_index_l. op_tac. Qed.

Lemma string_len_l_spec sch m t r t' : string_len_l sch m t = Ok (r, t') →
  same_scope t t' ∧ (lm_good (lt_aliases t) m → lm_good (lt_aliases t) r).
Proof. unfold string_len_l. op_tac. Qed.

Lemma string_contains_l_spec sch m item not_in t r t' : string_contains_l sch m item not_in t = Ok (r, t') →
  same_scope t t' ∧ (lm_good (lt_aliases t) m → lm_good (lt_aliases t) item → lm_good (lt_aliases t) r).
Proof. unfold string_contains_l. op_tac. Qed.

Lemma string_func_l_spec sch sqlop parent t r t' : sqlop ≠ "COLUMN" → string_func_l sch sqlop parent t = Ok (r, t') →
  same_scope t t' ∧ (lm_good (lt_aliases t) parent → lm_good (lt_aliases t) r).
Proof. unfold string_func_l. intros Hop. op_tac. Qed.

Lemma string_affix_l_spec sch ends parent arg t r t' : string_affix_l sch ends parent arg t = Ok (r, t') →
  same_scope t t' ∧ (lm_good (lt_aliases t) parent → lm_good (lt_aliases t) arg → lm_good (lt_aliases t) r).
Proof. unfold string_affix_l. op_tac. Qed.

Lemma string_strip_l_spec sch parent chars tag t r t' : tag ≠ "COLUMN" →
  string_strip_l sch parent chars tag t = Ok (r, t') →
  same_scope t t' ∧ (lm_good (lt_aliases t) parent → (∀ c, chars = Some c → lm_good (lt_aliases t) c) →
                     lm_good (lt_aliases t) r).
Proof.
  unfold string_strip_l. intros Hop. destruct chars as [c|]; intros H; run; specs; scope_split; intros Hm Hc.
  all: try specialize (Hc _ eq_refl); good_facts; good_auto.
Qed.

(** Conclude from the specification [H] of the operation a step runs. *)
Ltac lift_spec H := destruct H as [?Hs ?Hg]; split; [done|intros; good_facts; eauto with lscope].

Lemma method_call_l_spec sch parent name args t r t' : method_call_l sch parent name args t = Ok (r, t') →
  same_scope t t' ∧ (lm_good (lt_aliases t) parent → Forall (lm_good (lt_aliases t)) args → lm_good (lt_aliases t) r).
Proof.
  unfold method_call_l. intros H. cbv zeta in H. case_bool_decide; [|case_bool_decide].
  all: destruct args as [|a [|b args]]; cbv beta iota in H; try discriminate.
  - apply string_func_l_spec in H; [lift_spec H|by repeat case_match].
  - apply string_affix_l_spec in H. lift_spec H.
  - apply string_strip_l_spec in H as [Hs Hg]; [|by repeat case_match].
    split; [done|]. intros Hp _. apply Hg; [done|]. by intros ? [=].
  - apply string_strip_l_spec in H as [Hs Hg]; [|by repeat case_match].
    split; [done|]. intros Hp Ha. apply Hg; [done|]. intros ? [= <-]. by inversion Ha.
Qed.

Lemma minmax_l_spec sch sqlop args t r t' : sqlop ≠ "COLUMN" → minmax_l sch sqlop args t = Ok (r, t') →
  same_scope t t' ∧ (Forall (lm_good (lt_aliases t)) args → lm_good (lt_aliases t) r).
Proof.
  unfold minmax_l. intros Hop H. run; specs; scope_split; intros; good_facts.
  all: apply lm_good_expr; [apply (sx_ok_node _ sqlop); done|done].
Qed.

Lemma func_call_l_spec sch f args t r t' : func_call_l sch f args t = Ok (r, t') →
  same_scope t t' ∧ (Forall (lm_good (lt_aliases t)) args → lm_good (lt_aliases t) r).
Proof.
  unfold func_call_l. intros H. cbv zeta in H.
  repeat (case_bool_decide; [destruct args as [|a [|b args]]; cbv beta iota in H; try discriminate|]).
  - destruct (is_string_l a); [|discriminate]. apply string_len_l_spec in H. lift_spec H.
  - apply numeric_unary_l_spec in H; [lift_spec H|done].
  - apply minmax_l_spec in H; [lift_spec H|by case_match].
  - destruct args as [|a [|b args]]; discriminate.
Qed.

Lemma lm_good_method A p n : lm_good A (LMethod p n) ↔ lm_good A p.
Proof. done. Qed.

Lemma call_l_spec sch fm args t r t' : call_l sch fm args t = Ok (r, t') →
  same_scope t t' ∧ (lm_good (lt_aliases t) fm → Forall (lm_good (lt_aliases t)) args → lm_good (lt_aliases t) r).
Proof.
  unfold call_l. intros H. destruct fm; try discriminate.
  - apply method_call_l_spec in H as [Hs Hg]. split; [done|]. intros Hp%lm_good_method. by apply Hg.
  - apply func_call_l_spec in H as [Hs Hg]. split; [done|]. intros _. done.
Qed.

Lemma contains_l_spec sch c item not_in t r t' : contains_l sch c item not_in t = Ok (r, t') →
  same_scope t t' ∧ (lm_good (lt_aliases t) c → lm_good (lt_aliases t) item → lm_good (lt_aliases t) r).
Proof.
  unfold contains_l. intros H. destruct c; try (destruct (is_string_l _); [|discriminate];
    apply string_contains_l_spec in H; lift_spec H).
  apply list_contains_l_spec in H as [Hs Hg]. split; [done|]. intros Hi%lm_good_LList. by apply Hg.
Qed.

Lemma getitem_l_spec sch m key t r t' : getitem_l sch m key t = Ok (r, t') →
  same_scope t t' ∧ (lm_good (lt_aliases t) m →
    match key with
    | inl o => ∀ s, o = Some s → lm_good (lt_aliases t) s
    | inr (a, b) => (∀ s, a = Some s → lm_good (lt_aliases t) s) ∧ (∀ s, b = Some s → lm_good (lt_aliases t) s)
    end → lm_good (lt_aliases t) r).
Proof.
  unfold getitem_l. intros H. destruct (is_string_l m); [|discriminate].
  destruct key as [[index|]|[a b]]; try discriminate.
  - apply string_index_l_spec in H as [Hs Hg]. split; [done|]. intros Hm Hk. by apply Hg, Hk.
  - apply string_slice_l_spec in H as [Hs Hg]. split; [done|]. intros Hm [Ha Hb]. by apply Hg.
Qed.

(** ** Joins and tables *)

Lemma from_aliases_add u x rest : from_aliases (lt_set_from (lt_from u ++ [SList (SStr x :: rest)]) u) = from_aliases u ++ [x].
Proof. unfold from_aliases. simpl. by rewrite omap_app. Qed.

Lemma declared_mono P t t' a : grows t t' → declared P t a → declared P t' a.
Proof. intros [Hk Hf] [?|[?|?]]; [left|right; left|right; right]; auto. Qed.

Lemma declared_weaken P t a : declared [] t a → declared P t a.
Proof. intros [?|[?|?%elem_of_nil]]; [by left|by right; left|done]. Qed.

Lemma scoped_weaken P t : scoped t → scoped_in P t.
Proof. intros (H1 & H2 & H3). split_and!; [done| |done]. intros a Ha. by apply declared_weaken, H2. Qed.

(** A table declared under the alias [x] for the key [a]. *)
Lemma scoped_add_table P u a x rest :
  let u' := lt_set_from (lt_from u ++ [SList (SStr x :: rest)]) (lt_set_aliases (<[a := x]> (lt_aliases u)) u) in
  grows u u' ∧ known u' a ∧ x ∈ from_aliases u' ∧ (scoped_in P u → scoped_in P u').
Proof.
  intros u'.
  assert (Hf : from_aliases u' = from_aliases u ++ [x]) by apply (from_aliases_add (lt_set_aliases _ u)).
  assert (Hg : grows u u').
  { split; [|intros b Hb; rewrite Hf; apply elem_of_app; by left].
    intros b [v Hv]. unfold known. simpl. destruct (decide (a = b)) as [->|]; [by rewrite lookup_insert_eq|].
    rewrite lookup_insert_ne by done. by exists v. }
  assert (Hx : x ∈ from_aliases u') by (rewrite Hf; apply elem_of_app; right; by left).
  split_and!; [done|by unfold known; simpl; rewrite lookup_insert_eq|done|]. intros (H1 & H2 & H3).
  split_and!.
  - intros k v. simpl. destruct (decide (a = k)) as [->|]; [rewrite lookup_insert_eq; by intros [= <-]|].
    rewrite lookup_insert_ne by done. intros Hk. destruct Hg as [_ Hg]. by eapply Hg, H1.
  - intros b Hb. by eapply declared_mono, H2.
  - intros n e Hn. destruct Hg as [Hg _]. by eapply Hg, H3.
Qed.

Lemma scoped_add_iterable P t n e : scoped_in P t → known t n →
  scoped_in P (lt_set_iterables (<[n := e]> (lt_iterables t)) t).
Proof.
  intros (H1 & H2 & H3) Hn. split_and!; [done|done|]. intros m e'. simpl.
  destruct (decide (n = m)) as [->|]; [done|]. rewrite lookup_insert_ne by done. apply H3.
Qed.

Lemma col_aliases_eq a1 a2 c1 c2 : col_aliases (node "EQ" [column (Some a1) c1; column (Some a2) c2]) = [a1; a2].
Proof. reflexivity. Qed.

Lemma legacy_join_tables_aliases conds a1 a2 cs1 cs2 conds' :
  legacy_join_tables conds (Some a1) (Some a2) cs1 cs2 = Ok conds' →
  ∀ b, b ∈ concat (col_aliases <$> conds') → b ∈ concat (col_aliases <$> conds) ∨ b = a1 ∨ b = a2.
Proof.
  unfold legacy_join_tables. destruct (length cs1 =? length cs2); simpl; [|discriminate]. intros [= <-] b.
  rewrite fmap_app, concat_app, elem_of_app. intros [Hb|Hb]; [by left|right]. revert cs2 Hb.
  induction cs1 as [|c1 cs1 IH]; intros [|c2 cs2]; simpl; try by intros ?%elem_of_nil.
  rewrite !elem_of_cons. intros [Hb|[Hb|Hb]]; [by left|by right|by apply (IH cs2)].
Qed.

Lemma lt_join_tables_spec P a1 a2 cs1 cs2 t u t' : lt_join_tables a1 a2 cs1 cs2 t = Ok (u, t') →
  lt_aliases t' = lt_aliases t ∧ lt_from t' = lt_from t ∧ lt_iterables t' = lt_iterables t ∧
  (scoped_in P t → declared P t a1 → declared P t a2 → scoped_in P t').
Proof.
  unfold lt_join_tables. intros H. run. split_and!; [done..|]. intros (H1 & H2 & H3) Ha1 Ha2.
  split_and!; [done| |done]. intros b Hb. simpl in Hb.
  match goal with E : legacy_join_tables _ _ _ _ _ = Ok _ |- _ => destruct (legacy_join_tables_aliases _ _ _ _ _ _ E b Hb) as [? | [-> | ->]] end;
    [by apply H2|done|done].
Qed.

Lemma grows_of_eqs t t' : lt_aliases t' = lt_aliases t → lt_from t' = lt_from t → grows t t'.
Proof. intros Ha Hf. split; [intros a; unfold known; by rewrite Ha|unfold from_aliases; by rewrite Hf]. Qed.

Lemma known_declared P t a : known t a → declared P t a.
Proof. by left. Qed.

(** [_make_join] declares the joined alias, given that the parent's is
    known. *)
Lemma make_join_l_spec p alias a e t u t' : make_join_l p alias a e t = Ok (u, t') → known t p →
  ext t t' ∧ known t' alias.
Proof.
  unfold make_join_l, lt_short_alias. intros H Hp. run.
  { split; [apply ext_refl|by eexists]. }
  destruct (lt_join_tables_spec [] _ _ _ _ _ _ _ H) as (Ha & Hf & Hi & Hs).
  match type of H with lt_join_tables _ _ _ _ (lt_set_from (lt_from ?u ++ [SList (SStr ?x :: ?rest)]) _) = _ =>
    destruct (scoped_add_table [] u alias x rest) as (Hg & Hk & Hx & Hsc) end.
  assert (Hg' : grows t t').
  { eapply grows_trans; [exact Hg|]. by apply grows_of_eqs. }
  split; [split_and!|]; [done| |by rewrite Hi|by unfold known; rewrite Ha].
  intros Ht. apply Hs; [apply Hsc, Ht|apply known_declared, Hg, Hp|right; by left].
Qed.

Lemma lm_good_attr A p a : lm_good A p →
  (∀ s en, attr_py_type a = TEntity en → lalias p = Ok (Some s) → is_Some (A !! (s +:+ "-" +:+ attr_name a))) →
  lm_good A (LAttr p a).
Proof.
  intros [Ho Hw] Hj. split; [|done]. intros b. simpl. rewrite elem_of_app. intros [Hb|Hb]; [by apply Ho|].
  destruct (attr_py_type a) eqn:Ht; try by apply elem_of_nil in Hb.
  destruct (lalias p) as [[s|]|] eqn:Hl; try by apply elem_of_nil in Hb.
  apply list_elem_of_singleton in Hb as ->. by eapply Hj.
Qed.

Lemma known_lalias t m s : lm_good (lt_aliases t) m → lalias m = Ok (Some s) → known t s.
Proof. intros [Ho _] Hl. by apply Ho, lalias_in. Qed.

(** [AttrMonad.new]: an object attribute joins its table. *)
Lemma attr_new_l_spec sch parent a t r t' : attr_new_l sch parent a t = Ok (r, t') →
  lm_good (lt_aliases t) parent → ext t t' ∧ lm_good (lt_aliases t') r.
Proof.
  unfold attr_new_l. intros H Hp. destruct (attr_py_type a) eqn:Ht; run; try (split; [apply ext_refl|]).
  1,2: apply lm_good_attr; [done|]; intros s en Hen; congruence.
  match goal with Hj : make_join_l _ _ _ _ _ = Ok _, Hl : lalias parent = Ok (Some ?s) |- _ =>
    destruct (make_join_l_spec _ _ _ _ _ _ _ Hj (known_lalias _ _ _ Hp Hl)) as [He Hk] end.
  split; [done|]. apply lm_good_attr; [by eapply lm_good_mono, Hp; apply He|].
  intros s1 en _ Hl'. assert (s1 = s) as -> by congruence. exact Hk.
Qed.

Lemma object_getattr_l_spec sch m name t r t' : object_getattr_l sch m name t = Ok (r, t') →
  lm_good (lt_aliases t) m → ext t t' ∧ lm_good (lt_aliases t') r.
Proof.
  unfold object_getattr_l. intros H Hm. destruct (ltype m); try discriminate. run.
  by eapply attr_new_l_spec.
Qed.

Lemma getattr_l_spec sch m name t r t' : getattr_l sch m name t = Ok (r, t') →
  lm_good (lt_aliases t) m → ext t t' ∧ lm_good (lt_aliases t') r.
Proof.
  unfold getattr_l. intros H Hm. destruct (is_object_l m); [by eapply object_getattr_l_spec|].
  run. split; [apply ext_refl|by apply lm_good_method].
Qed.

(** ** The walk *)

Lemma ext_grows t t' : ext t t' → grows t t'.
Proof. by intros []. Qed.

Lemma ext_scoped t t' : ext t t' → scoped t → scoped t'.
Proof. intros (_ & H & _). exact H. Qed.

Lemma Forall_good_mono t t' l : grows t t' → Forall (lm_good (lt_aliases t)) l → Forall (lm_good (lt_aliases t')) l.
Proof. intros Hg Hl. eapply Forall_impl; [exact Hl|]. intros m. by apply lm_good_mono. Qed.

Create HintDb lwalk.
#[export] Hint Resolve ext_refl ext_trans same_scope_ext ext_grows lm_good_mono Forall_good_mono : lwalk.

Lemma lm_good_iter A a e : is_Some (A !! a) → lm_good A (LObjectIter a e).
Proof. intros Ha. split; [|done]. intros b ->%list_elem_of_singleton. done. Qed.

Lemma lm_good_leaf A m : lm_aliases m = [] → lm_wf m → lm_good A (m).
Proof. intros Hm Hw. split; [|done]. intros b. rewrite Hm. by intros ?%elem_of_nil. Qed.

Lemma const_new_l_spec A v m : const_new_l v = Ok m → lm_good A m.
Proof. unfold const_new_l. intros H. destruct v; simplify_eq; by apply lm_good_leaf. Qed.

(** [postName] with no outer query: a loop variable is a key of
    [aliases]. *)
Lemma post_name_l_spec vartypes functions name t m t' :
  post_name_l vartypes functions ∅ name t = Ok (m, t') → scoped t → t' = t ∧ lm_good (lt_aliases t) m.
Proof.
  unfold post_name_l. intros H (_ & _ & Hi). run; rewrite ?lookup_empty in *; try discriminate.
  all: split; [done|]; try by apply lm_good_leaf.
  apply lm_good_iter. by eapply Hi.
Qed.

Lemma mapM_walk {B} (f : B → stm ltr lmonad) l :
  Forall (λ b, ∀ t m t', f b t = Ok (m, t') → scoped t → ext t t' ∧ lm_good (lt_aliases t') m) l →
  ∀ t ms t', mapM f l t = Ok (ms, t') → scoped t → ext t t' ∧ Forall (lm_good (lt_aliases t')) ms.
Proof.
  induction 1 as [|b l Hb Hl IH]; intros t ms t' H Hs; simpl in H; run; [split; [apply ext_refl|done]|].
  destruct (Hb _ _ _ E Hs) as [He1 Hg1]. destruct (IH _ _ _ E0 (ext_scoped _ _ He1 Hs)) as [He2 Hg2].
  split; [by eapply ext_trans|]. constructor; [|done]. by eapply lm_good_mono, Hg1; apply ext_grows.
Qed.

(** Move the walk from the state [tc] to [t2] along [He : ext tc t2]:
    the facts about the monads at [tc] hold at [t2]. *)
Ltac adv tc t2 He :=
  repeat match goal with
  | G : lm_good (lt_aliases tc) ?x |- _ => apply (lm_good_mono tc t2 x (ext_grows _ _ He)) in G
  | G : Forall (lm_good (lt_aliases tc)) ?x |- _ => apply (Forall_good_mono tc t2 x (ext_grows _ _ He)) in G
  end;
  match goal with Hx : ext ?t0 tc, Hs : scoped tc |- _ =>
    pose proof (ext_trans _ _ _ Hx He); pose proof (ext_scoped _ _ He Hs); clear Hx Hs He end.

(** Discharge the premises of [Hop] with the facts at hand. *)
Ltac prem := first [assumption | by intros ? [= <-] | by intros ? [=] | split; prem].

Ltac feed Hop :=
  repeat match goal with G : Forall _ (_ :: _) |- _ => apply Forall_cons in G as [? ?] end;
  repeat match type of Hop with
  | ?P → _ => let G := fresh in assert P as G by prem; specialize (Hop G); clear G
  end.

(** A step of a same-scope operation from [tc] to [t2]. *)
Ltac same_step tc t2 Hss Hop :=
  feed Hop; apply (lm_good_mono tc t2 _ (same_scope_grows _ _ Hss)) in Hop;
  let He := fresh in pose proof (same_scope_ext _ _ Hss) as He; clear Hss; adv tc t2 He.

(** One step of a run of the walk, from the current state [tc]. *)
Ltac wstep IH :=
  match goal with
  | Hx : ext _ ?tc, Hs : scoped ?tc, H : ltranslate _ _ _ _ ?e ?tc = Ok (_, ?t2) |- _ =>
      let He := fresh in destruct (IH e _ _ _ H Hs) as [He ?Hg]; clear H; adv tc t2 He
  | Hx : ext _ ?tc, Hs : scoped ?tc, H : mapM (ltranslate _ _ _ _) ?l ?tc = Ok (_, ?t2) |- _ =>
      let He := fresh in destruct (mapM_walk _ l (Forall_true _ _ (λ n, IH n)) _ _ _ H Hs) as [He ?Hg];
      clear H; adv tc t2 He
  | Hx : ext _ ?tc, Hs : scoped ?tc, H : mapM (λ o, ltranslate _ _ _ _ o.2) ?l ?tc = Ok (_, ?t2) |- _ =>
      let He := fresh in destruct (mapM_walk _ l (Forall_true _ _ (λ o, IH o.2)) _ _ _ H Hs) as [He ?Hg];
      clear H; adv tc t2 He
  | Hx : ext _ ?tc, Hs : scoped ?tc, H : post_name_l _ _ _ _ ?tc = Ok _ |- _ =>
      apply post_name_l_spec in H as [-> ?]; [|exact Hs]
  | Hx : ext _ ?tc, H : getattr_l _ _ _ ?tc = Ok (_, ?t2) |- _ =>
      let He := fresh in eapply getattr_l_spec in H as [He ?Hg]; [adv tc t2 He|eassumption]
  | Hx : ext _ ?tc, H : ?c ?tc = Ok (_, ?t2) |- _ =>
      let Hss := fresh in let Hop := fresh "Hop" in
      first [ apply contains_l_spec in H as [Hss Hop] | apply arith_l_spec in H as [Hss Hop]
            | apply numeric_unary_l_spec in H as [Hss Hop]; [|done]
            | apply negate_l_spec in H as [Hss Hop] | apply call_l_spec in H as [Hss Hop]
            | apply getitem_l_spec in H as [Hss Hop] ];
      same_step tc t2 Hss Hop
  end.

Lemma const_list_good A items ms : mapM const_new_l items = Ok ms → lm_good A (LList ms).
Proof.
  intros H%mapM_Ok. apply lm_good_LList. induction H; constructor; [by eapply const_new_l_spec|done].
Qed.

(** The result of the last, pure, step of a run of the walk. *)
Ltac wfinish :=
  repeat match goal with G : Forall _ (_ :: _) |- _ => apply Forall_cons in G as [? ?] end;
  match goal with
  | |- lm_good _ _ => assumption
  | |- lm_good _ (LList _) => apply lm_good_LList; assumption
  | H : cmp_new_l _ _ _ _ = Ok ?m |- lm_good _ ?m => eapply cmp_new_l_spec; [exact H|assumption|assumption]
  | H : logical_new_l _ _ = Ok ?m |- lm_good _ ?m => eapply logical_new_l_spec; [exact H|assumption]
  | H : const_new_l _ = Ok ?m |- lm_good _ ?m => eapply const_new_l_spec, H
  | H : mapM const_new_l _ = Ok ?ms |- lm_good _ (LList ?ms) => eapply const_list_good, H
  end.

(** The walk keeps the invariant and lifts every node to a good monad:
    the aliases of its SQL are keys of [aliases]. *)
Lemma ltranslate_spec sch vartypes functions : ∀ e t m t', ltranslate sch vartypes functions ∅ e t = Ok (m, t') →
  scoped t → ext t t' ∧ lm_good (lt_aliases t') m.
Proof.
  fix IH 1. intros e t m t' H Hs. pose proof (ext_refl t). destruct e; simpl in H; run; repeat wstep IH.
  all: try (split; [assumption|wfinish]).
  split; [done|]. destruct v; try by eapply const_new_l_spec.
  destruct (mapM const_new_l _) eqn:Em; simplify_eq/=. by eapply const_list_good.
Qed.

(** ** The qualifier loop *)

Lemma scoped_add_cond P t x : scoped_in P t → sx_ok (lt_aliases t) x →
  scoped_in P (lt_set_conditions (lt_conditions t ++ [x]) t).
Proof.
  intros (H1 & H2 & H3) Hx. split_and!; [done| |done]. intros a. simpl.
  rewrite fmap_app, concat_app, elem_of_app. intros [Ha|Ha]; [by apply H2|].
  simpl in Ha. rewrite app_nil_r in Ha. left. by apply Hx.
Qed.

(** An [if] clause adds a condition whose aliases are keys of
    [aliases]. *)
Lemma translate_if_l_spec sch vartypes functions test t u t' :
  translate_if_l sch vartypes functions ∅ test t = Ok (u, t') → scoped t → ext t t'.
Proof.
  unfold translate_if_l, nonzero_l. intros H Hs. run.
  match goal with E : ltranslate _ _ _ _ _ _ = Ok _ |- _ => destruct (ltranslate_spec _ _ _ _ _ _ _ E Hs) as [He [Ho _]] end.
  match goal with E : lgetsql _ _ _ = Ok _ |- _ => destruct (lgetsql_spec _ _ _ _ _ E) as [Hss Hx] end.
  eapply ext_trans; [exact He|]. eapply ext_trans; [by apply same_scope_ext|].
  split_and!; [apply grows_of_eqs; done| |done]. intros Hs2. apply scoped_add_cond; [done|].
  destruct Hss as [HA _]. rewrite HA. by apply Hx.
Qed.

Lemma translate_ifs_l_spec sch vartypes functions ifs t us t' :
  mapM (translate_if_l sch vartypes functions ∅) ifs t = Ok (us, t') → scoped t → ext t t'.
Proof.
  revert t us t'. induction ifs as [|i ifs IH]; intros t us t' H Hs; simpl in H; run; [apply ext_refl|].
  match goal with E : translate_if_l _ _ _ _ _ _ = Ok _, E' : mapM _ _ _ = Ok _ |- _ =>
    pose proof (translate_if_l_spec _ _ _ _ _ _ _ E Hs) as He; eapply ext_trans; [exact He|];
    exact (IH _ _ _ E' (ext_scoped _ _ He Hs)) end.
Qed.

Lemma declare_root_l_spec sch vartypes i iter_name t en t' :
  declare_root_l sch vartypes i iter_name t = Ok (en, t') → same_scope t t'.
Proof. unfold declare_root_l. intros H. run; done. Qed.

Lemma scoped_discharge n t : scoped_in [n] t → n ∈ from_aliases t → scoped t.
Proof.
  intros (H1 & H2 & H3) Hn. split_and!; [done| |done]. intros a Ha.
  destruct (H2 a Ha) as [? | [? | ->%list_elem_of_singleton]]; [by left|by right; left|by right; left].
Qed.

(** The end of a turn of the qualifier loop: the loop variable [name]
    is declared with its table, then its [if] clauses are translated. *)
Lemma declare_tail_spec sch vartypes functions ifs name tbl en t2 us t' :
  mapM (translate_if_l sch vartypes functions ∅) ifs
    (lt_set_from (lt_from t2 ++ [SList [SStr name; SStr "TABLE"; SStr tbl]])
      (lt_set_aliases (<[name := name]> (lt_aliases t2)) (lt_set_iterables (<[name := en]> (lt_iterables t2)) t2)))
    = Ok (us, t') →
  scoped_in [name] t2 → scoped t' ∧ grows t2 t'.
Proof.
  intros H Hs.
  destruct (scoped_add_table [name] t2 name name [SStr "TABLE"; SStr tbl]) as (Hg & Hk & Hx & Hsc).
  set (u := lt_set_from _ _) in Hg, Hk, Hx, Hsc.
  assert (Hu : scoped (lt_set_iterables (<[name := en]> (lt_iterables t2)) u)).
  { apply (scoped_add_iterable [] u name en); [|done]. apply (scoped_discharge name); [by apply Hsc|done]. }
  destruct (translate_ifs_l_spec _ _ _ _ _ _ _ H Hu) as (Hg2 & Hs2 & _). split; [by apply Hs2|].
  eapply grows_trans; [exact Hg|]. exact Hg2.
Qed.

Lemma iterable_known t n e : scoped_in [] t → lt_iterables t !! n = Some e → known t n.
Proof. intros (_ & _ & H3). apply H3. Qed.

(** A turn of the qualifier loop keeps the invariant: the joins of an
    attribute chain mention the parent's loop variable, a link table it
    declares first, and the new loop variable, declared last. *)
Lemma declare_qual_l_spec sch vartypes functions i q t u t' :
  declare_qual_l sch vartypes functions ∅ i q t = Ok (u, t') → scoped t → scoped t' ∧ grows t t'.
Proof.
  unfold declare_qual_l. intros H Hs. run.
  all: match goal with E : mret _ _ = Ok _ |- _ => injection E as -> <- end.
  all: match goal with E : mapM _ _ _ = Ok _ |- _ =>
    eapply declare_tail_spec in E as [Ht' Hg']; [split; [exact Ht'|eapply grows_trans; [|exact Hg']]|] end.
  all: try (match goal with E : declare_root_l _ _ _ _ _ = Ok _ |- _ => apply declare_root_l_spec in E end;
            first [by apply same_scope_grows | by eapply same_scope_scoped, scoped_weaken]).
  all: repeat match goal with E : lt_join_tables _ _ _ _ _ = Ok _ |- _ =>
         destruct (lt_join_tables_spec [s] _ _ _ _ _ _ _ E) as (?Ha & ?Hf & ?Hi & ?Hj); clear E end.
  all: try (apply grows_of_eqs; congruence).
  all: try (apply Hj; [by apply scoped_weaken|by eapply known_declared, iterable_known|by right; right; left]).
  all: set (m2m := root +:+ "--" +:+ s) in *.
  all: destruct (scoped_add_table [s] (lt_set_distinct true t) m2m m2m [SStr "TABLE"; SStr (attr_table a)])
         as (Hg1 & Hk1 & Hx1 & Hs1).
  all: assert (Hm : scoped_in [s] x20 ∧ grows t x20) by
    (split; [apply Hj0; [exact (Hs1 (scoped_weaken _ _ Hs))|apply known_declared, Hg1; by eapply iterable_known|by left]|
             eapply grows_trans; [exact Hg1|apply grows_of_eqs; [exact Ha0|exact Hf0]]]).
  all: destruct Hm as [Hm1 Hm2].
  - eapply grows_trans; [exact Hm2|apply grows_of_eqs; congruence].
  - apply Hj; [done|left; unfold known; rewrite Ha0; exact Hk1|by right; right; left].
Qed.

Lemma declare_quals_l_spec sch vartypes functions quals : ∀ i t u t',
  declare_quals_l sch vartypes functions ∅ i quals t = Ok (u, t') → scoped t → scoped t'.
Proof.
  induction quals as [|q quals IH]; intros i t u t' H Hs; simpl in H; run; [done|].
  match goal with E : declare_qual_l _ _ _ _ _ _ _ = Ok _, E' : declare_quals_l _ _ _ _ _ _ _ = Ok _ |- _ =>
    exact (IH _ _ _ _ E' (proj1 (declare_qual_l_spec _ _ _ _ _ _ _ _ E Hs))) end.
Qed.

(** ** The SELECT *)

Lemma col_aliases_sqland a l : a ∈ col_aliases (legacy_sqland l) → a ∈ concat (col_aliases <$> l).
Proof.
  cbv [legacy_sqland legacy_connective]. destruct l as [|x [|y l]]; [simpl; by intros ?%elem_of_nil|simpl; by rewrite app_nil_r|].
  rewrite col_aliases_SList, elem_of_app. intros [Ha|Ha]; [|done]. destruct x; simpl in Ha; by apply elem_of_nil in Ha.
Qed.

Lemma col_aliases_select e sa d a : a ∈ col_aliases (construct_select_clause e (Some sa) d) → a = sa.
Proof.
  unfold construct_select_clause. generalize (concat (map attr_columns (List.filter (λ a, negb (attr_is_collection a)) (ent_attrs e)))) as cols. intros cols.
  rewrite col_aliases_SList, elem_of_app. intros [Ha|Ha].
  - revert Ha. destruct d, cols; simpl; by intros ?%elem_of_nil.
  - simpl in Ha. induction cols as [|c cs IH]; simpl in Ha; [by apply elem_of_nil in Ha|].
    apply elem_of_cons in Ha as [Ha|Ha]; [done|by apply IH].
Qed.

Lemma scoped_init : scoped ltr_init.
Proof. split_and!; intros ?; simpl; rewrite ?lookup_empty; [intros ? [=]|by intros ?%elem_of_nil|intros ? [=]]. Qed.

Lemma col_aliases_node1 tag x : tag ≠ "COLUMN" → col_aliases (node tag [x]) = col_aliases x.
Proof.
  intros Ht. unfold node. rewrite col_aliases_SList. simpl. rewrite app_nil_r.
  destruct x; simpl; try done. by rewrite bool_decide_false.
Qed.

Lemma select_sql_spec tf e k sa d attrname en alias : scoped tf → lt_aliases tf !! k = Some sa →
  scoped tf ∧ ∃ s w,
    ls_sql_ast (mkLSelect attrname en alias (SList ([SStr "SELECT"; construct_select_clause e (Some sa) d; from_sql tf] ++
      (if bool_decide (lt_conditions tf = []) then [] else [node "WHERE" [legacy_sqland (lt_conditions tf)]]))))
    = SList (SStr "SELECT" :: s :: from_sql tf :: w) ∧
    (∀ a, a ∈ col_aliases s → a ∈ from_aliases tf) ∧
    (∀ a, a ∈ concat (col_aliases <$> w) → declared [] tf a).
Proof.
  intros Hs Hk. split; [done|]. eexists _, _. split; [reflexivity|]. destruct Hs as (H1 & H2 & _). split.
  - intros a ->%col_aliases_select. by eapply H1.
  - case_bool_decide; [by intros ? ?%elem_of_nil|]. intros a Ha.
    cbn [fmap list_fmap concat] in Ha. rewrite app_nil_r, col_aliases_node1 in Ha by done.
    apply H2, col_aliases_sqland, Ha.
Qed.

(** [SQLTranslator.__init__] keeps the invariant; the SELECT clause
    names the declared alias of the selected object, and every alias of
    the WHERE clause is a key of [aliases] or declared in [FROM]. *)
Lemma legacy_translator_init_spec sch vartypes functions quals expr t0 sel t :
  legacy_translator_init sch vartypes functions ∅ quals expr t0 = Ok (sel, t) → scoped t0 →
  scoped t ∧ ∃ s w, ls_sql_ast sel = SList (SStr "SELECT" :: s :: from_sql t :: w) ∧
    (∀ a, a ∈ col_aliases s → a ∈ from_aliases t) ∧
    (∀ a, a ∈ concat (col_aliases <$> w) → declared [] t a).
Proof.
  unfold legacy_translator_init. intros H Hs. run.
  all: match goal with E : declare_quals_l _ _ _ _ _ _ _ = Ok _ |- _ => pose proof (declare_quals_l_spec _ _ _ _ _ _ _ _ E Hs) end.
  all: match goal with E : ltranslate _ _ _ _ _ _ = Ok _, Hq : scoped ?tq |- _ =>
         destruct (ltranslate_spec _ _ _ _ (lt_set_inside_expr true tq) _ _ E Hq) as [(_ & Hsc & _) _] end.
  all: match goal with E : match ?l with Some _ => _ | None => _ end = Ok _ |- _ =>
         destruct l eqn:Ek; simplify_eq end.
  all: eapply select_sql_spec; [by apply Hsc|exact Ek].
Qed.

(** ** The scope of the WHERE clause *)


Lemma legacy_demo_short_eq : legacy_demo_run "s" = legacy_demo_short.
Proof. vm_compute. reflexivity. Qed.

(** C3: when no alias was shortened (every key of [aliases] is its own
    table alias), every alias a [COLUMN] node of the SELECT or WHERE
    clause of the legacy translator's query names is declared in
    [FROM]. *)
Theorem legacy_where_declared sch vartypes functions quals expr sel t :
  legacy_translator_init sch vartypes functions ∅ quals expr ltr_init = Ok (sel, t) →
  map_Forall (λ k v, k = v) (lt_aliases t) →
  ∃ s w, ls_sql_ast sel = SList (SStr "SELECT" :: s :: from_sql t :: w) ∧
    ∀ a, a ∈ col_aliases s ++ concat (col_aliases <$> w) → a ∈ from_aliases t.
Proof.
  intros H Hkv. destruct (legacy_translator_init_spec _ _ _ _ _ _ _ _ H scoped_init)
    as ((H1 & _ & _) & s & w & Hsql & Hsel & Hwhere).
  exists s, w. split; [done|]. intros a [Ha|Ha]%elem_of_app; [by apply Hsel|].
  destruct (Hwhere a Ha) as [[v Hv]|[?|?%elem_of_nil]]; [|done|done].
  rewrite <-(Hkv _ _ Hv) in Hv. by eapply H1.
Qed.

Lemma legacy_where_declared_witness :
  ∃ sel t, legacy_demo_run "s" = Ok (sel, t) ∧ map_Forall (λ k v, k = v) (lt_aliases t) ∧
    ∃ s w, ls_sql_ast sel = SList (SStr "SELECT" :: s :: from_sql t :: w) ∧
      ∀ a, a ∈ col_aliases s ++ concat (col_aliases <$> w) → a ∈ from_aliases t.
Proof.
  pose proof legacy_demo_short_eq as E. unfold legacy_demo_short in E.
  eexists _, _. split; [exact E|].
  refine (let Hk : map_Forall (λ k v, k = v) (lt_aliases _) := _ in
          conj Hk (legacy_where_declared model1_schema legacy_demo_vartypes ∅ (legacy_demo_quals "s") (PName "s")
                     _ _ E Hk)).
  apply (bool_decide_unpack _). vm_compute. reflexivity.
Defined.

(** [get_short_alias] gives an alias longer than [MAX_ALIAS_LENGTH] a
    numbered alias that fits, while the entity's counter is below 99. *)
Lemma legacy_short_alias_long c a en :
  30 < String.length a → default 0 (c !! alias_prefix en) < 99 →
  String.length (legacy_get_short_alias c (Some a) en).1 ≤ 30.
Proof.
  intros Hl Hc. unfold legacy_get_short_alias. rewrite (proj2 (Nat.leb_gt _ _) Hl), andb_false_r. simpl.
  change (str_lower (String.substring 0 27 en)) with (alias_prefix en). rewrite numbered_alias_length.
  pose proof (pretty_nat_length_small (default 0 (c !! alias_prefix en) + 1) ltac:(lia)).
  unfold max_alias_length. lia.
Qed.

(** [_make_join] for an alias that is not yet a key of [aliases]: the
    key maps to the alias [get_short_alias] gives, which [FROM]
    declares. *)
Lemma make_join_l_new p alias a e t u t' :
  lt_aliases t !! alias = None → make_join_l p alias a e t = Ok (u, t') →
  lt_aliases t' !! alias = Some (legacy_get_short_alias (lt_alias_counters t) (Some alias) (ent_name e)).1 ∧
  from_aliases t' = from_aliases t ++ [(legacy_get_short_alias (lt_alias_counters t) (Some alias) (ent_name e)).1].
Proof.
  unfold make_join_l, lt_short_alias, lt_join_tables. intros Hn H. run; [congruence|].
  match goal with E : legacy_get_short_alias _ _ _ = _ |- _ => rewrite E end. simpl.
  split; [apply lookup_insert_eq|]. unfold from_aliases. simpl. by rewrite omap_app.
Qed.

(** C7: an [ObjectAttrMonad] for the attribute [a] of a parent of alias
    [p] has the alias [p-a] (sqltranslator.py, line 692); when that alias
    is longer than [MAX_ALIAS_LENGTH], [_make_join] declares in [FROM]
    the short alias [get_short_alias] gives instead, so the alias the
    monad exposes, which its attributes and further joins put in the
    SQL, is not declared in [FROM]. *)
Theorem attr_new_long_alias_undeclared sch parent a en e p t m t' :
  attr_py_type a = TEntity en → get_entity sch en = Ok e → lalias parent = Ok (Some p) →
  lt_aliases t !! (p +:+ "-" +:+ attr_name a) = None → (p +:+ "-" +:+ attr_name a) ∉ from_aliases t →
  30 < String.length (p +:+ "-" +:+ attr_name a) →
  default 0 (lt_alias_counters t !! alias_prefix (ent_name e)) < 99 →
  attr_new_l sch parent a t = Ok (m, t') →
  lalias m = Ok (Some (p +:+ "-" +:+ attr_name a)) ∧ (p +:+ "-" +:+ attr_name a) ∉ from_aliases t' ∧
  ∃ short, lt_aliases t' !! (p +:+ "-" +:+ attr_name a) = Some short ∧ short ∈ from_aliases t' ∧
           short ≠ p +:+ "-" +:+ attr_name a.
Proof.
  intros Hty He Hp Hn Hnf Hl Hc H. unfold attr_new_l in H. rewrite Hty in H. run. simplify_eq.
  match goal with E : make_join_l _ _ _ _ _ = Ok _ |- _ => destruct (make_join_l_new _ _ _ _ _ _ _ Hn E) as [Ha Hf] end.
  pose proof (legacy_short_alias_long _ _ _ Hl Hc) as Hs.
  assert (Hne : ∀ x, String.length x ≤ 30 → x ≠ p +:+ "-" +:+ attr_name a) by (intros x Hx ->; lia).
  split; [simpl; rewrite Hty; match goal with E : lalias parent = _ |- _ => by rewrite E end|]. rewrite Hf. split.
  { rewrite elem_of_app, list_elem_of_singleton. intros [Hin|Heq]; [done|]. exact (Hne _ Hs (eq_sym Heq)). }
  eexists. split_and!; [exact Ha|set_solver|exact (Hne _ Hs)].
Qed.

Lemma attr_new_long_alias_undeclared_witness :
  ∃ e m t', get_entity model1_schema "Group" = Ok e ∧
    attr_new_l model1_schema legacy_long_var legacy_group_attr ltr_init = Ok (m, t') ∧
    lalias m = Ok (Some "a_very_long_student_variable-group") ∧
    "a_very_long_student_variable-group" ∉ from_aliases t' ∧
    ∃ short, lt_aliases t' !! "a_very_long_student_variable-group" = Some short ∧ short ∈ from_aliases t' ∧
             short ≠ "a_very_long_student_variable-group".
Proof.
  destruct (get_entity model1_schema "Group") as [e|] eqn:He; [|vm_compute in He; discriminate].
  destruct (attr_new_l model1_schema legacy_long_var legacy_group_attr ltr_init) as [[m t']|] eqn:H;
    [|vm_compute in H; discriminate].
  exists e, m, t'. refine (conj eq_refl (conj eq_refl _)).
  apply (attr_new_long_alias_undeclared model1_schema legacy_long_var legacy_group_attr "Group" e
           "a_very_long_student_variable" ltr_init m t'); try done.
  - vm_compute. intros Hin. by apply elem_of_nil in Hin.
  - vm_compute. lia.
  - unfold ltr_init. simpl. rewrite lookup_empty. simpl. lia.
Defined.
